(** * gophyr: the image-to-ASCII rendering pipeline of [src/gopher_image.c]

    A shallow embedding of the pipeline (content classification, budgeted
    decoding with placeholder fallback, resampling, palette quantisation,
    Floyd-Steinberg dithering and terminal rendering) and the properties
    proved about it.

    Modelling conventions.
    - [int] values are integers in [Z]; where the C code converts to
      [size_t] or [uint8_t] the wrap-around is written out ([to_size_t],
      [to_uint8]); products of image dimensions are wrapped to 32 bits
      ([to_int]) as the 32-bit targets of the firmware do.
    - [float] is IEEE-754 binary32 and [double] binary64, through the
      executable specification [SpecFloat] of the Standard Library; every
      operation is rounded to nearest-even on its own (no contraction).
    - a byte of the input buffer is an [ascii]; a pixel channel is a [Z]
      (in [0,255] for well-formed pixels).
    - heap buffers are lists; a read or write outside a buffer makes the
      result of the function [None] (undefined behaviour).
    - the image codec (stb_image), the allocators and the build
      configuration are an environment [env] of oracles; shell output and
      codec calls are recorded as a list of [event]s. *)

From Stdlib Require Import ZArith Lia Bool String Ascii List Reals Lra.
From Stdlib Require Import Floats.SpecFloat.
From stdpp Require Import base option list.

Open Scope Z_scope.

(* ================================================================== *)
(** * Part I: definitions *)
(* ================================================================== *)

(** ** C scalars *)

Definition INT_MAX : Z := 2 ^ 31 - 1.
Definition INT_MIN : Z := - 2 ^ 31.

(** Two's complement 32-bit [int]. *)
Definition to_int (z : Z) : Z := (z + 2 ^ 31) mod 2 ^ 32 - 2 ^ 31.

(** [size_t] is 32 bits wide on the targets of the firmware. *)
Definition to_size_t (z : Z) : Z := z mod 2 ^ 32.

Definition to_uint8 (z : Z) : Z := z mod 256.

(** The C macro [MIN]. *)
Definition MIN (a b : Z) : Z := if a <? b then a else b.

(** [for (i = lo; i < hi; i++) s = body i s], stopping at the first
    undefined step. *)
Fixpoint for_loop {St : Type} (n : nat) (i : Z) (body : Z -> St -> option St) (s : St)
  : option St :=
  match n with
  | O => Some s
  | S n' =>
      match body i s with
      | Some s' => for_loop n' (i + 1) body s'
      | None => None
      end
  end.

Definition for_range {St : Type} (lo hi : Z) (body : Z -> St -> option St) (s : St)
  : option St :=
  for_loop (Z.to_nat (hi - lo)) lo body s.

(** ** Floating point *)

Definition f32 : Type := spec_float.

Definition f32_prec : Z := 24.
Definition f32_emax : Z := 128.

(** [(float) n] for an integer [n]. *)
Definition f32_of_int (n : Z) : f32 := binary_normalize f32_prec f32_emax n 0 false.

Definition f32_add : f32 -> f32 -> f32 := SFadd f32_prec f32_emax.
Definition f32_sub : f32 -> f32 -> f32 := SFsub f32_prec f32_emax.
Definition f32_mul : f32 -> f32 -> f32 := SFmul f32_prec f32_emax.
Definition f32_div : f32 -> f32 -> f32 := SFdiv f32_prec f32_emax.
Definition f32_sqrt : f32 -> f32 := SFsqrt f32_prec f32_emax.

Definition f32_ltb : f32 -> f32 -> bool := SFltb.
Definition f32_leb : f32 -> f32 -> bool := SFleb.
Definition f32_eqb : f32 -> f32 -> bool := SFeqb.

(** A decimal literal [num/den] with the suffix [f]: [num] and [den] are
    below [2^24], hence exact, and the quotient is rounded once. *)
Definition f32_lit (num den : Z) : f32 := f32_div (f32_of_int num) (f32_of_int den).

(** [(int) f]: truncation toward zero.  C leaves the conversion undefined
    when the truncated value does not fit; the model then saturates, and
    maps NaN to 0. *)
Definition f32_to_int (f : f32) : Z :=
  match f with
  | S754_zero _ => 0
  | S754_nan => 0
  | S754_infinity s => if s then INT_MIN else INT_MAX
  | S754_finite s m e =>
      let a := if 0 <=? e then Z.pos m * 2 ^ e else Z.pos m / 2 ^ (- e) in
      let v := if s then - a else a in
      if v <? INT_MIN then INT_MIN else if INT_MAX <? v then INT_MAX else v
  end.

(** [(uint8_t) f]: through [int], keeping the low eight bits. *)
Definition f32_to_uint8 (f : f32) : Z := to_uint8 (f32_to_int f).

Definition f64_prec : Z := 53.
Definition f64_emax : Z := 1024.
Definition f64_of_int (n : Z) : spec_float := binary_normalize f64_prec f64_emax n 0 false.
Definition f64_mul : spec_float -> spec_float -> spec_float := SFmul f64_prec f64_emax.
Definition f64_div : spec_float -> spec_float -> spec_float := SFdiv f64_prec f64_emax.
Definition f64_lit (num den : Z) : spec_float := f64_div (f64_of_int num) (f64_of_int den).

(** *** Real-number reading of binary32 values (used in proofs only) *)

Definition bpow (e : Z) : R := powerRZ 2 e.

(** The real [m * 2^e]. *)
Definition F2R (m e : Z) : R := (IZR m * bpow e)%R.

Definition B2R (f : f32) : R :=
  match f with
  | S754_finite s m e => if s then (- F2R (Z.pos m) e)%R else F2R (Z.pos m) e
  | _ => 0%R
  end.

(** A positive normal binary32 number. *)
Definition pfin (f : f32) : Prop :=
  exists m e, f = S754_finite false (Z.to_pos m) e /\
              2 ^ 23 <= m < 2 ^ 24 /\ -149 <= e <= 104.

(** [m * 2^e] is in canonical form (any exponent at or above the least). *)
Definition canonical32 (m e : Z) : Prop :=
  0 < m /\ e = fexp f32_prec f32_emax (Zdigits2 m + e).

(** The real [X] sits at [m * 2^e] ([ix = false]) or strictly between
    it and its successor on the grid [2^e] ([ix = true]). *)
Definition located (m e : Z) (ix : bool) (X : R) : Prop :=
  if ix then (F2R m e < X < F2R (m + 1) e)%R else X = F2R m e.

(** [m * 2^e] is [X] rounded to one of its two binary32 neighbours. *)
Record faithful (X : R) (m e : Z) : Prop := {
  faithful_ub : forall mt et, canonical32 mt et ->
      (X <= F2R mt et)%R -> (F2R m e <= F2R mt et)%R;
  faithful_lb : forall mt et, canonical32 mt et ->
      (F2R mt et <= X)%R -> (F2R mt et <= F2R m e)%R;
  faithful_rel_hi : (F2R m e <= X * (1 + bpow (-23)))%R;
  faithful_rel_lo : (X <= F2R m e * (1 + bpow (-23)))%R
}.

Definition inex (mrs : shr_record) : bool := shr_r mrs || shr_s mrs.

Definition loc_inexact (l : location) : bool :=
  match l with loc_Exact => false | _ => true end.

(** [f] is a positive normal number obtained from the real [X] by
    rounding to one of its two neighbours: it respects every binary32
    bound of [X] and is within one unit in the last place. *)
Definition rounded (X : R) (f : f32) : Prop :=
  pfin f /\
  (forall t, pfin t -> (X <= B2R t)%R -> (B2R f <= B2R t)%R) /\
  (forall t, pfin t -> (B2R t <= X)%R -> (B2R t <= B2R f)%R) /\
  (B2R f <= X * (1 + bpow (-23)))%R /\
  (X <= B2R f * (1 + bpow (-23)))%R.

(** [Y] is [X] up to the factor [g], either way. *)
Definition close (g X Y : R) : Prop := (Y <= X * g /\ X <= Y * g)%R.

(** [f] holds [W / 1000] up to a relative error of [K * 2^-23]; a zero
    is exact. *)
Definition approximates (K W : Z) (f : f32) : Prop :=
  (f = S754_zero false /\ W = 0) \/
  (pfin f /\ 0 < W /\
   (1000 * B2R f <= IZR W * (1 + IZR K * bpow (-23)))%R /\
   (IZR W <= 1000 * B2R f * (1 + IZR K * bpow (-23)))%R).

(** ** Data model ([gopher_image.h]) *)

Record rgb_pixel_t : Type := { px_r : Z; px_g : Z; px_b : Z }.

Record image_process_options_t : Type := {
  maintain_aspect_ratio : bool;
  use_bilinear_filtering : bool;
  brightness_adjust : f32;
  contrast_adjust : f32
}.

Record ascii_art_config_t : Type := {
  use_color : bool;
  use_dithering : bool;
  use_extended_chars : bool;
  color_mode : Z;
  brightness : f32;
  contrast : f32
}.

Definition f32_one : f32 := f32_of_int 1.

Definition default_options : image_process_options_t :=
  {| maintain_aspect_ratio := true; use_bilinear_filtering := true;
     brightness_adjust := f32_one; contrast_adjust := f32_one |}.

Definition default_config : ascii_art_config_t :=
  {| use_color := true; use_dithering := true; use_extended_chars := false;
     color_mode := 8; brightness := f32_one; contrast := f32_one |}.

(** Zephyr's errno values. *)
Definition EINVAL : Z := 22.
Definition ENOMEM : Z := 12.

(** ** The terminal palette *)

Inductive term_color_t : Type :=
  BLACK | RED | GREEN | YELLOW | BLUE | MAGENTA | CYAN | WHITE.

Definition COLOR_COUNT : Z := 8.

(** The value of each enumerator. *)
Definition color_index (c : term_color_t) : Z :=
  match c with
  | BLACK => 0 | RED => 1 | GREEN => 2 | YELLOW => 3
  | BLUE => 4 | MAGENTA => 5 | CYAN => 6 | WHITE => 7
  end.

(** The enumerators in the order [for (i = 0; i < COLOR_COUNT; i++)]
    visits them. *)
Definition all_colors : list term_color_t :=
  [BLACK; RED; GREEN; YELLOW; BLUE; MAGENTA; CYAN; WHITE].

(** The table [terminal_colors] (the colour names are not used). *)
Definition terminal_colors (c : term_color_t) : rgb_pixel_t :=
  match c with
  | BLACK   => {| px_r := 0;   px_g := 0;   px_b := 0 |}
  | RED     => {| px_r := 170; px_g := 0;   px_b := 0 |}
  | GREEN   => {| px_r := 0;   px_g := 170; px_b := 0 |}
  | YELLOW  => {| px_r := 170; px_g := 170; px_b := 0 |}
  | BLUE    => {| px_r := 0;   px_g := 0;   px_b := 170 |}
  | MAGENTA => {| px_r := 170; px_g := 0;   px_b := 170 |}
  | CYAN    => {| px_r := 0;   px_g := 170; px_b := 170 |}
  | WHITE   => {| px_r := 170; px_g := 170; px_b := 170 |}
  end.

Definition ESC : string := String (ascii_of_nat 27) EmptyString.

Definition COLOR_RESET : string := ESC ++ "[0m".

Definition fg_color_codes (c : term_color_t) : string :=
  match c with
  | BLACK => ESC ++ "[30m" | RED => ESC ++ "[31m" | GREEN => ESC ++ "[32m"
  | YELLOW => ESC ++ "[33m" | BLUE => ESC ++ "[34m" | MAGENTA => ESC ++ "[35m"
  | CYAN => ESC ++ "[36m" | WHITE => ESC ++ "[37m"
  end.

Definition bg_color_codes (c : term_color_t) : string :=
  match c with
  | BLACK => ESC ++ "[40m" | RED => ESC ++ "[41m" | GREEN => ESC ++ "[42m"
  | YELLOW => ESC ++ "[43m" | BLUE => ESC ++ "[44m" | MAGENTA => ESC ++ "[45m"
  | CYAN => ESC ++ "[46m" | WHITE => ESC ++ "[47m"
  end.

Definition term_color_eqb (a b : term_color_t) : bool :=
  color_index a =? color_index b.

Definition ASCII_RAMP : string := " .:-=+*#%@".
Definition ASCII_RAMP_LEN : Z := 10.

(** ** Pixel helpers *)

(** [clamp]: the result is converted to [uint8_t] on return. *)
Definition clamp (value min max : Z) : Z :=
  to_uint8 (if value <? min then min else if max <? value then max else value).

(** [rgb_to_gray]: [(uint8_t)(0.299f * r + 0.587f * g + 0.114f * b)]. *)
Definition rgb_to_gray (r g b : Z) : Z :=
  f32_to_uint8
    (f32_add
       (f32_add (f32_mul (f32_lit 299 1000) (f32_of_int r))
                (f32_mul (f32_lit 587 1000) (f32_of_int g)))
       (f32_mul (f32_lit 114 1000) (f32_of_int b))).

(** The weighted distance of [rgb_to_terminal_color] to palette entry [c]
    ([/] on non-negative [int]s). *)
Definition color_distance (r g b : Z) (c : term_color_t) : Z :=
  let dr := r - px_r (terminal_colors c) in
  let dg := g - px_g (terminal_colors c) in
  let db := b - px_b (terminal_colors c) in
  Z.quot (dr * dr * 3 + dg * dg * 4 + db * db * 2) 9.

(** One iteration of the scan: the state is [(best_match, min_distance)]. *)
Definition color_scan_step (r g b : Z) (st : term_color_t * Z) (i : term_color_t)
  : term_color_t * Z :=
  let distance := color_distance r g b i in
  if distance <? snd st then (i, distance) else st.

Definition rgb_to_terminal_color (r g b : Z) : term_color_t :=
  fst (fold_left (color_scan_step r g b) all_colors (BLACK, 255 * 255 * 3)).

(** [adjust_pixel]. *)
Definition adjust_channel (v : Z) (brightness contrast : f32) : Z :=
  let r := f32_mul (f32_of_int v) brightness in
  let r := f32_add (f32_of_int 128) (f32_mul (f32_sub r (f32_of_int 128)) contrast) in
  clamp (f32_to_int r) 0 255.

Definition adjust_pixel (pixel : rgb_pixel_t) (brightness contrast : f32) : rgb_pixel_t :=
  {| px_r := adjust_channel (px_r pixel) brightness contrast;
     px_g := adjust_channel (px_g pixel) brightness contrast;
     px_b := adjust_channel (px_b pixel) brightness contrast |}.

(** ** Shell output, codec and allocator environment *)

(** An argument of a [printf]-style call; the value of a pointer is not
    modelled. *)
Inductive fmt_arg : Type :=
  | arg_int (n : Z)
  | arg_str (s : string)
  | arg_ptr.

(** What a call leaves behind: a line handed to the shell, or a call of
    the codec. *)
Inductive event : Type :=
  | shell_print (fmt : string) (args : list fmt_arg)
  | shell_error (fmt : string) (args : list fmt_arg)
  | shell_fprintf (fmt : string) (args : list fmt_arg)
  | stbi_info_call
  | stbi_load_call.

(** The places where the pipeline allocates. *)
Inductive alloc_site : Type :=
  | site_large_placeholder   (* gopher_render_image, image over budget *)
  | site_decode_placeholder  (* decode_image_to_rgb, codec out of memory *)
  | site_oom_placeholder     (* gopher_render_image, decode failed: outofmem *)
  | site_downscale           (* downscale_image_color, result *)
  | site_dither_copy         (* apply_floyd_steinberg_dithering, img_copy *)
  | site_line.               (* render_ascii_art, line *)

Inductive stbi_result (A : Type) : Type :=
  | stbi_ok (a : A)
  | stbi_fail (reason : string).
Arguments stbi_ok {A} a.
Arguments stbi_fail {A} reason.

(** The environment of one call of the pipeline: the build option, the
    outcome of each allocation, and the codec as a function of the input
    buffer ([stbi_load_from_memory] is asked for three channels and
    answers with width, height and the pixels). *)
Record env : Type := {
  CONFIG_ESP_SPIRAM : bool;
  k_malloc : alloc_site -> Z -> bool;
  shared_multi_heap_alloc : alloc_site -> Z -> bool;
  stbi_info_from_memory : list ascii -> stbi_result (Z * Z * Z);
  stbi_load_from_memory : list ascii -> stbi_result (Z * Z * list rgb_pixel_t)
}.

(** The globals the pipeline writes, and the shell. *)
Record world : Type := {
  shell_out : list event;
  stbi_failure_reason : string;
  stbi__jpeg_decode_reduced : Z
}.

(** Computations that write to the [world] and may be undefined. *)
Definition M (A : Type) : Type := world -> option (A * world).

Definition ret {A : Type} (a : A) : M A := fun w => Some (a, w).

Definition bind {A B : Type} (m : M A) (k : A -> M B) : M B :=
  fun w => match m w with
           | Some (a, w') => k a w'
           | None => None
           end.

Notation "x <- m ;; k" := (bind m (fun x => k))
  (at level 100, m at next level, right associativity).
Notation "m ;; k" := (bind m (fun _ => k))
  (at level 100, right associativity).

(** The world after the shell received [evs]. *)
Definition log (evs : list event) (w : world) : world :=
  {| shell_out := shell_out w ++ evs;
     stbi_failure_reason := stbi_failure_reason w;
     stbi__jpeg_decode_reduced := stbi__jpeg_decode_reduced w |}.

Definition emit (ev : event) : M unit := fun w => Some (tt, log [ev] w).

Definition emit_all (evs : list event) : M unit := fun w => Some (tt, log evs w).

Definition set_failure_reason (reason : string) : M unit :=
  fun w => Some (tt, {| shell_out := shell_out w;
                        stbi_failure_reason := reason;
                        stbi__jpeg_decode_reduced := stbi__jpeg_decode_reduced w |}).

Definition get_failure_reason : M string :=
  fun w => Some (stbi_failure_reason w, w).

Definition set_jpeg_decode_reduced (v : Z) : M unit :=
  fun w => Some (tt, {| shell_out := shell_out w;
                        stbi_failure_reason := stbi_failure_reason w;
                        stbi__jpeg_decode_reduced := v |}).

Definition lift_option {A : Type} (o : option A) : M A :=
  fun w => match o with Some a => Some (a, w) | None => None end.

Definition when (c : bool) (m : M unit) : M unit := if c then m else ret tt.

(** ** Bytes and C strings *)

Definition byte_val (c : ascii) : Z := Z.of_N (N_of_ascii c).

(** The C locale's character classes. *)
Definition isprint (c : ascii) : bool := (32 <=? byte_val c) && (byte_val c <=? 126).
Definition isspace (c : ascii) : bool :=
  (byte_val c =? 32) || ((9 <=? byte_val c) && (byte_val c <=? 13)).
Definition iscntrl (c : ascii) : bool := (byte_val c <? 32) || (byte_val c =? 127).
Definition tolower (c : ascii) : ascii :=
  if (65 <=? byte_val c) && (byte_val c <=? 90)
  then ascii_of_N (N_of_ascii c + 32) else c.

Definition strlen (s : string) : Z := Z.of_nat (String.length s).

Fixpoint is_prefix (needle hay : list ascii) : bool :=
  match needle, hay with
  | [], _ => true
  | _ :: _, [] => false
  | a :: needle', b :: hay' => Ascii.eqb a b && is_prefix needle' hay'
  end.

(** [memmem(hay, |hay|, needle, |needle|) != NULL]. *)
Fixpoint memmem (hay needle : list ascii) : bool :=
  is_prefix needle hay ||
  match hay with
  | [] => false
  | _ :: hay' => memmem hay' needle
  end.

(** [strstr(hay, needle) != NULL]. *)
Definition strstr (hay needle : string) : bool :=
  memmem (list_ascii_of_string hay) (list_ascii_of_string needle).

(** [strncasecmp(s1, s2, strlen(s2)) == 0] for a [s2] without NUL; [s1]
    is the rest of the buffer, and reading past its end is undefined. *)
Fixpoint strncasecmp_eq (s1 s2 : list ascii) : option bool :=
  match s2 with
  | [] => Some true
  | c2 :: s2' =>
      match s1 with
      | [] => None
      | c1 :: s1' =>
          if Ascii.eqb (tolower c1) (tolower c2) then strncasecmp_eq s1' s2'
          else Some false
      end
  end.

(** ** Content classifier *)

Definition html_markers : list string :=
  ["<html"; "<HTML"; "<!DOCTYPE"; "<!doctype";
   "<head"; "<HEAD"; "<body"; "<BODY";
   "HTTP/"; "http://"]%string.

Definition looks_like_text_content (data : list ascii) : bool :=
  let size := Z.of_nat (length data) in
  if existsb (fun marker =>
                (strlen marker <=? size) &&
                memmem (take (Z.to_nat (MIN size 200)) data)
                       (list_ascii_of_string marker))
             html_markers
  then true
  else
    let total_checked := MIN 200 size in
    let printable_count :=
      fold_left (fun count c => if isprint c || isspace c then count + 1 else count)
                (take (Z.to_nat total_checked) data) 0 in
    SFltb (f64_mul (f64_of_int total_checked) (f64_lit 9 10))
          (f64_of_int printable_count).

Definition jpeg_magic : list ascii := ["255"; "216"; "255"]%char.
Definition png_magic : list ascii :=
  ["137"; "P"; "N"; "G"; "013"; "010"; "026"; "010"]%char.

Definition extensions : list string := [".jpg"; ".jpeg"; ".gif"; ".png"; ".bmp"]%string.

(** The inner loop of [gopher_is_image]: [n] positions from [j] on. *)
Fixpoint scan_extension (data : list ascii) (ext : list ascii) (n : nat) (j : Z)
  : option bool :=
  match n with
  | O => Some false
  | S n' =>
      match strncasecmp_eq (drop (Z.to_nat j) data) ext with
      | None => None
      | Some true => Some true
      | Some false => scan_extension data ext n' (j + 1)
      end
  end.

Fixpoint scan_extensions (data : list ascii) (exts : list string) : option bool :=
  match exts with
  | [] => Some false
  | ext :: exts' =>
      let size := Z.of_nat (length data) in
      match scan_extension data (list_ascii_of_string ext)
              (Z.to_nat (MIN 100 (to_size_t (size - strlen ext)))) 0 with
      | None => None
      | Some true => Some true
      | Some false => scan_extensions data exts'
      end
  end.

(** [gopher_is_image]; [None] when the extension scan reads past the
    buffer. *)
Definition gopher_is_image (data : list ascii) : option bool :=
  let size := Z.of_nat (length data) in
  if size <? 4 then Some false
  else if is_prefix jpeg_magic data then Some true
  else if (8 <=? size) && is_prefix png_magic data then Some true
  else if (5 <=? size) && is_prefix (list_ascii_of_string "GIF8") data then Some true
  else scan_extensions data extensions.

(** ** Text display *)

Definition is_cr_or_lf (c : ascii) : bool := (byte_val c =? 13) || (byte_val c =? 10).

Fixpoint drop_leading_crlf (l : list ascii) : list ascii :=
  match l with
  | c :: l' => if is_cr_or_lf c then drop_leading_crlf l' else l
  | [] => []
  end.

(** [while (chunk_size > 0 && (last is CR or LF)) chunk_size--]. *)
Definition strip_trailing_crlf (chunk : list ascii) : list ascii :=
  rev (drop_leading_crlf (rev chunk)).

(** The loop [while (start_pos < size && !isprint && !isspace) start_pos++]. *)
Fixpoint skip_binary_prefix (data : list ascii) : list ascii :=
  match data with
  | c :: data' => if negb (isprint c) && negb (isspace c)
                  then skip_binary_prefix data' else data
  | [] => []
  end.

Definition TEXT_BUFFER_SIZE : Z := 128.

(** The main loop of [display_text_content] over the bytes still to
    show; [chunk] is [text_buffer[0 .. chunk_size)]. *)
Fixpoint display_chunks (rest : list ascii) (chunk : list ascii) : list event :=
  match rest with
  | [] => []
  | d :: rest' =>
      let c := if iscntrl d && negb (byte_val d =? 13) && negb (byte_val d =? 10)
                  && negb (byte_val d =? 9)
               then " "%char else d in
      let chunk := if Z.of_nat (length chunk) <? TEXT_BUFFER_SIZE - 1
                   then chunk ++ [c] else chunk in
      if (TEXT_BUFFER_SIZE - 1 <=? Z.of_nat (length chunk))
         || (match rest' with [] => true | _ => false end)
         || (byte_val c =? 10)
      then
        let chunk := strip_trailing_crlf chunk in
        (if 0 <? Z.of_nat (length chunk)
         then [shell_print "%s" [arg_str (string_of_list_ascii chunk)]]
         else [])
        ++ display_chunks rest' []
      else display_chunks rest' chunk
  end.

Definition display_text_content (data : list ascii) : list event :=
  [shell_print "Server response appears to be text. Content:" [];
   shell_print "-------------------------------------------" []]
  ++ display_chunks (skip_binary_prefix data) []
  ++ [shell_print "-------------------------------------------" []].

(** ** Buffers *)

(** [buf[i]] as an rvalue. *)
Definition read {A : Type} (buf : list A) (i : Z) : option A :=
  if i <? 0 then None else buf !! Z.to_nat i.

(** [buf[i] = v]. *)
Definition write {A : Type} (buf : list A) (i : Z) (v : A) : option (list A) :=
  if (0 <=? i) && (i <? Z.of_nat (length buf))
  then Some (<[Z.to_nat i := v]> buf) else None.

(** The gradient both placeholder paths paint, in row-major order:
    [r = x * 255 / w], [g = y * 255 / h], [b = 128]. *)
Definition gradient_pixel (w h x y : Z) : rgb_pixel_t :=
  {| px_r := to_uint8 (Z.quot (x * 255) w);
     px_g := to_uint8 (Z.quot (y * 255) h);
     px_b := 128 |}.

Definition gradient_placeholder (w h : Z) : list rgb_pixel_t :=
  flat_map (fun y => map (fun x => gradient_pixel w h x y) (seqZ 0 w)) (seqZ 0 h).

Section Pipeline.

Variable e : env.

(** ** memory_alloc *)

(** The pointer test [ptr != NULL] and what the call prints; [shell] is
    [shell != NULL]. *)
Definition memory_alloc (site : alloc_site) (size : Z) (shell : bool)
  : bool * list event :=
  if size <? 50000 then
    let ptr := k_malloc e site size in
    (ptr, if ptr && shell
          then [shell_print "FORCING small allocation of %zu bytes from system heap"
                            [arg_int size]]
          else [])
  else if CONFIG_ESP_SPIRAM e then
    let ptr := shared_multi_heap_alloc e site size in
    let out1 :=
      if ptr && shell
      then shell_print "Allocated %zu bytes from PSRAM at %p" [arg_int size; arg_ptr]
           :: (if 4 <=? size
               then [shell_print "PSRAM memory verification succeeded" []]
               else [])
      else [] in
    if ptr then (true, out1)
    else
      let ptr := k_malloc e site size in
      (ptr, out1 ++
            if ptr && shell
            then [shell_print "Allocated %zu bytes from system heap at %p"
                              [arg_int size; arg_ptr]]
            else [])
  else
    let ptr := k_malloc e site size in
    (ptr, if ptr && shell
          then [shell_print "Allocated %zu bytes from system heap at %p"
                            [arg_int size; arg_ptr]]
          else []).

(** [memory_alloc(size, shell)] with a shell. *)
Definition alloc (site : alloc_site) (size : Z) : M bool :=
  emit_all (snd (memory_alloc site size true)) ;;
  ret (fst (memory_alloc site size true)).

(** [width * height * sizeof(rgb_pixel_t)] as a [size_t]: the [int]
    product converted to [size_t], times three, all modulo [2^32]. *)
Definition pixel_bytes (width height : Z) : Z := to_size_t (width * height * 3).

(** ** decode_image_to_rgb *)

Record decoded : Type := { dec_pixels : list rgb_pixel_t; dec_width : Z; dec_height : Z }.

(** The reduction chosen for the JPEG decoder from [scale]. *)
Definition jpeg_reduction (scale : Z) : Z :=
  if 8 <=? scale then 8
  else if 4 <=? scale then 4
  else if 2 <=? scale then 2
  else 1.

(** [scale]: 1, or [(int)sqrtf((float)memory_needed / max_memory) + 1]
    when the image is over budget. *)
Definition decode_scale (memory_needed max_memory : Z) : Z :=
  if to_size_t max_memory <? memory_needed
  then to_int (f32_to_int (f32_sqrt (f32_div (f32_of_int memory_needed)
                                             (f32_of_int max_memory))) + 1)
  else 1.

(** [orig_width * orig_height * 3] as a [size_t]. *)
Definition memory_needed_of (orig_width orig_height : Z) : Z :=
  to_size_t (to_int (to_int (orig_width * orig_height) * 3)).

(** The dimensions of the placeholder [decode_image_to_rgb] substitutes
    when the codec runs out of memory. *)
Definition decode_placeholder_dims (orig_width orig_height : Z) : Z * Z :=
  let max_dim := 128 in
  let aspect := f32_div (f32_of_int orig_width) (f32_of_int orig_height) in
  let '(width, height) :=
    if f32_leb f32_one aspect
    then (max_dim, f32_to_int (f32_div (f32_of_int max_dim) aspect))
    else (f32_to_int (f32_mul (f32_of_int max_dim) aspect), max_dim) in
  let width := if width <? 1 then 1 else width in
  let height := if height <? 1 then 1 else height in
  (width, height).

(** [decode_image_to_rgb]; the result is [None] for [NULL].  The
    comparison [format == "JPEG"] holds exactly when the JPEG magic was
    seen. *)
Definition decode_image_to_rgb (data : list ascii) (shell : bool) (max_memory : Z)
  : M (option decoded) :=
  let image_size := Z.of_nat (length data) in
  if looks_like_text_content data then ret None
  else
    let is_jpeg := (3 <=? image_size) && is_prefix jpeg_magic data in
    emit stbi_info_call ;;
    match stbi_info_from_memory e data with
    | stbi_fail reason => set_failure_reason reason ;; ret None
    | stbi_ok (orig_width, orig_height, orig_channels) =>
        let memory_needed := memory_needed_of orig_width orig_height in
        let scale := decode_scale memory_needed max_memory in
        when is_jpeg (set_jpeg_decode_reduced (jpeg_reduction scale)) ;;
        emit stbi_load_call ;;
        match stbi_load_from_memory e data with
        | stbi_ok (width, height, img) =>
            ret (Some {| dec_pixels := img; dec_width := width; dec_height := height |})
        | stbi_fail reason =>
            set_failure_reason reason ;;
            if strstr reason "outofmem" then
              let '(width, height) := decode_placeholder_dims orig_width orig_height in
              let alloc_size := pixel_bytes width height in
              when shell (emit (shell_print "Attempting memory allocation of %zu bytes"
                                            [arg_int alloc_size])) ;;
              emit_all (snd (memory_alloc site_decode_placeholder alloc_size shell)) ;;
              if fst (memory_alloc site_decode_placeholder alloc_size shell) then
                when shell (emit (shell_print "Memory allocation succeeded" [])) ;;
                ret (Some {| dec_pixels := gradient_placeholder width height;
                             dec_width := width; dec_height := height |})
              else
                when shell (emit (shell_print
                                    "Memory allocation failed! Requested: %zu bytes"
                                    [arg_int alloc_size])) ;;
                ret None
            else ret None
        end
    end.

(** ** downscale_image_color *)

Record scaled : Type := { sc_pixels : list rgb_pixel_t; sc_width : Z; sc_height : Z }.

(** The adjustment of [tgt_w] and [tgt_h] when the aspect ratio is
    maintained. *)
Definition adjust_target (src_w src_h tgt_w tgt_h : Z) : Z * Z :=
  let src_aspect := f32_div (f32_of_int src_w) (f32_of_int src_h) in
  let tgt_aspect := f32_div (f32_of_int tgt_w) (f32_of_int tgt_h) in
  if f32_ltb tgt_aspect src_aspect then
    (* source is wider: adjust the height *)
    let new_tgt_h := f32_to_int (f32_div (f32_of_int tgt_w) src_aspect) in
    let new_tgt_h := if new_tgt_h <? 1 then 1 else new_tgt_h in
    (tgt_w, new_tgt_h)
  else if f32_ltb src_aspect tgt_aspect then
    (* source is taller: adjust the width *)
    let new_tgt_w := f32_to_int (f32_mul (f32_of_int tgt_h) src_aspect) in
    let new_tgt_w := if new_tgt_w <? 1 then 1 else new_tgt_w in
    (new_tgt_w, tgt_h)
  else (tgt_w, tgt_h).

(** One channel of the bilinear interpolation. *)
Definition bilinear_channel (x_diff y_diff : f32) (c00 c10 c01 c11 : Z) : Z :=
  let one := f32_of_int 1 in
  f32_to_uint8
    (f32_add
       (f32_add
          (f32_add
             (f32_mul (f32_mul (f32_sub one x_diff) (f32_sub one y_diff)) (f32_of_int c00))
             (f32_mul (f32_mul x_diff (f32_sub one y_diff)) (f32_of_int c10)))
          (f32_mul (f32_mul (f32_sub one x_diff) y_diff) (f32_of_int c01)))
       (f32_mul (f32_mul x_diff y_diff) (f32_of_int c11))).

(** The body of the scaling loops: the pixel stored at [(x, y)]. *)
Definition downscale_pixel (src : list rgb_pixel_t) (src_w src_h : Z)
    (x_ratio y_ratio : f32) (options : image_process_options_t) (x y : Z)
  : option rgb_pixel_t :=
  pixel ←
    (if use_bilinear_filtering options then
       let src_x := f32_mul (f32_of_int x) x_ratio in
       let src_y := f32_mul (f32_of_int y) y_ratio in
       let src_x_int := f32_to_int src_x in
       let src_y_int := f32_to_int src_y in
       let x_diff := f32_sub src_x (f32_of_int src_x_int) in
       let y_diff := f32_sub src_y (f32_of_int src_y_int) in
       p00 ← read src (src_y_int * src_w + src_x_int);
       p10 ← (if src_x_int <? src_w - 1
              then read src (src_y_int * src_w + src_x_int + 1) else Some p00);
       p01 ← (if src_y_int <? src_h - 1
              then read src ((src_y_int + 1) * src_w + src_x_int) else Some p00);
       p11 ← (if (src_x_int <? src_w - 1) && (src_y_int <? src_h - 1)
              then read src ((src_y_int + 1) * src_w + src_x_int + 1) else Some p00);
       Some {| px_r := bilinear_channel x_diff y_diff (px_r p00) (px_r p10) (px_r p01) (px_r p11);
               px_g := bilinear_channel x_diff y_diff (px_g p00) (px_g p10) (px_g p01) (px_g p11);
               px_b := bilinear_channel x_diff y_diff (px_b p00) (px_b p10) (px_b p01) (px_b p11) |}
     else
       let src_x := f32_to_int (f32_mul (f32_of_int x) x_ratio) in
       let src_y := f32_to_int (f32_mul (f32_of_int y) y_ratio) in
       read src (src_y * src_w + src_x));
  Some (if negb (f32_eqb (brightness_adjust options) f32_one)
           || negb (f32_eqb (contrast_adjust options) f32_one)
        then adjust_pixel pixel (brightness_adjust options) (contrast_adjust options)
        else pixel).

(** [downscale_image_color]: [None] is undefined behaviour, [Some None]
    the [NULL] result.  The record carries the dimensions the buffer was
    allocated and filled with; the C function returns the pointer alone. *)
Definition downscale_image_color (src : list rgb_pixel_t) (src_w src_h tgt_w tgt_h : Z)
    (options : option image_process_options_t) : option (option scaled) :=
  let options := default default_options options in
  let '(tgt_w, tgt_h) :=
    if maintain_aspect_ratio options
    then adjust_target src_w src_h tgt_w tgt_h else (tgt_w, tgt_h) in
  let alloc_size := pixel_bytes tgt_w tgt_h in
  if negb (fst (memory_alloc site_downscale alloc_size false)) then Some None
  else if (0 <? tgt_w) && (0 <? tgt_h) && (alloc_size <? tgt_w * tgt_h * 3)
  then None (* the loops write past the buffer *)
  else
    let x_ratio := f32_div (f32_of_int src_w) (f32_of_int tgt_w) in
    let y_ratio := f32_div (f32_of_int src_h) (f32_of_int tgt_h) in
    result ← mapM (fun y =>
                     mapM (fun x => downscale_pixel src src_w src_h x_ratio y_ratio
                                                    options x y)
                          (seqZ 0 tgt_w))
                  (seqZ 0 tgt_h);
    Some (Some {| sc_pixels := concat result; sc_width := tgt_w; sc_height := tgt_h |}).

(** The dimensions [downscale_image_color] allocates and fills: the
    requested ones, adjusted when the aspect ratio is kept. *)
Definition scaled_dims (src_w src_h tgt_w tgt_h : Z)
    (options : option image_process_options_t) : Z * Z :=
  if maintain_aspect_ratio (default default_options options)
  then adjust_target src_w src_h tgt_w tgt_h else (tgt_w, tgt_h).

(** ** apply_floyd_steinberg_dithering *)

(** [img_copy[idx].c = clamp(img_copy[idx].c + (err_c * num / 16), 0, 255)]
    for the three channels. *)
Definition diffuse_error (img_copy : list rgb_pixel_t) (idx : Z)
    (err_r err_g err_b num : Z) : option (list rgb_pixel_t) :=
  p ← read img_copy idx;
  write img_copy idx
    {| px_r := clamp (px_r p + Z.quot (err_r * num) 16) 0 255;
       px_g := clamp (px_g p + Z.quot (err_g * num) 16) 0 255;
       px_b := clamp (px_b p + Z.quot (err_b * num) 16) 0 255 |}.

(** The body of the dithering loops on [(image, img_copy)]. *)
Definition dither_pixel (width height : Z) (x y : Z)
    (st : list rgb_pixel_t * list rgb_pixel_t)
  : option (list rgb_pixel_t * list rgb_pixel_t) :=
  let '(image, img_copy) := st in
  let idx := y * width + x in
  old_pixel ← read img_copy idx;
  let new_color := rgb_to_terminal_color (px_r old_pixel) (px_g old_pixel) (px_b old_pixel) in
  let new_pixel := terminal_colors new_color in
  image ← write image idx new_pixel;
  let err_r := px_r old_pixel - px_r new_pixel in
  let err_g := px_g old_pixel - px_g new_pixel in
  let err_b := px_b old_pixel - px_b new_pixel in
  img_copy ←
    (if x + 1 <? width
     then diffuse_error img_copy (y * width + (x + 1)) err_r err_g err_b 7
     else Some img_copy);
  img_copy ←
    (if y + 1 <? height then
       img_copy ← diffuse_error img_copy ((y + 1) * width + x) err_r err_g err_b 5;
       img_copy ←
         (if 0 <? x
          then diffuse_error img_copy ((y + 1) * width + (x - 1)) err_r err_g err_b 3
          else Some img_copy);
       (if x + 1 <? width
        then diffuse_error img_copy ((y + 1) * width + (x + 1)) err_r err_g err_b 1
        else Some img_copy)
     else Some img_copy);
  Some (image, img_copy).

(** [apply_floyd_steinberg_dithering]: the buffer after the call, [None]
    when the call reads or writes outside a buffer.  [img_copy] holds
    the whole pixels of the [alloc_size] bytes copied. *)
Definition apply_floyd_steinberg_dithering (image : list rgb_pixel_t) (width height : Z)
  : option (list rgb_pixel_t) :=
  let alloc_size := pixel_bytes width height in
  if negb (fst (memory_alloc site_dither_copy alloc_size false)) then Some image
  else if 3 * Z.of_nat (length image) <? alloc_size then None
  else
    let img_copy := take (Z.to_nat (alloc_size / 3)) image in
    st ← for_range 0 height
           (fun y => for_range 0 width (fun x => dither_pixel width height x y))
           (image, img_copy);
    Some (fst st).

(** ** render_ascii_art *)

Definition LF : string := String (ascii_of_nat 10) EmptyString.

(** The size of the line buffer: [term_width * 20]. *)
Definition LINE_ALLOC : Z := 80 * 20.

(** [pos += snprintf(line + pos, n, "%s", s)] for a [s] shorter than [n]:
    the characters and the terminating NUL must fit the buffer. *)
Definition line_snprintf (line : string) (s : string) : option string :=
  if strlen line + strlen s + 1 <=? LINE_ALLOC then Some (line ++ s)%string else None.

(** [line[pos++] = ch]. *)
Definition line_put (line : string) (ch : ascii) : option string :=
  if strlen line <? LINE_ALLOC then Some (line ++ String ch EmptyString)%string else None.

(** The character of a pixel: [ASCII_RAMP[gray * (ASCII_RAMP_LEN - 1) / 255]]. *)
Definition ramp_char (pixel : rgb_pixel_t) : option ascii :=
  let gray := rgb_to_gray (px_r pixel) (px_g pixel) (px_b pixel) in
  String.get (Z.to_nat (Z.quot (gray * (ASCII_RAMP_LEN - 1)) 255)) ASCII_RAMP.

(** The state of the rendering loops. *)
Record render_state : Type := {
  rs_line : string;
  rs_last_fg : term_color_t;
  rs_last_bg : term_color_t;
  rs_color_active : bool
}.

(** The body of the inner loop. *)
Definition render_pixel (rgb_buffer : list rgb_pixel_t) (width : Z)
    (color_supported : bool) (y x : Z) (st : render_state) : option render_state :=
  pixel ← read rgb_buffer (y * width + x);
  ch ← ramp_char pixel;
  st ←
    (if color_supported then
       let fg := rgb_to_terminal_color (px_r pixel) (px_g pixel) (px_b pixel) in
       let bg := BLACK in
       if negb (rs_color_active st)
          || negb (term_color_eqb fg (rs_last_fg st))
          || negb (term_color_eqb bg (rs_last_bg st))
       then
         line ← line_snprintf (rs_line st) (fg_color_codes fg ++ bg_color_codes bg);
         Some {| rs_line := line; rs_last_fg := fg; rs_last_bg := bg;
                 rs_color_active := true |}
       else Some st
     else Some st);
  line ← line_put (rs_line st) ch;
  line ← line_put line ch;
  Some {| rs_line := line; rs_last_fg := rs_last_fg st; rs_last_bg := rs_last_bg st;
          rs_color_active := rs_color_active st |}.

(** One pass of the outer loop: the line printed for row [y], and the
    colours remembered for the next row. *)
Definition render_row (rgb_buffer : list rgb_pixel_t) (width : Z)
    (color_supported : bool) (y : Z) (last : term_color_t * term_color_t)
  : option (string * (term_color_t * term_color_t)) :=
  st ← for_range 0 width (render_pixel rgb_buffer width color_supported y)
         {| rs_line := ""; rs_last_fg := fst last; rs_last_bg := snd last;
            rs_color_active := false |};
  line ← (if color_supported && rs_color_active st
          then line_snprintf (rs_line st) COLOR_RESET else Some (rs_line st));
  if strlen line <? LINE_ALLOC
  then Some (line, (rs_last_fg st, rs_last_bg st)) else None.

(** The lines of the image, first row first. *)
Definition render_rows (rgb_buffer : list rgb_pixel_t) (width height : Z)
    (color_supported : bool) : option (list string) :=
  st ← for_range 0 height
         (fun y (acc : list string * (term_color_t * term_color_t)) =>
            row ← render_row rgb_buffer width color_supported y (snd acc);
            Some (fst acc ++ [fst row], snd row))
         ([], (BLACK, BLACK));
  Some (fst st).

(** The [shell_print(shell, "%s", line)] of a rendered line. *)
Definition art_line (line : string) : event := shell_print "%s" [arg_str line].

Definition render_ascii_art (rgb_buffer : option (list rgb_pixel_t)) (width height : Z)
    (config : ascii_art_config_t) : M Z :=
  emit (shell_print "DEBUG: render_ascii_art called with %dx%d image at %p"
                    [arg_int width; arg_int height; arg_ptr]) ;;
  match rgb_buffer with
  | None => emit (shell_error "ERROR: rgb_buffer is NULL!" []) ;; ret (- EINVAL)
  | Some rgb_buffer =>
      if (width <=? 0) || (height <=? 0) || (1000 <? width) || (1000 <? height) then
        emit (shell_error "ERROR: Invalid image dimensions: %dx%d"
                          [arg_int width; arg_int height]) ;;
        ret (- EINVAL)
      else
        first <- lift_option (read rgb_buffer 0) ;;
        emit (shell_print "DEBUG: First pixel RGB values: %d,%d,%d"
                [arg_int (px_r first); arg_int (px_g first); arg_int (px_b first)]) ;;
        line <- alloc site_line LINE_ALLOC ;;
        if negb line then ret (- ENOMEM)
        else
          emit (shell_fprintf ("ASCII Art Image (%dx%d pixels)" ++ LF)
                              [arg_int width; arg_int height]) ;;
          emit (shell_fprintf ("----------------------------------------" ++ LF) []) ;;
          lines <- lift_option (render_rows rgb_buffer width height (use_color config)) ;;
          emit_all (map art_line lines) ;;
          emit (shell_fprintf ("----------------------------------------" ++ LF) []) ;;
          ret 0
  end.

(** ** gopher_render_image *)

(** The dimensions of the placeholder shown for an image over budget. *)
Definition large_placeholder_dims (orig_width orig_height : Z) : Z * Z :=
  let target_width := 32 in
  let target_height := 16 in
  let aspect := f32_div (f32_of_int orig_width) (f32_of_int orig_height) in
  if f32_ltb (f32_of_int 2) aspect then
    let target_height := f32_to_int (f32_div (f32_of_int target_width) aspect) in
    (target_width, if target_height <? 4 then 4 else target_height)
  else if f32_ltb aspect (f32_lit 1 2) then
    let target_width := f32_to_int (f32_mul (f32_of_int target_height) aspect) in
    (if target_width <? 8 then 8 else target_width, target_height)
  else (target_width, target_height).

(** The pre-check of [gopher_render_image]: [Some ret] when the
    placeholder for an image over budget was rendered. *)
Definition render_large_placeholder (info : stbi_result (Z * Z * Z)) (max_memory : Z)
    (config : ascii_art_config_t) : M (option Z) :=
  match info with
  | stbi_fail _ => ret None
  | stbi_ok (orig_width, orig_height, orig_channels) =>
      let memory_needed := memory_needed_of orig_width orig_height in
      if to_size_t max_memory <? memory_needed then
        emit (shell_print "Large image detected (%dx%d, ~%zu KB), memory limit: %d KB"
                [arg_int orig_width; arg_int orig_height;
                 arg_int (memory_needed / 1024); arg_int (Z.quot max_memory 1024)]) ;;
        let '(target_width, target_height) :=
          large_placeholder_dims orig_width orig_height in
        placeholder <- alloc site_large_placeholder
                         (pixel_bytes target_width target_height) ;;
        if placeholder then
          emit (shell_print "Using simplified placeholder for large image" []) ;;
          emit (shell_print "Original image dimensions: %dx%d pixels"
                            [arg_int orig_width; arg_int orig_height]) ;;
          r <- render_ascii_art (Some (gradient_placeholder target_width target_height))
                                target_width target_height config ;;
          ret (Some r)
        else ret None
      else ret None
  end.

(** The error branch of [gopher_render_image] after a failed decode:
    [Some ret] when the out-of-memory placeholder was rendered. *)
Definition report_decode_failure (info : stbi_result (Z * Z * Z))
    (config : ascii_art_config_t) : M (option Z) :=
  emit (shell_error "Failed to decode image data" []) ;;
  error <- get_failure_reason ;;
  if strstr error "no SOF" then
    emit (shell_error "No JPEG Start Of Frame marker found - this usually means:" []) ;;
    emit (shell_error "1. The server returned an HTML error page instead of an image" []) ;;
    emit (shell_error "2. The server may require authentication or cookies" []) ;;
    emit (shell_error "3. There might be a redirect to another page" []) ;;
    ret None
  else if strstr error "bad huffman" then
    emit (shell_error "Bad Huffman code found - the image data is corrupted or incomplete" []) ;;
    ret None
  else if strstr error "PNG" then
    emit (shell_error "PNG decoding error - file may be corrupted or in an unsupported format" []) ;;
    ret None
  else if strstr error "outofmem" then
    emit (shell_error "Image is too large for available memory" []) ;;
    match info with
    | stbi_ok (orig_width, orig_height, orig_channels) =>
        emit (shell_print "Image dimensions: %dx%d pixels (%d channels)"
                [arg_int orig_width; arg_int orig_height; arg_int orig_channels])
    | stbi_fail _ => ret tt
    end ;;
    let ph_width := 32 in
    let ph_height := 16 in
    placeholder <- alloc site_oom_placeholder (pixel_bytes ph_width ph_height) ;;
    if placeholder then
      emit (shell_print "Using placeholder image since original is too large for memory" []) ;;
      r <- render_ascii_art (Some (gradient_placeholder ph_width ph_height))
                            ph_width ph_height config ;;
      ret (Some r)
    else ret None
  else
    emit (shell_error "Image decoding error: %s" [arg_str error]) ;;
    ret None.

(** The rest of [gopher_render_image] once an image is decoded:
    downscale to 40x20, dither, render. *)
Definition render_decoded (img : decoded) (config : ascii_art_config_t) : M Z :=
  let width := dec_width img in
  let height := dec_height img in
  emit (shell_print "Successfully decoded image: %dx%d pixels"
                    [arg_int width; arg_int height]) ;;
  let target_width := 40 in
  let target_height := 20 in
  let options :=
    {| maintain_aspect_ratio := true; use_bilinear_filtering := true;
       brightness_adjust := brightness config;
       contrast_adjust := contrast config |} in
  emit (shell_print "DEBUG: Attempting to downscale image from %dx%d to %dx%d"
          [arg_int width; arg_int height;
           arg_int target_width; arg_int target_height]) ;;
  scaled_img <- lift_option
                  (downscale_image_color (dec_pixels img) width height
                                         target_width target_height
                                         (Some options)) ;;
  match scaled_img with
  | None =>
      emit (shell_error "Failed to downscale image" []) ;;
      ret (- ENOMEM)
  | Some scaled_img =>
      emit (shell_print
              "DEBUG: Successfully downscaled image to %dx%d, result at %p"
              [arg_int target_width; arg_int target_height; arg_ptr]) ;;
      scaled_px <-
        (if use_dithering config
         then lift_option (apply_floyd_steinberg_dithering
                             (sc_pixels scaled_img) target_width target_height)
         else ret (sc_pixels scaled_img)) ;;
      render_ascii_art (Some scaled_px) target_width target_height config
  end.

(** What [gopher_render_image] does after a failed decode and an error
    report that did not end the call. *)
Definition show_as_text_and_fail (file_data : list ascii) : M Z :=
  let file_size := Z.of_nat (length file_data) in
  (if looks_like_text_content file_data then
     emit_all (display_text_content file_data)
   else if file_size <? 1024 then
     emit (shell_print "Attempting to display content as text:" []) ;;
     emit_all (display_text_content file_data)
   else ret tt) ;;
  ret (- EINVAL).

Definition gopher_render_image (file_data : list ascii)
    (config : option ascii_art_config_t) : M Z :=
  let max_memory := if CONFIG_ESP_SPIRAM e then 3000000 else 200000 in
  emit (if CONFIG_ESP_SPIRAM e
        then shell_print "PSRAM is available - using 3MB memory limit" []
        else shell_print "PSRAM not available - using 200KB memory limit" []) ;;
  let config := default default_config config in
  if looks_like_text_content file_data then
    emit (shell_error "Content appears to be text, not an image" []) ;;
    emit_all (display_text_content file_data) ;;
    ret (- EINVAL)
  else
    is_image <- lift_option (gopher_is_image file_data) ;;
    when (negb is_image)
      (emit (shell_error "File format is not a recognized image type (JPEG, PNG, or GIF)" []) ;;
       emit (shell_print "Attempting to decode anyway..." [])) ;;
    emit stbi_info_call ;;
    let info := stbi_info_from_memory e file_data in
    match info with
    | stbi_fail reason => set_failure_reason reason
    | stbi_ok _ => ret tt
    end ;;
    early <- render_large_placeholder info max_memory config ;;
    match early with
    | Some r => ret r
    | None =>
        img <- decode_image_to_rgb file_data true max_memory ;;
        match img with
        | None =>
            handled <- report_decode_failure info config ;;
            match handled with
            | Some r => ret r
            | None => show_as_text_and_fail file_data
            end
        | Some img => render_decoded img config
        end
    end.

End Pipeline.

(** ** The dithering algorithm as the specification words it *)

(** The neighbours an error is propagated to, as [(dx, dy, weight)]:
    right 7/16, below 5/16, below-left 3/16, below-right 1/16. *)
Definition fs_kernel : list (Z * Z * Z) :=
  [(1, 0, 7); (0, 1, 5); (-1, 1, 3); (1, 1, 1)].

Definition in_bounds (width height x y : Z) : bool :=
  (0 <=? x) && (x <? width) && (0 <=? y) && (y <? height).

Definition clamp_channel (v : Z) : Z := Z.max 0 (Z.min 255 v).

Fixpoint fold_option {A B : Type} (f : A -> B -> option A) (l : list B) (a : A)
  : option A :=
  match l with
  | [] => Some a
  | b :: l' => match f a b with
               | Some a' => fold_option f l' a'
               | None => None
               end
  end.

(** Adding the share [weight/16] of the error to the neighbour at offset
    [(dx, dy)] of [(x, y)], clamped; a neighbour outside the buffer is
    skipped. *)
Definition spec_propagate (width height x y : Z) (err : Z * Z * Z)
    (work : list rgb_pixel_t) (k : Z * Z * Z) : option (list rgb_pixel_t) :=
  let '(dx, dy, weight) := k in
  let '(err_r, err_g, err_b) := err in
  if in_bounds width height (x + dx) (y + dy) then
    let idx := (y + dy) * width + (x + dx) in
    p ← read work idx;
    write work idx
      {| px_r := clamp_channel (px_r p + Z.quot (err_r * weight) 16);
         px_g := clamp_channel (px_g p + Z.quot (err_g * weight) 16);
         px_b := clamp_channel (px_b p + Z.quot (err_b * weight) 16) |}
  else Some work.

(** One pixel: quantise the working-copy value, store the palette colour
    in the output, propagate the error in the working copy. *)
Definition spec_dither_step (width height : Z)
    (st : list rgb_pixel_t * list rgb_pixel_t) (xy : Z * Z)
  : option (list rgb_pixel_t * list rgb_pixel_t) :=
  let '(out, work) := st in
  let '(x, y) := xy in
  let idx := y * width + x in
  original ← read work idx;
  let quantized :=
    terminal_colors
      (rgb_to_terminal_color (px_r original) (px_g original) (px_b original)) in
  out ← write out idx quantized;
  let err := (px_r original - px_r quantized,
              px_g original - px_g quantized,
              px_b original - px_b quantized) in
  work ← fold_option (spec_propagate width height x y err) fs_kernel work;
  Some (out, work).

(** Left to right, top to bottom. *)
Definition row_major (width height : Z) : list (Z * Z) :=
  flat_map (fun y => map (fun x => (x, y)) (seqZ 0 width)) (seqZ 0 height).

Definition spec_floyd_steinberg (image : list rgb_pixel_t) (width height : Z)
  : option (list rgb_pixel_t) :=
  st ← fold_option (spec_dither_step width height) (row_major width height)
         (image, image);
  Some (fst st).

(** A pixel that is one of the eight reference colours. *)
Definition is_palette_pixel (p : rgb_pixel_t) : Prop :=
  exists c, p = terminal_colors c.

(** A pixel with channels in [0, 255]. *)
Definition valid_pixel (p : rgb_pixel_t) : Prop :=
  0 <= px_r p <= 255 /\ 0 <= px_g p <= 255 /\ 0 <= px_b p <= 255.

(** ** Vocabulary of the statements *)

(** The bytes the text heuristic samples and how many of them are
    printable or white space. *)
Definition sampled (data : list ascii) : list ascii := take 200 data.

Definition printable_or_space (c : ascii) : bool := isprint c || isspace c.

Definition printable_in (l : list ascii) : Z :=
  Z.of_nat (length (List.filter printable_or_space l)).

(** [marker] lies entirely within [hay]. *)
Definition occurs_in (marker : string) (hay : list ascii) : Prop :=
  exists pre post, hay = pre ++ list_ascii_of_string marker ++ post.

(** The test [printable_count > total_checked * 0.9], in [double], agrees
    with [10 * printable_count > 9 * total_checked] for every count up to
    [total]. *)
Definition ninety_percent_agrees (total : Z) : bool :=
  let threshold := f64_mul (f64_of_int total) (f64_lit 9 10) in
  forallb (fun count => Bool.eqb (SFltb threshold (f64_of_int count))
                                 (9 * total <? 10 * count))
          (seqZ 0 (total + 1)).

Definition is_codec_call (ev : event) : bool :=
  match ev with
  | stbi_info_call | stbi_load_call => true
  | _ => false
  end.

(** What [gopher_render_image] prints before anything else. *)
Definition memory_banner (e : env) : event :=
  if CONFIG_ESP_SPIRAM e
  then shell_print "PSRAM is available - using 3MB memory limit" []
  else shell_print "PSRAM not available - using 200KB memory limit" [].

(** The events of a run: what [w'] holds after those of [w]. *)
Definition emitted (w w' : world) (evs : list event) : Prop :=
  shell_out w' = shell_out w ++ evs.

(** [m], started in [w], returns [a], leaves [w'] and prints [evs]. *)
Definition runs {A : Type} (m : M A) (w : world) (a : A) (w' : world)
    (evs : list event) : Prop :=
  m w = Some (a, w') /\ emitted w w' evs.

(** The memory budget [gopher_render_image] works with. *)
Definition budget (e : env) : Z := if CONFIG_ESP_SPIRAM e then 3000000 else 200000.

Definition is_load_call (ev : event) : bool :=
  match ev with stbi_load_call => true | _ => false end.

(** Removing the ANSI escape sequences (from ESC to the closing [m]) of a
    line; [in_escape] tells whether the scan is inside one. *)
Fixpoint strip_from (in_escape : bool) (s : string) : string :=
  match s with
  | EmptyString => EmptyString
  | String c s' =>
      if in_escape then strip_from (negb (Ascii.eqb c "m")) s'
      else if Ascii.eqb c (ascii_of_nat 27) then strip_from true s'
      else String c (strip_from false s')
  end.

Definition strip_escapes (line : string) : string := strip_from false line.

(** Whether the scan of [s] ends inside an escape sequence. *)
Fixpoint escape_state (in_escape : bool) (s : string) : bool :=
  match s with
  | EmptyString => in_escape
  | String c s' =>
      if in_escape then escape_state (negb (Ascii.eqb c "m")) s'
      else escape_state (Ascii.eqb c (ascii_of_nat 27)) s'
  end.

(** The two characters a pixel is rendered as. *)
Definition pixel_text (pixel : option rgb_pixel_t) : string :=
  match pixel with
  | Some p => match ramp_char p with
              | Some ch => String ch (String ch EmptyString)
              | None => EmptyString
              end
  | None => EmptyString
  end.

(** The characters of the first [k] pixels of row [y]. *)
Definition row_text (rgb_buffer : list rgb_pixel_t) (width y k : Z) : string :=
  fold_left (fun acc x => (acc ++ pixel_text (read rgb_buffer (y * width + x)))%string)
            (seqZ 0 k) EmptyString.

(** What [render_ascii_art] prints before and after the image. *)
Definition render_preamble (e : env) (rgb_buffer : list rgb_pixel_t) (width height : Z)
  : list event :=
  [shell_print "DEBUG: render_ascii_art called with %dx%d image at %p"
               [arg_int width; arg_int height; arg_ptr]]
  ++ match read rgb_buffer 0 with
     | Some first =>
         [shell_print "DEBUG: First pixel RGB values: %d,%d,%d"
            [arg_int (px_r first); arg_int (px_g first); arg_int (px_b first)]]
     | None => []
     end
  ++ snd (memory_alloc e site_line LINE_ALLOC true)
  ++ [shell_fprintf ("ASCII Art Image (%dx%d pixels)" ++ LF)
                    [arg_int width; arg_int height];
      shell_fprintf ("----------------------------------------" ++ LF) []].

Definition render_footer : list event :=
  [shell_fprintf ("----------------------------------------" ++ LF) []].

(** The bytes a row of [width] pixels needs in the line buffer at most:
    twelve per pixel and the reset with colour, two per pixel without,
    and the terminating NUL. *)
Definition line_bytes (color : bool) (width : Z) : Z :=
  if color then 12 * width + 5 else 2 * width + 1.

(** ** Sample environments for the examples *)

(** Every allocation succeeds and the codec knows no format. *)
Definition test_env : env :=
  {| CONFIG_ESP_SPIRAM := false;
     k_malloc := fun _ _ => true;
     shared_multi_heap_alloc := fun _ _ => true;
     stbi_info_from_memory := fun _ => stbi_fail "unknown image type";
     stbi_load_from_memory := fun _ => stbi_fail "unknown image type" |}.

Definition initial_world : world :=
  {| shell_out := []; stbi_failure_reason := ""; stbi__jpeg_decode_reduced := 1 |}.

Definition black_pixel : rgb_pixel_t := {| px_r := 0; px_g := 0; px_b := 0 |}.

(** The configuration with dithering switched off. *)
Definition without_dithering (config : ascii_art_config_t) : ascii_art_config_t :=
  {| use_color := use_color config; use_dithering := false;
     use_extended_chars := use_extended_chars config; color_mode := color_mode config;
     brightness := brightness config; contrast := contrast config |}.

(** The working copy of the ditherer cannot be allocated. *)
Definition no_dither_copy_env : env :=
  {| CONFIG_ESP_SPIRAM := false;
     k_malloc := fun site _ => match site with site_dither_copy => false | _ => true end;
     shared_multi_heap_alloc := fun _ _ => false;
     stbi_info_from_memory := fun _ => stbi_ok (2, 1, 3);
     stbi_load_from_memory := fun _ =>
       stbi_ok (2, 1, [{| px_r := 200; px_g := 100; px_b := 50 |};
                       {| px_r := 10; px_g := 20; px_b := 30 |}]) |}.

(** A buffer that starts with the JPEG magic and is not text. *)
Definition jpeg_bytes : list ascii :=
  ["255"; "216"; "255"; "224"; "000"; "016"; "001"; "002"]%char.

(** The codec reports a picture of 1000x1000 pixels, too large for the
    budget, and fails to decode it for lack of memory. *)
Definition large_image_env : env :=
  {| CONFIG_ESP_SPIRAM := false;
     k_malloc := fun _ _ => true;
     shared_multi_heap_alloc := fun _ _ => false;
     stbi_info_from_memory := fun _ => stbi_ok (1000, 1000, 3);
     stbi_load_from_memory := fun _ => stbi_fail "outofmem" |}.

(** The same picture when no allocation succeeds. *)
Definition exhausted_env : env :=
  {| CONFIG_ESP_SPIRAM := false;
     k_malloc := fun _ _ => false;
     shared_multi_heap_alloc := fun _ _ => false;
     stbi_info_from_memory := fun _ => stbi_ok (1000, 1000, 3);
     stbi_load_from_memory := fun _ => stbi_fail "outofmem" |}.

(** The codec reports a JPEG of 600x600 pixels, 5.4 times the budget of
    200000 bytes, and fails to decode it for lack of memory. *)
Definition square_jpeg_env : env :=
  {| CONFIG_ESP_SPIRAM := false;
     k_malloc := fun _ _ => true;
     shared_multi_heap_alloc := fun _ _ => false;
     stbi_info_from_memory := fun _ => stbi_ok (600, 600, 3);
     stbi_load_from_memory := fun _ => stbi_fail "outofmem" |}.

(** The gradient placeholder in the place of a decoded image. *)
Definition placeholder (w h : Z) : decoded :=
  {| dec_pixels := gradient_placeholder w h; dec_width := w; dec_height := h |}.

(** The codec reports a picture of 200x100 pixels and fails to decode
    it for lack of memory. *)
Definition codec_exhausted_env : env :=
  {| CONFIG_ESP_SPIRAM := false;
     k_malloc := fun _ _ => true;
     shared_multi_heap_alloc := fun _ _ => false;
     stbi_info_from_memory := fun _ => stbi_ok (200, 100, 3);
     stbi_load_from_memory := fun _ => stbi_fail "outofmem" |}.




(** Two byte strings are equal up to the case of their letters. *)
Definition same_ignoring_case (a b : list ascii) : Prop := map tolower a = map tolower b.

(** [ext] stands in [data] at offset [j], in any case. *)
Definition extension_at (data : list ascii) (ext : string) (j : Z) : Prop :=
  same_ignoring_case (take (String.length ext) (drop (Z.to_nat j) data))
                     (list_ascii_of_string ext).

(** ** Vocabulary: the text display *)

(** The line [display_text_content] prints for a chunk. *)
Definition text_line (chunk : list ascii) : event :=
  shell_print "%s" [arg_str (string_of_list_ascii chunk)].

(** A byte as it may stand in a printed chunk: no LF, and no control
    character but CR and TAB. *)
Definition shown_byte (c : ascii) : Prop :=
  byte_val c <> 10 /\ (iscntrl c = true -> byte_val c = 13 \/ byte_val c = 9).

(** A printed chunk: between 1 and 127 bytes, none of them LF or a
    control character other than CR and TAB, and no CR at the end. *)
Definition clean_chunk (chunk : list ascii) : Prop :=
  (0 < length chunk <= 127)%nat /\ Forall shown_byte chunk /\
  forall c, last chunk = Some c -> is_cr_or_lf c = false.

Definition CRLF : list ascii := ["013"; "010"]%char.

(** The lines of a text, each followed by CR LF. *)
Definition text_of_lines (lines : list (list ascii)) : list ascii :=
  concat (map (fun line => line ++ CRLF) lines).

Definition nonempty (line : list ascii) : bool :=
  match line with [] => false | _ => true end.

(** ** Vocabulary: the rendered lines *)

Definition pixel_color (p : rgb_pixel_t) : term_color_t :=
  rgb_to_terminal_color (px_r p) (px_g p) (px_b p).

(** The colour codes in front of the characters of [p], when the pixel
    before it in the row had the colour [prev] ([None] at the start of
    a row). *)
Definition color_change (prev : option term_color_t) (p : rgb_pixel_t) : string :=
  match prev with
  | Some fg => if term_color_eqb (pixel_color p) fg then EmptyString
               else (fg_color_codes (pixel_color p) ++ bg_color_codes BLACK)%string
  | None => (fg_color_codes (pixel_color p) ++ bg_color_codes BLACK)%string
  end.

Fixpoint colored_text (prev : option term_color_t) (pixels : list rgb_pixel_t) : string :=
  match pixels with
  | [] => EmptyString
  | p :: pixels' =>
      (color_change prev p ++ pixel_text (Some p)
       ++ colored_text (Some (pixel_color p)) pixels')%string
  end.

Fixpoint plain_text (pixels : list rgb_pixel_t) : string :=
  match pixels with
  | [] => EmptyString
  | p :: pixels' => (pixel_text (Some p) ++ plain_text pixels')%string
  end.

(** The line of a row of pixels: with colour, a colour code wherever the
    colour differs from that of the pixel before, and the reset at the
    end; without colour, the characters alone. *)
Definition rendered_line (color : bool) (pixels : list rgb_pixel_t) : string :=
  if color
  then (colored_text None pixels
        ++ match pixels with [] => EmptyString | _ => COLOR_RESET end)%string
  else plain_text pixels.

Definition row_pixels (rgb_buffer : list rgb_pixel_t) (width y : Z) : list rgb_pixel_t :=
  take (Z.to_nat width) (drop (Z.to_nat (y * width)) rgb_buffer).

(** The colour of the last pixel of [pixels], or [prev]. *)
Definition last_color (prev : option term_color_t) (pixels : list rgb_pixel_t)
  : option term_color_t :=
  match last pixels with Some q => Some (pixel_color q) | None => prev end.

(** The [float] that [adjust_pixel] converts to [int] for a channel of
    value [v]: [128.0f + (v * brightness - 128.0f) * contrast]. *)
Definition adjusted_value (v : Z) (brightness contrast : f32) : f32 :=
  let r := f32_mul (f32_of_int v) brightness in
  f32_add (f32_of_int 128) (f32_mul (f32_sub r (f32_of_int 128)) contrast).

(** Whenever [m] returns, its result and the world it leaves satisfy [P]. *)
Definition yields {A : Type} (m : M A) (P : A -> world -> Prop) : Prop :=
  forall w a w', m w = Some (a, w') -> P a w'.

(** A return code of the renderer, and after a 0 the footer of an image
    as the last thing printed. *)
Definition render_outcome (r : Z) (w' : world) : Prop :=
  (r = 0 \/ r = - EINVAL \/ r = - ENOMEM) /\
  (r = 0 -> last (shell_out w') =
            Some (shell_fprintf ("----------------------------------------" ++ LF) [])).

(* ================================================================== *)
(** * The Gopher client ([gopher_client.h], [gopher_client.c]) *)
(* ================================================================== *)

Definition GOPHER_MAX_DIR_ITEMS : Z := 64.
Definition GOPHER_MAX_SELECTOR_LEN : Z := 256.
Definition GOPHER_MAX_HOSTNAME_LEN : Z := 64.
Definition GOPHER_DEFAULT_PORT : Z := 70.
Definition UINT16_MAX : Z := 65535.
Definition LONG_MAX : Z := 2 ^ 31 - 1.
Definition LONG_MIN : Z := - 2 ^ 31.

Definition NUL : ascii := "000"%char.
Definition TAB : ascii := "009"%char.
Definition CR : ascii := "013"%char.
Definition NL : ascii := "010"%char.

(** ** Character arrays *)

(** A [char] array is the list of its bytes; a pointer into an array is
    the list of the bytes from there to the end of the array. *)

(** The string an array holds: its bytes before the first NUL. *)
Fixpoint c_str (a : list ascii) : list ascii :=
  match a with
  | [] => []
  | c :: a' => if Ascii.eqb c NUL then [] else c :: c_str a'
  end.

(** [memset(dst, 0, n)] for an array of [n] bytes. *)
Definition zeros (n : Z) : list ascii := replicate (Z.to_nat n) NUL.

(** [strncpy(dst, src, n)]: the first [n] bytes of [dst] become the
    string at [src], cut after [n] bytes or padded with NULs. *)
Definition strncpy (dst src : list ascii) (n : Z) : list ascii :=
  let copied := take (Z.to_nat n) (c_str src) in
  copied ++ replicate (Z.to_nat n - length copied) NUL ++ drop (Z.to_nat n) dst.

(** [memchr(s, c, |s|)]: the offset of the first [c]. *)
Fixpoint memchr (s : list ascii) (c : ascii) : option Z :=
  match s with
  | [] => None
  | d :: s' => if Ascii.eqb d c then Some 0 else Z.succ <$> memchr s' c
  end.

(** [memmem(hay, |hay|, needle, |needle|)]: the offset of the first
    occurrence. *)
Fixpoint memmem_at (hay needle : list ascii) : option Z :=
  if is_prefix needle hay then Some 0
  else match hay with
       | [] => None
       | _ :: hay' => Z.succ <$> memmem_at hay' needle
       end.

(** The bytes [buf[lo .. hi)]. *)
Definition slice (buf : list ascii) (lo hi : Z) : list ascii :=
  take (Z.to_nat (hi - lo)) (drop (Z.to_nat lo) buf).

(** [strtol(s, NULL, 10)] with a 32-bit [long]: white space, a sign,
    then digits; the value saturates. *)
Definition isdigit (c : ascii) : bool := (48 <=? byte_val c) && (byte_val c <=? 57).

Fixpoint strtol_digits (acc : Z) (s : list ascii) : Z :=
  match s with
  | c :: s' => if isdigit c then strtol_digits (10 * acc + (byte_val c - 48)) s' else acc
  | [] => acc
  end.

Fixpoint skip_spaces (s : list ascii) : list ascii :=
  match s with
  | c :: s' => if isspace c then skip_spaces s' else s
  | [] => []
  end.

Definition strtol (s : list ascii) : Z :=
  match skip_spaces (c_str s) with
  | "-"%char :: digits => Z.max LONG_MIN (- strtol_digits 0 digits)
  | "+"%char :: digits => Z.min LONG_MAX (strtol_digits 0 digits)
  | digits => Z.min LONG_MAX (strtol_digits 0 digits)
  end.

(** ** The client structure *)

Record gopher_item : Type := {
  item_type : ascii;
  item_display_string : list ascii;   (* char[GOPHER_MAX_SELECTOR_LEN] *)
  item_selector : list ascii;         (* char[GOPHER_MAX_SELECTOR_LEN] *)
  item_hostname : list ascii;         (* char[GOPHER_MAX_HOSTNAME_LEN] *)
  item_port : Z                       (* uint16_t *)
}.

Record gopher_client : Type := {
  client_hostname : list ascii;       (* char[GOPHER_MAX_HOSTNAME_LEN] *)
  client_port : Z;                    (* uint16_t *)
  connected : bool;
  items : list gopher_item;           (* [GOPHER_MAX_DIR_ITEMS] *)
  item_count : Z;
  history : list (list ascii);        (* char[10][GOPHER_MAX_SELECTOR_LEN] *)
  history_pos : Z;
  history_count : Z
}.

(** An item, and a client, after [memset(.., 0, sizeof ..)]. *)
Definition zero_item : gopher_item :=
  {| item_type := NUL;
     item_display_string := zeros GOPHER_MAX_SELECTOR_LEN;
     item_selector := zeros GOPHER_MAX_SELECTOR_LEN;
     item_hostname := zeros GOPHER_MAX_HOSTNAME_LEN;
     item_port := 0 |}.

Definition zero_items : list gopher_item :=
  replicate (Z.to_nat GOPHER_MAX_DIR_ITEMS) zero_item.

Definition zero_client : gopher_client :=
  {| client_hostname := zeros GOPHER_MAX_HOSTNAME_LEN;
     client_port := 0;
     connected := false;
     items := zero_items;
     item_count := 0;
     history := replicate 10 (zeros GOPHER_MAX_SELECTOR_LEN);
     history_pos := 0;
     history_count := 0 |}.

(** The client is passed by reference and is never [NULL] in the
    program (every caller passes the address of its static client): the
    functions below take its value and return the new one. *)

(** ** gopher_client_init *)

Definition gopher_client_init (client : gopher_client) : Z * gopher_client :=
  (0, {| client_hostname := client_hostname zero_client;
         client_port := GOPHER_DEFAULT_PORT;
         connected := false;
         items := items zero_client;
         item_count := 0;
         history := history zero_client;
         history_pos := 0;
         history_count := 0 |}).

(** ** gopher_connect *)

(** [hostname] is [None] for a [NULL] pointer. *)
Definition gopher_connect (client : gopher_client) (hostname : option (list ascii))
    (port : Z) : Z * gopher_client :=
  match hostname with
  | None => (- EINVAL, client)
  | Some hostname =>
      let client := zero_client in
      let port := if port =? 0 then GOPHER_DEFAULT_PORT else port in
      let name := strncpy (client_hostname client) hostname (GOPHER_MAX_HOSTNAME_LEN - 1) in
      let name := <[63%nat := NUL]> name in
      (0, {| client_hostname := name;
             client_port := port;
             connected := true;
             items := items client;
             item_count := item_count client;
             history := history client;
             history_pos := history_pos client;
             history_count := history_count client |})
  end.

(** ** gopher_update_history *)

(** [selector] is [None] for a [NULL] pointer; [%] truncates toward
    zero, and a slot outside the table is undefined. *)
Definition gopher_update_history (client : gopher_client) (selector : option (list ascii))
  : option (Z * gopher_client) :=
  let count := if history_count client <? 10
               then history_count client + 1 else history_count client in
  let pos := Z.rem (to_int (history_pos client + 1)) 10 in
  _ ← read (history client) pos;
  let slot := zeros GOPHER_MAX_SELECTOR_LEN in
  let slot := match selector with
              | Some selector => strncpy slot selector (GOPHER_MAX_SELECTOR_LEN - 1)
              | None => slot
              end in
  table ← write (history client) pos slot;
  Some (0, {| client_hostname := client_hostname client;
              client_port := client_port client;
              connected := connected client;
              items := items client;
              item_count := item_count client;
              history := table;
              history_pos := pos;
              history_count := count |}).

(** ** gopher_parse_directory *)

(** The item types of RFC 1436 the first byte of a listing is compared
    with, and ['i']. *)
Definition listing_types : list ascii :=
  ["0"; "1"; "2"; "3"; "4"; "5"; "6"; "7"; "8"; "9"; "+"; "T"; "g"; "I"; "i"]%char.

Definition is_listing_type (c : ascii) : bool := existsb (Ascii.eqb c) listing_types.

(** The variables of the parsing loop. *)
Record parse_state : Type := {
  line_start : Z;
  count : Z;
  parsed : list gopher_item     (* client->items *)
}.

(** How an iteration ends. *)
Inductive loop_exit (St : Type) : Type :=
  | continue_with (st : St)
  | break_with (st : St).
Arguments continue_with {St} st.
Arguments break_with {St} st.

(** [if (line_end + 2 <= buffer_end) { line_start = line_end + 2; }
    else break; continue;] *)
Definition next_line (line_end buffer_end : Z) (st : parse_state) : loop_exit parse_state :=
  if line_end + 2 <=? buffer_end
  then continue_with {| line_start := line_end + 2; count := count st; parsed := parsed st |}
  else break_with st.

(** [len = field_end - field_start; if (len >= size) len = size - 1;
    memset(dst, 0, size); if (len > 0) strncpy(dst, field_start, len);
    dst[len] = 0]. *)
Definition copy_field (size : Z) (src : list ascii) (len : Z) : option (list ascii) :=
  let len := if size <=? len then size - 1 else len in
  let dst := zeros size in
  let dst := if 0 <? len then strncpy dst src len else dst in
  write dst len NUL.

Definition set_type (it : gopher_item) (c : ascii) : gopher_item :=
  {| item_type := c; item_display_string := item_display_string it;
     item_selector := item_selector it; item_hostname := item_hostname it;
     item_port := item_port it |}.

Definition set_display_string (it : gopher_item) (s : list ascii) : gopher_item :=
  {| item_type := item_type it; item_display_string := s;
     item_selector := item_selector it; item_hostname := item_hostname it;
     item_port := item_port it |}.

Definition set_selector (it : gopher_item) (s : list ascii) : gopher_item :=
  {| item_type := item_type it; item_display_string := item_display_string it;
     item_selector := s; item_hostname := item_hostname it;
     item_port := item_port it |}.

Definition set_hostname (it : gopher_item) (s : list ascii) : gopher_item :=
  {| item_type := item_type it; item_display_string := item_display_string it;
     item_selector := item_selector it; item_hostname := s;
     item_port := item_port it |}.

Definition set_port (it : gopher_item) (p : Z) : gopher_item :=
  {| item_type := item_type it; item_display_string := item_display_string it;
     item_selector := item_selector it; item_hostname := item_hostname it;
     item_port := p |}.

(** [memchr(field_start, '\t', line_end - field_start)] as an offset
    into the buffer. *)
Definition find_tab (buffer : list ascii) (field_start line_end : Z) : option Z :=
  (fun off => field_start + off) <$> memchr (slice buffer field_start line_end) TAB.

(** One iteration of the [while] loop; the item under construction is
    [client->items[count]], written back at each exit. *)
Definition parse_line (client : gopher_client) (buffer : list ascii) (buffer_end : Z)
    (st : parse_state) : option (loop_exit parse_state) :=
  let line_start := line_start st in
  let count := count st in
  let items := parsed st in
  let at_item (count : Z) (items : list gopher_item) : parse_state :=
    {| line_start := line_start; count := count; parsed := items |} in
  if (line_start <? 0) || (buffer_end <=? line_start) then Some (break_with st) else
  c ← read buffer line_start;
  if Ascii.eqb c NUL then Some (break_with st) else
  let line_end :=
    match memmem_at (slice buffer line_start buffer_end) [CR; NL] with
    | Some off => if line_start + off <? buffer_end then line_start + off else buffer_end
    | None => buffer_end
    end in
  if Ascii.eqb c "."%char && (line_end =? line_start + 1) then Some (break_with st) else
  if line_end <=? line_start then Some (next_line line_end buffer_end st) else
  it ← read items count;
  let it := set_type it c in
  let field_start := line_start + 1 in
  if buffer_end <=? field_start
  then items ← write items count it;
       Some (break_with (at_item count items))
  else
  match find_tab buffer field_start line_end with
  | None =>
      if Ascii.eqb (item_type it) "i"%char then
        display ← copy_field GOPHER_MAX_SELECTOR_LEN
                    (drop (Z.to_nat field_start) buffer) (line_end - field_start);
        let it := set_display_string it display in
        let it := set_selector it (<[0%nat := NUL]> (item_selector it)) in
        let it := set_hostname it
                    (<[63%nat := NUL]>
                       (strncpy (item_hostname it) (client_hostname client)
                          (GOPHER_MAX_HOSTNAME_LEN - 1))) in
        let it := set_port it (client_port client) in
        items ← write items count it;
        Some (next_line line_end buffer_end (at_item (count + 1) items))
      else
        items ← write items count it;
        Some (next_line line_end buffer_end (at_item count items))
  | Some field_end =>
      display ← copy_field GOPHER_MAX_SELECTOR_LEN
                  (drop (Z.to_nat field_start) buffer) (field_end - field_start);
      let it := set_display_string it display in
      let field_start := field_end + 1 in
      if (buffer_end <=? field_start) || (line_end <=? field_start)
      then items ← write items count it;
           Some (next_line line_end buffer_end (at_item count items))
      else
      match find_tab buffer field_start line_end with
      | None => items ← write items count it;
                Some (next_line line_end buffer_end (at_item count items))
      | Some field_end =>
          selector ← copy_field GOPHER_MAX_SELECTOR_LEN
                       (drop (Z.to_nat field_start) buffer) (field_end - field_start);
          let it := set_selector it selector in
          let field_start := field_end + 1 in
          if (buffer_end <=? field_start) || (line_end <=? field_start)
          then items ← write items count it;
               Some (next_line line_end buffer_end (at_item count items))
          else
          match find_tab buffer field_start line_end with
          | None => items ← write items count it;
                    Some (next_line line_end buffer_end (at_item count items))
          | Some field_end =>
              hostname ← copy_field GOPHER_MAX_HOSTNAME_LEN
                           (drop (Z.to_nat field_start) buffer) (field_end - field_start);
              let it := set_hostname it hostname in
              let field_start := field_end + 1 in
              if (buffer_end <=? field_start) || (line_end <=? field_start)
              then items ← write items count it;
                   Some (next_line line_end buffer_end (at_item count items))
              else
              let len := MIN (line_end - field_start) (16 - 1) in
              port ←
                (if 0 <? len then
                   port_str ← write (strncpy (zeros 16)
                                       (drop (Z.to_nat field_start) buffer) len)
                                len NUL;
                   let port_val := strtol port_str in
                   Some (if (port_val <=? 0) || (UINT16_MAX <? port_val)
                         then GOPHER_DEFAULT_PORT else port_val)
                 else Some GOPHER_DEFAULT_PORT);
              let it := set_port it port in
              items ← write items count it;
              Some (next_line line_end buffer_end (at_item (count + 1) items))
          end
      end
  end.

(** [while (line_start < buffer_end && count < GOPHER_MAX_DIR_ITEMS)];
    [None] also when [fuel] iterations do not reach the end. *)
Fixpoint parse_lines (fuel : nat) (client : gopher_client) (buffer : list ascii)
    (buffer_end : Z) (st : parse_state) : option parse_state :=
  if (line_start st <? buffer_end) && (count st <? GOPHER_MAX_DIR_ITEMS) then
    match fuel with
    | O => None
    | S fuel' =>
        match parse_line client buffer buffer_end st with
        | Some (continue_with st') => parse_lines fuel' client buffer buffer_end st'
        | Some (break_with st') => Some st'
        | None => None
        end
    end
  else Some st.

Definition with_items (client : gopher_client) (its : list gopher_item) (n : Z)
  : gopher_client :=
  {| client_hostname := client_hostname client;
     client_port := client_port client;
     connected := connected client;
     items := its;
     item_count := n;
     history := history client;
     history_pos := history_pos client;
     history_count := history_count client |}.

(** [buffer] holds the bytes at the pointer ([None] for [NULL]); the
    string ends at the first NUL, or with the list. *)
Definition gopher_parse_directory (client : gopher_client) (buffer : option (list ascii))
  : option (Z * gopher_client) :=
  match buffer with
  | None => Some (- EINVAL, client)
  | Some buffer =>
      let buffer_len := Z.of_nat (length (c_str buffer)) in
      if buffer_len =? 0 then Some (0, client) else
      let buffer_end := buffer_len in
      let client := with_items client zero_items 0 in
      first_char ← read buffer 0;
      let is_dir_listing :=
        is_listing_type first_char && existsb (Ascii.eqb TAB) (c_str buffer) in
      if negb is_dir_listing then Some (0, client) else
      st ← parse_lines (S (length buffer)) client buffer buffer_end
             {| line_start := 0; count := 0; parsed := items client |};
      Some (count st, with_items client (parsed st) (count st))
  end.

(** ** gopher_type_to_str *)

Definition gopher_type_to_str (type : ascii) : string :=
  match type with
  | "0"%char => "Text File"%string
  | "1"%char => "Directory"%string
  | "2"%char => "CSO Phone-book Server"%string
  | "3"%char => "Error"%string
  | "4"%char => "BinHexed Macintosh File"%string
  | "5"%char => "DOS Binary"%string
  | "6"%char => "UNIX uuencoded File"%string
  | "7"%char => "Search Server"%string
  | "8"%char => "Telnet Session"%string
  | "9"%char => "Binary File"%string
  | "+"%char => "Redundant Server"%string
  | "T"%char => "TN3270 Session"%string
  | "g"%char => "GIF Image (g)"%string
  | "I"%char => "Image (I)"%string
  | "i"%char => "Info Line"%string
  | _ => "Unknown"%string
  end.

(** ** Vocabulary: sequences of calls *)

(** [gopher_update_history] called with each selector in turn. *)
Fixpoint record_history (client : gopher_client) (selectors : list (list ascii))
  : option gopher_client :=
  match selectors with
  | [] => Some client
  | selector :: rest =>
      r ← gopher_update_history client (Some selector);
      record_history (snd r) rest
  end.

(** ** Vocabulary: the parsing loop *)

(** What an iteration may change: the item at [count], and [count] by
    at most one. *)
Definition advance (st st' : parse_state) : Prop :=
  count st <= count st' <= count st + 1 /\
  length (parsed st') = length (parsed st) /\
  forall i, i <> Z.to_nat (count st) -> parsed st' !! i = parsed st !! i.

Definition exit_ok (buffer_end : Z) (st : parse_state) (ex : loop_exit parse_state) : Prop :=
  match ex with
  | continue_with st' => advance st st' /\ line_start st + 2 <= line_start st' <= buffer_end
  | break_with st' => advance st st'
  end.

(** ** Vocabulary: directory listings *)

(** The decimal digits of a number below [10^15]. *)
Fixpoint decimal_digits (fuel : nat) (n : Z) (acc : list ascii) : list ascii :=
  let acc := ascii_of_nat (Z.to_nat (48 + n mod 10)) :: acc in
  match fuel with
  | O => acc
  | S fuel' => if n <? 10 then acc else decimal_digits fuel' (n / 10) acc
  end.

Definition decimal (n : Z) : list ascii := decimal_digits 14 n [].

(** A line of a listing: an item with its four fields, or an info line
    that has no fields. *)
Inductive listing_line : Type :=
  | item_line (type : ascii) (display selector host : list ascii) (port : Z)
  | info_line (display : list ascii).

Definition line_type (l : listing_line) : ascii :=
  match l with
  | item_line type _ _ _ _ => type
  | info_line _ => "i"%char
  end.

Definition line_text (l : listing_line) : list ascii :=
  match l with
  | item_line type display selector host port =>
      type :: display ++ TAB :: selector ++ TAB :: host ++ TAB :: decimal port
  | info_line display => "i"%char :: display
  end.

(** Each line is followed by CR LF. *)
Definition listing_bytes (lines : list listing_line) : list ascii :=
  flat_map (fun l => line_text l ++ [CR; NL]) lines.

(** No NUL, TAB, CR or LF. *)
Definition field_char (c : ascii) : Prop :=
  c <> NUL /\ c <> TAB /\ c <> CR /\ c <> NL.

Definition well_formed (l : listing_line) : Prop :=
  match l with
  | item_line type display selector host port =>
      field_char type /\ Forall field_char display /\ Forall field_char selector /\
      Forall field_char host /\ 0 <= port < 10 ^ 15
  | info_line display => Forall field_char display
  end.

(** What follows the last line: the end of the string, or the line
    with the single period and anything after it. *)
Definition listing_end (tail : list ascii) : Prop :=
  c_str tail = [] \/ exists rest, tail = "."%char :: CR :: NL :: rest.

(** The type, the three strings and the port of an item. *)
Definition item_strings (it : gopher_item)
  : ascii * list ascii * list ascii * list ascii * Z :=
  (item_type it, c_str (item_display_string it), c_str (item_selector it),
   c_str (item_hostname it), item_port it).

(** The item a line stands for, as the client [client] reads it. *)
Definition line_item (client : gopher_client) (l : listing_line)
  : ascii * list ascii * list ascii * list ascii * Z :=
  match l with
  | item_line type display selector host port =>
      (type, take 255 display, take 255 selector, take 63 host,
       if (1 <=? port) && (port <=? 65535) then port else 70)
  | info_line display =>
      ("i"%char, take 255 display, [], take 63 (c_str (client_hostname client)),
       client_port client)
  end.

(** The array of [size] bytes that holds the string [s]. *)
Definition field_array (size : Z) (s : list ascii) : list ascii :=
  s ++ replicate (Z.to_nat size - length s) NUL.

Definition parsed_item (client : gopher_client) (l : listing_line) : gopher_item :=
  match l with
  | item_line type display selector host port =>
      {| item_type := type;
         item_display_string := field_array GOPHER_MAX_SELECTOR_LEN (take 255 display);
         item_selector := field_array GOPHER_MAX_SELECTOR_LEN (take 255 selector);
         item_hostname := field_array GOPHER_MAX_HOSTNAME_LEN (take 63 host);
         item_port := if (1 <=? port) && (port <=? 65535) then port else 70 |}
  | info_line display =>
      {| item_type := "i"%char;
         item_display_string := field_array GOPHER_MAX_SELECTOR_LEN (take 255 display);
         item_selector := zeros GOPHER_MAX_SELECTOR_LEN;
         item_hostname := field_array GOPHER_MAX_HOSTNAME_LEN
                            (take 63 (c_str (client_hostname client)));
         item_port := client_port client |}
  end.

(** ** The network *)

Definition GOPHER_BUFFER_SIZE : Z := 16384.

(** Zephyr's errno values. *)
Definition EFAULT : Z := 14.
Definition ENODATA : Z := 61.
Definition EHOSTUNREACH : Z := 118.
Definition ESOCKTNOSUPPORT : Z := 124.
Definition ENOTCONN : Z := 128.
Definition ENOTSUP : Z := 134.

(** The calls of the sockets API the client makes ([zsock_setsockopt]
    and [zsock_freeaddrinfo], whose results it ignores, are left out). *)
Inductive net_call : Type :=
  | call_inet_pton (host : list ascii)
  | call_getaddrinfo (host : list ascii)
  | call_socket
  | call_connect (port : Z)
  | call_send (request : list ascii)
  | call_recv
  | call_close.

(** What [zsock_recv] answers: a negative value, or the bytes it
    stored (none when the server closed the connection). *)
Inductive recv_result : Type :=
  | recv_error
  | recv_bytes (data : list ascii).

(** The network: the answer to a call may depend on the calls made
    before it.  [net_connect] and [net_send] answer [Some errno] when
    the call fails. *)
Record net_env : Type := {
  net_inet_pton : list net_call -> list ascii -> bool;      (* result == 1 *)
  net_getaddrinfo : list net_call -> list ascii -> bool;    (* result == 0 *)
  net_socket : list net_call -> bool;                       (* result >= 0 *)
  net_connect : list net_call -> Z -> option positive;
  net_send : list net_call -> list ascii -> option positive;
  net_recv : list net_call -> recv_result
}.

(** ** gopher_send_selector *)

(** The variables of the receive loop. *)
Record recv_state : Type := {
  total_received : Z;
  recv_attempts : Z;
  recv_into : list ascii;        (* buffer *)
  recv_trace : list net_call
}.

(** One iteration of [while (recv_attempts < 3)]: [zsock_recv] is asked
    for at most 127 bytes; [None] when [memcpy] or the store of the
    terminator leaves the buffer. *)
Definition recv_step (net : net_env) (buffer_size : Z) (st : recv_state)
  : option (loop_exit recv_state) :=
  let trace := recv_trace st ++ [call_recv] in
  let total_received := total_received st in
  let buffer := recv_into st in
  let stop := {| total_received := total_received;
                 recv_attempts := recv_attempts st;
                 recv_into := buffer;
                 recv_trace := trace |} in
  match net_recv net (recv_trace st) with
  | recv_error =>
      Some (continue_with {| total_received := total_received;
                             recv_attempts := to_int (recv_attempts st + 1);
                             recv_into := buffer;
                             recv_trace := trace |})
  | recv_bytes data =>
      let recv_buffer := take 127 data in
      let bytes_read := Z.of_nat (length recv_buffer) in
      if bytes_read =? 0 then Some (break_with stop) else
      let store (bytes_read : Z) : option (loop_exit recv_state) :=
        if (total_received <? 0) || (bytes_read <? 0)
           || (Z.of_nat (length buffer) <? total_received + bytes_read)
        then None else
        let buffer := take (Z.to_nat total_received) buffer
                      ++ take (Z.to_nat bytes_read) recv_buffer
                      ++ drop (Z.to_nat (total_received + bytes_read)) buffer in
        let total_received := to_int (total_received + bytes_read) in
        buffer ← write buffer total_received NUL;
        if to_size_t (buffer_size - 1) <=? to_size_t total_received
        then Some (break_with {| total_received := total_received;
                                 recv_attempts := recv_attempts st;
                                 recv_into := buffer; recv_trace := trace |})
        else Some (continue_with {| total_received := total_received;
                                    recv_attempts := 0;
                                    recv_into := buffer; recv_trace := trace |}) in
      if buffer_size <=? to_size_t (to_int (total_received + bytes_read))
      then
        let bytes_read := to_int (buffer_size - total_received - 1) in
        if bytes_read <=? 0 then Some (break_with stop) else store bytes_read
      else store bytes_read
  end.

Fixpoint recv_loop (fuel : nat) (net : net_env) (buffer_size : Z) (st : recv_state)
  : option recv_state :=
  if recv_attempts st <? 3 then
    match fuel with
    | O => None
    | S fuel' =>
        match recv_step net buffer_size st with
        | Some (continue_with st') => recv_loop fuel' net buffer_size st'
        | Some (break_with st') => Some st'
        | None => None
        end
    end
  else Some st.

(** The request: the selector, cut to 125 bytes, and CR LF. *)
Definition request_of (selector : option (list ascii)) : list ascii :=
  match selector with
  | None => [CR; NL]
  | Some selector =>
      let req_len := Z.of_nat (length (c_str selector)) in
      let req_len := if 128 - 3 <? req_len then 128 - 3 else req_len in
      take (Z.to_nat req_len) (c_str selector) ++ [CR; NL]
  end.

(** The update of the history at the end of [gopher_send_selector]. *)
Definition push_history (client : gopher_client) (selector : option (list ascii))
  : option gopher_client :=
  let count := if history_count client <? 10
               then history_count client + 1 else history_count client in
  let pos := Z.rem (to_int (history_pos client + 1)) 10 in
  slot ← read (history client) pos;
  let slot := match selector with
              | Some selector =>
                  strncpy (zeros GOPHER_MAX_SELECTOR_LEN) selector
                    (GOPHER_MAX_SELECTOR_LEN - 1)
              | None => <[0%nat := NUL]> slot
              end in
  table ← write (history client) pos slot;
  Some {| client_hostname := client_hostname client;
          client_port := client_port client;
          connected := connected client;
          items := items client;
          item_count := item_count client;
          history := table;
          history_pos := pos;
          history_count := count |}.

(** The result of a call: the return value, the client, the buffer and
    the calls made so far. *)
Record sent : Type := {
  sent_ret : Z;
  sent_client : gopher_client;
  sent_buffer : list ascii;
  sent_trace : list net_call
}.

(** [buffer] has [buffer_size] bytes; [selector] is [None] for [NULL].
    [None]: a load or store outside an array. *)
Definition gopher_send_selector (net : net_env) (trace : list net_call)
    (client : gopher_client) (selector : option (list ascii))
    (buffer : list ascii) (buffer_size : Z) : option sent :=
  let give (ret : Z) (buffer : list ascii) (trace : list net_call) : option sent :=
    Some {| sent_ret := ret; sent_client := client; sent_buffer := buffer;
            sent_trace := trace |} in
  if buffer_size =? 0 then give (- EINVAL) buffer trace else
  c ← read (client_hostname client) 0;
  if negb (connected client) || Ascii.eqb c NUL
  then give (- ENOTCONN) buffer trace else
  let buffer := zeros buffer_size in
  let host := c_str (client_hostname client) in
  let is_address := net_inet_pton net trace host in
  let trace := trace ++ [call_inet_pton host] in
  let resolved := is_address || net_getaddrinfo net trace host in
  let trace := if is_address then trace else trace ++ [call_getaddrinfo host] in
  if negb resolved then give (- EHOSTUNREACH) buffer trace else
  let sock := net_socket net trace in
  let trace := trace ++ [call_socket] in
  if negb sock then give (- ESOCKTNOSUPPORT) buffer trace else
  match net_connect net trace (client_port client) with
  | Some errno =>
      give (- Z.pos errno) buffer (trace ++ [call_connect (client_port client); call_close])
  | None =>
      let trace := trace ++ [call_connect (client_port client)] in
      let request := request_of selector in
      match net_send net trace request with
      | Some errno => give (- Z.pos errno) buffer (trace ++ [call_send request; call_close])
      | None =>
          let trace := trace ++ [call_send request] in
          st ← recv_loop (Z.to_nat (4 * buffer_size)) net buffer_size
                 {| total_received := 0; recv_attempts := 0;
                    recv_into := buffer; recv_trace := trace |};
          let trace := recv_trace st ++ [call_close] in
          if 0 <? total_received st then
            client ← push_history client selector;
            Some {| sent_ret := total_received st; sent_client := client;
                    sent_buffer := recv_into st; sent_trace := trace |}
          else give (total_received st) (recv_into st) trace
      end
  end.

(** ** Vocabulary: the receive loop *)

(** The buffer holds the [total_received] bytes received so far and is
    zero after them, with room for the terminator. *)
Definition recv_inv (buffer_size : Z) (st : recv_state) : Prop :=
  0 <= total_received st < buffer_size /\
  0 <= recv_attempts st <= 3 /\
  exists data,
    Z.of_nat (length data) = total_received st /\
    recv_into st = data ++ zeros (buffer_size - total_received st).

(** What is left to do: three failures in a row end the loop, a byte
    received fills the buffer. *)
Definition recv_measure (buffer_size : Z) (st : recv_state) : Z :=
  3 * (buffer_size - 1 - total_received st) + (3 - recv_attempts st).

(** ** Sample network *)

(** The request the server is answering, and the number of [recv]
    calls made since it was sent. *)
Fixpoint last_request (trace : list net_call) (request : list ascii) (n : nat)
  : list ascii * nat :=
  match trace with
  | [] => (request, n)
  | call_send r :: trace' => last_request trace' r 0
  | call_recv :: trace' => last_request trace' request (S n)
  | _ :: trace' => last_request trace' request n
  end.

(** A network in which names resolve and no call fails; the server
    answers a request with [server request], delivered 127 bytes at a
    time, and closes the connection. *)
Definition served_net (server : list ascii -> list ascii) : net_env :=
  {| net_inet_pton := fun _ _ => false;
     net_getaddrinfo := fun _ _ => true;
     net_socket := fun _ => true;
     net_connect := fun _ _ => None;
     net_send := fun _ _ => None;
     net_recv := fun trace =>
       let (request, n) := last_request trace [] 0 in
       recv_bytes (take 127 (drop (127 * n) (server request))) |}.

(** A client connected to [example.org]. *)
Definition sample_client : gopher_client :=
  snd (gopher_connect zero_client (Some (list_ascii_of_string "example.org")) 0).

(* ================================================================== *)
(** * The shell commands ([gopher_shell.c]) *)
(* ================================================================== *)

Definition COLOR_RED : string := ESC ++ "[31m".
Definition COLOR_GREEN : string := ESC ++ "[32m".
Definition COLOR_YELLOW : string := ESC ++ "[33m".
Definition COLOR_BLUE : string := ESC ++ "[34m".
Definition COLOR_MAGENTA : string := ESC ++ "[35m".
Definition COLOR_CYAN : string := ESC ++ "[36m".
Definition COLOR_WHITE : string := ESC ++ "[37m".

(** The statics of the file, and the calls made to the network so far. *)
Record shell_state : Type := {
  shell_client : gopher_client;        (* client *)
  gopher_buffer : list ascii;          (* char[GOPHER_BUFFER_SIZE] *)
  client_initialized : bool;
  net_trace : list net_call
}.

Definition set_client (st : shell_state) (client : gopher_client) : shell_state :=
  {| shell_client := client; gopher_buffer := gopher_buffer st;
     client_initialized := client_initialized st; net_trace := net_trace st |}.

Definition set_buffer (st : shell_state) (buffer : list ascii) : shell_state :=
  {| shell_client := shell_client st; gopher_buffer := buffer;
     client_initialized := client_initialized st; net_trace := net_trace st |}.

Definition set_initialized (st : shell_state) (b : bool) : shell_state :=
  {| shell_client := shell_client st; gopher_buffer := gopher_buffer st;
     client_initialized := b; net_trace := net_trace st |}.

(** The string at a pointer, as a [%s] argument. *)
Definition arg_c_str (a : list ascii) : fmt_arg := arg_str (string_of_list_ascii (c_str a)).

(** A [%c] argument. *)
Definition arg_char (c : ascii) : fmt_arg := arg_int (byte_val c).

(** [strcmp(a, b) == 0]. *)
Fixpoint same_bytes (a b : list ascii) : bool :=
  match a, b with
  | [], [] => true
  | x :: a', y :: b' => Ascii.eqb x y && same_bytes a' b'
  | _, _ => false
  end.

Definition strcmp_eq (a b : list ascii) : bool := same_bytes (c_str a) (c_str b).

(** [atoi]. *)
Definition atoi (s : list ascii) : Z := to_int (strtol s).

(** The items the loops [for (i = 0; i < client.item_count; i++)]
    visit; [None] when the count exceeds the table. *)
Definition listed_items (client : gopher_client) : option (list gopher_item) :=
  if item_count client <=? Z.of_nat (length (items client))
  then Some (take (Z.to_nat (item_count client)) (items client))
  else None.

(** ** gopher_count_info_items *)

Fixpoint count_info_loop (its : list gopher_item) (info_count : Z) : Z :=
  match its with
  | [] => info_count
  | it :: its' =>
      count_info_loop its'
        (if Ascii.eqb (item_type it) "i" then to_int (info_count + 1) else info_count)
  end.

Definition gopher_count_info_items (client : gopher_client) : option Z :=
  its ← listed_items client;
  Some (count_info_loop its 0).

(** ** ensure_client_initialized *)

Definition ensure_client_initialized (st : shell_state) : M (Z * shell_state) :=
  let initialize (st : shell_state) : M (Z * shell_state) :=
    let (r, client) := gopher_client_init (shell_client st) in
    if r <? 0 then
      emit (shell_error "Failed to initialize Gopher client: %d" [arg_int r]) ;;
      ret (r, set_client st client)
    else
      let st := set_buffer (set_client st client) (zeros GOPHER_BUFFER_SIZE) in
      ret (0, set_initialized st true) in
  if client_initialized st then
    inconsistent <-
      (if connected (shell_client st)
       then c <- lift_option (read (client_hostname (shell_client st)) 0) ;;
            ret (Ascii.eqb c NUL)
       else ret false) ;;
    if inconsistent then
      emit (shell_print "Reinitializing client due to inconsistent state" []) ;;
      initialize (set_initialized (set_client st zero_client) false)
    else ret (0, st)
  else initialize st.

(** ** Showing a response *)

(** The colour and the tag of an item type in a listing. *)
Definition type_tag (type : ascii) : string * string :=
  match type with
  | "1"%char => (COLOR_BLUE, "DIR"%string)
  | "0"%char => (COLOR_WHITE, "TXT"%string)
  | "7"%char => (COLOR_GREEN, "SRC"%string)
  | "I"%char => (COLOR_MAGENTA, "IMG"%string)
  | "g"%char => (COLOR_MAGENTA, "IMG"%string)
  | "9"%char => (COLOR_YELLOW, "BIN"%string)
  | "3"%char => (COLOR_RED, "ERR"%string)
  | _ => (COLOR_CYAN, "UNK"%string)
  end.

(** The loop that prints a listing; [indent] is what the command puts
    in front of an info line. *)
Fixpoint listing_lines (indent : string) (its : list gopher_item) (item_index : Z)
  : list event :=
  match its with
  | [] => []
  | it :: its' =>
      if Ascii.eqb (item_type it) "i" then
        shell_fprintf (indent ++ "%s%s%s" ++ LF)
          [arg_str COLOR_GREEN; arg_c_str (item_display_string it); arg_str COLOR_RESET]
        :: listing_lines indent its' item_index
      else
        let item_index := to_int (item_index + 1) in
        shell_fprintf ("%2d: %s[%s]%s %s" ++ LF)
          [arg_int item_index; arg_str (fst (type_tag (item_type it)));
           arg_str (snd (type_tag (item_type it))); arg_str COLOR_RESET;
           arg_c_str (item_display_string it)]
        :: listing_lines indent its' item_index
  end.

Definition show_directory (indent : string) (client : gopher_client) : M unit :=
  emit (shell_fprintf ("Gopher Directory: %s%s%s" ++ LF)
          [arg_str COLOR_BLUE; arg_c_str (client_hostname client); arg_str COLOR_RESET]) ;;
  emit (shell_fprintf ("---------------------------------------------" ++ LF) []) ;;
  its <- lift_option (listed_items client) ;;
  emit_all (listing_lines indent its 0) ;;
  emit (shell_fprintf ("---------------------------------------------" ++ LF) []) ;;
  emit (shell_print "Use 'gopher view <index>' to view an item" []).

(** The [while] loop over the lines of the string in the buffer: [text]
    is the string at [line_start]. *)
Fixpoint text_lines (fuel : nat) (text : list ascii) : option (list event) :=
  match text with
  | [] => Some []
  | _ :: _ =>
      match memmem_at text [CR; NL] with
      | None =>
          Some [shell_fprintf ("%s%s%s" ++ LF)
                  [arg_str COLOR_GREEN; arg_str (string_of_list_ascii text);
                   arg_str COLOR_RESET]]
      | Some line_len =>
          match fuel with
          | O => None
          | S fuel' =>
              let shown := if GOPHER_BUFFER_SIZE <=? line_len
                           then GOPHER_BUFFER_SIZE - 1 else line_len in
              rest ← text_lines fuel' (drop (Z.to_nat (line_len + 2)) text);
              Some (shell_fprintf ("%s%s%s" ++ LF)
                      [arg_str COLOR_GREEN;
                       arg_str (string_of_list_ascii (take (Z.to_nat shown) text));
                       arg_str COLOR_RESET]
                    :: rest)
          end
      end
  end.

Definition show_text (client : gopher_client) (buffer : list ascii) : M unit :=
  emit (shell_fprintf ("Gopher Text: %s%s%s" ++ LF)
          [arg_str COLOR_BLUE; arg_c_str (client_hostname client); arg_str COLOR_RESET]) ;;
  emit (shell_fprintf ("---------------------------------------------" ++ LF) []) ;;
  lines <- lift_option (text_lines (length buffer) (c_str buffer)) ;;
  emit_all lines ;;
  emit (shell_fprintf ("---------------------------------------------" ++ LF) []).

(** The configuration the commands render with. *)
Definition shell_config : ascii_art_config_t :=
  {| use_color := true; use_dithering := true; use_extended_chars := false;
     color_mode := 8; brightness := f32_one; contrast := f32_one |}.

(** [if (gopher_is_image(gopher_buffer, size)) { .. } else { .. }]: the
    classifier and the renderer see the first [size] bytes of the
    buffer; the result of the renderer is dropped.  [announce] is the
    line the command prints before rendering. *)
Definition show_image_or_text (e : env) (announce : string) (client : gopher_client)
    (buffer : list ascii) (size : Z) : M unit :=
  let data := take (Z.to_nat (to_size_t size)) buffer in
  is_image <- lift_option (gopher_is_image data) ;;
  if is_image then
    emit (shell_print announce []) ;;
    gopher_render_image e data (Some shell_config) ;;
    ret tt
  else show_text client buffer.

(** A call of [gopher_send_selector] on the statics. *)
Definition send_selector (net : net_env) (st : shell_state)
    (selector : option (list ascii)) : M (Z * shell_state) :=
  r <- lift_option (gopher_send_selector net (net_trace st) (shell_client st) selector
                      (gopher_buffer st) GOPHER_BUFFER_SIZE) ;;
  ret (sent_ret r,
       {| shell_client := sent_client r; gopher_buffer := sent_buffer r;
          client_initialized := client_initialized st; net_trace := sent_trace r |}).

(** A call of [gopher_parse_directory] on the statics. *)
Definition parse_directory (st : shell_state) : M (Z * shell_state) :=
  r <- lift_option (gopher_parse_directory (shell_client st) (Some (gopher_buffer st))) ;;
  ret (fst r, set_client st (snd r)).

(** ** cmd_gopher_get *)

(** [argv] holds the words of the command; [argc] is its length. *)
Definition cmd_gopher_get (e : env) (net : net_env) (argv : list (list ascii))
    (st : shell_state) : M (Z * shell_state) :=
  r <- ensure_client_initialized st ;;
  let (init, st) := r : Z * shell_state in
  if negb (init =? 0) then ret (- EFAULT, st) else
  if negb (connected (shell_client st)) then
    emit (shell_error "Not connected to a Gopher server. Use 'gopher connect' first." []) ;;
    ret (- ENOTCONN, st)
  else
  let selector := match argv with _ :: arg1 :: _ => Some arg1 | _ => None end in
  emit (shell_print "Requesting '%s' from %s:%d..."
          [arg_c_str (default (list_ascii_of_string "(root)") selector);
           arg_c_str (client_hostname (shell_client st));
           arg_int (client_port (shell_client st))]) ;;
  r <- send_selector net st selector ;;
  let (received, st) := r : Z * shell_state in
  if received <? 0 then
    emit (shell_error "Failed to get response from server: %d" [arg_int received]) ;;
    ret (received, st)
  else
  r <- parse_directory st ;;
  let (parsed, st) := r : Z * shell_state in
  (if 0 <? parsed then show_directory "          " (shell_client st)
   else show_image_or_text e "Detected image file, rendering as ASCII art..."
          (shell_client st) (gopher_buffer st) parsed) ;;
  ret (0, st).

(** ** cmd_gopher_view *)

(** The loop that turns the number the user gave into a position in the
    table: the state is [index], [real_index] and [info_count], the
    result [index] and [info_count]. *)
Fixpoint translate_loop (its : list gopher_item) (i index real_index info_count : Z)
  : Z * Z :=
  match its with
  | [] => (index, info_count)
  | it :: its' =>
      if Ascii.eqb (item_type it) "i"
      then translate_loop its' (i + 1) index real_index (to_int (info_count + 1))
      else if real_index =? index then (i, info_count)
      else translate_loop its' (i + 1) index (to_int (real_index + 1)) info_count
  end.

Definition translate_index (client : gopher_client) (index : Z) : option (Z * Z) :=
  its ← listed_items client;
  Some (translate_loop its 0 index 0 0).

(** [client.items[index]], read when it is used: [selector] and
    [hostname] are pointers into the table. *)
Definition item_at (st : shell_state) (index : Z) : M gopher_item :=
  lift_option (read (items (shell_client st)) index).

(** The block that runs when the item is on another server. *)
Definition switch_server (st : shell_state) (index port : Z) : M (Z * shell_state) :=
  it <- item_at st index ;;
  emit (shell_print "Item is on a different server (%s:%d). Connecting..."
          [arg_c_str (item_hostname it); arg_int port]) ;;
  let client := shell_client st in
  let history_backup := history client in
  let history_pos_backup := history_pos client in
  let history_count_backup := history_count client in
  let client :=
    {| client_hostname := client_hostname zero_client;
       client_port := GOPHER_DEFAULT_PORT;
       connected := false;
       items := items zero_client;
       item_count := 0;
       history := history_backup;
       history_pos := history_pos_backup;
       history_count := history_count_backup |} in
  let st := set_buffer (set_client st client) (zeros GOPHER_BUFFER_SIZE) in
  it <- item_at st index ;;
  let (r, client) := gopher_connect (shell_client st) (Some (item_hostname it)) port in
  let st := set_client st client in
  if r <? 0 then
    it <- item_at st index ;;
    emit (shell_error "Failed to connect to server %s:%d: %d"
            [arg_c_str (item_hostname it); arg_int port; arg_int r]) ;;
    ret (r, st)
  else ret (0, st).

Definition cmd_gopher_view (e : env) (net : net_env) (argv : list (list ascii))
    (st : shell_state) : M (Z * shell_state) :=
  match argv with
  | _ :: arg1 :: _ =>
      r <- ensure_client_initialized st ;;
      let (init, st) := r : Z * shell_state in
      if negb (init =? 0) then ret (- EFAULT, st) else
      let client := shell_client st in
      if negb (connected client) then
        emit (shell_error "Not connected to a Gopher server. Use 'gopher connect' first." []) ;;
        ret (- ENOTCONN, st)
      else if item_count client =? 0 then
        emit (shell_error "No items in current directory. Use 'gopher get' first." []) ;;
        ret (- ENODATA, st)
      else
      let index := atoi arg1 in
      if index <? 1 then
        n <- lift_option (gopher_count_info_items client) ;;
        emit (shell_error "Invalid item index. Must be between 1 and %d"
                [arg_int (to_int (item_count client - n))]) ;;
        ret (- EINVAL, st)
      else
      let index := to_int (index - 1) in
      found <- lift_option (translate_index client index) ;;
      let (index, info_count) := found : Z * Z in
      emit (shell_print
              "DEBUG: User requested index %d, translated to index %d of %d items (after %d info items)"
              [arg_int (atoi arg1); arg_int index; arg_int (item_count client);
               arg_int info_count]) ;;
      if (index <? 0) || (item_count client <=? index) then
        emit (shell_error "Invalid item index. Must be between 1 and %d"
                [arg_int (to_int (item_count client - info_count))]) ;;
        ret (- EINVAL, st)
      else
      it <- item_at st index ;;
      let port := item_port it in
      emit (shell_print "DEBUG: Selected item - Type: %c, Hostname: %s, Port: %d, Selector: %s"
              [arg_char (item_type it); arg_c_str (item_hostname it); arg_int port;
               arg_c_str (item_selector it)]) ;;
      r <- (if negb (strcmp_eq (item_hostname it) (client_hostname client))
               || negb (port =? client_port client)
            then switch_server st index port
            else ret (0, st)) ;;
      let (switched, st) := r : Z * shell_state in
      if switched <? 0 then ret (switched, st) else
      it <- item_at st index ;;
      let type := item_type it in
      if Ascii.eqb type "8" || Ascii.eqb type "T" then
        emit (shell_print "Telnet sessions are not supported in this client" []) ;;
        ret (- ENOTSUP, st)
      else if Ascii.eqb type "9" || Ascii.eqb type "5" || Ascii.eqb type "4"
              || Ascii.eqb type "6" then
        emit (shell_print "Binary files are not supported in this client" []) ;;
        ret (- ENOTSUP, st)
      else
      when (Ascii.eqb type "g" || Ascii.eqb type "I")
        (emit (shell_print "Fetching image file for rendering..." [])) ;;
      emit (shell_print "Requesting item %d: '%s' (%c) from %s:%d..."
              [arg_int (atoi arg1); arg_c_str (item_display_string it); arg_char type;
               arg_c_str (client_hostname (shell_client st));
               arg_int (client_port (shell_client st))]) ;;
      r <- send_selector net st (Some (item_selector it)) ;;
      let (received, st) := r : Z * shell_state in
      if received <? 0 then
        emit (shell_error "Failed to get response from server: %d" [arg_int received]) ;;
        ret (received, st)
      else
      it <- item_at st index ;;
      (if Ascii.eqb (item_type it) "1" then
         r <- parse_directory st ;;
         let (parsed, st) := r : Z * shell_state in
         (if 0 <? parsed then show_directory "    " (shell_client st)
          else
            emit (shell_error "Failed to parse directory listing or empty directory" []) ;;
            emit (shell_print "Raw response:" []) ;;
            emit (shell_print "-------------" []) ;;
            emit (shell_print "%s" [arg_c_str (gopher_buffer st)])) ;;
         ret (0, st)
       else
         show_image_or_text e "Detected image file, rendering as ASCII art..."
           (shell_client st) (gopher_buffer st) received ;;
         ret (0, st))
  | _ =>
      emit (shell_error "Usage: gopher view <index>" []) ;;
      ret (- EINVAL, st)
  end.

(** ** cmd_gopher_back *)

Definition cmd_gopher_back (e : env) (net : net_env) (st : shell_state)
  : M (Z * shell_state) :=
  r <- ensure_client_initialized st ;;
  let (init, st) := r : Z * shell_state in
  if negb (init =? 0) then ret (- EFAULT, st) else
  let client := shell_client st in
  if negb (connected client) then
    emit (shell_error "Not connected to a Gopher server. Use 'gopher connect' first." []) ;;
    ret (- ENOTCONN, st)
  else if history_count client <=? 1 then
    emit (shell_error "No previous items in history" []) ;;
    ret (- ENODATA, st)
  else
  let pos := Z.rem (to_int (to_int (history_pos client + 10) - 1)) 10 in
  let client :=
    {| client_hostname := client_hostname client;
       client_port := client_port client;
       connected := connected client;
       items := items client;
       item_count := item_count client;
       history := history client;
       history_pos := pos;
       history_count := history_count client |} in
  let st := set_client st client in
  selector <- lift_option (read (history client) pos) ;;
  emit (shell_print "Navigating back to: '%s'" [arg_c_str selector]) ;;
  r <- send_selector net st (Some selector) ;;
  let (received, st) := r : Z * shell_state in
  if received <? 0 then
    emit (shell_error "Failed to get response from server: %d" [arg_int received]) ;;
    ret (received, st)
  else
  r <- parse_directory st ;;
  let (parsed, st) := r : Z * shell_state in
  (if 0 <? parsed then show_directory "          " (shell_client st)
   else show_image_or_text e "Rendering image as ASCII art..."
          (shell_client st) (gopher_buffer st) parsed) ;;
  ret (0, st).

(** ** Vocabulary: listings on the screen *)

Definition is_info (it : gopher_item) : bool := Ascii.eqb (item_type it) "i".

(** The items a listing numbers. *)
Definition selectable (its : list gopher_item) : list gopher_item :=
  List.filter (fun it => negb (is_info it)) its.

Definition info_items (its : list gopher_item) : list gopher_item :=
  List.filter is_info its.

(** The line of a listing that shows item [it] under the number [k]. *)
Definition numbered_line (k : Z) (it : gopher_item) : event :=
  shell_fprintf ("%2d: %s[%s]%s %s" ++ LF)
    [arg_int k; arg_str (fst (type_tag (item_type it)));
     arg_str (snd (type_tag (item_type it))); arg_str COLOR_RESET;
     arg_c_str (item_display_string it)].

(** ** Sample state *)

(** A listing with an info line, a directory on the server and a text
    file on another server. *)
Definition sample_listing : list ascii :=
  list_ascii_of_string "iWelcome" ++ [CR; NL]
  ++ list_ascii_of_string "1Docs" ++ [TAB] ++ list_ascii_of_string "/docs" ++ [TAB]
  ++ list_ascii_of_string "example.org" ++ [TAB] ++ list_ascii_of_string "70" ++ [CR; NL]
  ++ list_ascii_of_string "0About" ++ [TAB] ++ list_ascii_of_string "/about.txt" ++ [TAB]
  ++ list_ascii_of_string "other.org" ++ [TAB] ++ list_ascii_of_string "70" ++ [CR; NL]
  ++ list_ascii_of_string "." ++ [CR; NL].

(** The client after it read the listing. *)
Definition listed_client : gopher_client :=
  match gopher_parse_directory sample_client (Some sample_listing) with
  | Some (_, client) => client
  | None => sample_client
  end.

Definition listed_state : shell_state :=
  {| shell_client := listed_client;
     gopher_buffer := sample_listing ++ zeros (GOPHER_BUFFER_SIZE - 131);
     client_initialized := true;
     net_trace := [] |}.

(** ** Vocabulary: what a command leaves on the shell *)

(** Whenever [m] returns, it has printed to the shell without a call
    of the codec. *)
Definition never_decodes {A : Type} (m : M A) : Prop :=
  forall w a w', m w = Some (a, w') ->
    exists evs, emitted w w' evs /\ Forall (fun ev => is_codec_call ev = false) evs.

(** A client that is connected and has fetched nothing yet, with an
    empty buffer. *)
Definition ready_state : shell_state :=
  {| shell_client := sample_client;
     gopher_buffer := zeros GOPHER_BUFFER_SIZE;
     client_initialized := true;
     net_trace := [] |}.

(** The selector [cmd_gopher_back] would request: the slot before the
    current one. *)
Definition back_target (client : gopher_client) : option (list ascii) :=
  read (history client) (Z.rem (to_int (to_int (history_pos client + 10) - 1)) 10).

(** A client that has fetched [/a] and then [/b]. *)
Definition visited_client : gopher_client :=
  default sample_client
    (c ← push_history sample_client (Some (list_ascii_of_string "/a"));
     push_history c (Some (list_ascii_of_string "/b"))).

Definition visited_state : shell_state :=
  {| shell_client := visited_client;
     gopher_buffer := zeros GOPHER_BUFFER_SIZE;
     client_initialized := true;
     net_trace := [] |}.

(** A server that answers every request with the same text. *)
Definition text_net : net_env := served_net (fun _ => list_ascii_of_string "hello").

Definition no_reply : sent :=
  {| sent_ret := 0; sent_client := zero_client; sent_buffer := []; sent_trace := [] |}.

(** What [cmd_gopher_view] prints before it shows the response to its
    request for item [it], found at [index] after [info_count] info
    lines. *)
Definition view_request_lines (arg1 : list ascii) (client : gopher_client)
    (index info_count : Z) (it : gopher_item) : list event :=
  [shell_print
     "DEBUG: User requested index %d, translated to index %d of %d items (after %d info items)"
     [arg_int (atoi arg1); arg_int index; arg_int (item_count client); arg_int info_count];
   shell_print "DEBUG: Selected item - Type: %c, Hostname: %s, Port: %d, Selector: %s"
     [arg_char (item_type it); arg_c_str (item_hostname it); arg_int (item_port it);
      arg_c_str (item_selector it)]]
  ++ (if Ascii.eqb (item_type it) "g" || Ascii.eqb (item_type it) "I"
      then [shell_print "Fetching image file for rendering..." []] else [])
  ++ [shell_print "Requesting item %d: '%s' (%c) from %s:%d..."
        [arg_int (atoi arg1); arg_c_str (item_display_string it); arg_char (item_type it);
         arg_c_str (client_hostname client); arg_int (client_port client)]].

(** The types [cmd_gopher_view] refuses, and the directory. *)
Definition fetched_as_file (type : ascii) : bool :=
  negb (existsb (Ascii.eqb type) ["8"; "T"; "9"; "5"; "4"; "6"; "1"]%char).

(** A client that lists one picture of its own server, and a server
    that answers with the first bytes of a JPEG file. *)
Definition gallery_client : gopher_client :=
  match gopher_parse_directory sample_client
          (Some (list_ascii_of_string "Icat" ++ [TAB] ++ list_ascii_of_string "/cat.jpg"
                 ++ [TAB] ++ list_ascii_of_string "example.org" ++ [TAB]
                 ++ list_ascii_of_string "70" ++ [CR; NL])) with
  | Some (_, client) => client
  | None => sample_client
  end.

Definition gallery_state : shell_state :=
  {| shell_client := gallery_client;
     gopher_buffer := zeros GOPHER_BUFFER_SIZE;
     client_initialized := true;
     net_trace := [] |}.

Definition image_net : net_env := served_net (fun _ => jpeg_bytes).

(** ** Sample picture *)

(** The codec decodes a picture of 4x3 pixels. *)
Definition small_picture_env : env :=
  {| CONFIG_ESP_SPIRAM := false;
     k_malloc := fun _ _ => true;
     shared_multi_heap_alloc := fun _ _ => false;
     stbi_info_from_memory := fun _ => stbi_ok (4, 3, 3);
     stbi_load_from_memory := fun _ =>
       stbi_ok (4, 3, replicate 12 {| px_r := 200; px_g := 100; px_b := 50 |}) |}.

(* ================================================================== *)
(** * Part II: properties *)
(* ================================================================== *)

(** ** The palette quantiser *)

Lemma color_distance_bounds r g b c :
  0 <= r <= 255 -> 0 <= g <= 255 -> 0 <= b <= 255 ->
  0 <= color_distance r g b c <= 255 * 255.
Proof.
  intros Hr Hg Hb. unfold color_distance.
  set (dr := r - px_r (terminal_colors c)).
  set (dg := g - px_g (terminal_colors c)).
  set (db := b - px_b (terminal_colors c)).
  assert (-170 <= dr <= 255 /\ -170 <= dg <= 255 /\ -170 <= db <= 255)
    as (Hdr & Hdg & Hdb) by (unfold dr, dg, db; destruct c; simpl; lia).
  assert (0 <= dr * dr <= 255 * 255) by nia.
  assert (0 <= dg * dg <= 255 * 255) by nia.
  assert (0 <= db * db <= 255 * 255) by nia.
  rewrite Z.quot_div_nonneg by lia.
  split.
  - apply Z.div_pos; lia.
  - apply Z.div_le_upper_bound; lia.
Qed.

(** C9. [rgb_to_terminal_color] is a function from [0,255]^3 to the eight
    palette colours whose result minimises the weighted distance
    [(3*dr^2 + 4*dg^2 + 2*db^2) / 9] to the reference table, and among
    the minimisers is the one of lowest enumerator value. *)
Theorem rgb_to_terminal_color_nearest r g b :
  0 <= r <= 255 -> 0 <= g <= 255 -> 0 <= b <= 255 ->
  let c := rgb_to_terminal_color r g b in
  (forall c', color_distance r g b c <= color_distance r g b c') /\
  (forall c', color_index c' < color_index c ->
              color_distance r g b c < color_distance r g b c').
Proof.
  intros Hr Hg Hb.
  pose proof (color_distance_bounds r g b BLACK Hr Hg Hb) as H0.
  unfold rgb_to_terminal_color, all_colors. cbn [fold_left].
  unfold color_scan_step. cbn [fst snd].
  change (255 * 255) with 65025 in H0. change (255 * 255 * 3) with 195075.
  repeat (match goal with
          | |- context [if ?x <? ?y then _ else _] =>
              lazymatch y with
              | context [if _ then _ else _] => fail
              | _ => destruct (Z.ltb_spec x y)
              end
          end; cbn [fst snd]).
  all: split; intros []; cbn [color_index]; lia.
Qed.

Lemma rgb_to_terminal_color_nearest_witness :
  (0 <= 200 <= 255 /\ 0 <= 30 <= 255 /\ 0 <= 40 <= 255) /\
  (let c := rgb_to_terminal_color 200 30 40 in
   (forall c', color_distance 200 30 40 c <= color_distance 200 30 40 c') /\
   (forall c', color_index c' < color_index c ->
               color_distance 200 30 40 c < color_distance 200 30 40 c')).
Proof.
  split; [lia|]. apply (rgb_to_terminal_color_nearest 200 30 40); lia.
Defined.

(** ** Loops and buffers *)

Lemma for_loop_fold {St : Type} (body : Z -> St -> option St) n i s :
  for_loop n i body s = fold_option (fun s i => body i s) (seqZ i (Z.of_nat n)) s.
Proof.
  revert i s. induction n as [|n IH]; intros i s.
  - reflexivity.
  - rewrite Nat2Z.inj_succ, seqZ_cons by lia. cbn [for_loop fold_option].
    destruct (body i s) as [s'|]; [|reflexivity].
    rewrite IH. repeat f_equal; lia.
Qed.

Lemma for_range_fold {St : Type} (body : Z -> St -> option St) lo hi s :
  for_range lo hi body s = fold_option (fun s i => body i s) (seqZ lo (hi - lo)) s.
Proof.
  unfold for_range. rewrite for_loop_fold.
  destruct (Z_le_gt_dec 0 (hi - lo)).
  - now rewrite Z2Nat.id.
  - rewrite Z2Nat.nonpos by lia. now rewrite !seqZ_nil by lia.
Qed.

Lemma fold_option_app {A B : Type} (f : A -> B -> option A) l1 l2 a :
  fold_option f (l1 ++ l2) a =
  match fold_option f l1 a with
  | Some a' => fold_option f l2 a'
  | None => None
  end.
Proof.
  revert a. induction l1 as [|b l1 IH]; intros a; [reflexivity|].
  cbn [app fold_option]. destruct (f a b); [apply IH|reflexivity].
Qed.

Lemma fold_option_map {A B C : Type} (f : A -> B -> option A) (g : C -> B) l a :
  fold_option f (map g l) a = fold_option (fun a c => f a (g c)) l a.
Proof.
  revert a. induction l as [|c l IH]; intros a; [reflexivity|].
  cbn [map fold_option]. destruct (f a (g c)); [apply IH|reflexivity].
Qed.

Lemma fold_option_flat_map {A B C : Type} (f : A -> B -> option A) (g : C -> list B) l a :
  fold_option f (flat_map g l) a = fold_option (fun a c => fold_option f (g c) a) l a.
Proof.
  revert a. induction l as [|c l IH]; intros a; [reflexivity|].
  cbn [flat_map fold_option]. rewrite fold_option_app.
  destruct (fold_option f (g c) a); [apply IH|reflexivity].
Qed.

(** An invariant of the state that every step preserves, and under which
    every step is defined, makes the fold defined. *)
Lemma fold_option_invariant {A B : Type} (P : A -> Prop) (Q : B -> Prop)
    (f : A -> B -> option A) l a :
  P a -> Forall Q l ->
  (forall a b, P a -> Q b -> exists a', f a b = Some a' /\ P a') ->
  exists a', fold_option f l a = Some a' /\ P a'.
Proof.
  intros Ha Hl Hstep. revert a Ha. induction Hl as [|b l Hb Hl IH]; intros a Ha.
  - exists a. auto.
  - cbn [fold_option]. destruct (Hstep a b Ha Hb) as (a' & -> & Ha'). now apply IH.
Qed.

Lemma fold_option_ext {A B : Type} (P : A -> Prop) (Q : B -> Prop)
    (f g : A -> B -> option A) l a :
  P a -> Forall Q l ->
  (forall a b, P a -> Q b -> f a b = g a b) ->
  (forall a b a', P a -> Q b -> f a b = Some a' -> P a') ->
  fold_option f l a = fold_option g l a.
Proof.
  intros Ha Hl Heq Hpres. revert a Ha. induction Hl as [|b l Hb Hl IH]; intros a Ha.
  - reflexivity.
  - cbn [fold_option]. rewrite <- (Heq a b Ha Hb).
    destruct (f a b) as [a'|] eqn:Hf; [|reflexivity].
    apply IH. eapply Hpres; eauto.
Qed.

Lemma Forall_seqZ lo len : Forall (fun i => lo <= i < lo + len) (seqZ lo len).
Proof. apply Forall_forall. intros i Hi. apply elem_of_seqZ in Hi. lia. Qed.

Lemma read_Some {A : Type} (buf : list A) i :
  0 <= i < Z.of_nat (length buf) -> exists v, read buf i = Some v /\ buf !! Z.to_nat i = Some v.
Proof.
  intros Hi. unfold read. destruct (Z.ltb_spec i 0); [lia|].
  destruct (lookup_lt_is_Some_2 buf (Z.to_nat i)) as [v Hv]; [lia|]. eauto.
Qed.

Lemma write_Some {A : Type} (buf : list A) i v :
  0 <= i < Z.of_nat (length buf) -> write buf i v = Some (<[Z.to_nat i := v]> buf).
Proof.
  intros Hi. unfold write.
  destruct (Z.leb_spec 0 i); [|lia]. destruct (Z.ltb_spec i (Z.of_nat (length buf))); [|lia].
  reflexivity.
Qed.

Lemma write_length {A : Type} (buf buf' : list A) i v :
  write buf i v = Some buf' -> length buf' = length buf.
Proof.
  unfold write. destruct (_ && _); [|discriminate]. intros [= <-]. apply length_insert.
Qed.

Lemma pixel_index_bounds width height x y :
  0 <= x < width -> 0 <= y < height -> 0 <= y * width + x < width * height.
Proof. intros Hx Hy. nia. Qed.

(** ** Floyd-Steinberg dithering *)

Lemma clamp_in_range v : 0 <= v <= 255 -> clamp v 0 255 = v.
Proof.
  intros Hv. unfold clamp, to_uint8.
  destruct (Z.ltb_spec v 0); [lia|]. destruct (Z.ltb_spec 255 v); [lia|].
  apply Z.mod_small. lia.
Qed.

Lemma clamp_clamp_channel v : clamp v 0 255 = clamp_channel v.
Proof.
  unfold clamp, clamp_channel, to_uint8.
  destruct (Z.ltb_spec v 0); [rewrite Z.mod_small; lia|].
  destruct (Z.ltb_spec 255 v); rewrite Z.mod_small; lia.
Qed.

Lemma palette_pixel_valid p : is_palette_pixel p -> valid_pixel p.
Proof. intros [c ->]. unfold valid_pixel. destruct c; simpl; lia. Qed.

Lemma rgb_to_terminal_color_palette c :
  rgb_to_terminal_color (px_r (terminal_colors c)) (px_g (terminal_colors c))
                        (px_b (terminal_colors c)) = c.
Proof. destruct c; reflexivity. Qed.

Lemma pixel_eta p : {| px_r := px_r p; px_g := px_g p; px_b := px_b p |} = p.
Proof. now destruct p. Qed.

Lemma diffuse_error_zero img_copy idx num :
  Forall valid_pixel img_copy -> 0 <= idx < Z.of_nat (length img_copy) ->
  diffuse_error img_copy idx 0 0 0 num = Some img_copy.
Proof.
  intros Hv Hidx. unfold diffuse_error.
  destruct (read_Some img_copy idx Hidx) as (p & -> & Hp). cbn.
  assert (Hvp : valid_pixel p) by (eapply Forall_lookup_1; eauto).
  destruct Hvp as (Hr & Hg & Hb).
  rewrite Z.mul_0_l. change (Z.quot 0 16) with 0. rewrite !Z.add_0_r.
  rewrite !clamp_in_range by assumption. rewrite pixel_eta.
  rewrite write_Some by assumption. f_equal. now apply list_insert_id.
Qed.

Lemma dither_pixel_palette image width height x y :
  Forall is_palette_pixel image -> Z.of_nat (length image) = width * height ->
  0 <= x < width -> 0 <= y < height ->
  dither_pixel width height x y (image, image) = Some (image, image).
Proof.
  intros Hpal Hlen Hx Hy.
  assert (Hv : Forall valid_pixel image) by (eapply Forall_impl; eauto using palette_pixel_valid).
  unfold dither_pixel.
  pose proof (pixel_index_bounds width height x y Hx Hy) as Hidx. rewrite <- Hlen in Hidx.
  destruct (read_Some image _ Hidx) as (p & -> & Hp). cbn [mbind option_bind].
  destruct (Forall_lookup_1 _ _ _ _ Hpal Hp) as [c ->].
  rewrite rgb_to_terminal_color_palette.
  rewrite write_Some by assumption. rewrite list_insert_id by assumption.
  cbn [mbind option_bind]. rewrite !Z.sub_diag.
  destruct (Z.ltb_spec (x + 1) width).
  - rewrite diffuse_error_zero by (assumption || nia). cbn [mbind option_bind].
    destruct (Z.ltb_spec (y + 1) height); [|reflexivity].
    rewrite diffuse_error_zero by (assumption || nia). cbn [mbind option_bind].
    destruct (Z.ltb_spec 0 x).
    + rewrite diffuse_error_zero by (assumption || nia). cbn [mbind option_bind].
      rewrite diffuse_error_zero by (assumption || nia). reflexivity.
    + cbn [mbind option_bind]. rewrite diffuse_error_zero by (assumption || nia). reflexivity.
  - cbn [mbind option_bind].
    destruct (Z.ltb_spec (y + 1) height); [|reflexivity].
    rewrite diffuse_error_zero by (assumption || nia). cbn [mbind option_bind].
    destruct (Z.ltb_spec 0 x).
    + rewrite diffuse_error_zero by (assumption || nia). reflexivity.
    + reflexivity.
Qed.

Lemma pixel_bytes_small width height :
  0 <= width * height * 3 < 2 ^ 32 -> pixel_bytes width height = width * height * 3.
Proof. intros H. unfold pixel_bytes, to_size_t. now apply Z.mod_small. Qed.

Lemma dither_working_copy (image : list rgb_pixel_t) width height :
  Z.of_nat (length image) = width * height -> 3 * Z.of_nat (length image) < 2 ^ 32 ->
  (3 * Z.of_nat (length image) <? pixel_bytes width height) = false /\
  take (Z.to_nat (pixel_bytes width height / 3)) image = image.
Proof.
  intros Hlen Hsz. rewrite pixel_bytes_small by lia. split.
  - apply Z.ltb_ge. lia.
  - rewrite Z.div_mul by lia. apply firstn_all2. lia.
Qed.

(** C6. Dithering a buffer whose pixels are all reference colours of the
    palette leaves the buffer as it is. *)
Theorem dithering_palette_fixpoint e image width height :
  Forall is_palette_pixel image ->
  Z.of_nat (length image) = width * height ->
  3 * Z.of_nat (length image) < 2 ^ 32 ->
  apply_floyd_steinberg_dithering e image width height = Some image.
Proof.
  intros Hpal Hlen Hsz. unfold apply_floyd_steinberg_dithering.
  destruct (fst _); [|reflexivity]. cbn [negb].
  destruct (dither_working_copy image width height Hlen Hsz) as [-> ->].
  rewrite for_range_fold.
  destruct (fold_option_invariant (fun st => st = (image, image))
              (fun y => 0 <= y < 0 + (height - 0))
              (fun s y => for_range 0 width (fun x => dither_pixel width height x y) s)
              (seqZ 0 (height - 0)) (image, image) eq_refl (Forall_seqZ _ _))
    as (st & -> & ->); [|reflexivity].
  intros st y -> Hy. rewrite for_range_fold.
  apply (fold_option_invariant (fun st => st = (image, image))
           (fun x => 0 <= x < 0 + (width - 0)));
    [reflexivity|apply Forall_seqZ|].
  intros st x -> Hx. exists (image, image). split; [|reflexivity].
  apply dither_pixel_palette; auto; lia.
Qed.

Lemma dithering_palette_fixpoint_witness :
  let image := [terminal_colors RED; terminal_colors WHITE;
                terminal_colors BLACK; terminal_colors CYAN] in
  (Forall is_palette_pixel image /\ Z.of_nat (length image) = 2 * 2 /\
   3 * Z.of_nat (length image) < 2 ^ 32) /\
  apply_floyd_steinberg_dithering test_env image 2 2 = Some image.
Proof.
  assert (H : Forall is_palette_pixel
                [terminal_colors RED; terminal_colors WHITE;
                 terminal_colors BLACK; terminal_colors CYAN]).
  { repeat (apply Forall_cons; split; [eexists; reflexivity|]). apply Forall_nil_2. }
  split; [split; [exact H|split; [reflexivity|reflexivity]]|].
  apply (dithering_palette_fixpoint test_env _ 2 2 H); reflexivity.
Defined.

Lemma spec_propagate_diffuse width height x y err_r err_g err_b work dx dy weight :
  spec_propagate width height x y (err_r, err_g, err_b) work (dx, dy, weight) =
  if in_bounds width height (x + dx) (y + dy)
  then diffuse_error work ((y + dy) * width + (x + dx)) err_r err_g err_b weight
  else Some work.
Proof.
  unfold spec_propagate, diffuse_error. destruct (in_bounds _ _ _ _); [|reflexivity].
  destruct (read work _); [|reflexivity]. cbn [mbind option_bind].
  now rewrite !clamp_clamp_channel.
Qed.

Lemma dither_pixel_spec width height x y st :
  0 <= x < width -> 0 <= y < height ->
  dither_pixel width height x y st = spec_dither_step width height st (x, y).
Proof.
  intros Hx Hy. destruct st as [image img_copy].
  unfold dither_pixel, spec_dither_step.
  destruct (read img_copy (y * width + x)) as [old|]; [|reflexivity].
  cbn [mbind option_bind].
  destruct (write image (y * width + x) _) as [image'|]; [|reflexivity].
  cbn [mbind option_bind]. unfold fs_kernel. cbn [fold_option].
  destruct (Z.ltb_spec (x + 1) width), (Z.ltb_spec (y + 1) height), (Z.ltb_spec 0 x);
    repeat (rewrite spec_propagate_diffuse; unfold in_bounds;
            rewrite ?Z.add_0_r; change (x + -1) with (x - 1);
            repeat match goal with
                   | |- context [?a <=? ?b] => destruct (Z.leb_spec a b); try lia
                   | |- context [?a <? ?b] => destruct (Z.ltb_spec a b); try lia
                   end;
            cbn [andb mbind option_bind];
            try match goal with
                | |- _ = ?rhs =>
                    match rhs with
                    | context [diffuse_error ?c ?i ?a ?b ?d ?n] =>
                        destruct (diffuse_error c i a b d n); cbn [mbind option_bind]
                    end
                end);
    reflexivity.
Qed.

Lemma dither_loops_spec width height st :
  for_range 0 height (fun y => for_range 0 width (fun x => dither_pixel width height x y)) st =
  fold_option (spec_dither_step width height) (row_major width height) st.
Proof.
  unfold row_major. rewrite fold_option_flat_map, for_range_fold, Z.sub_0_r.
  apply (fold_option_ext (fun _ => True) (fun y => 0 <= y < 0 + height));
    [exact I|apply Forall_seqZ| |auto].
  intros st' y _ Hy. rewrite fold_option_map, for_range_fold, Z.sub_0_r.
  apply (fold_option_ext (fun _ => True) (fun x => 0 <= x < 0 + width));
    [exact I|apply Forall_seqZ| |auto].
  intros st'' x _ Hx. apply dither_pixel_spec; lia.
Qed.

Lemma diffuse_error_defined img_copy idx err_r err_g err_b num :
  0 <= idx < Z.of_nat (length img_copy) ->
  exists img_copy', diffuse_error img_copy idx err_r err_g err_b num = Some img_copy' /\
                    length img_copy' = length img_copy.
Proof.
  intros Hidx. unfold diffuse_error.
  destruct (read_Some img_copy idx Hidx) as (p & -> & _). cbn [mbind option_bind].
  rewrite write_Some by assumption. eexists. split; [reflexivity|apply length_insert].
Qed.

Lemma dither_pixel_defined (n : nat) width height x y st :
  Z.of_nat n = width * height -> 0 <= x < width -> 0 <= y < height ->
  length (fst st) = n /\ length (snd st) = n ->
  exists st', dither_pixel width height x y st = Some st' /\
              (length (fst st') = n /\ length (snd st') = n).
Proof.
  intros Hn Hx Hy [Hl1 Hl2]. destruct st as [image img_copy]. cbn [fst snd] in *.
  unfold dither_pixel.
  pose proof (pixel_index_bounds width height x y Hx Hy) as Hidx.
  destruct (read_Some img_copy (y * width + x)) as (old & -> & _); [lia|].
  cbn [mbind option_bind]. rewrite write_Some by lia. cbn [mbind option_bind].
  set (image' := <[_ := _]> image).
  assert (Himg : length image' = n) by (unfold image'; now rewrite length_insert).
  clearbody image'. clear Hl1.
  set (err_r := px_r old - _). set (err_g := px_g old - _). set (err_b := px_b old - _).
  clearbody err_r err_g err_b.
  assert (Hcopy1 : exists c1,
    (if x + 1 <? width
     then diffuse_error img_copy (y * width + (x + 1)) err_r err_g err_b 7
     else Some img_copy) = Some c1 /\ length c1 = n).
  { destruct (Z.ltb_spec (x + 1) width); [|eauto].
    destruct (diffuse_error_defined img_copy (y * width + (x + 1)) err_r err_g err_b 7)
      as (c & Hc & Hlc); [nia|]. exists c. split; [assumption|lia]. }
  destruct Hcopy1 as (c1 & -> & Hc1). cbn [mbind option_bind].
  destruct (Z.ltb_spec (y + 1) height); [|cbn; eauto].
  destruct (diffuse_error_defined c1 ((y + 1) * width + x) err_r err_g err_b 5)
    as (c2 & -> & Hc2); [nia|]. cbn [mbind option_bind].
  assert (Hcopy3 : exists c3,
    (if 0 <? x
     then diffuse_error c2 ((y + 1) * width + (x - 1)) err_r err_g err_b 3
     else Some c2) = Some c3 /\ length c3 = n).
  { destruct (Z.ltb_spec 0 x); [|exists c2; split; [reflexivity|lia]].
    destruct (diffuse_error_defined c2 ((y + 1) * width + (x - 1)) err_r err_g err_b 3)
      as (c & Hc & Hlc); [nia|]. exists c. split; [assumption|lia]. }
  destruct Hcopy3 as (c3 & -> & Hc3). cbn [mbind option_bind].
  destruct (Z.ltb_spec (x + 1) width); [|cbn; eauto].
  destruct (diffuse_error_defined c3 ((y + 1) * width + (x + 1)) err_r err_g err_b 1)
    as (c4 & -> & Hc4); [nia|]. cbn. eexists. split; [reflexivity|]. cbn. lia.
Qed.

(** C5. With the working copy allocated, [apply_floyd_steinberg_dithering]
    computes what the specification describes: pixels are visited in
    row-major order; each is read from the working copy, quantised, and
    its reference colour stored in the buffer; the error (working-copy
    value minus reference colour) is added, scaled by 7/16, 5/16, 3/16
    and 1/16 (the quotient truncated), to the right, lower, lower-left
    and lower-right neighbours in the working copy, clamped to [0,255],
    neighbours outside the buffer being skipped; and the call is defined. *)
Theorem dithering_follows_specification e image width height :
  fst (memory_alloc e site_dither_copy (pixel_bytes width height) false) = true ->
  Z.of_nat (length image) = width * height ->
  3 * Z.of_nat (length image) < 2 ^ 32 ->
  apply_floyd_steinberg_dithering e image width height =
    spec_floyd_steinberg image width height /\
  exists result, apply_floyd_steinberg_dithering e image width height = Some result /\
                 length result = length image.
Proof.
  intros Halloc Hlen Hsz. unfold apply_floyd_steinberg_dithering, spec_floyd_steinberg.
  rewrite Halloc. cbn [negb].
  destruct (dither_working_copy image width height Hlen Hsz) as [-> ->].
  rewrite dither_loops_spec. split; [reflexivity|].
  rewrite <- dither_loops_spec, for_range_fold.
  destruct (fold_option_invariant
              (fun st => length (fst st) = length image /\ length (snd st) = length image)
              (fun y => 0 <= y < 0 + (height - 0))
              (fun s y => for_range 0 width (fun x => dither_pixel width height x y) s)
              (seqZ 0 (height - 0)) (image, image) (conj eq_refl eq_refl) (Forall_seqZ _ _))
    as (st & -> & Hst & _).
  - intros st y Hst Hy. rewrite for_range_fold.
    apply (fold_option_invariant
             (fun st => length (fst st) = length image /\ length (snd st) = length image)
             (fun x => 0 <= x < 0 + (width - 0)));
      [assumption|apply Forall_seqZ|].
    intros st' x Hst' Hx. apply dither_pixel_defined; auto; lia.
  - cbn. eauto.
Qed.

Lemma dithering_follows_specification_witness :
  let image := [{| px_r := 200; px_g := 100; px_b := 50 |};
                {| px_r := 10; px_g := 20; px_b := 30 |};
                {| px_r := 90; px_g := 160; px_b := 250 |};
                {| px_r := 128; px_g := 128; px_b := 128 |}] in
  (fst (memory_alloc test_env site_dither_copy (pixel_bytes 2 2) false) = true /\
   Z.of_nat (length image) = 2 * 2 /\ 3 * Z.of_nat (length image) < 2 ^ 32) /\
  (apply_floyd_steinberg_dithering test_env image 2 2 = spec_floyd_steinberg image 2 2 /\
   exists result, apply_floyd_steinberg_dithering test_env image 2 2 = Some result /\
                  length result = length image).
Proof.
  split; [repeat split|].
  apply (dithering_follows_specification test_env _ 2 2); reflexivity.
Defined.

(** C10, first half: without the working copy the call returns at once
    and the buffer is untouched; the function is [void], so nothing is
    reported. *)
Lemma dithering_without_copy e image width height :
  fst (memory_alloc e site_dither_copy (pixel_bytes width height) false) = false ->
  apply_floyd_steinberg_dithering e image width height = Some image.
Proof. intros H. unfold apply_floyd_steinberg_dithering. now rewrite H. Qed.

(** ** Content classification *)

Lemma ninety_percent_table : forallb ninety_percent_agrees (seqZ 0 201) = true.
Proof. vm_compute. reflexivity. Qed.

Lemma ninety_percent_threshold total count :
  0 <= count <= total -> total <= 200 ->
  SFltb (f64_mul (f64_of_int total) (f64_lit 9 10)) (f64_of_int count) =
  (9 * total <? 10 * count).
Proof.
  intros Hc Ht. pose proof ninety_percent_table as H.
  rewrite forallb_forall in H. 
  specialize (H total). 
  assert (Hin : In total (seqZ 0 201)) by (apply list_elem_of_In, elem_of_seqZ; lia).
  apply H in Hin. unfold ninety_percent_agrees in Hin. rewrite forallb_forall in Hin.
  assert (Hin2 : In count (seqZ 0 (total + 1))) by (apply list_elem_of_In, elem_of_seqZ; lia).
  apply Hin in Hin2. now apply eqb_prop in Hin2.
Qed.

Lemma length_list_ascii_of_string s :
  length (list_ascii_of_string s) = String.length s.
Proof. induction s as [|c s IH]; simpl; congruence. Qed.

Lemma is_prefix_app needle post : is_prefix needle (needle ++ post) = true.
Proof.
  induction needle as [|c needle IH]; [reflexivity|].
  cbn [app is_prefix]. now rewrite Ascii.eqb_refl, IH.
Qed.

Lemma memmem_occurrence pre needle post : memmem (pre ++ needle ++ post) needle = true.
Proof.
  induction pre as [|c pre IH].
  - cbn [app]. destruct (needle ++ post) eqn:E; cbn [memmem]; rewrite <- E, is_prefix_app; reflexivity.
  - cbn [app memmem]. rewrite IH. apply orb_true_r.
Qed.

Lemma sample_prefix (data : list ascii) :
  take (Z.to_nat (MIN (Z.of_nat (length data)) 200)) data = take 200 data.
Proof.
  unfold MIN. destruct (Z.ltb_spec (Z.of_nat (length data)) 200).
  - rewrite Nat2Z.id. rewrite firstn_all. symmetry. apply firstn_all2. lia.
  - reflexivity.
Qed.

Lemma sample_prefix' (data : list ascii) :
  take (Z.to_nat (MIN 200 (Z.of_nat (length data)))) data = take 200 data.
Proof.
  unfold MIN. destruct (Z.ltb_spec 200 (Z.of_nat (length data))).
  - reflexivity.
  - rewrite Nat2Z.id. rewrite firstn_all. symmetry. apply firstn_all2. lia.
Qed.

Lemma count_loop_filter l n :
  fold_left (fun count c => if isprint c || isspace c then count + 1 else count) l n =
  n + printable_in l.
Proof.
  unfold printable_in. revert n. induction l as [|c l IH]; intros n; cbn [fold_left List.filter].
  - simpl. lia.
  - rewrite IH. unfold printable_or_space at 2. destruct (isprint c || isspace c); cbn [length]; lia.
Qed.

Lemma printable_in_le l : 0 <= printable_in l <= Z.of_nat (length l).
Proof.
  unfold printable_in. pose proof (List.filter_length_le printable_or_space l). lia.
Qed.

Lemma marker_found_is_text data marker :
  In marker html_markers -> occurs_in marker (sampled data) ->
  looks_like_text_content data = true.
Proof.
  intros Hin (pre & post & Hocc). unfold looks_like_text_content.
  assert (Hex : existsb
            (fun marker => (strlen marker <=? Z.of_nat (length data)) &&
               memmem (take (Z.to_nat (MIN (Z.of_nat (length data)) 200)) data)
                      (list_ascii_of_string marker)) html_markers = true).
  { apply existsb_exists. exists marker. split; [assumption|].
    rewrite sample_prefix. fold (sampled data). rewrite Hocc, memmem_occurrence, andb_true_r.
    apply Z.leb_le. unfold strlen. rewrite <- length_list_ascii_of_string.
    assert (Hlen : (length (sampled data) <= length data)%nat) by (unfold sampled; rewrite length_take; lia).
    rewrite Hocc, !length_app in Hlen. lia. }
  now rewrite Hex.
Qed.

Lemma mostly_printable_is_text data :
  9 * Z.of_nat (length (sampled data)) < 10 * printable_in (sampled data) ->
  looks_like_text_content data = true.
Proof.
  intros H. unfold looks_like_text_content.
  destruct (existsb _ html_markers); [reflexivity|].
  rewrite sample_prefix', count_loop_filter, Z.add_0_l. fold (sampled data).
  assert (Htot : MIN 200 (Z.of_nat (length data)) = Z.of_nat (length (sampled data))).
  { unfold sampled, MIN. rewrite length_take. destruct (Z.ltb_spec 200 (Z.of_nat (length data))); lia. }
  rewrite Htot. pose proof (printable_in_le (sampled data)).
  rewrite ninety_percent_threshold; [apply Z.ltb_lt; lia|lia|].
  unfold sampled. rewrite length_take. lia.
Qed.

Lemma display_chunks_no_codec rest chunk :
  Forall (fun ev => is_codec_call ev = false) (display_chunks rest chunk).
Proof.
  revert chunk. induction rest as [|d rest IH]; intros chunk; cbn [display_chunks].
  - constructor.
  - destruct (_ || _ || _); [|apply IH].
    apply Forall_app. split; [|apply IH].
    destruct (0 <? _); repeat constructor.
Qed.

Lemma display_text_content_no_codec data :
  Forall (fun ev => is_codec_call ev = false) (display_text_content data).
Proof.
  unfold display_text_content.
  apply Forall_app. split; [repeat constructor|].
  apply Forall_app. split; [apply display_chunks_no_codec|repeat constructor].
Qed.

(** *** Running the pipeline's computations *)

Lemma bind_emit {B : Type} ev (k : unit -> M B) w :
  bind (emit ev) k w = k tt (log [ev] w).
Proof. reflexivity. Qed.

Lemma bind_emit_all {B : Type} evs (k : unit -> M B) w :
  bind (emit_all evs) k w = k tt (log evs w).
Proof. reflexivity. Qed.

Lemma bind_ret {A B : Type} (a : A) (k : A -> M B) w : bind (ret a) k w = k a w.
Proof. reflexivity. Qed.

Lemma bind_lift_Some {A B : Type} (a : A) (k : A -> M B) w :
  bind (lift_option (Some a)) k w = k a w.
Proof. reflexivity. Qed.

Lemma bind_run {A B : Type} (m : M A) (k : A -> M B) w a w1 :
  m w = Some (a, w1) -> bind m k w = k a w1.
Proof. intros H. unfold bind. now rewrite H. Qed.

Lemma bind_bind {A B C : Type} (m : M A) (k : A -> M B) (k' : B -> M C) w :
  bind (bind m k) k' w = bind m (fun a => bind (k a) k') w.
Proof. unfold bind. destruct (m w) as [[a w1]|]; reflexivity. Qed.

Lemma emitted_nil w : emitted w w [].
Proof. unfold emitted. now rewrite app_nil_r. Qed.

Lemma emitted_log w w' evs evs' :
  emitted w w' evs -> emitted w (log evs' w') (evs ++ evs').
Proof. unfold emitted, log. cbn [shell_out]. intros ->. now rewrite app_assoc. Qed.

Lemma emitted_trans w w1 w2 evs1 evs2 :
  emitted w w1 evs1 -> emitted w1 w2 evs2 -> emitted w w2 (evs1 ++ evs2).
Proof. unfold emitted. intros H1 H2. now rewrite H2, H1, app_assoc. Qed.

Lemma emitted_unique w w' evs evs' : emitted w w' evs -> emitted w w' evs' -> evs = evs'.
Proof. unfold emitted. intros H1 H2. rewrite H1 in H2. now apply app_inv_head in H2. Qed.

(** C3. A buffer that holds one of the HTML/HTTP markers entirely within
    its first 200 bytes, or of whose first 200 bytes more than 90% are
    printable or white space, is classified as text whatever else it
    contains; [gopher_render_image] then returns [-EINVAL] after showing
    the content as text, and never calls the codec. *)
Theorem text_content_bypasses_pipeline e data config w :
  (exists marker, In marker html_markers /\ occurs_in marker (sampled data)) \/
  9 * Z.of_nat (length (sampled data)) < 10 * printable_in (sampled data) ->
  looks_like_text_content data = true /\
  exists w', gopher_render_image e data config w = Some (- EINVAL, w') /\
    emitted w w' (memory_banner e
                  :: shell_error "Content appears to be text, not an image" []
                  :: display_text_content data) /\
    (forall evs, emitted w w' evs -> Forall (fun ev => is_codec_call ev = false) evs).
Proof.
  intros H.
  assert (Htext : looks_like_text_content data = true).
  { destruct H as [(marker & Hin & Hocc)|H]; eauto using marker_found_is_text, mostly_printable_is_text. }
  split; [assumption|].
  unfold gopher_render_image. rewrite Htext. fold (memory_banner e).
  rewrite !bind_emit, bind_emit_all. unfold ret.
  eexists. split; [reflexivity|].
  assert (Hem : emitted w
            (log (display_text_content data)
               (log [shell_error "Content appears to be text, not an image" []]
                  (log [memory_banner e] w)))
            (memory_banner e :: shell_error "Content appears to be text, not an image" []
               :: display_text_content data)).
  { apply (emitted_log w _ [memory_banner e; _]), (emitted_log w _ [memory_banner e]),
      (emitted_log w w []), emitted_nil. }
  split; [exact Hem|].
  intros evs Hevs. rewrite <- (emitted_unique _ _ _ _ Hem Hevs).
  apply Forall_cons. split;
    [unfold memory_banner; destruct (CONFIG_ESP_SPIRAM e); reflexivity|].
  apply Forall_cons. split; [reflexivity|apply display_text_content_no_codec].
Qed.

Lemma text_content_bypasses_pipeline_witness :
  let data := list_ascii_of_string "<!DOCTYPE html>" ++ jpeg_bytes in
  ((exists marker, In marker html_markers /\ occurs_in marker (sampled data)) \/
   9 * Z.of_nat (length (sampled data)) < 10 * printable_in (sampled data)) /\
  (looks_like_text_content data = true /\
   exists w', gopher_render_image test_env data None initial_world = Some (- EINVAL, w') /\
     emitted initial_world w'
       (memory_banner test_env
        :: shell_error "Content appears to be text, not an image" []
        :: display_text_content data) /\
     (forall evs, emitted initial_world w' evs ->
                  Forall (fun ev => is_codec_call ev = false) evs)).
Proof.
  assert (H : (exists marker, In marker html_markers /\
                 occurs_in marker (sampled (list_ascii_of_string "<!DOCTYPE html>" ++ jpeg_bytes))) \/
              9 * Z.of_nat (length (sampled (list_ascii_of_string "<!DOCTYPE html>" ++ jpeg_bytes)))
              < 10 * printable_in (sampled (list_ascii_of_string "<!DOCTYPE html>" ++ jpeg_bytes))).
  { left. exists "<!DOCTYPE"%string. split; [simpl; tauto|].
    exists [], (list_ascii_of_string " html>" ++ jpeg_bytes). reflexivity. }
  split; [exact H|].
  apply (text_content_bypasses_pipeline test_env _ None initial_world H).
Defined.

(** ** The terminal renderer *)

Lemma for_loop_invariant {St : Type} (P : Z -> St -> Prop) (body : Z -> St -> option St) n i s :
  P i s ->
  (forall j s, i <= j < i + Z.of_nat n -> P j s -> exists s', body j s = Some s' /\ P (j + 1) s') ->
  exists s', for_loop n i body s = Some s' /\ P (i + Z.of_nat n) s'.
Proof.
  revert i s. induction n as [|n IH]; intros i s Hs Hstep.
  - exists s. rewrite Z.add_0_r. auto.
  - cbn [for_loop]. destruct (Hstep i s ltac:(lia) Hs) as (s1 & -> & Hs1).
    destruct (IH (i + 1) s1 Hs1) as (s' & Hrun & Hs').
    + intros j s2 Hj. apply Hstep. lia.
    + exists s'. split; [assumption|]. replace (i + Z.of_nat (S n)) with (i + 1 + Z.of_nat n) by lia.
      assumption.
Qed.

Lemma for_range_invariant {St : Type} (P : Z -> St -> Prop) (body : Z -> St -> option St) hi s :
  0 <= hi -> P 0 s ->
  (forall j s, 0 <= j < hi -> P j s -> exists s', body j s = Some s' /\ P (j + 1) s') ->
  exists s', for_range 0 hi body s = Some s' /\ P hi s'.
Proof.
  intros Hhi Hs Hstep. unfold for_range.
  destruct (for_loop_invariant P body (Z.to_nat (hi - 0)) 0 s Hs) as (s' & Hrun & Hs').
  - intros j s1 Hj. apply Hstep. lia.
  - exists s'. split; [assumption|].
    assert (E : 0 + Z.of_nat (Z.to_nat (hi - 0)) = hi) by lia. now rewrite E in Hs'.
Qed.

Lemma strip_from_app b s1 s2 :
  strip_from b (s1 ++ s2) = (strip_from b s1 ++ strip_from (escape_state b s1) s2)%string.
Proof.
  revert b. induction s1 as [|c s1 IH]; intros b; cbn [String.append strip_from escape_state].
  - reflexivity.
  - destruct b; [apply IH|]. destruct (Ascii.eqb c _); [apply IH|].
    cbn [String.append]. now rewrite IH.
Qed.

Lemma escape_state_app b s1 s2 :
  escape_state b (s1 ++ s2) = escape_state (escape_state b s1) s2.
Proof.
  revert b. induction s1 as [|c s1 IH]; intros b; cbn [String.append escape_state].
  - reflexivity.
  - destruct b; apply IH.
Qed.

Lemma color_codes_strip fg bg :
  strip_from false (fg_color_codes fg ++ bg_color_codes bg) = EmptyString /\
  escape_state false (fg_color_codes fg ++ bg_color_codes bg) = false /\
  strlen (fg_color_codes fg ++ bg_color_codes bg) = 10.
Proof. destruct fg, bg; repeat split; reflexivity. Qed.

Lemma color_reset_strip :
  strip_from false COLOR_RESET = EmptyString /\ strlen COLOR_RESET = 4.
Proof. split; reflexivity. Qed.

Lemma string_app_empty_r (s : string) : (s ++ "")%string = s.
Proof. induction s as [|c s IH]; cbn [String.append]; congruence. Qed.

Lemma string_app_assoc (s1 s2 s3 : string) :
  ((s1 ++ s2) ++ s3)%string = (s1 ++ (s2 ++ s3))%string.
Proof. induction s1 as [|c s1 IH]; cbn [String.append]; congruence. Qed.

Lemma strlen_app s1 s2 : strlen (s1 ++ s2) = strlen s1 + strlen s2.
Proof.
  unfold strlen. induction s1 as [|c s1 IH]; cbn [String.append String.length]; lia.
Qed.

Lemma to_uint8_range z : 0 <= to_uint8 z <= 255.
Proof. unfold to_uint8. pose proof (Z.mod_pos_bound z 256). lia. Qed.

Lemma rgb_to_gray_range r g b : 0 <= rgb_to_gray r g b <= 255.
Proof. apply to_uint8_range. Qed.

(** Every pixel has a ramp character, and it is not ESC. *)
Lemma ramp_char_defined p :
  exists ch, ramp_char p = Some ch /\ Ascii.eqb ch (ascii_of_nat 27) = false.
Proof.
  unfold ramp_char. pose proof (rgb_to_gray_range (px_r p) (px_g p) (px_b p)) as Hg.
  set (gray := rgb_to_gray _ _ _) in *. clearbody gray.
  unfold ASCII_RAMP_LEN. change (10 - 1) with 9.
  rewrite Z.quot_div_nonneg by lia.
  assert (Hidx : 0 <= gray * 9 / 255 <= 9).
  { split; [apply Z.div_pos; lia|]. apply Z.div_le_upper_bound; lia. }
  set (i := gray * 9 / 255) in *. clearbody i.
  assert (Hi : i = 0 \/ i = 1 \/ i = 2 \/ i = 3 \/ i = 4 \/ i = 5 \/ i = 6 \/ i = 7 \/ i = 8 \/ i = 9) by lia.
  destruct Hi as [->|[->|[->|[->|[->|[->|[->|[->|[->| ->]]]]]]]]]; eexists; split; reflexivity.
Qed.

Lemma pixel_text_spec p :
  exists ch, ramp_char p = Some ch /\ pixel_text (Some p) = String ch (String ch EmptyString) /\
             strip_from false (pixel_text (Some p)) = pixel_text (Some p) /\
             escape_state false (pixel_text (Some p)) = false /\
             strlen (pixel_text (Some p)) = 2.
Proof.
  destruct (ramp_char_defined p) as (ch & Hch & Hesc). exists ch.
  unfold pixel_text. rewrite Hch. cbn [strip_from escape_state]. rewrite Hesc.
  repeat split; reflexivity.
Qed.

Lemma row_text_succ rgb_buffer width y k :
  0 <= k ->
  row_text rgb_buffer width y (k + 1) =
  (row_text rgb_buffer width y k ++ pixel_text (read rgb_buffer (y * width + k)))%string.
Proof.
  intros Hk. unfold row_text. rewrite seqZ_app by lia. rewrite fold_left_app.
  cbn [seqZ]. change (seqZ (0 + k) 1) with (seqZ (0 + k) (Z.succ 0)).
  rewrite seqZ_cons by lia. rewrite seqZ_nil by lia. cbn [fold_left]. now rewrite Z.add_0_l.
Qed.

Lemma read_pixel_in_image (rgb_buffer : list rgb_pixel_t) width height x y :
  Z.of_nat (length rgb_buffer) = width * height -> 0 <= x < width -> 0 <= y < height ->
  exists p, read rgb_buffer (y * width + x) = Some p.
Proof.
  intros Hlen Hx Hy. pose proof (pixel_index_bounds width height x y Hx Hy).
  destruct (read_Some rgb_buffer (y * width + x)) as (p & Hp & _); [lia|]. eauto.
Qed.

Lemma row_text_strlen (rgb_buffer : list rgb_pixel_t) width height y k :
  Z.of_nat (length rgb_buffer) = width * height -> 0 <= y < height ->
  0 <= k <= width -> strlen (row_text rgb_buffer width y k) = 2 * k.
Proof.
  intros Hlen Hy Hk. assert (Hk0 : 0 <= k) by lia. revert Hk.
  pattern k. apply natlike_ind; [| |exact Hk0].
  - intros _. reflexivity.
  - intros k' Hk' IH Hk. unfold Z.succ. rewrite row_text_succ, strlen_app, IH by lia.
    destruct (read_pixel_in_image rgb_buffer width height k' y) as (p & ->); [assumption|lia|assumption|].
    destruct (pixel_text_spec p) as (ch & _ & _ & _ & _ & ->). lia.
Qed.

Section RenderRow.

Variables (rgb_buffer : list rgb_pixel_t) (width height : Z) (color : bool).
Hypothesis Hlen : Z.of_nat (length rgb_buffer) = width * height.
Hypothesis Hwidth : 0 <= width.
Hypothesis Hfit : line_bytes color width <= LINE_ALLOC.

(** The state of the inner loop after [x] pixels of row [y]. *)
Let row_invariant (y x : Z) (st : render_state) : Prop :=
  escape_state false (rs_line st) = false /\
  strip_from false (rs_line st) = row_text rgb_buffer width y x /\
  strlen (rs_line st) <= (if color then 12 else 2) * x.

Lemma render_pixel_step y x st :
  0 <= y < height -> 0 <= x < width -> row_invariant y x st ->
  exists st', render_pixel rgb_buffer width color y x st = Some st' /\
              row_invariant y (x + 1) st'.
Proof.
  intros Hy Hx (Hesc & Hstrip & Hsize). unfold render_pixel.
  destruct (read_pixel_in_image rgb_buffer width height x y Hlen Hx Hy) as (p & Hp).
  rewrite Hp. cbn [mbind option_bind].
  destruct (pixel_text_spec p) as (ch & Hch & Htext & Hts & Hte & Htl).
  rewrite Hch. cbn [mbind option_bind].
  assert (Hcolored : exists st1,
    (if color then
       if negb (rs_color_active st)
          || negb (term_color_eqb (rgb_to_terminal_color (px_r p) (px_g p) (px_b p)) (rs_last_fg st))
          || negb (term_color_eqb BLACK (rs_last_bg st))
       then
         line ← line_snprintf (rs_line st)
                  (fg_color_codes (rgb_to_terminal_color (px_r p) (px_g p) (px_b p))
                   ++ bg_color_codes BLACK);
         Some {| rs_line := line;
                 rs_last_fg := rgb_to_terminal_color (px_r p) (px_g p) (px_b p);
                 rs_last_bg := BLACK; rs_color_active := true |}
       else Some st
     else Some st) = Some st1 /\
    escape_state false (rs_line st1) = false /\
    strip_from false (rs_line st1) = row_text rgb_buffer width y x /\
    strlen (rs_line st1) + 2 <= (if color then 12 else 2) * (x + 1) /\
    strlen (rs_line st1) + 2 < LINE_ALLOC).
  { unfold line_bytes in Hfit. destruct color.
    - destruct (_ || _ || _).
      + destruct (color_codes_strip (rgb_to_terminal_color (px_r p) (px_g p) (px_b p)) BLACK)
          as (Hcs & Hce & Hcl).
        unfold line_snprintf. rewrite Hcl.
        destruct (Z.leb_spec (strlen (rs_line st) + 10 + 1) LINE_ALLOC); [|lia].
        cbn [mbind option_bind]. eexists. split; [reflexivity|]. cbn [rs_line].
        rewrite escape_state_app, Hesc, Hce, strip_from_app, Hesc, Hcs, Hstrip, strlen_app, Hcl.
        rewrite string_app_empty_r. repeat split; lia.
      + exists st. repeat split; auto; lia.
    - exists st. repeat split; auto; lia. }
  destruct Hcolored as (st1 & -> & Hesc1 & Hstrip1 & Hsize1 & Hcap1).
  cbn [mbind option_bind]. unfold line_put.
  destruct (Z.ltb_spec (strlen (rs_line st1)) LINE_ALLOC); [|lia].
  cbn [mbind option_bind]. rewrite strlen_app. change (strlen (String ch "")) with 1.
  destruct (Z.ltb_spec (strlen (rs_line st1) + 1) LINE_ALLOC); [|lia].
  cbn [mbind option_bind]. eexists. split; [reflexivity|]. unfold row_invariant. cbn [rs_line].
  rewrite string_app_assoc. change (String ch "" ++ String ch "")%string with (String ch (String ch "")).
  rewrite <- Htext.
  rewrite escape_state_app, Hesc1, Hte, strip_from_app, Hesc1, Hts, Hstrip1, strlen_app, Htl.
  rewrite row_text_succ, Hp by lia. repeat split; try lia. 
Qed.

Lemma render_row_spec y last :
  0 <= y < height ->
  exists line last', render_row rgb_buffer width color y last = Some (line, last') /\
                     strip_escapes line = row_text rgb_buffer width y width.
Proof.
  intros Hy. unfold render_row.
  destruct (for_range_invariant (row_invariant y)
              (render_pixel rgb_buffer width color y) width
              {| rs_line := ""; rs_last_fg := fst last; rs_last_bg := snd last;
                 rs_color_active := false |} Hwidth)
    as (st & -> & Hesc & Hstrip & Hsize).
  - repeat split. cbn [rs_line]. rewrite Z.mul_0_r. reflexivity.
  - intros x st Hx Hst. now apply render_pixel_step.
  - cbn [mbind option_bind]. unfold line_bytes in Hfit.
    destruct color; cbn [andb].
    + destruct (rs_color_active st).
      * destruct color_reset_strip as [Hrs Hrl]. unfold line_snprintf. rewrite Hrl.
        destruct (Z.leb_spec (strlen (rs_line st) + 4 + 1) LINE_ALLOC); [|lia].
        cbn [mbind option_bind]. rewrite strlen_app, Hrl.
        destruct (Z.ltb_spec (strlen (rs_line st) + 4) LINE_ALLOC); [|lia].
        do 2 eexists. split; [reflexivity|].
        unfold strip_escapes. rewrite strip_from_app, Hesc, Hrs, Hstrip.
        apply string_app_empty_r.
      * cbn [mbind option_bind].
        destruct (Z.ltb_spec (strlen (rs_line st)) LINE_ALLOC); [|lia].
        do 2 eexists. split; [reflexivity|]. exact Hstrip.
    + cbn [mbind option_bind].
      destruct (Z.ltb_spec (strlen (rs_line st)) LINE_ALLOC); [|lia].
      do 2 eexists. split; [reflexivity|]. exact Hstrip.
Qed.

End RenderRow.

Lemma render_rows_spec (rgb_buffer : list rgb_pixel_t) width height color :
  Z.of_nat (length rgb_buffer) = width * height ->
  0 <= width -> 0 <= height ->
  line_bytes color width <= LINE_ALLOC ->
  exists lines, render_rows rgb_buffer width height color = Some lines /\
    Z.of_nat (length lines) = height /\
    forall y, 0 <= y < height ->
      exists line, lines !! Z.to_nat y = Some line /\
                   strip_escapes line = row_text rgb_buffer width y width.
Proof.
  intros Hlen Hw Hh Hfit. unfold render_rows.
  destruct (for_range_invariant
              (fun y (acc : list string * (term_color_t * term_color_t)) =>
                 Z.of_nat (length (fst acc)) = y /\
                 forall j, 0 <= j < y ->
                   exists line, fst acc !! Z.to_nat j = Some line /\
                                strip_escapes line = row_text rgb_buffer width j width)
              (fun y acc =>
                 row ← render_row rgb_buffer width color y (snd acc);
                 Some (fst acc ++ [fst row], snd row))
              height ([], (BLACK, BLACK)) Hh)
    as (acc & -> & Hcount & Hrows).
  - split; [reflexivity|]. intros j Hj. lia.
  - intros y acc Hy [Hcount Hrows].
    destruct (render_row_spec rgb_buffer width height color Hlen Hw Hfit y (snd acc) Hy)
      as (line & last' & -> & Hline).
    cbn [mbind option_bind fst snd]. eexists. split; [reflexivity|]. cbn [fst snd]. split.
    + rewrite length_app. cbn [length]. lia.
    + intros j Hj. destruct (Z.eq_dec j y) as [->|Hne].
      * exists line. split; [|assumption].
        rewrite lookup_app_r by lia.
        replace (Z.to_nat y - length (fst acc))%nat with 0%nat by lia. reflexivity.
      * destruct (Hrows j ltac:(lia)) as (l & Hl & Hs). exists l. split; [|assumption].
        rewrite lookup_app_l by lia. assumption.
  - cbn [mbind option_bind]. exists (fst acc). auto.
Qed.

(** The run of [render_ascii_art] on a buffer it accepts. *)
Lemma render_ascii_art_defined e rgb_buffer width height config w :
  1 <= width <= 1000 -> 1 <= height <= 1000 ->
  Z.of_nat (length rgb_buffer) = width * height ->
  line_bytes (use_color config) width <= LINE_ALLOC ->
  fst (memory_alloc e site_line LINE_ALLOC true) = true ->
  exists lines w',
    render_ascii_art e (Some rgb_buffer) width height config w = Some (0, w') /\
    emitted w w' (render_preamble e rgb_buffer width height
                  ++ map art_line lines ++ render_footer) /\
    Z.of_nat (length lines) = height /\
    forall y, 0 <= y < height ->
      exists line, lines !! Z.to_nat y = Some line /\
                   strip_escapes line = row_text rgb_buffer width y width /\
                   strlen (strip_escapes line) = 2 * width.
Proof.
  intros Hw Hh Hlen Hfit Halloc.
  destruct (render_rows_spec rgb_buffer width height (use_color config) Hlen
              ltac:(lia) ltac:(lia) Hfit) as (lines & Hlines & Hcount & Hrows).
  destruct (read_Some rgb_buffer 0) as (first & Hfirst & _); [nia|].
  exists lines. unfold render_ascii_art, bind, emit, emit_all, ret, alloc, lift_option, log.
  cbn [shell_out stbi_failure_reason stbi__jpeg_decode_reduced].
  destruct (Z.leb_spec width 0); [lia|]. destruct (Z.leb_spec height 0); [lia|].
  destruct (Z.ltb_spec 1000 width); [lia|]. destruct (Z.ltb_spec 1000 height); [lia|].
  cbn [orb]. rewrite Hfirst. cbn [shell_out stbi_failure_reason stbi__jpeg_decode_reduced].
  rewrite Halloc. cbn [negb]. rewrite Hlines.
  eexists. split; [reflexivity|]. split; [|split; [assumption|]].
  - unfold emitted, render_preamble, render_footer, log. cbn [shell_out].
    rewrite Hfirst. rewrite <- !app_assoc. cbn [app]. reflexivity.
  - intros y Hy. destruct (Hrows y Hy) as (line & Hl & Hs). exists line.
    split; [assumption|]. split; [assumption|]. rewrite Hs.
    apply (row_text_strlen rgb_buffer width height); auto; lia.
Qed.

(** ** The pipeline without the dithering copy *)







(** In that environment a decoded 2x1 image is scaled to 40x20, left
    undithered, and rendered: the call returns 0. *)
Example undithered_image_is_rendered :
  fst <$> gopher_render_image no_dither_copy_env jpeg_bytes None initial_world = Some 0.
Proof. vm_compute. reflexivity. Qed.

(** ** Binary32 arithmetic: rounding stays between the neighbours *)

Lemma bpow_gt_0 e : (0 < bpow e)%R.
Proof. apply powerRZ_lt; lra. Qed.

Lemma bpow_plus a b : bpow (a + b) = (bpow a * bpow b)%R.
Proof. apply powerRZ_add; lra. Qed.

Lemma bpow_IZR e : 0 <= e -> bpow e = IZR (2 ^ e).
Proof.
  intros He. unfold bpow. destruct e as [|p|p]; [reflexivity| |lia].
  change (2 ^ Z.pos p) with (Z.pow_pos 2 p). now rewrite Zpower_pos_powerRZ.
Qed.

Lemma bpow_le a b : a <= b -> (bpow a <= bpow b)%R.
Proof.
  intros H. replace b with (a + (b - a)) by lia. rewrite bpow_plus.
  rewrite (bpow_IZR (b - a)) by lia.
  assert (1 <= 2 ^ (b - a)) by (apply Z.lt_pred_le, Z.pow_pos_nonneg; lia).
  apply IZR_le in H0. pose proof (bpow_gt_0 a). nra.
Qed.

Lemma bpow_lt a b : a < b -> (bpow a < bpow b)%R.
Proof.
  intros H. replace b with (a + (b - a)) by lia. rewrite bpow_plus.
  rewrite (bpow_IZR (b - a)) by lia.
  assert (2 <= 2 ^ (b - a)).
  { replace (b - a) with (1 + (b - a - 1)) by lia. rewrite Z.pow_add_r by lia.
    assert (0 < 2 ^ (b - a - 1)) by (apply Z.pow_pos_nonneg; lia). lia. }
  apply IZR_le in H0. pose proof (bpow_gt_0 a). nra.
Qed.

Lemma F2R_shift m e k : 0 <= k -> F2R (m * 2 ^ k) e = F2R m (e + k).
Proof.
  intros Hk. unfold F2R. rewrite mult_IZR, bpow_plus, (bpow_IZR k) by lia. ring.
Qed.

Lemma F2R_le m1 m2 e : m1 <= m2 -> (F2R m1 e <= F2R m2 e)%R.
Proof. intros H. unfold F2R. apply IZR_le in H. pose proof (bpow_gt_0 e). nra. Qed.

Lemma F2R_lt m1 m2 e : m1 < m2 -> (F2R m1 e < F2R m2 e)%R.
Proof. intros H. unfold F2R. apply IZR_lt in H. pose proof (bpow_gt_0 e). nra. Qed.

Lemma F2R_lt_inv m1 m2 e : (F2R m1 e < F2R m2 e)%R -> m1 < m2.
Proof.
  intros H. destruct (Z_lt_le_dec m1 m2) as [|Hle]; [assumption|].
  apply (F2R_le _ _ e) in Hle. lra.
Qed.

Lemma F2R_le_inv m1 m2 e : (F2R m1 e <= F2R m2 e)%R -> m1 <= m2.
Proof.
  intros H. destruct (Z_le_gt_dec m1 m2) as [|Hgt]; [assumption|].
  apply Z.gt_lt, (F2R_lt _ _ e) in Hgt. lra.
Qed.

Lemma digits2_pos_bounds p :
  2 ^ (Z.pos (digits2_pos p) - 1) <= Z.pos p < 2 ^ Z.pos (digits2_pos p).
Proof.
  induction p as [p IH|p IH|]; simpl digits2_pos.
  - rewrite Pos2Z.inj_succ. replace (Z.succ (Z.pos (digits2_pos p)) - 1) with (1 + (Z.pos (digits2_pos p) - 1)) by lia.
    rewrite Z.pow_succ_r, Z.pow_add_r by lia. change (2 ^ 1) with 2. lia.
  - rewrite Pos2Z.inj_succ. replace (Z.succ (Z.pos (digits2_pos p)) - 1) with (1 + (Z.pos (digits2_pos p) - 1)) by lia.
    rewrite Z.pow_succ_r, Z.pow_add_r by lia. change (2 ^ 1) with 2. lia.
  - simpl. lia.
Qed.

Lemma Zdigits2_bounds m : 0 < m -> 2 ^ (Zdigits2 m - 1) <= m < 2 ^ Zdigits2 m.
Proof. destruct m; try lia. intros _. apply digits2_pos_bounds. Qed.

Lemma Zdigits2_unique m d : 0 < m -> 2 ^ (d - 1) <= m < 2 ^ d -> Zdigits2 m = d.
Proof.
  intros Hm [H1 H2]. pose proof (Zdigits2_bounds m Hm) as [H3 H4].
  assert (0 < Zdigits2 m) by (destruct m; simpl; lia).
  assert (0 < d).
  { destruct (Z_lt_le_dec 0 d) as [|Hd]; [assumption|exfalso].
    destruct (Z.eq_dec d 0) as [->|]; [simpl in H2; lia|].
    rewrite Z.pow_neg_r in H2 by lia. lia. }
  destruct (Z.lt_trichotomy (Zdigits2 m) d) as [Hlt|[Heq|Hgt]]; [|assumption|].
  - assert (2 ^ Zdigits2 m <= 2 ^ (d - 1)) by (apply Z.pow_le_mono_r; lia). lia.
  - assert (2 ^ d <= 2 ^ (Zdigits2 m - 1)) by (apply Z.pow_le_mono_r; lia). lia.
Qed.

Lemma shr_1_spec mrs : 0 <= shr_m mrs ->
  shr_m (shr_1 mrs) = shr_m mrs / 2 /\
  inex (shr_1 mrs) = Z.odd (shr_m mrs) || inex mrs.
Proof.
  destruct mrs as [m r s]. unfold inex. simpl. intros Hm.
  destruct m as [|[p|p|]|p]; try lia; (split; [|reflexivity]);
    cbn [shr_1 shr_m]; try reflexivity.
  - apply (Z.div_unique _ _ _ 1); lia.
  - apply (Z.div_unique _ _ _ 0); lia.
Qed.

Lemma iter_pos_nat {A} (f : A -> A) p x : SpecFloat.iter_pos f p x = Nat.iter (Pos.to_nat p) f x.
Proof.
  revert x. induction p as [p IH|p IH|]; intros x; cbn [SpecFloat.iter_pos].
  - rewrite !IH, Pos2Nat.inj_xI, Nat.iter_succ_r, <- Nat.iter_add.
    f_equal. lia.
  - rewrite !IH, Pos2Nat.inj_xO, <- Nat.iter_add. f_equal. lia.
  - reflexivity.
Qed.

Lemma shr_iter_spec n mrs : 0 <= shr_m mrs ->
  shr_m (Nat.iter n shr_1 mrs) = shr_m mrs / 2 ^ Z.of_nat n /\
  inex (Nat.iter n shr_1 mrs) = negb (shr_m mrs mod 2 ^ Z.of_nat n =? 0) || inex mrs.
Proof.
  intros Hm. induction n as [|n [IHm IHi]].
  - simpl. rewrite Z.div_1_r, Z.mod_1_r. auto.
  - rewrite Nat.iter_succ. 
    assert (0 < 2 ^ Z.of_nat n) by (apply Z.pow_pos_nonneg; lia).
    destruct (shr_1_spec (Nat.iter n shr_1 mrs)) as [Hm' Hi'].
    { rewrite IHm. apply Z.div_pos; lia. }
    rewrite Hm', Hi', IHm, IHi. rewrite Nat2Z.inj_succ, Z.pow_succ_r by lia.
    split.
    + rewrite Z.div_div by lia. f_equal. lia.
    + rewrite (Z.mul_comm 2), Z.rem_mul_r by lia.
      set (a := shr_m mrs mod 2 ^ Z.of_nat n). set (q := shr_m mrs / 2 ^ Z.of_nat n).
      assert (0 <= a < 2 ^ Z.of_nat n) by (apply Z.mod_pos_bound; lia).
      assert (Hq : q mod 2 = if Z.odd q then 1 else 0) by (rewrite Zmod_odd; reflexivity).
      rewrite Hq. destruct (Z.odd q); simpl.
      * destruct (Z.eqb_spec (a + 2 ^ Z.of_nat n * 1) 0); [lia|]. reflexivity.
      * rewrite Z.mul_0_r, Z.add_0_r. reflexivity.
Qed.

Lemma located_shift m e ix X n :
  0 <= m -> 0 <= n -> located m e ix X ->
  located (m / 2 ^ n) (e + n) (negb (m mod 2 ^ n =? 0) || ix) X.
Proof.
  intros Hm Hn HX.
  assert (Hp : 0 < 2 ^ n) by (apply Z.pow_pos_nonneg; lia).
  pose proof (Z.div_mod m (2 ^ n) ltac:(lia)) as Hdm.
  pose proof (Z.mod_pos_bound m (2 ^ n) Hp) as Hr.
  set (q := m / 2 ^ n) in *. set (r := m mod 2 ^ n) in *.
  assert (Hlo : F2R q (e + n) = F2R (q * 2 ^ n) e) by (now rewrite F2R_shift).
  assert (Hhi : F2R (q + 1) (e + n) = F2R ((q + 1) * 2 ^ n) e) by (now rewrite F2R_shift).
  unfold located in *. destruct (Z.eqb_spec r 0) as [Hr0|Hr0]; destruct ix; simpl.
  - rewrite Hlo, Hhi. pose proof (F2R_le (q * 2 ^ n) m e ltac:(lia)).
    pose proof (F2R_le (m + 1) ((q + 1) * 2 ^ n) e ltac:(lia)). lra.
  - rewrite Hlo, HX. f_equal. lia.
  - rewrite Hlo, Hhi. pose proof (F2R_le (q * 2 ^ n) m e ltac:(lia)).
    pose proof (F2R_le (m + 1) ((q + 1) * 2 ^ n) e ltac:(lia)). lra.
  - rewrite Hlo, Hhi, HX. split; apply F2R_lt; lia.
Qed.

Lemma canonical32_digits mt et : canonical32 mt et -> mt < 2 ^ 24.
Proof.
  intros [Hm He]. unfold fexp, emin, f32_prec, f32_emax in He.
  pose proof (Zdigits2_bounds mt Hm) as [_ Hd].
  assert (Zdigits2 mt <= 24) by lia.
  assert (2 ^ Zdigits2 mt <= 2 ^ 24) by (apply Z.pow_le_mono_r; lia). lia.
Qed.

Lemma F2R_pow2 k e : 0 <= k -> F2R (2 ^ k) e = bpow (e + k).
Proof. intros Hk. replace (2 ^ k) with (1 * 2 ^ k) by lia. rewrite F2R_shift by lia. unfold F2R. lra. Qed.

Lemma canonical32_below mt et m1 e1 :
  canonical32 mt et -> et < e1 -> 2 ^ 23 <= m1 -> (F2R mt et < F2R m1 e1)%R.
Proof.
  intros Hc Hlt Hm1. pose proof (canonical32_digits _ _ Hc) as Hmt.
  apply Rlt_le_trans with (F2R (2 ^ 24) et); [apply F2R_lt; lia|].
  apply Rle_trans with (F2R (2 ^ 23) e1); [|apply F2R_le; lia].
  rewrite !F2R_pow2 by lia. apply bpow_le. lia.
Qed.

Lemma faithful_intro X m1 e1 ix m2 m e :
  2 ^ 23 <= m1 -> located m1 e1 ix X ->
  (m2 = m1 \/ (ix = true /\ m2 = m1 + 1)) ->
  F2R m e = F2R m2 e1 ->
  faithful X m e.
Proof.
  intros Hm1 HX Hm2 HR.
  assert (Hlo : (F2R m1 e1 <= X)%R) by (unfold located in HX; destruct ix; lra).
  assert (Hulp : (bpow e1 <= F2R m1 e1 * bpow (-23))%R).
  { apply Rle_trans with (F2R (2 ^ 23) e1 * bpow (-23))%R.
    - rewrite F2R_pow2 by lia. rewrite <- bpow_plus. apply bpow_le. lia.
    - pose proof (F2R_le (2 ^ 23) m1 e1 Hm1). pose proof (bpow_gt_0 (-23)). nra. }
  assert (Hsucc : F2R (m1 + 1) e1 = (F2R m1 e1 + bpow e1)%R).
  { unfold F2R. rewrite plus_IZR. ring. }
  assert (Hpos : (0 < F2R m1 e1)%R).
  { unfold F2R. pose proof (bpow_gt_0 e1). assert (0 < IZR m1)%R by (apply IZR_lt; lia). nra. }
  split.
  - intros mt et Hc HT. rewrite HR.
    destruct (Z_lt_le_dec et e1) as [Hlt|Hge].
    + pose proof (canonical32_below _ _ _ _ Hc Hlt Hm1). lra.
    + replace et with (e1 + (et - e1)) in HT |- * by lia.
      rewrite <- F2R_shift in HT |- * by lia.
      destruct Hm2 as [->|[-> ->]].
      * unfold located in HX. destruct ix; [lra|]. rewrite <- HX. exact HT.
      * unfold located in HX. apply F2R_le.
        assert (F2R m1 e1 < F2R (mt * 2 ^ (et - e1)) e1)%R by lra.
        apply F2R_lt_inv in H. lia.
  - intros mt et Hc HT. rewrite HR.
    apply Rle_trans with (F2R m1 e1); [|destruct Hm2 as [->|[_ ->]]; apply F2R_le; lia].
    destruct (Z_lt_le_dec et e1) as [Hlt|Hge].
    + pose proof (canonical32_below _ _ _ _ Hc Hlt Hm1). lra.
    + replace et with (e1 + (et - e1)) in HT |- * by lia.
      rewrite <- F2R_shift in HT |- * by lia.
      apply F2R_le. unfold located in HX. destruct ix.
      * assert (F2R (mt * 2 ^ (et - e1)) e1 < F2R (m1 + 1) e1)%R by lra.
        apply F2R_lt_inv in H. lia.
      * rewrite HX in HT. now apply F2R_le_inv in HT.
  - rewrite HR. destruct Hm2 as [->|[-> ->]].
    + pose proof (bpow_gt_0 (-23)). nra.
    + unfold located in HX. rewrite Hsucc. pose proof (bpow_gt_0 (-23)). nra.
  - rewrite HR. pose proof (bpow_gt_0 (-23)).
    destruct Hm2 as [->|[-> ->]].
    + unfold located in HX. destruct ix; [|nra]. rewrite Hsucc in HX. nra.
    + unfold located in HX. rewrite Hsucc in HX |- *. pose proof (bpow_gt_0 e1). nra.
Qed.

Lemma loc_of_shr_record_inex mrs : loc_inexact (loc_of_shr_record mrs) = inex mrs.
Proof. destruct mrs as [m [] []]; reflexivity. Qed.

Lemma shr_record_of_loc_spec m l :
  shr_m (shr_record_of_loc m l) = m /\ inex (shr_record_of_loc m l) = loc_inexact l.
Proof. destruct l as [|[]]; split; reflexivity. Qed.

Lemma shr_spec mrs e n : 0 <= shr_m mrs -> 0 <= n ->
  exists mrs', shr mrs e n = (mrs', e + n) /\
    shr_m mrs' = shr_m mrs / 2 ^ n /\
    inex mrs' = negb (shr_m mrs mod 2 ^ n =? 0) || inex mrs.
Proof.
  intros Hm Hn. destruct n as [|p|p]; [| |lia].
  - exists mrs. cbn [shr]. rewrite Z.add_0_r, Z.div_1_r, Z.mod_1_r. auto.
  - exists (SpecFloat.iter_pos shr_1 p mrs). cbn [shr]. split; [reflexivity|].
    rewrite iter_pos_nat. rewrite <- (positive_nat_Z p). now apply shr_iter_spec.
Qed.

Lemma round_nearest_even_cases m l :
  round_nearest_even m l = m \/ (loc_inexact l = true /\ round_nearest_even m l = m + 1).
Proof.
  destruct l as [|[]]; simpl; auto. destruct (Z.even m); auto.
Qed.

Lemma binary_round_aux_normal mx ex lx X :
  0 < mx -> located mx ex (loc_inexact lx) X ->
  24 <= Zdigits2 mx -> -149 <= Zdigits2 mx + ex - 24 ->
  exists m e,
    binary_round_aux f32_prec f32_emax false mx ex lx =
      (if e <=? 104 then S754_finite false (Z.to_pos m) e else S754_infinity false) /\
    2 ^ 23 <= m < 2 ^ 24 /\
    Zdigits2 mx + ex - 24 <= e <= Zdigits2 mx + ex - 23 /\
    faithful X m e.
Proof.
  intros Hmx HX Hd Hn.
  pose proof (Zdigits2_bounds mx Hmx) as Hdb.
  set (d := Zdigits2 mx) in *. set (e1 := d + ex - 24).
  assert (Hp : 0 < 2 ^ (d - 24)) by (apply Z.pow_pos_nonneg; lia).
  assert (Hsplit : 2 ^ d = 2 ^ 24 * 2 ^ (d - 24)) by (rewrite <- Z.pow_add_r by lia; f_equal; lia).
  assert (Hsplit' : 2 ^ (d - 1) = 2 ^ 23 * 2 ^ (d - 24)) by (rewrite <- Z.pow_add_r by lia; f_equal; lia).
  set (m1 := mx / 2 ^ (d - 24)).
  assert (Hm1 : 2 ^ 23 <= m1 < 2 ^ 24).
  { unfold m1. split.
    - apply Z.div_le_lower_bound; lia.
    - apply Z.div_lt_upper_bound; lia. }
  unfold binary_round_aux, shr_fexp. fold d.
  replace (fexp f32_prec f32_emax (d + ex) - ex) with (d - 24) by (unfold fexp, emin, f32_prec, f32_emax; lia).
  destruct (shr_record_of_loc_spec mx lx) as [Hsm Hsi].
  destruct (shr_spec (shr_record_of_loc mx lx) ex (d - 24)) as (mrs1 & -> & Hm1' & Hi1);
    [rewrite Hsm; lia|lia|].
  rewrite Hsm in Hm1', Hi1. fold m1 in Hm1'. rewrite Hsi in Hi1.
  replace (ex + (d - 24)) with e1 by (unfold e1; lia).
  pose proof (located_shift mx ex _ X (d - 24) ltac:(lia) ltac:(lia) HX) as HX1.
  replace (ex + (d - 24)) with e1 in HX1 by (unfold e1; lia).
  fold m1 in HX1. rewrite <- Hi1 in HX1.
  rewrite Hm1'.
  pose proof (round_nearest_even_cases m1 (loc_of_shr_record mrs1)) as Hr.
  rewrite loc_of_shr_record_inex in Hr.
  set (m2 := round_nearest_even m1 (loc_of_shr_record mrs1)) in *.
  destruct (Z_lt_le_dec m2 (2 ^ 24)) as [Hlt|Hge].
  - (* no carry *)
    assert (Hd2 : Zdigits2 m2 = 24) by (apply Zdigits2_unique; lia).
    rewrite Hd2. replace (fexp f32_prec f32_emax (24 + e1) - e1) with 0 by (unfold fexp, emin, f32_prec, f32_emax, e1; lia).
    cbn [shr shr_record_of_loc shr_m].
    exists m2, e1. split; [|split; [lia|split; [unfold e1; lia|]]].
    + destruct m2 as [|p|p]; try lia. reflexivity.
    + eapply faithful_intro with (m1 := m1) (m2 := m2); eauto. lia.
  - (* carry to the next binade *)
    assert (Hm2 : m2 = 2 ^ 24) by lia.
    assert (Hd2 : Zdigits2 m2 = 25) by (rewrite Hm2; reflexivity).
    rewrite Hd2. replace (fexp f32_prec f32_emax (25 + e1) - e1) with 1 by (unfold fexp, emin, f32_prec, f32_emax, e1; lia).
    rewrite Hm2. cbn [shr shr_record_of_loc shr_m SpecFloat.iter_pos shr_1].
    exists (2 ^ 23), (e1 + 1). split; [|split; [lia|split; [unfold e1; lia|]]].
    + reflexivity.
    + eapply faithful_intro with (m1 := m1) (m2 := m2); eauto; [lia|].
      rewrite Hm2. rewrite !F2R_pow2 by lia. f_equal. lia.
Qed.

Lemma Zdigits2_lower m k : 0 < m -> 2 ^ (k - 1) <= m -> k <= Zdigits2 m.
Proof.
  intros Hm Hk. pose proof (Zdigits2_bounds m Hm) as [_ Hd].
  destruct (Z_le_gt_dec k (Zdigits2 m)) as [|Hgt]; [assumption|].
  assert (2 ^ Zdigits2 m <= 2 ^ (k - 1)).
  { apply Z.pow_le_mono_r; [lia|]. lia. }
  lia.
Qed.

Lemma pfin_inv f : pfin f ->
  exists m e, f = S754_finite false (Z.to_pos m) e /\
    2 ^ 23 <= m < 2 ^ 24 /\ -149 <= e <= 104 /\
    B2R f = F2R m e /\ canonical32 m e.
Proof.
  intros (m & e & -> & Hm & He). exists m, e. repeat split; try lia.
  - cbn [B2R]. rewrite Z2Pos.id by lia. reflexivity.
  - rewrite (Zdigits2_unique m 24) by lia. unfold fexp, emin, f32_prec, f32_emax. lia.
Qed.

Lemma F2R_pos m e : 0 < m -> (0 < F2R m e)%R.
Proof.
  intros Hm. unfold F2R. apply Rmult_lt_0_compat; [now apply IZR_lt|apply bpow_gt_0].
Qed.

Lemma pfin_pos f : pfin f -> (0 < B2R f)%R.
Proof. intros H. destruct (pfin_inv f H) as (m & e & _ & Hm & _ & -> & _). apply F2R_pos. lia. Qed.

Lemma pfin_intro m e :
  2 ^ 23 <= m < 2 ^ 24 -> -149 <= e <= 104 -> pfin (S754_finite false (Z.to_pos m) e).
Proof. intros Hm He. exists m, e. auto. Qed.

(** A positive normal number is at least [2^-126]. *)
Lemma pfin_lower f : pfin f -> (bpow (-126) <= B2R f)%R.
Proof.
  intros H. destruct (pfin_inv f H) as (m & e & _ & Hm & He & -> & _).
  apply Rle_trans with (F2R (2 ^ 23) e); [|apply F2R_le; lia].
  rewrite F2R_pow2 by lia. apply bpow_le. lia.
Qed.

Lemma round_aux_rounded mx ex lx X lo hi :
  0 < mx -> located mx ex (loc_inexact lx) X -> 24 <= Zdigits2 mx ->
  pfin lo -> pfin hi -> (B2R lo <= X <= B2R hi)%R ->
  rounded X (binary_round_aux f32_prec f32_emax false mx ex lx).
Proof.
  intros Hmx HX Hd Hlo Hhi [HloX HXhi].
  pose proof (Zdigits2_bounds mx Hmx) as [Hd1 Hd2].
  assert (Hnorm : -149 <= Zdigits2 mx + ex - 24).
  { pose proof (pfin_lower lo Hlo) as Hl.
    assert (HXup : (X < F2R (2 ^ Zdigits2 mx) ex)%R).
    { unfold located in HX. destruct (loc_inexact lx).
      - apply Rlt_le_trans with (F2R (mx + 1) ex); [lra|apply F2R_le; lia].
      - rewrite HX. apply F2R_lt. lia. }
    rewrite F2R_pow2 in HXup by lia.
    destruct (Z_le_gt_dec (-149) (Zdigits2 mx + ex - 24)) as [|Hgt]; [assumption|].
    assert (bpow (ex + Zdigits2 mx) <= bpow (-126))%R by (apply bpow_le; lia). lra. }
  destruct (binary_round_aux_normal mx ex lx X Hmx HX Hd Hnorm)
    as (m & e & Heq & Hm & He & Hf).
  destruct (pfin_inv hi Hhi) as (mh & eh & _ & Hmh & Heh & HBh & Hch).
  assert (Hup : (F2R m e <= F2R mh eh)%R).
  { apply (faithful_ub X m e Hf mh eh Hch). rewrite <- HBh. exact HXhi. }
  assert (Hele : e <= eh).
  { destruct (Z_le_gt_dec e eh) as [|Hgt]; [assumption|].
    pose proof (canonical32_below mh eh m e Hch ltac:(lia) ltac:(lia)). lra. }
  destruct (Z.leb_spec e 104) as [_|]; [|lia].
  assert (Hp : pfin (S754_finite false (Z.to_pos m) e)) by (apply pfin_intro; lia).
  assert (HB : B2R (S754_finite false (Z.to_pos m) e) = F2R m e).
  { cbn [B2R]. rewrite Z2Pos.id by lia. reflexivity. }
  rewrite Heq. unfold rounded. rewrite HB. split; [exact Hp|]. split; [|split; [|split]].
  - intros t Ht HXt. destruct (pfin_inv t Ht) as (mt & et & _ & _ & _ & HBt & Hct).
    rewrite HBt in *. now apply (faithful_ub X m e Hf).
  - intros t Ht HtX. destruct (pfin_inv t Ht) as (mt & et & _ & _ & _ & HBt & Hct).
    rewrite HBt in *. now apply (faithful_lb X m e Hf).
  - apply (faithful_rel_hi X m e Hf).
  - apply (faithful_rel_lo X m e Hf).
Qed.

(** *** Multiplication *)

Lemma f32_mul_rounded x y lo hi :
  pfin x -> pfin y -> pfin lo -> pfin hi ->
  (B2R lo <= B2R x * B2R y <= B2R hi)%R ->
  rounded (B2R x * B2R y) (f32_mul x y).
Proof.
  intros Hx Hy Hlo Hhi HX.
  destruct (pfin_inv x Hx) as (mx & ex & -> & Hmx & Hex & HBx & _).
  destruct (pfin_inv y Hy) as (my & ey & -> & Hmy & Hey & HBy & _).
  unfold f32_mul, SFmul. cbn [xorb].
  assert (Hprod : Z.pos (Z.to_pos mx * Z.to_pos my) = mx * my).
  { rewrite Pos2Z.inj_mul, !Z2Pos.id by lia. reflexivity. }
  rewrite Hprod.
  assert (Hlow : 2 ^ 46 <= mx * my) by nia.
  apply round_aux_rounded with (lo := lo) (hi := hi); auto; try lia.
  - unfold located. cbn [loc_inexact]. rewrite HBx, HBy. unfold F2R.
    rewrite mult_IZR, bpow_plus. ring.
  - apply Zdigits2_lower; [lia|]. change (2 ^ (24 - 1)) with (2 ^ 23). lia.
Qed.

(** *** Division *)

Lemma new_location_inexact nb k :
  loc_inexact (new_location nb k) = negb (k =? 0).
Proof.
  unfold new_location, new_location_even, new_location_odd.
  destruct (Z.even nb), (k =? 0); reflexivity.
Qed.

Lemma Rdiv_F2R mx ex my ey s e' :
  0 < my -> 0 <= s -> e' = ex - ey - s ->
  (F2R mx ex / F2R my ey = IZR (mx * 2 ^ s) / IZR my * bpow e')%R.
Proof.
  intros Hmy Hs ->. unfold F2R.
  replace ex with ((ex - ey - s) + s + ey) at 1 by lia.
  rewrite !bpow_plus, mult_IZR, (bpow_IZR s) by lia.
  assert (IZR my <> 0)%R by (apply not_0_IZR; lia).
  pose proof (bpow_gt_0 ey). field. split; lra.
Qed.

Lemma f32_div_rounded x y lo hi :
  pfin x -> pfin y -> pfin lo -> pfin hi ->
  (B2R lo <= B2R x / B2R y <= B2R hi)%R ->
  rounded (B2R x / B2R y) (f32_div x y).
Proof.
  intros Hx Hy Hlo Hhi HX.
  destruct (pfin_inv x Hx) as (mx & ex & -> & Hmx & Hex & HBx & _).
  destruct (pfin_inv y Hy) as (my & ey & -> & Hmy & Hey & HBy & _).
  pose proof (pfin_lower lo Hlo) as Hl.
  set (X := (B2R (S754_finite false (Z.to_pos mx) ex) /
             B2R (S754_finite false (Z.to_pos my) ey))%R) in *.
  assert (HXlt : (X < bpow (ex - ey + 1))%R).
  { unfold X. rewrite HBx, HBy. 
    rewrite (Rdiv_F2R mx ex my ey 0 (ex - ey)) by lia.
    rewrite Z.mul_1_r. rewrite bpow_plus, (bpow_IZR 1) by lia. change (2 ^ 1) with 2.
    pose proof (bpow_gt_0 (ex - ey)).
    assert (IZR mx < 2 * IZR my)%R.
    { rewrite <- mult_IZR. apply IZR_lt. lia. }
    assert (0 < IZR my)%R by (apply IZR_lt; lia).
    assert (IZR mx / IZR my < 2)%R.
    { apply Rmult_lt_reg_r with (IZR my); [assumption|]. unfold Rdiv.
      rewrite Rmult_assoc, Rinv_l by lra. lra. }
    nra. }
  assert (Hee : -126 <= ex - ey).
  { destruct (Z_le_gt_dec (-126) (ex - ey)) as [|Hgt]; [assumption|].
    assert (bpow (ex - ey + 1) <= bpow (-126))%R by (apply bpow_le; lia). lra. }
  unfold f32_div, SFdiv, SFdiv_core_binary. cbn [xorb].
  rewrite !Z2Pos.id by lia.
  rewrite (Zdigits2_unique mx 24), (Zdigits2_unique my 24) by lia.
  set (e' := Z.min (fexp f32_prec f32_emax (24 + ex - (24 + ey))) (ex - ey)).
  assert (He' : e' = Z.max (ex - ey - 24) (-149)).
  { unfold e', fexp, emin, f32_prec, f32_emax. lia. }
  set (s := ex - ey - e').
  assert (Hs : 23 <= s <= 24) by (unfold s; lia).
  assert (Hm' : match s with
                | 0 => mx
                | Z.pos _ => Z.shiftl mx s
                | Z.neg _ => 0
                end = mx * 2 ^ s).
  { destruct s; try lia. apply Z.shiftl_mul_pow2. lia. }
  rewrite Hm'.
  pose proof (Z_div_mod (mx * 2 ^ s) my ltac:(lia)) as Hdm.
  destruct (Z.div_eucl (mx * 2 ^ s) my) as [q r]. destruct Hdm as [Hdm Hr].
  assert (Hpow : 0 < 2 ^ s) by (apply Z.pow_pos_nonneg; lia).
  assert (HXq : X = (IZR (mx * 2 ^ s) / IZR my * bpow e')%R).
  { unfold X. rewrite HBx, HBy. apply Rdiv_F2R; unfold s; lia. }
  assert (Hmyp : (0 < IZR my)%R) by (apply IZR_lt; lia).
  assert (Hquot : (IZR (mx * 2 ^ s) / IZR my = IZR q + IZR r / IZR my)%R).
  { rewrite Hdm, plus_IZR, mult_IZR. field. lra. }
  assert (Hfrac : (0 <= IZR r / IZR my < 1)%R).
  { assert (0 <= IZR r < IZR my)%R by (split; [apply IZR_le|apply IZR_lt]; lia).
    split.
    - apply Rmult_le_pos; [lra|]. left. now apply Rinv_0_lt_compat.
    - apply Rmult_lt_reg_r with (IZR my); [assumption|]. unfold Rdiv.
      rewrite Rmult_assoc, Rinv_l by lra. lra. }
  assert (Hq23 : 2 ^ 23 <= q).
  { destruct (Z.eq_dec s 24) as [Hs24|Hs23].
    - rewrite Hs24 in Hdm. nia.
    - assert (e' = -149) by (unfold s in *; lia).
      assert (Hxe : (bpow (-126) <= X)%R) by lra.
      rewrite HXq, Hquot, H in Hxe.
      replace (-126) with (-149 + 23) in Hxe by lia.
      rewrite bpow_plus in Hxe. pose proof (bpow_gt_0 (-149)).
      rewrite (bpow_IZR 23) in Hxe by lia.
      assert (IZR (2 ^ 23) <= IZR q + IZR r / IZR my)%R by nra.
      assert (IZR (2 ^ 23) < IZR (q + 1))%R by (rewrite plus_IZR; lra).
      apply lt_IZR in H2. lia. }
  apply round_aux_rounded with (lo := lo) (hi := hi); auto; try lia.
  - rewrite new_location_inexact. unfold located.
    pose proof (bpow_gt_0 e').
    destruct (Z.eqb_spec r 0) as [Hr0|Hr0]; cbn [negb].
    + rewrite HXq, Hquot, Hr0. unfold F2R, Rdiv. rewrite Rmult_0_l, Rplus_0_r. reflexivity.
    + rewrite HXq, Hquot. unfold F2R. rewrite plus_IZR.
      assert (0 < IZR r / IZR my)%R.
      { assert (0 < IZR r)%R by (apply IZR_lt; lia).
        apply Rmult_lt_0_compat; [assumption|now apply Rinv_0_lt_compat]. }
      nra.
  - apply Zdigits2_lower; [lia|]. change (2 ^ (24 - 1)) with (2 ^ 23). lia.
Qed.

(** *** Alignment, addition and conversion from integers *)

Lemma Pos_iter_xO m d : Z.pos (Pos.iter xO m d) = Z.pos m * 2 ^ Z.pos d.
Proof.
  revert m. induction d as [|d IH] using Pos.peano_ind; intros m.
  - cbn [Pos.iter]. change (2 ^ 1) with 2. lia.
  - rewrite Pos.iter_succ, Pos2Z.inj_xO, IH, Pos2Z.inj_succ, Z.pow_succ_r by lia. lia.
Qed.

Lemma shl_align_spec mx ex e' :
  Z.pos (fst (shl_align mx ex e')) = Z.pos mx * 2 ^ (ex - Z.min ex e') /\
  snd (shl_align mx ex e') = Z.min ex e'.
Proof.
  unfold shl_align. destruct (e' - ex) as [|d|d] eqn:Hd; cbn [fst snd].
  - replace (Z.min ex e') with ex by lia. rewrite Z.sub_diag. split; lia.
  - replace (Z.min ex e') with ex by lia. rewrite Z.sub_diag. split; lia.
  - replace (Z.min ex e') with e' by lia. replace (ex - e') with (Z.pos d) by lia.
    split; [apply Pos_iter_xO|reflexivity].
Qed.

Lemma binary_round_rounded m ex X lo hi :
  X = F2R (Z.pos m) ex ->
  pfin lo -> pfin hi -> (B2R lo <= X <= B2R hi)%R ->
  rounded X (binary_round f32_prec f32_emax false m ex).
Proof.
  intros HX Hlo Hhi Hb. unfold binary_round.
  pose proof (shl_align_spec m ex (fexp f32_prec f32_emax (Z.pos (digits2_pos m) + ex)))
    as [Hm He].
  destruct (shl_align m ex _) as [mz ez]. cbn [fst snd] in Hm, He.
  change (Z.pos (digits2_pos m)) with (Zdigits2 (Z.pos m)) in He, Hm.
  pose proof (Zdigits2_bounds (Z.pos m) ltac:(lia)) as [Hd1 Hd2].
  set (d := Zdigits2 (Z.pos m)) in *. rewrite <- He in Hm.
  assert (Hdpos : 0 < d) by (unfold d; cbn; lia).
  assert (Hsh : 0 <= ex - ez) by lia.
  apply round_aux_rounded with (lo := lo) (hi := hi); auto; try lia.
  - unfold located. cbn [loc_inexact]. rewrite HX, Hm.
    rewrite F2R_shift by lia. f_equal. lia.
  - rewrite Hm.
    destruct (Z_le_gt_dec 24 d) as [Hge|Hlt].
    + apply Zdigits2_lower; [nia|].
      assert (2 ^ (24 - 1) <= 2 ^ (d - 1)) by (apply Z.pow_le_mono_r; lia).
      assert (1 <= 2 ^ (ex - ez)) by (apply Z.lt_pred_le, Z.pow_pos_nonneg; lia).
      nia.
    + (* fewer than 24 digits: the mantissa is shifted up, unless the
         value is below the normal range, which [lo] excludes *)
      pose proof (pfin_lower lo Hlo) as Hl.
      assert (HXlt : (X < bpow (ex + d))%R).
      { rewrite HX, <- F2R_pow2 by lia. apply F2R_lt. lia. }
      assert (Hed : -126 < ex + d).
      { destruct (Z_lt_le_dec (-126) (ex + d)) as [|Hle]; [assumption|].
        assert (bpow (ex + d) <= bpow (-126))%R by (apply bpow_le; lia). lra. }
      assert (Hez : ez = d + ex - 24).
      { rewrite He. unfold fexp, emin, f32_prec, f32_emax. lia. }
      apply Zdigits2_lower; [nia|].
      replace (ex - ez) with (24 - d) by lia.
      replace (2 ^ (24 - 1)) with (2 ^ (d - 1) * 2 ^ (24 - d))
        by (rewrite <- Z.pow_add_r by lia; f_equal; lia).
      assert (0 < 2 ^ (24 - d)) by (apply Z.pow_pos_nonneg; lia).
      apply Z.mul_le_mono_nonneg_r; lia.
Qed.

Lemma f32_of_int_rounded n lo hi :
  0 < n -> pfin lo -> pfin hi -> (B2R lo <= IZR n <= B2R hi)%R ->
  rounded (IZR n) (f32_of_int n).
Proof.
  intros Hn Hlo Hhi Hb. unfold f32_of_int, binary_normalize.
  destruct n as [|p|p]; try lia.
  apply binary_round_rounded with (lo := lo) (hi := hi); auto.
  unfold F2R. change (bpow 0) with 1%R. ring.
Qed.

Lemma f32_add_rounded x y hi :
  pfin x -> pfin y -> pfin hi ->
  (B2R x + B2R y <= B2R hi)%R ->
  rounded (B2R x + B2R y) (f32_add x y).
Proof.
  intros Hx Hy Hhi HX.
  pose proof (pfin_pos y Hy) as Hypos. pose proof (pfin_pos x Hx) as Hxpos.
  destruct (pfin_inv x Hx) as (mx & ex & Ex & Hmx & Hex & HBx & _).
  destruct (pfin_inv y Hy) as (my & ey & Ey & Hmy & Hey & HBy & _).
  assert (Hlo : (B2R x <= B2R x + B2R y)%R) by lra.
  rewrite Ex, Ey in *. unfold f32_add, SFadd. cbn [cond_Zopp].
  set (ez := Z.min ex ey).
  pose proof (shl_align_spec (Z.to_pos mx) ex ez) as [Hax _].
  pose proof (shl_align_spec (Z.to_pos my) ey ez) as [Hay _].
  rewrite Hax, Hay, !Z2Pos.id by lia.
  replace (Z.min ex ez) with ez by (unfold ez; lia).
  replace (Z.min ey ez) with ez by (unfold ez; lia).
  assert (0 < 2 ^ (ex - ez)) by (apply Z.pow_pos_nonneg; unfold ez; lia).
  assert (0 < 2 ^ (ey - ez)) by (apply Z.pow_pos_nonneg; unfold ez; lia).
  set (M := mx * 2 ^ (ex - ez) + my * 2 ^ (ey - ez)).
  assert (HM : 0 < M) by (unfold M; nia).
  unfold binary_normalize. destruct M as [|p|p] eqn:HMp; try lia.
  apply binary_round_rounded with (lo := S754_finite false (Z.to_pos mx) ex) (hi := hi); auto.
  - rewrite <- HMp. unfold M. rewrite HBx, HBy.
    assert (Ea : F2R mx ex = F2R (mx * 2 ^ (ex - ez)) ez).
    { rewrite F2R_shift by (unfold ez; lia). f_equal. lia. }
    assert (Eb : F2R my ey = F2R (my * 2 ^ (ey - ez)) ez).
    { rewrite F2R_shift by (unfold ez; lia). f_equal. lia. }
    rewrite Ea, Eb. unfold F2R. rewrite plus_IZR. ring.
Qed.

(** *** Comparison *)

Lemma pfin_compare x y :
  pfin x -> pfin y ->
  exists c, SFcompare x y = Some c /\
    match c with
    | Lt => (B2R x < B2R y)%R
    | Eq => B2R x = B2R y
    | Gt => (B2R y < B2R x)%R
    end.
Proof.
  intros Hx Hy.
  destruct (pfin_inv x Hx) as (mx & ex & -> & Hmx & Hex & -> & Hcx).
  destruct (pfin_inv y Hy) as (my & ey & -> & Hmy & Hey & -> & Hcy).
  cbn [SFcompare]. eexists. split; [reflexivity|].
  destruct (Z.compare_spec ex ey) as [->|Hlt|Hgt].
  - change (Pos.compare_cont Eq (Z.to_pos mx) (Z.to_pos my))
      with (Pos.compare (Z.to_pos mx) (Z.to_pos my)).
    destruct (Pos.compare_spec (Z.to_pos mx) (Z.to_pos my)) as [Heq|Hlt|Hgt].
    + f_equal. apply Z2Pos.inj in Heq; lia.
    + apply F2R_lt. apply Pos2Z.pos_lt_pos in Hlt. rewrite !Z2Pos.id in Hlt by lia. exact Hlt.
    + apply F2R_lt. apply Pos2Z.pos_lt_pos in Hgt. rewrite !Z2Pos.id in Hgt by lia. exact Hgt.
  - apply canonical32_below; auto; lia.
  - apply canonical32_below; auto; lia.
Qed.

Lemma f32_ltb_spec x y :
  pfin x -> pfin y -> (f32_ltb x y = true <-> (B2R x < B2R y)%R).
Proof.
  intros Hx Hy. destruct (pfin_compare x y Hx Hy) as (c & Hc & Hspec).
  unfold f32_ltb, SFltb. rewrite Hc. destruct c; split; intros H; try discriminate;
    try reflexivity; lra.
Qed.

Lemma f32_leb_spec x y :
  pfin x -> pfin y -> (f32_leb x y = true <-> (B2R x <= B2R y)%R).
Proof.
  intros Hx Hy. destruct (pfin_compare x y Hx Hy) as (c & Hc & Hspec).
  unfold f32_leb, SFleb. rewrite Hc. destruct c; split; intros H; try discriminate;
    try reflexivity; lra.
Qed.

(** *** Truncation to [int] *)

Lemma f32_to_int_floor f :
  pfin f -> (B2R f < IZR (2 ^ 31))%R ->
  0 <= f32_to_int f /\ (IZR (f32_to_int f) <= B2R f < IZR (f32_to_int f) + 1)%R.
Proof.
  intros Hf Hlt. destruct (pfin_inv f Hf) as (m & e & -> & Hm & He & HB & _).
  rewrite HB in *. cbn [f32_to_int]. rewrite Z2Pos.id by lia.
  set (a := if 0 <=? e then m * 2 ^ e else m / 2 ^ (- e)).
  assert (Ha : 0 <= a /\ (IZR a <= F2R m e < IZR a + 1)%R).
  { unfold a. destruct (Z.leb_spec 0 e).
    - assert (0 < 2 ^ e) by (apply Z.pow_pos_nonneg; lia).
      split; [nia|]. unfold F2R. rewrite mult_IZR, bpow_IZR by lia. lra.
    - assert (Hp : 0 < 2 ^ (- e)) by (apply Z.pow_pos_nonneg; lia).
      pose proof (Z.div_mod m (2 ^ (- e)) ltac:(lia)) as Hdm.
      pose proof (Z.mod_pos_bound m (2 ^ (- e)) Hp) as Hr.
      set (q := m / 2 ^ (- e)) in *. set (r := m mod 2 ^ (- e)) in *.
      split; [apply Z.div_pos; lia|].
      assert (E1 : IZR q = F2R (q * 2 ^ (- e)) e).
      { rewrite F2R_shift by lia. unfold F2R. replace (e + - e) with 0 by lia.
        change (bpow 0) with 1%R. ring. }
      assert (E2 : (IZR q + 1)%R = F2R ((q + 1) * 2 ^ (- e)) e).
      { rewrite F2R_shift by lia. unfold F2R. replace (e + - e) with 0 by lia.
        change (bpow 0) with 1%R. rewrite plus_IZR. ring. }
      rewrite E2, E1. split; [apply F2R_le|apply F2R_lt]; lia. }
  destruct Ha as [Ha0 [Ha1 Ha2]].
  assert (Hsmall : a < 2 ^ 31).
  { apply lt_IZR. lra. }
  unfold INT_MIN, INT_MAX.
  destruct (Z.ltb_spec a (- 2 ^ 31)); [lia|]. destruct (Z.ltb_spec (2 ^ 31 - 1) a); [lia|].
  auto.
Qed.

Lemma f32_to_int_lt f k :
  pfin f -> k <= 2 ^ 31 -> (B2R f < IZR k)%R -> 0 <= f32_to_int f < k.
Proof.
  intros Hf Hk Hlt.
  assert (B2R f < IZR (2 ^ 31))%R by (apply IZR_le in Hk; lra).
  destruct (f32_to_int_floor f Hf H) as [H0 [H1 H2]]. split; [assumption|].
  apply lt_IZR. lra.
Qed.

Lemma f32_to_int_le f k :
  pfin f -> k < 2 ^ 31 -> (B2R f <= IZR k)%R -> 0 <= f32_to_int f <= k.
Proof.
  intros Hf Hk Hle.
  assert (IZR k < IZR (2 ^ 31))%R by (now apply IZR_lt).
  destruct (f32_to_int_floor f Hf ltac:(lra)) as [H0 [H1 H2]]. split; [assumption|].
  apply le_IZR. lra.
Qed.

Lemma f32_to_int_ge f k :
  pfin f -> (B2R f < IZR (2 ^ 31))%R -> (IZR k <= B2R f)%R -> k <= f32_to_int f.
Proof.
  intros Hf Hlt Hge. destruct (f32_to_int_floor f Hf Hlt) as [H0 [H1 H2]].
  assert (IZR k < IZR (f32_to_int f + 1))%R by (rewrite plus_IZR; lra).
  apply lt_IZR in H. lia.
Qed.

(** *** Powers of two and small integers are exact *)

Lemma pfin_pow2 k :
  -126 <= k <= 127 ->
  pfin (S754_finite false (Z.to_pos (2 ^ 23)) (k - 23)) /\
  B2R (S754_finite false (Z.to_pos (2 ^ 23)) (k - 23)) = bpow k.
Proof.
  intros Hk. split.
  - apply pfin_intro; lia.
  - cbn [B2R]. change (Z.pos (Z.to_pos (2 ^ 23))) with (2 ^ 23).
    rewrite F2R_pow2 by lia. f_equal. lia.
Qed.

Lemma int_representable n :
  0 < n < 2 ^ 24 -> exists t, pfin t /\ B2R t = IZR n.
Proof.
  intros Hn. pose proof (Zdigits2_bounds n ltac:(lia)) as [Hd1 Hd2].
  set (d := Zdigits2 n) in *.
  assert (Hd : 0 < d <= 24).
  { split; [unfold d; destruct n; cbn; lia|].
    destruct (Z_le_gt_dec d 24) as [|Hgt]; [assumption|].
    assert (2 ^ 24 <= 2 ^ (d - 1)) by (apply Z.pow_le_mono_r; lia). lia. }
  assert (Hp : 0 < 2 ^ (24 - d)) by (apply Z.pow_pos_nonneg; lia).
  assert (Hlo : 2 ^ 23 <= n * 2 ^ (24 - d)).
  { replace (2 ^ 23) with (2 ^ (d - 1) * 2 ^ (24 - d))
      by (rewrite <- Z.pow_add_r by lia; f_equal; lia).
    apply Z.mul_le_mono_nonneg_r; lia. }
  assert (Hhi : n * 2 ^ (24 - d) < 2 ^ 24).
  { replace (2 ^ 24) with (2 ^ d * 2 ^ (24 - d))
      by (rewrite <- Z.pow_add_r by lia; f_equal; lia).
    apply Z.mul_lt_mono_pos_r; lia. }
  exists (S754_finite false (Z.to_pos (n * 2 ^ (24 - d))) (d - 24)). split.
  - apply pfin_intro; lia.
  - cbn [B2R]. rewrite Z2Pos.id by lia. rewrite F2R_shift by lia.
    unfold F2R. replace (d - 24 + (24 - d)) with 0 by lia. change (bpow 0) with 1%R. ring.
Qed.

Lemma f32_of_int_exact n :
  0 < n < 2 ^ 24 -> pfin (f32_of_int n) /\ B2R (f32_of_int n) = IZR n.
Proof.
  intros Hn. destruct (int_representable n Hn) as (t & Ht & HBt).
  destruct (f32_of_int_rounded n t t ltac:(lia) Ht Ht ltac:(rewrite HBt; lra))
    as (Hp & Hub & Hlb & _).
  split; [assumption|].
  pose proof (Hub t Ht ltac:(rewrite HBt; lra)). pose proof (Hlb t Ht ltac:(rewrite HBt; lra)).
  lra.
Qed.

(** A positive [int] converts to a number between 1 and [2^31]. *)
Lemma f32_of_int_positive n :
  0 < n <= INT_MAX ->
  rounded (IZR n) (f32_of_int n) /\ (1 <= B2R (f32_of_int n) <= bpow 31)%R.
Proof.
  intros Hn. unfold INT_MAX in Hn.
  destruct (pfin_pow2 0 ltac:(lia)) as [Hp0 HB0].
  destruct (pfin_pow2 31 ltac:(lia)) as [Hp31 HB31].
  change (bpow 0) with 1%R in HB0.
  assert (Hb : (1 <= IZR n <= bpow 31)%R).
  { rewrite bpow_IZR by lia. split; apply IZR_le; lia. }
  assert (Hr : rounded (IZR n) (f32_of_int n)).
  { apply (f32_of_int_rounded n _ _ ltac:(lia) Hp0 Hp31). rewrite HB0, HB31. exact Hb. }
  split; [assumption|]. destruct Hr as (_ & Hub & Hlb & _).
  specialize (Hub _ Hp31 ltac:(rewrite HB31; lra)).
  specialize (Hlb _ Hp0 ltac:(rewrite HB0; lra)). rewrite HB31 in Hub. rewrite HB0 in Hlb. lra.
Qed.

(** ** Aspect ratios and placeholder dimensions *)

Lemma Rdiv_def_mul (x y : R) : (0 < y)%R -> x = (x / y * y)%R.
Proof. intros Hy. field. lra. Qed.

Lemma Rdiv_le_upper (x y c : R) : (0 < y)%R -> (x <= c * y)%R -> (x / y <= c)%R.
Proof.
  intros Hy H. pose proof (Rdiv_def_mul x y Hy) as E. set (q := (x / y)%R) in *. nra.
Qed.

Lemma Rdiv_lt_upper (x y c : R) : (0 < y)%R -> (x < c * y)%R -> (x / y < c)%R.
Proof.
  intros Hy H. pose proof (Rdiv_def_mul x y Hy) as E. set (q := (x / y)%R) in *. nra.
Qed.

Lemma Rdiv_le_lower (x y c : R) : (0 < y)%R -> (c * y <= x)%R -> (c <= x / y)%R.
Proof.
  intros Hy H. pose proof (Rdiv_def_mul x y Hy) as E. set (q := (x / y)%R) in *. nra.
Qed.

Lemma Rdiv_lt_lower (x y c : R) : (0 < y)%R -> (c * y < x)%R -> (c < x / y)%R.
Proof.
  intros Hy H. pose proof (Rdiv_def_mul x y Hy) as E. set (q := (x / y)%R) in *. nra.
Qed.

Lemma bpow_neg_mul k : (bpow (- k) * bpow k = 1)%R.
Proof. rewrite <- bpow_plus. replace (- k + k) with 0 by lia. reflexivity. Qed.

(** The quotient of two positive [int]s, as the code forms it:
    [(float)w / h]. *)
Lemma aspect_ratio_rounded w h :
  0 < w <= INT_MAX -> 0 < h <= INT_MAX ->
  let aspect := f32_div (f32_of_int w) (f32_of_int h) in
  rounded (B2R (f32_of_int w) / B2R (f32_of_int h)) aspect /\
  (bpow (-31) <= B2R aspect <= bpow 31)%R.
Proof.
  intros Hw Hh aspect.
  destruct (f32_of_int_positive w Hw) as [(Hpw & _) Hbw].
  destruct (f32_of_int_positive h Hh) as [(Hph & _) Hbh].
  destruct (pfin_pow2 (-31) ltac:(lia)) as [Hplo HBlo].
  destruct (pfin_pow2 31 ltac:(lia)) as [Hphi HBhi].
  pose proof (bpow_gt_0 31) as H31.
  assert (Hinv : (bpow (-31) * bpow 31 = 1)%R) by (rewrite <- bpow_plus; reflexivity).
  pose proof (bpow_gt_0 (-31)) as H31'.
  assert (Hq : (bpow (-31) <= B2R (f32_of_int w) / B2R (f32_of_int h) <= bpow 31)%R).
  { split.
    - apply Rdiv_le_lower; [lra|].
      assert (bpow (-31) * B2R (f32_of_int h) <= bpow (-31) * bpow 31)%R
        by (apply Rmult_le_compat_l; lra).
      lra.
    - apply Rdiv_le_upper; [lra|].
      assert (bpow 31 * 1 <= bpow 31 * B2R (f32_of_int h))%R
        by (apply Rmult_le_compat_l; lra).
      lra. }
  assert (Hr : rounded (B2R (f32_of_int w) / B2R (f32_of_int h)) aspect).
  { apply (f32_div_rounded _ _ _ _ Hpw Hph Hplo Hphi). rewrite HBlo, HBhi. exact Hq. }
  split; [exact Hr|]. destruct Hr as (_ & Hub & Hlb & _).
  specialize (Hub _ Hphi ltac:(rewrite HBhi; lra)).
  specialize (Hlb _ Hplo ltac:(rewrite HBlo; lra)).
  rewrite HBhi in Hub. rewrite HBlo in Hlb. lra.
Qed.

Lemma bpow_nat k : 0 <= k -> bpow k = IZR (2 ^ k).
Proof. apply bpow_IZR. Qed.

(** [(int)(c / aspect)] for a power of two [c = 2^k] and an [aspect]
    above [2^j]: at most [2^(k-j)]. *)
Lemma quotient_by_aspect_le k j aspect :
  0 <= k <= 30 -> -31 <= j <= 31 -> 0 <= k - j <= 30 ->
  pfin aspect -> (bpow j <= B2R aspect <= bpow 31)%R ->
  0 <= f32_to_int (f32_div (S754_finite false (Z.to_pos (2 ^ 23)) (k - 23)) aspect)
    <= 2 ^ (k - j).
Proof.
  intros Hk Hj Hkj Ha Hb.
  destruct (pfin_pow2 k ltac:(lia)) as [Hpk HBk].
  destruct (pfin_pow2 (k - 31) ltac:(lia)) as [Hplo HBlo].
  destruct (pfin_pow2 (k - j) ltac:(lia)) as [Hphi HBhi].
  pose proof (pfin_pos aspect Ha) as Hapos.
  assert (Hq : (bpow (k - 31) <= bpow k / B2R aspect <= bpow (k - j))%R).
  { split.
    - apply Rdiv_le_lower; [assumption|].
      replace k with ((k - 31) + 31) at 2 by lia. rewrite bpow_plus.
      pose proof (bpow_gt_0 (k - 31)). nra.
    - apply Rdiv_le_upper; [assumption|].
      replace k with ((k - j) + j) at 1 by lia. rewrite bpow_plus.
      pose proof (bpow_gt_0 (k - j)). nra. }
  destruct (f32_div_rounded _ aspect _ _ Hpk Ha Hplo Hphi
              ltac:(rewrite HBk, HBlo, HBhi; exact Hq)) as (Hp & Hub & _).
  specialize (Hub _ Hphi ltac:(rewrite HBk, HBhi; lra)). rewrite HBhi in Hub.
  rewrite bpow_IZR in Hub by lia.
  apply f32_to_int_le; auto.
  assert (2 ^ (k - j) <= 2 ^ 30) by (apply Z.pow_le_mono_r; lia). lia.
Qed.

(** [(int)(c * aspect)] for a power of two [c = 2^k] and an [aspect]
    below [2^j]: at most [2^(k+j)]. *)
Lemma product_by_aspect_le k j aspect :
  0 <= k <= 30 -> -31 <= j <= 31 -> 0 <= k + j <= 30 ->
  pfin aspect -> (bpow (-31) <= B2R aspect <= bpow j)%R ->
  0 <= f32_to_int (f32_mul (S754_finite false (Z.to_pos (2 ^ 23)) (k - 23)) aspect)
    <= 2 ^ (k + j).
Proof.
  intros Hk Hj Hkj Ha Hb.
  destruct (pfin_pow2 k ltac:(lia)) as [Hpk HBk].
  destruct (pfin_pow2 (k - 31) ltac:(lia)) as [Hplo HBlo].
  destruct (pfin_pow2 (k + j) ltac:(lia)) as [Hphi HBhi].
  pose proof (bpow_gt_0 k) as Hkpos.
  assert (Hq : (bpow (k - 31) <= bpow k * B2R aspect <= bpow (k + j))%R).
  { replace (k - 31) with (k + -31) by lia. rewrite !bpow_plus. nra. }
  destruct (f32_mul_rounded _ aspect _ _ Hpk Ha Hplo Hphi
              ltac:(rewrite HBk, HBlo, HBhi; exact Hq)) as (Hp & Hub & _).
  specialize (Hub _ Hphi ltac:(rewrite HBk, HBhi; lra)). rewrite HBhi in Hub.
  rewrite bpow_IZR in Hub by lia.
  apply f32_to_int_le; auto.
  assert (2 ^ (k + j) <= 2 ^ 30) by (apply Z.pow_le_mono_r; lia). lia.
Qed.

Lemma large_placeholder_dims_bounds ow oh :
  0 < ow <= INT_MAX -> 0 < oh <= INT_MAX ->
  8 <= fst (large_placeholder_dims ow oh) <= 32 /\
  4 <= snd (large_placeholder_dims ow oh) <= 16.
Proof.
  intros Hw Hh. unfold large_placeholder_dims.
  destruct (aspect_ratio_rounded ow oh Hw Hh) as [(Ha & _) Hb].
  set (aspect := f32_div (f32_of_int ow) (f32_of_int oh)) in *.
  destruct (pfin_pow2 1 ltac:(lia)) as [Hp2 HB2].
  destruct (pfin_pow2 (-1) ltac:(lia)) as [Hph HBh].
  change (f32_of_int 2) with (S754_finite false (Z.to_pos (2 ^ 23)) (1 - 23)).
  change (f32_lit 1 2) with (S754_finite false (Z.to_pos (2 ^ 23)) (-1 - 23)).
  change (f32_of_int 32) with (S754_finite false (Z.to_pos (2 ^ 23)) (5 - 23)).
  change (f32_of_int 16) with (S754_finite false (Z.to_pos (2 ^ 23)) (4 - 23)).
  destruct (f32_ltb _ aspect) eqn:Hwide.
  - apply f32_ltb_spec in Hwide; auto. rewrite HB2 in Hwide.
    pose proof (quotient_by_aspect_le 5 1 aspect ltac:(lia) ltac:(lia) ltac:(lia) Ha
                  ltac:(lra)) as Hq.
    change (2 ^ (5 - 1)) with 16 in Hq. cbn [fst snd].
    destruct (Z.ltb_spec (f32_to_int (f32_div (S754_finite false (Z.to_pos (2 ^ 23)) (5 - 23)) aspect)) 4); lia.
  - destruct (f32_ltb aspect _) eqn:Htall.
    + apply f32_ltb_spec in Htall; auto. rewrite HBh in Htall.
      pose proof (product_by_aspect_le 4 (-1) aspect ltac:(lia) ltac:(lia) ltac:(lia) Ha
                    ltac:(lra)) as Hq.
      change (2 ^ (4 + -1)) with 8 in Hq. cbn [fst snd].
      destruct (Z.ltb_spec (f32_to_int (f32_mul (S754_finite false (Z.to_pos (2 ^ 23)) (4 - 23)) aspect)) 8); lia.
    + cbn [fst snd]. lia.
Qed.

(** ** The placeholder for an image over budget *)

(** *** Composing runs *)

Lemma runs_ret {A : Type} (a : A) w : runs (ret a) w a w [].
Proof. split; [reflexivity|apply emitted_nil]. Qed.

Lemma runs_emit_all evs w : runs (emit_all evs) w tt (log evs w) evs.
Proof. split; [reflexivity|]. apply (emitted_log w w [] evs), emitted_nil. Qed.

Lemma runs_emit ev w : runs (emit ev) w tt (log [ev] w) [ev].
Proof. apply runs_emit_all. Qed.

Lemma runs_bind {A B : Type} (m : M A) (k : A -> M B) w a w1 evs1 b w2 evs2 :
  runs m w a w1 evs1 -> runs (k a) w1 b w2 evs2 ->
  runs (bind m k) w b w2 (evs1 ++ evs2).
Proof.
  intros [Hm H1] [Hk H2]. split; [now rewrite (bind_run m k w a w1)|].
  eapply emitted_trans; eassumption.
Qed.

Lemma runs_lift_Some {A : Type} (a : A) w : runs (lift_option (Some a)) w a w [].
Proof. split; [reflexivity|apply emitted_nil]. Qed.

Lemma runs_alloc e site size w :
  runs (alloc e site size) w (fst (memory_alloc e site size true))
       (log (snd (memory_alloc e site size true)) w)
       (snd (memory_alloc e site size true)).
Proof. split; [reflexivity|]. apply (emitted_log w w [] _), emitted_nil. Qed.

Lemma runs_when (c : bool) (m : M unit) w w1 evs :
  runs m w tt w1 evs ->
  runs (when c m) w tt (if c then w1 else w) (if c then evs else []).
Proof. intros H. destruct c; [exact H|apply runs_ret]. Qed.

Lemma runs_events {A : Type} (m : M A) w a w' evs evs' :
  runs m w a w' evs -> evs = evs' -> runs m w a w' evs'.
Proof. now intros H <-. Qed.
Lemma row_major_rows {A : Type} (f : Z -> Z -> A) width n lo :
  0 <= width ->
  length (flat_map (fun y => map (fun x => f x y) (seqZ 0 width)) (seqZ lo (Z.of_nat n)))
  = (n * Z.to_nat width)%nat /\
  forall x y, 0 <= x < width -> lo <= y < lo + Z.of_nat n ->
    flat_map (fun y => map (fun x => f x y) (seqZ 0 width)) (seqZ lo (Z.of_nat n))
      !! Z.to_nat ((y - lo) * width + x) = Some (f x y).
Proof.
  intros Hw. revert lo. induction n as [|n IH]; intros lo.
  - split; [reflexivity|]. intros x y Hx Hy. lia.
  - rewrite Nat2Z.inj_succ, (seqZ_cons lo) by lia. cbn [flat_map].
    replace (Z.pred (Z.succ (Z.of_nat n))) with (Z.of_nat n) by lia.
    destruct (IH (Z.succ lo)) as [IHlen IHget]. split.
    + rewrite length_app, length_map, length_seqZ, IHlen. lia.
    + intros x y Hx Hy. destruct (Z.eq_dec y lo) as [->|Hne].
      * rewrite lookup_app_l by (rewrite length_map, length_seqZ; lia).
        rewrite list_lookup_fmap. replace ((lo - lo) * width + x) with x by lia.
        rewrite lookup_seqZ_lt by lia. cbn. repeat f_equal. lia.
      * rewrite lookup_app_r by (rewrite length_map, length_seqZ; nia).
        rewrite length_map, length_seqZ.
        replace (Z.to_nat ((y - lo) * width + x) - Z.to_nat width)%nat
          with (Z.to_nat ((y - Z.succ lo) * width + x)) by nia.
        apply IHget; lia.
Qed.

Lemma gradient_placeholder_length w h :
  0 <= w -> 0 <= h -> Z.of_nat (length (gradient_placeholder w h)) = w * h.
Proof.
  intros Hw Hh. unfold gradient_placeholder.
  destruct (row_major_rows (fun x y => gradient_pixel w h x y) w (Z.to_nat h) 0 Hw) as [Hlen _].
  rewrite Z2Nat.id in Hlen by lia. rewrite Hlen. nia.
Qed.

Lemma gradient_placeholder_read w h x y :
  0 <= x < w -> 0 <= y < h ->
  read (gradient_placeholder w h) (y * w + x) = Some (gradient_pixel w h x y).
Proof.
  intros Hx Hy. unfold read, gradient_placeholder.
  destruct (Z.ltb_spec (y * w + x) 0); [nia|].
  destruct (row_major_rows (fun x y => gradient_pixel w h x y) w (Z.to_nat h) 0 ltac:(lia))
    as [_ Hget].
  rewrite Z2Nat.id in Hget by lia. specialize (Hget x y Hx ltac:(lia)).
  now rewrite Z.sub_0_r in Hget.
Qed.

(** [r] grows with [x], [g] with [y], and [b] is 128. *)
Lemma gradient_pixel_channels w h x y :
  0 <= x < w -> 0 <= y < h ->
  px_r (gradient_pixel w h x y) = x * 255 / w /\
  px_g (gradient_pixel w h x y) = y * 255 / h /\
  px_b (gradient_pixel w h x y) = 128.
Proof.
  intros Hx Hy. unfold gradient_pixel, to_uint8. cbn [px_r px_g px_b].
  rewrite !Z.quot_div_nonneg by lia.
  assert (0 <= x * 255 / w < 255).
  { split; [apply Z.div_pos; lia|apply Z.div_lt_upper_bound; nia]. }
  assert (0 <= y * 255 / h < 255).
  { split; [apply Z.div_pos; lia|apply Z.div_lt_upper_bound; nia]. }
  rewrite !Z.mod_small by lia. auto.
Qed.

Lemma memory_needed_of_exact ow oh :
  0 <= ow * oh * 3 <= INT_MAX -> memory_needed_of ow oh = ow * oh * 3.
Proof.
  unfold INT_MAX. intros H. unfold memory_needed_of, to_size_t, to_int.
  assert (0 <= ow * oh <= 2 ^ 31 - 1) by lia.
  rewrite (Z.mod_small (ow * oh + 2 ^ 31)) by lia.
  replace (ow * oh + 2 ^ 31 - 2 ^ 31) with (ow * oh) by lia.
  rewrite (Z.mod_small (ow * oh * 3 + 2 ^ 31)) by lia.
  rewrite Z.mod_small by lia. lia.
Qed.

Lemma memory_alloc_small e site size shell :
  size < 50000 -> fst (memory_alloc e site size shell) = k_malloc e site size.
Proof.
  intros H. unfold memory_alloc. destruct (Z.ltb_spec size 50000); [reflexivity|lia].
Qed.

Lemma memory_alloc_no_load e site size shell :
  Forall (fun ev => is_load_call ev = false) (snd (memory_alloc e site size shell)).
Proof.
  unfold memory_alloc.
  repeat match goal with
         | |- context [if ?c then _ else _] => destruct c; cbn [fst snd]
         end;
    repeat constructor.
Qed.

Lemma render_preamble_no_load e rgb_buffer width height :
  Forall (fun ev => is_load_call ev = false) (render_preamble e rgb_buffer width height).
Proof.
  unfold render_preamble. apply Forall_app. split; [repeat constructor|].
  apply Forall_app. split; [destruct (read rgb_buffer 0); repeat constructor|].
  apply Forall_app. split; [apply memory_alloc_no_load|repeat constructor].
Qed.

Lemma art_lines_no_load lines :
  Forall (fun ev => is_load_call ev = false) (map art_line lines).
Proof. induction lines; constructor; auto. Qed.


Lemma render_ascii_art_runs e rgb_buffer width height config w :
  1 <= width <= 1000 -> 1 <= height <= 1000 ->
  Z.of_nat (length rgb_buffer) = width * height ->
  line_bytes (use_color config) width <= LINE_ALLOC ->
  fst (memory_alloc e site_line LINE_ALLOC true) = true ->
  exists lines w',
    runs (render_ascii_art e (Some rgb_buffer) width height config) w 0 w'
         (render_preamble e rgb_buffer width height
          ++ map art_line lines ++ render_footer) /\
    Z.of_nat (length lines) = height /\
    forall y, 0 <= y < height ->
      exists line, lines !! Z.to_nat y = Some line /\
                   strip_escapes line = row_text rgb_buffer width y width /\
                   strlen (strip_escapes line) = 2 * width.
Proof.
  intros Hw Hh Hlen Hfit Halloc.
  destruct (render_ascii_art_defined e rgb_buffer width height config w Hw Hh Hlen Hfit Halloc)
    as (lines & w' & Hrun & Hem & Hcount & Hrows).
  exists lines, w'. repeat split; assumption.
Qed.

Lemma render_large_placeholder_runs e ow oh oc max_memory config w :
  (to_size_t max_memory <? memory_needed_of ow oh) = true ->
  let tw := fst (large_placeholder_dims ow oh) in
  let th := snd (large_placeholder_dims ow oh) in
  8 <= tw <= 32 -> 4 <= th <= 16 ->
  fst (memory_alloc e site_large_placeholder (pixel_bytes tw th) true) = true ->
  fst (memory_alloc e site_line LINE_ALLOC true) = true ->
  exists lines w',
    runs (render_large_placeholder e (stbi_ok (ow, oh, oc)) max_memory config) w (Some 0) w'
      ([shell_print "Large image detected (%dx%d, ~%zu KB), memory limit: %d KB"
          [arg_int ow; arg_int oh; arg_int (memory_needed_of ow oh / 1024);
           arg_int (Z.quot max_memory 1024)]]
       ++ snd (memory_alloc e site_large_placeholder (pixel_bytes tw th) true)
       ++ [shell_print "Using simplified placeholder for large image" [];
           shell_print "Original image dimensions: %dx%d pixels" [arg_int ow; arg_int oh]]
       ++ render_preamble e (gradient_placeholder tw th) tw th
       ++ map art_line lines ++ render_footer) /\
    Z.of_nat (length lines) = th /\
    forall y, 0 <= y < th ->
      exists line, lines !! Z.to_nat y = Some line /\
                   strip_escapes line = row_text (gradient_placeholder tw th) tw y tw /\
                   strlen (strip_escapes line) = 2 * tw.
Proof.
  intros Hover tw th Htw Hth Hph Hline.
  assert (Hlen : Z.of_nat (length (gradient_placeholder tw th)) = tw * th)
    by (apply gradient_placeholder_length; lia).
  assert (Hfit : line_bytes (use_color config) tw <= LINE_ALLOC).
  { unfold line_bytes, LINE_ALLOC. destruct (use_color _); lia. }
  unfold render_large_placeholder. rewrite Hover.
  destruct (large_placeholder_dims ow oh) as [tw' th'] eqn:Edims.
  cbn [fst snd] in tw, th. subst tw th.
  set (w1 := log [shell_print "Large image detected (%dx%d, ~%zu KB), memory limit: %d KB"
          [arg_int ow; arg_int oh; arg_int (memory_needed_of ow oh / 1024);
           arg_int (Z.quot max_memory 1024)]] w).
  set (w2 := log (snd (memory_alloc e site_large_placeholder (pixel_bytes tw' th') true)) w1).
  set (w3 := log [shell_print "Using simplified placeholder for large image" []] w2).
  set (w4 := log [shell_print "Original image dimensions: %dx%d pixels" [arg_int ow; arg_int oh]] w3).
  destruct (render_ascii_art_runs e (gradient_placeholder tw' th') tw' th' config w4)
    as (lines & w' & Hrun & Hcount & Hrows); try lia; try assumption.
  exists lines, w'. split; [|split; assumption].
  eapply runs_bind; [apply runs_emit|]. fold w1.
  eapply runs_bind; [apply runs_alloc|]. fold w2. rewrite Hph.
  eapply runs_events.
  { eapply runs_bind; [apply runs_emit|]. fold w3.
    eapply runs_bind; [apply runs_emit|]. fold w4.
    eapply runs_bind; [exact Hrun|]. apply runs_ret. }
  rewrite app_nil_r. reflexivity.
Qed.

(** C1, as amended. Let the buffer not be classified as text, let the
    codec report dimensions of at least 1x1 whose pixel memory
    [w * h * 3] fits an [int] and exceeds the budget, and let the
    placeholder and the line buffer be allocated.  Then
    [gopher_render_image] never calls the decoder: it renders the
    gradient placeholder ([r = x * 255 / w], [g = y * 255 / h],
    [b = 128]) of between 8x4 and 32x16 pixels, at most 512 and so at
    most a third of the budget, line by line, and returns 0. *)
Theorem large_image_placeholder e data config w ow oh oc is_image :
  looks_like_text_content data = false ->
  gopher_is_image data = Some is_image ->
  stbi_info_from_memory e data = stbi_ok (ow, oh, oc) ->
  0 < ow -> 0 < oh -> ow * oh * 3 <= INT_MAX ->
  budget e < ow * oh * 3 ->
  let tw := fst (large_placeholder_dims ow oh) in
  let th := snd (large_placeholder_dims ow oh) in
  k_malloc e site_large_placeholder (pixel_bytes tw th) = true ->
  k_malloc e site_line LINE_ALLOC = true ->
  (8 <= tw <= 32 /\ 4 <= th <= 16 /\ tw * th <= 512 /\ 512 <= budget e / 3) /\
  (forall x y, 0 <= x < tw -> 0 <= y < th ->
     exists p, read (gradient_placeholder tw th) (y * tw + x) = Some p /\
               px_r p = x * 255 / tw /\ px_g p = y * 255 / th /\ px_b p = 128) /\
  exists before lines w',
    runs (gopher_render_image e data config) w 0 w'
         (before ++ map art_line lines ++ render_footer) /\
    Forall (fun ev => is_load_call ev = false) (before ++ map art_line lines ++ render_footer) /\
    Z.of_nat (length lines) = th /\
    forall y, 0 <= y < th ->
      exists line, lines !! Z.to_nat y = Some line /\
                   strip_escapes line = row_text (gradient_placeholder tw th) tw y tw /\
                   strlen (strip_escapes line) = 2 * tw.
Proof.
  intros Htext Himg Hinfo How Hoh Hint Hbig tw th Hph Hline.
  assert (Hdims : 8 <= tw <= 32 /\ 4 <= th <= 16).
  { apply large_placeholder_dims_bounds; unfold INT_MAX in *; nia. }
  assert (Hbudget : 512 <= budget e / 3).
  { unfold budget. destruct (CONFIG_ESP_SPIRAM e); apply Z.div_le_lower_bound; lia. }
  split; [repeat split; try lia; nia|]. split.
  { intros x y Hx Hy. exists (gradient_pixel tw th x y).
    split; [now apply gradient_placeholder_read|now apply gradient_pixel_channels]. }
  assert (Hneeded : memory_needed_of ow oh = ow * oh * 3)
    by (apply memory_needed_of_exact; nia).
  assert (Hover : (to_size_t (budget e) <? memory_needed_of ow oh) = true).
  { rewrite Hneeded. apply Z.ltb_lt. unfold to_size_t. rewrite Z.mod_small; [assumption|].
    unfold budget. destruct (CONFIG_ESP_SPIRAM e); lia. }
  assert (Hbytes : pixel_bytes tw th < 50000).
  { rewrite pixel_bytes_small by nia. nia. }
  assert (Hphalloc : fst (memory_alloc e site_large_placeholder (pixel_bytes tw th) true) = true).
  { rewrite memory_alloc_small by assumption. exact Hph. }
  assert (Hlinealloc : fst (memory_alloc e site_line LINE_ALLOC true) = true).
  { rewrite memory_alloc_small by (unfold LINE_ALLOC; lia). exact Hline. }
  set (unrecognised :=
         [shell_error "File format is not a recognized image type (JPEG, PNG, or GIF)" [];
          shell_print "Attempting to decode anyway..." []]).
  set (w1 := log [memory_banner e] w).
  set (w2 := if negb is_image
             then log [shell_print "Attempting to decode anyway..." []]
                    (log [shell_error
                            "File format is not a recognized image type (JPEG, PNG, or GIF)" []]
                         w1)
             else w1).
  set (w3 := log [stbi_info_call] w2).
  destruct (render_large_placeholder_runs e ow oh oc (budget e)
              (default default_config config) w3 Hover
              ltac:(apply Hdims) ltac:(apply Hdims) Hphalloc Hlinealloc)
    as (lines & w' & Hrun & Hcount & Hrows).
  fold tw th in Hrun, Hcount, Hrows.
  exists ([memory_banner e] ++ (if negb is_image then unrecognised else [])
          ++ [stbi_info_call]
          ++ [shell_print "Large image detected (%dx%d, ~%zu KB), memory limit: %d KB"
                [arg_int ow; arg_int oh; arg_int (memory_needed_of ow oh / 1024);
                 arg_int (Z.quot (budget e) 1024)]]
          ++ snd (memory_alloc e site_large_placeholder (pixel_bytes tw th) true)
          ++ [shell_print "Using simplified placeholder for large image" [];
              shell_print "Original image dimensions: %dx%d pixels" [arg_int ow; arg_int oh]]
          ++ render_preamble e (gradient_placeholder tw th) tw th),
         lines, w'.
  split; [|split; [|split; assumption]].
  - unfold gopher_render_image. rewrite Htext, Himg, Hinfo.
    fold (budget e). fold (memory_banner e).
    eapply runs_events.
    { eapply runs_bind; [apply runs_emit|]. fold w1.
      eapply runs_bind; [apply runs_lift_Some|].
      eapply runs_bind.
      { apply runs_when. eapply runs_events.
        - eapply runs_bind; apply runs_emit.
        - reflexivity. }
      fold unrecognised. fold w2.
      eapply runs_bind; [apply runs_emit|]. fold w3.
      eapply runs_bind; [apply runs_ret|].
      eapply runs_bind; [exact Hrun|]. apply runs_ret. }
    rewrite !app_nil_r, <- !app_assoc. reflexivity.
  - repeat first [ apply render_preamble_no_load | apply memory_alloc_no_load
                 | apply art_lines_no_load | apply Forall_app; split ];
      try (destruct (negb is_image)); repeat constructor.
    all: unfold memory_banner; now destruct (CONFIG_ESP_SPIRAM e).
Qed.

Lemma large_image_placeholder_witness :
  let tw := fst (large_placeholder_dims 1000 1000) in
  let th := snd (large_placeholder_dims 1000 1000) in
  budget large_image_env < 1000 * 1000 * 3 /\
  (8 <= tw <= 32 /\ 4 <= th <= 16 /\ tw * th <= 512 /\ 512 <= budget large_image_env / 3) /\
  (forall x y, 0 <= x < tw -> 0 <= y < th ->
     exists p, read (gradient_placeholder tw th) (y * tw + x) = Some p /\
               px_r p = x * 255 / tw /\ px_g p = y * 255 / th /\ px_b p = 128) /\
  exists before lines w',
    runs (gopher_render_image large_image_env jpeg_bytes None) initial_world 0 w'
         (before ++ map art_line lines ++ render_footer) /\
    Forall (fun ev => is_load_call ev = false) (before ++ map art_line lines ++ render_footer) /\
    Z.of_nat (length lines) = th /\
    forall y, 0 <= y < th ->
      exists line, lines !! Z.to_nat y = Some line /\
                   strip_escapes line = row_text (gradient_placeholder tw th) tw y tw /\
                   strlen (strip_escapes line) = 2 * tw.
Proof.
  split; [vm_compute; reflexivity|].
  apply (large_image_placeholder large_image_env jpeg_bytes None initial_world
           1000 1000 3 true);
    first [reflexivity | lia | vm_compute; reflexivity | vm_compute; discriminate].
Defined.

(** C1 as stated fails: when no memory can be allocated, a picture of
    1000x1000 pixels, fifteen times the budget, gets no placeholder; the
    decoder is called, the decode error is reported and the call
    returns [-EINVAL]. *)
Lemma large_image_without_memory :
  stbi_info_from_memory exhausted_env jpeg_bytes = stbi_ok (1000, 1000, 3) /\
  budget exhausted_env < 1000 * 1000 * 3 /\
  exists w',
    gopher_render_image exhausted_env jpeg_bytes None initial_world = Some (- EINVAL, w') /\
    In stbi_load_call (shell_out w') /\
    In (shell_error "Failed to decode image data" []) (shell_out w').
Proof.
  split; [reflexivity|]. split; [reflexivity|].
  eexists. split; [vm_compute; reflexivity|]. cbn [shell_out].
  split; [|right]; repeat (first [left; reflexivity | right]).
Qed.

(** ** The reduction chosen for the JPEG decoder *)

(** The reduction is the largest of 1, 2, 4 and 8 that does not exceed
    [scale]. *)
Lemma jpeg_reduction_largest_below scale :
  1 <= scale ->
  In (jpeg_reduction scale) [1; 2; 4; 8] /\
  jpeg_reduction scale <= scale /\
  forall r, In r [1; 2; 4; 8] -> r <= scale -> r <= jpeg_reduction scale.
Proof.
  intros H. unfold jpeg_reduction.
  destruct (Z.leb_spec 8 scale); [|destruct (Z.leb_spec 4 scale); [|destruct (Z.leb_spec 2 scale)]];
    (split; [cbn; tauto|split; [lia|]]);
    intros r Hr Hle; cbn in Hr; lia.
Qed.

(** C4. For a JPEG of 600x600 pixels and the budget of 200000 bytes the
    decoder needs 1080000 bytes; [scale] is 3 and the reduction chosen
    is 2, although neither a half nor a quarter of 1080000 is within
    the budget, and 4 is the smallest of 1, 2, 4, 8 that fits when the
    reduction applies to both axes. *)
Theorem jpeg_reduction_misses_budget :
  let needed := memory_needed_of 600 600 in
  let max_memory := budget square_jpeg_env in
  needed = 1080000 /\ max_memory = 200000 /\
  decode_scale needed max_memory = 3 /\
  jpeg_reduction (decode_scale needed max_memory) = 2 /\
  max_memory < needed / 2 /\ max_memory < needed / (2 * 2) /\
  needed / (4 * 4) <= max_memory /\
  exists r w',
    decode_image_to_rgb square_jpeg_env jpeg_bytes true max_memory initial_world
      = Some (r, w') /\
    stbi__jpeg_decode_reduced w' = 2.
Proof.
  repeat (split; [vm_compute; first [reflexivity | discriminate]|]).
  eexists _, _. split; [vm_compute; reflexivity|reflexivity].
Qed.

(** ** The dimensions of a scaled image *)

(** *** Relative errors *)

Lemma ulp_value : (bpow (-23) * 8388608 = 1)%R.
Proof.
  change 8388608%R with (IZR (2 ^ 23)). rewrite <- (bpow_IZR 23) by lia.
  apply (bpow_neg_mul 23).
Qed.

Lemma ulp_eq : bpow (-23) = (1 / 8388608)%R.
Proof. pose proof ulp_value. lra. Qed.

(** Three roundings, and one more. *)
Lemma three_roundings :
  ((1 + bpow (-23)) * (1 + bpow (-23)) * (1 + bpow (-23)) <= 1 + 4 * bpow (-23))%R.
Proof. rewrite ulp_eq. lra. Qed.

Lemma four_roundings :
  ((1 + 4 * bpow (-23)) * (1 + bpow (-23)) <= 1 + 6 * bpow (-23))%R.
Proof. rewrite ulp_eq. lra. Qed.

Lemma close_weaken g g' X Y :
  (g <= g')%R -> (0 <= X)%R -> (0 <= Y)%R -> close g X Y -> close g' X Y.
Proof.
  intros Hg HX HY [H1 H2]. split.
  - apply Rle_trans with (X * g)%R; [assumption|]. now apply Rmult_le_compat_l.
  - apply Rle_trans with (Y * g)%R; [assumption|]. now apply Rmult_le_compat_l.
Qed.

Lemma close_trans g h X Y Z :
  (0 <= g)%R -> (0 <= h)%R -> close g X Y -> close h Y Z -> close (g * h) X Z.
Proof.
  intros Hg Hh [H1 H2] [H3 H4]. split.
  - apply Rle_trans with (Y * h)%R; [assumption|].
    replace (X * (g * h))%R with (X * g * h)%R by ring. now apply Rmult_le_compat_r.
  - apply Rle_trans with (Y * g)%R; [assumption|].
    replace (Z * (g * h))%R with (Z * h * g)%R by ring. now apply Rmult_le_compat_r.
Qed.

Lemma close_div g h X Y X' Y' :
  (0 <= X)%R -> (0 <= X')%R -> (0 < Y)%R -> (0 < Y')%R -> (0 <= g)%R -> (0 <= h)%R ->
  close g X X' -> close h Y Y' -> close (g * h) (X / Y) (X' / Y').
Proof.
  intros HX HX' HY HY' Hg Hh [H1 H2] [H3 H4].
  pose proof (Rdiv_def_mul X Y HY) as Eq. pose proof (Rdiv_def_mul X' Y' HY') as Eq'.
  assert (Hq : (0 <= X / Y)%R) by (apply Rdiv_le_lower; lra).
  assert (Hq' : (0 <= X' / Y')%R) by (apply Rdiv_le_lower; lra).
  set (q := (X / Y)%R) in *. set (q' := (X' / Y')%R) in *.
  split.
  - apply Rdiv_le_upper; [assumption|]. fold q'. 
    assert (q * g * Y <= q * g * (Y' * h))%R.
    { apply Rmult_le_compat_l; [|assumption]. now apply Rmult_le_pos. }
    replace (q * (g * h) * Y')%R with (q * g * (Y' * h))%R by ring.
    replace (q * g * Y)%R with (q * Y * g)%R in H by ring. rewrite <- Eq in H. lra.
  - apply Rdiv_le_upper; [assumption|]. fold q.
    assert (q' * g * Y' <= q' * g * (Y * h))%R.
    { apply Rmult_le_compat_l; [|assumption]. now apply Rmult_le_pos. }
    replace (q' * (g * h) * Y)%R with (q' * g * (Y * h))%R by ring.
    replace (q' * g * Y')%R with (q' * Y' * g)%R in H by ring. rewrite <- Eq' in H. lra.
Qed.

Lemma rounded_close X f : rounded X f -> close (1 + bpow (-23)) X (B2R f).
Proof. intros (_ & _ & _ & H1 & H2). split; assumption. Qed.

(** [(float) n] for an [int] [n]. *)
Lemma int_close n :
  0 < n <= INT_MAX ->
  pfin (f32_of_int n) /\ close (1 + bpow (-23)) (IZR n) (B2R (f32_of_int n)).
Proof.
  intros Hn. destruct (f32_of_int_positive n Hn) as [Hr _].
  split; [apply Hr|now apply rounded_close].
Qed.

(** The quotient of two [int]s, as the code forms it: three roundings. *)
Lemma ratio_close a b :
  0 < a <= INT_MAX -> 0 < b <= INT_MAX ->
  let r := f32_div (f32_of_int a) (f32_of_int b) in
  pfin r /\ (bpow (-31) <= B2R r <= bpow 31)%R /\
  close (1 + 4 * bpow (-23)) (IZR a / IZR b) (B2R r).
Proof.
  intros Ha Hb r.
  destruct (aspect_ratio_rounded a b Ha Hb) as [Hr Hbounds]. fold r in Hr, Hbounds.
  destruct (int_close a Ha) as [Hpa Hca]. destruct (int_close b Hb) as [Hpb Hcb].
  pose proof (pfin_pos _ Hpa) as Hfa. pose proof (pfin_pos _ Hpb) as Hfb.
  pose proof (pfin_pos r (proj1 Hr)) as Hrpos.
  assert (HA : (0 < IZR a)%R) by (apply (IZR_lt 0); lia).
  assert (HB : (0 < IZR b)%R) by (apply (IZR_lt 0); lia).
  pose proof ulp_value as Hu. set (u := bpow (-23)) in *.
  assert (Hu0 : (0 <= 1 + u)%R) by nra.
  split; [apply Hr|]. split; [assumption|].
  pose proof (close_div _ _ _ _ _ _ (Rlt_le _ _ HA) (Rlt_le _ _ Hfa) HB Hfb Hu0 Hu0 Hca Hcb)
    as Hq.
  assert (Hu2 : (0 <= (1 + u) * (1 + u))%R) by nra.
  pose proof (close_trans _ _ _ _ _ Hu2 Hu0 Hq (rounded_close _ _ Hr)) as Hc.
  apply (close_weaken _ _ _ _ three_roundings); [|lra|exact Hc].
  apply Rdiv_le_lower; lra.
Qed.

(** The same in products. *)
Lemma ratio_products a b :
  0 < a <= INT_MAX -> 0 < b <= INT_MAX ->
  let r := f32_div (f32_of_int a) (f32_of_int b) in
  pfin r /\ (bpow (-31) <= B2R r <= bpow 31)%R /\
  (B2R r * IZR b <= IZR a * (1 + 4 * bpow (-23)))%R /\
  (IZR a <= B2R r * IZR b * (1 + 4 * bpow (-23)))%R.
Proof.
  intros Ha Hb r. destruct (ratio_close a b Ha Hb) as (Hp & Hbounds & [Hhi Hlo]).
  fold r in Hp, Hbounds, Hhi, Hlo.
  assert (HB : (0 < IZR b)%R) by (apply (IZR_lt 0); lia).
  pose proof (Rdiv_def_mul (IZR a) (IZR b) HB) as Eq. set (q := (IZR a / IZR b)%R) in *.
  split; [assumption|]. split; [assumption|]. split.
  - rewrite Eq. replace (q * IZR b * (1 + 4 * bpow (-23)))%R
      with (q * (1 + 4 * bpow (-23)) * IZR b)%R by ring.
    apply Rmult_le_compat_r; lra.
  - rewrite Eq at 1. replace (B2R r * IZR b * (1 + 4 * bpow (-23)))%R
      with (B2R r * (1 + 4 * bpow (-23)) * IZR b)%R by ring.
    apply Rmult_le_compat_r; lra.
Qed.

(** Two steps of that kind. *)
Lemma two_steps (a b c g h k : R) :
  (0 <= g)%R -> (0 <= c)%R -> (g * h <= k)%R ->
  (a <= b * g)%R -> (b <= c * h)%R -> (a <= c * k)%R.
Proof.
  intros Hg Hc Hk H1 H2.
  apply Rle_trans with (b * g)%R; [assumption|].
  apply Rle_trans with (c * h * g)%R; [now apply Rmult_le_compat_r|].
  replace (c * h * g)%R with (c * (g * h))%R by ring. now apply Rmult_le_compat_l.
Qed.

(** Below [2^20], a relative error of six units in the last place moves
    a product by less than one. *)
Lemma six_ulps_lt_succ N (Y : R) :
  0 <= N <= 2 ^ 20 -> (Y <= IZR N * (1 + 6 * bpow (-23)))%R -> (Y < IZR N + 1)%R.
Proof.
  intros HN HY. rewrite ulp_eq in HY.
  assert (0 <= IZR N <= 1048576)%R.
  { split; [apply (IZR_le 0); lia|apply (IZR_le N (2 ^ 20)); lia]. }
  lra.
Qed.

Lemma six_ulps_gt_pred N (Y : R) :
  0 <= N <= 2 ^ 20 -> (IZR N <= Y * (1 + 6 * bpow (-23)))%R -> (IZR N - 1 < Y)%R.
Proof.
  intros HN HY. rewrite ulp_eq in HY.
  assert (0 <= IZR N <= 1048576)%R.
  { split; [apply (IZR_le 0); lia|apply (IZR_le N (2 ^ 20)); lia]. }
  lra.
Qed.

(** The quotient of two dimensions of at most [2^20], as the code forms
    it: the conversions are exact. *)
Lemma ratio_rounded a b :
  1 <= a <= 2 ^ 20 -> 1 <= b <= 2 ^ 20 ->
  let r := f32_div (f32_of_int a) (f32_of_int b) in
  pfin r /\ (bpow (-31) <= B2R r <= bpow 31)%R /\
  (B2R r * IZR b <= IZR a * (1 + bpow (-23)))%R /\
  (IZR a <= B2R r * IZR b * (1 + bpow (-23)))%R.
Proof.
  intros Ha Hb r.
  destruct (aspect_ratio_rounded a b ltac:(unfold INT_MAX; lia) ltac:(unfold INT_MAX; lia))
    as [(Hp & _ & _ & Hhi & Hlo) Hbounds].
  fold r in Hp, Hhi, Hlo, Hbounds.
  destruct (f32_of_int_exact a ltac:(lia)) as [_ Ea].
  destruct (f32_of_int_exact b ltac:(lia)) as [_ Eb].
  rewrite Ea, Eb in Hhi, Hlo.
  assert (0 < IZR b)%R by (apply (IZR_lt 0); lia).
  pose proof (pfin_pos r Hp). pose proof ulp_value as Hu. set (u := bpow (-23)) in *.
  split; [assumption|]. split; [assumption|].
  assert (Hq : (IZR a = IZR a / IZR b * IZR b)%R) by (field; lra).
  set (q := (IZR a / IZR b)%R) in *.
  split.
  - rewrite Hq. assert (0 <= IZR b)%R by lra.
    replace (q * IZR b * (1 + u))%R with (q * (1 + u) * IZR b)%R by ring.
    now apply Rmult_le_compat_r.
  - rewrite Hq at 1.
    replace (B2R r * IZR b * (1 + u))%R with (B2R r * (1 + u) * IZR b)%R by ring.
    apply Rmult_le_compat_r; lra.
Qed.

Lemma f32_of_int_zero : f32_of_int 0 = S754_zero false.
Proof. reflexivity. Qed.

Lemma f32_mul_zero_l r : pfin r -> f32_mul (S754_zero false) r = S754_zero false.
Proof. intros (m & e & -> & _). reflexivity. Qed.

Lemma IZR_dimension n : 1 <= n <= 2 ^ 20 -> (1 <= IZR n <= 1048576)%R.
Proof. intros H. split; [apply (IZR_le 1); lia|apply (IZR_le n (2 ^ 20)); lia]. Qed.

Lemma bpow_51 : bpow 51 = 2251799813685248%R.
Proof. rewrite bpow_IZR by lia. reflexivity. Qed.

Lemma bpow_31 : bpow 31 = 2147483648%R.
Proof. rewrite bpow_IZR by lia. reflexivity. Qed.

Lemma bpow_neg_31 : (bpow (-31) * 2147483648 = 1)%R.
Proof. rewrite <- bpow_31. apply (bpow_neg_mul 31). Qed.

(** [(int)(x * ((float)s / t))] for a target coordinate [x] is a source
    coordinate. *)
Lemma source_index_in_range s t x :
  1 <= s <= INT_MAX -> 1 <= t <= 2 ^ 20 -> 0 <= x < t ->
  0 <= f32_to_int (f32_mul (f32_of_int x) (f32_div (f32_of_int s) (f32_of_int t))) < s.
Proof.
  intros Hs Ht Hx.
  destruct (ratio_products s t ltac:(lia) ltac:(unfold INT_MAX; lia))
    as (Hp & Hb & Hhi & Hlo).
  set (r := f32_div (f32_of_int s) (f32_of_int t)) in *.
  destruct (Z.eq_dec x 0) as [->|Hx0].
  { rewrite f32_of_int_zero, f32_mul_zero_l by assumption. cbn. lia. }
  destruct (f32_of_int_exact x ltac:(lia)) as [Hpx Ex].
  destruct (pfin_pow2 (-31) ltac:(lia)) as [Hplo HBlo].
  destruct (pfin_pow2 51 ltac:(lia)) as [Hphi HBhi].
  pose proof (IZR_dimension t Ht) as Rt.
  assert (Rs : (1 <= IZR s)%R) by (apply (IZR_le 1); lia).
  assert (Hxr : (1 <= IZR x <= IZR t - 1)%R).
  { split; [apply (IZR_le 1); lia|]. rewrite <- (minus_IZR t 1). apply IZR_le; lia. }
  pose proof bpow_51 as H51. pose proof bpow_31 as H31. pose proof bpow_neg_31 as H31'.
  pose proof (pfin_pos r Hp) as Hrpos.
  destruct (f32_mul_rounded (f32_of_int x) r _ _ Hpx Hp Hplo Hphi) as (Hpp & _ & _ & Hphi' & _).
  { rewrite HBlo, HBhi, Ex, H51. split.
    - assert (B2R r * 1 <= B2R r * IZR x)%R by (apply Rmult_le_compat_l; lra). lra.
    - assert (IZR x * B2R r <= 1048576 * B2R r)%R by (apply Rmult_le_compat_r; lra). lra. }
  rewrite Ex in Hphi'.
  set (p := f32_mul (f32_of_int x) r) in *.
  pose proof four_roundings as H6. pose proof ulp_eq as Eu.
  set (u := bpow (-23)) in *.
  assert (Hstep : ((IZR t - 1) * (1 + 6 * u) < IZR t)%R) by (rewrite Eu; lra).
  assert (Hprod : (B2R p * IZR t <= IZR x * IZR s * (1 + 6 * u))%R).
  { apply (two_steps _ (IZR x * (B2R r * IZR t)) _ (1 + u) (1 + 4 * u));
      [rewrite Eu; lra|apply Rmult_le_pos; lra|rewrite Rmult_comm; exact H6| |].
    - replace (IZR x * (B2R r * IZR t) * (1 + u))%R
        with (IZR x * B2R r * (1 + u) * IZR t)%R by ring.
      apply Rmult_le_compat_r; lra.
    - replace (IZR x * IZR s * (1 + 4 * u))%R with (IZR x * (IZR s * (1 + 4 * u)))%R by ring.
      apply Rmult_le_compat_l; lra. }
  assert (Hlt : (B2R p * IZR t < IZR s * IZR t)%R).
  { assert (IZR x * IZR s * (1 + 6 * u) <= (IZR t - 1) * IZR s * (1 + 6 * u))%R.
    { apply Rmult_le_compat_r; [rewrite Eu; lra|]. apply Rmult_le_compat_r; lra. }
    assert ((IZR t - 1) * (1 + 6 * u) * IZR s < IZR t * IZR s)%R
      by (apply Rmult_lt_compat_r; lra).
    lra. }
  apply f32_to_int_lt; [assumption|unfold INT_MAX in Hs; lia|].
  apply Rmult_lt_reg_r with (IZR t); lra.
Qed.

(** A dimension computed as [(int) v], raised to 1, where [v] is the
    rounded value of an [X] that is itself [N / D] up to three
    roundings: it is [N / D] to within one, and not above it unless
    raised. *)
Lemma rounded_dimension N D (X : R) v :
  1 <= N <= 2 ^ 20 -> 1 <= D -> (0 <= X)%R ->
  (X * IZR D <= IZR N * (1 + 4 * bpow (-23)))%R ->
  (IZR N <= X * IZR D * (1 + 4 * bpow (-23)))%R ->
  pfin v ->
  (B2R v <= X * (1 + bpow (-23)))%R -> (X <= B2R v * (1 + bpow (-23)))%R ->
  let a := if f32_to_int v <? 1 then 1 else f32_to_int v in
  1 <= a /\ N - D <= a * D <= N + D /\ (f32_to_int v * D <= N).
Proof.
  intros HN HD HX Hhi Hlo Hp Hvhi Hvlo a.
  pose proof four_roundings as H6. pose proof ulp_eq as Eu.
  set (u := bpow (-23)) in *.
  assert (HDr : (1 <= IZR D)%R) by (apply (IZR_le 1); lia).
  assert (HNr : (1 <= IZR N <= 1048576)%R) by (apply IZR_dimension; lia).
  pose proof (pfin_pos v Hp) as Hvpos.
  assert (Hup : (B2R v * IZR D < IZR N + 1)%R).
  { apply six_ulps_lt_succ; [lia|]. fold u.
    apply (two_steps _ (X * IZR D) _ (1 + u) (1 + 4 * u));
      [rewrite Eu; lra|lra|rewrite Rmult_comm; exact H6| |assumption].
    replace (X * IZR D * (1 + u))%R with (X * (1 + u) * IZR D)%R by ring.
    apply Rmult_le_compat_r; lra. }
  assert (Hdown : (IZR N - 1 < B2R v * IZR D)%R).
  { apply six_ulps_gt_pred; [lia|]. fold u.
    apply (two_steps _ (X * IZR D) _ (1 + 4 * u) (1 + u));
      [rewrite Eu; lra|apply Rmult_le_pos; lra|exact H6|assumption|].
    replace (B2R v * IZR D * (1 + u))%R with (B2R v * (1 + u) * IZR D)%R by ring.
    apply Rmult_le_compat_r; lra. }
  assert (Hv31 : (B2R v < IZR (2 ^ 31))%R).
  { change (IZR (2 ^ 31)) with 2147483648%R.
    assert (B2R v * 1 <= B2R v * IZR D)%R by (apply Rmult_le_compat_l; lra). lra. }
  destruct (f32_to_int_floor v Hp Hv31) as (Hf0 & Hfl & Hfu).
  set (fl := f32_to_int v) in *.
  assert (Hle : fl * D <= N).
  { apply Z.lt_succ_r, lt_IZR. rewrite mult_IZR, succ_IZR.
    eapply Rle_lt_trans; [|exact Hup]. apply Rmult_le_compat_r; lra. }
  assert (Hge : N <= (fl + 1) * D).
  { apply Z.lt_pred_le, lt_IZR. unfold Z.pred. rewrite plus_IZR, mult_IZR, plus_IZR.
    eapply Rlt_trans; [exact Hdown|]. apply Rmult_lt_compat_r; lra. }
  subst a. destruct (Z.ltb_spec fl 1); nia.
Qed.

(** Two pixel counts whose product is at most [2^40]: a cross product
    that is at most the other one up to six units in the last place is
    at most [2^20], and at most the other one. *)
Lemma cross_product_bound a b :
  1 <= a -> 1 <= b -> a * b <= 2 ^ 40 ->
  (IZR a <= IZR b * (1 + 6 * bpow (-23)))%R ->
  a <= b /\ a <= 2 ^ 20.
Proof.
  intros Ha Hb Hab Hreal.
  destruct (Z_le_gt_dec b (2 ^ 20)) as [Hsmall|Hlarge].
  - assert (a <= b); [|lia].
    apply Z.lt_succ_r, lt_IZR. rewrite succ_IZR.
    apply six_ulps_lt_succ; [lia|exact Hreal].
  - assert (a <= 2 ^ 20); [|lia].
    destruct (Z_le_gt_dec a (2 ^ 20)) as [|Hbig]; [assumption|exfalso].
    assert ((2 ^ 20 + 1) * (2 ^ 20 + 1) <= a * b) by (apply Z.mul_le_mono_nonneg; lia).
    lia.
Qed.

(** The dimensions [downscale_image_color] works with when it keeps the
    aspect ratio. *)
Lemma adjust_target_spec sw sh tw th :
  1 <= sw <= INT_MAX -> 1 <= sh <= INT_MAX ->
  1 <= tw -> 1 <= th -> tw * th <= 2 ^ 20 ->
  sw * sh * (tw * th) <= 2 ^ 40 ->
  let aw := fst (adjust_target sw sh tw th) in
  let ah := snd (adjust_target sw sh tw th) in
  (aw = tw /\ ah = th) \/
  (aw = tw /\ 1 <= ah <= th /\ tw * sh - sw <= ah * sw <= tw * sh + sw) \/
  (ah = th /\ 1 <= aw <= tw /\ th * sw - sh <= aw * sh <= th * sw + sh).
Proof.
  intros Hsw Hsh Htw1 Hth1 HK Hprod. unfold adjust_target.
  assert (Htw : 1 <= tw <= 2 ^ 20) by nia. assert (Hth : 1 <= th <= 2 ^ 20) by nia.
  destruct (ratio_products sw sh ltac:(lia) ltac:(lia)) as (Hps & Hbs & Hshi & Hslo).
  destruct (ratio_rounded tw th Htw Hth) as (Hpt & Hbt & Hthi & Htlo).
  set (sa := f32_div (f32_of_int sw) (f32_of_int sh)) in *.
  set (ta := f32_div (f32_of_int tw) (f32_of_int th)) in *.
  assert (Rsw : (1 <= IZR sw)%R) by (apply (IZR_le 1); lia).
  assert (Rsh : (1 <= IZR sh)%R) by (apply (IZR_le 1); lia).
  pose proof (IZR_dimension tw Htw) as Rtw. pose proof (IZR_dimension th Hth) as Rth.
  pose proof (pfin_pos sa Hps) as Hsapos. pose proof (pfin_pos ta Hpt) as Htapos.
  destruct (pfin_pow2 (-31) ltac:(lia)) as [Hplo HBlo].
  destruct (pfin_pow2 51 ltac:(lia)) as [Hphi HBhi].
  pose proof bpow_51 as H51. pose proof bpow_31 as H31. pose proof bpow_neg_31 as H31'.
  pose proof four_roundings as H6. pose proof ulp_eq as Eu.
  set (u := bpow (-23)) in *.
  assert (Hu1 : (0 <= 1 + u)%R) by (rewrite Eu; lra).
  assert (Hu4 : (0 <= 1 + 4 * u)%R) by (rewrite Eu; lra).
  assert (Hcomm : (tw * sh) * (sw * th) <= 2 ^ 40)
    by (replace (tw * sh * (sw * th)) with (sw * sh * (tw * th)) by ring; assumption).
  destruct (f32_ltb ta sa) eqn:Hwide.
  - (* the height is adjusted *)
    apply f32_ltb_spec in Hwide; [|assumption|assumption].
    right. left. cbn [fst snd]. split; [reflexivity|].
    destruct (cross_product_bound (tw * sh) (sw * th)) as [Hcross Hsmall]; try nia.
    { fold u. rewrite !mult_IZR.
      apply (two_steps _ (B2R sa * IZR sh * IZR th) _ (1 + u) (1 + 4 * u));
        [assumption|apply Rmult_le_pos; lra|rewrite Rmult_comm; exact H6| |].
      - apply Rle_trans with (B2R ta * IZR th * (1 + u) * IZR sh)%R;
          [apply Rmult_le_compat_r; lra|].
        replace (B2R ta * IZR th * (1 + u) * IZR sh)%R
          with (B2R ta * (IZR th * (1 + u) * IZR sh))%R by ring.
        replace (B2R sa * IZR sh * IZR th * (1 + u))%R
          with (B2R sa * (IZR th * (1 + u) * IZR sh))%R by ring.
        apply Rmult_le_compat_r; [|lra].
        apply Rmult_le_pos; [apply Rmult_le_pos|]; lra.
      - replace (IZR sw * IZR th * (1 + 4 * u))%R
          with (IZR sw * (1 + 4 * u) * IZR th)%R by ring.
        apply Rmult_le_compat_r; lra. }
    destruct (f32_of_int_exact tw ltac:(lia)) as [Hptw Etw].
    set (X := (IZR tw / B2R sa)%R).
    assert (HX : (X * B2R sa = IZR tw)%R) by (unfold X; field; lra).
    assert (HXpos : (0 < X)%R) by (apply Rdiv_lt_lower; lra).
    destruct (f32_div_rounded (f32_of_int tw) sa _ _ Hptw Hps Hplo Hphi)
      as (Hpv & _ & _ & Hvhi & Hvlo).
    { rewrite HBlo, HBhi, Etw, H51. fold X. split.
      - apply Rdiv_le_lower; [assumption|].
        pose proof (bpow_gt_0 (-31)) as Hpos31.
        assert (bpow (-31) * B2R sa <= bpow (-31) * 2147483648)%R
          by (apply Rmult_le_compat_l; lra).
        lra.
      - apply Rdiv_le_upper; [assumption|].
        assert (2251799813685248 * bpow (-31) <= 2251799813685248 * B2R sa)%R
          by (apply Rmult_le_compat_l; lra).
        lra. }
    rewrite Etw in Hvhi, Hvlo. fold X u in Hvhi, Hvlo.
    set (v := f32_div (f32_of_int tw) sa) in *.
    destruct (rounded_dimension (tw * sh) sw X v ltac:(nia) ltac:(lia) ltac:(lra))
      as (H1 & Hnear & Hfl); try assumption.
    { rewrite mult_IZR. fold u.
      replace (IZR tw * IZR sh * (1 + 4 * u))%R
        with (X * (B2R sa * IZR sh * (1 + 4 * u)))%R by (rewrite <- HX; ring).
      apply Rmult_le_compat_l; lra. }
    { rewrite mult_IZR. fold u.
      replace (IZR tw * IZR sh)%R with (X * (B2R sa * IZR sh))%R by (rewrite <- HX; ring).
      replace (X * IZR sw * (1 + 4 * u))%R with (X * (IZR sw * (1 + 4 * u)))%R by ring.
      apply Rmult_le_compat_l; lra. }
    split; [|exact Hnear].
    destruct (Z.ltb_spec (f32_to_int v) 1); nia.
  - destruct (f32_ltb sa ta) eqn:Htall.
    + (* the width is adjusted *)
      apply f32_ltb_spec in Htall; [|assumption|assumption].
      right. right. cbn [fst snd]. split; [reflexivity|].
      destruct (cross_product_bound (th * sw) (tw * sh)) as [Hcross Hsmall]; try nia.
      { fold u. rewrite !mult_IZR.
        apply (two_steps _ (B2R sa * IZR sh * IZR th) _ (1 + 4 * u) (1 + u));
          [assumption|apply Rmult_le_pos; lra|exact H6| |].
        - replace (IZR th * IZR sw)%R with (IZR sw * IZR th)%R by ring.
          replace (B2R sa * IZR sh * IZR th * (1 + 4 * u))%R
            with (B2R sa * IZR sh * (1 + 4 * u) * IZR th)%R by ring.
          apply Rmult_le_compat_r; lra.
        - apply Rle_trans with (B2R ta * IZR sh * IZR th)%R.
          + replace (B2R sa * IZR sh * IZR th)%R with (B2R sa * (IZR sh * IZR th))%R by ring.
            replace (B2R ta * IZR sh * IZR th)%R with (B2R ta * (IZR sh * IZR th))%R by ring.
            apply Rmult_le_compat_r; [apply Rmult_le_pos|]; lra.
          + replace (B2R ta * IZR sh * IZR th)%R with (B2R ta * IZR th * IZR sh)%R by ring.
            replace (IZR tw * IZR sh * (1 + u))%R with (IZR tw * (1 + u) * IZR sh)%R by ring.
            apply Rmult_le_compat_r; lra. }
      destruct (f32_of_int_exact th ltac:(lia)) as [Hpth Eth].
      set (X := (IZR th * B2R sa)%R).
      assert (HXpos : (0 < X)%R) by (apply Rmult_lt_0_compat; lra).
      destruct (f32_mul_rounded (f32_of_int th) sa _ _ Hpth Hps Hplo Hphi)
        as (Hpv & _ & _ & Hvhi & Hvlo).
      { rewrite HBlo, HBhi, Eth, H51. split.
        - assert (1 * B2R sa <= IZR th * B2R sa)%R by (apply Rmult_le_compat_r; lra). lra.
        - assert (IZR th * B2R sa <= 1048576 * B2R sa)%R by (apply Rmult_le_compat_r; lra).
          lra. }
      rewrite Eth in Hvhi, Hvlo. fold X u in Hvhi, Hvlo.
      set (v := f32_mul (f32_of_int th) sa) in *.
      destruct (rounded_dimension (th * sw) sh X v ltac:(nia) ltac:(lia) ltac:(lra))
        as (H1 & Hnear & Hfl); try assumption.
      { rewrite mult_IZR. fold u. unfold X.
        replace (IZR th * B2R sa * IZR sh)%R with (IZR th * (B2R sa * IZR sh))%R by ring.
        replace (IZR th * IZR sw * (1 + 4 * u))%R
          with (IZR th * (IZR sw * (1 + 4 * u)))%R by ring.
        apply Rmult_le_compat_l; lra. }
      { rewrite mult_IZR. fold u. unfold X.
        replace (IZR th * B2R sa * IZR sh * (1 + 4 * u))%R
          with (IZR th * (B2R sa * IZR sh * (1 + 4 * u)))%R by ring.
        apply Rmult_le_compat_l; lra. }
      split; [|exact Hnear].
      destruct (Z.ltb_spec (f32_to_int v) 1); nia.
    + left. split; reflexivity.
Qed.

(** *** The scaling loops *)

(** Rows of equal length over a range: [mapM] of [mapM] is defined when
    every element is, and the rows together hold [width * height]
    elements. *)
Lemma mapM_rows {A : Type} (f : Z -> Z -> option A) width height :
  0 <= width -> 0 <= height ->
  (forall x y, 0 <= x < width -> 0 <= y < height -> is_Some (f x y)) ->
  exists rows,
    mapM (fun y => mapM (fun x => f x y) (seqZ 0 width)) (seqZ 0 height) = Some rows /\
    Z.of_nat (length (concat rows)) = width * height.
Proof.
  intros Hw Hh Hdef.
  assert (Hrow : forall y, 0 <= y < height ->
            exists row, mapM (fun x => f x y) (seqZ 0 width) = Some row /\
                        Z.of_nat (length row) = width).
  { intros y Hy.
    destruct (mapM_is_Some_2 (fun x => f x y) (seqZ 0 width)) as [row Hrow].
    - apply Forall_forall. intros x Hx. apply elem_of_seqZ in Hx. apply Hdef; lia.
    - exists row. split; [assumption|].
      apply length_mapM in Hrow. rewrite <- Hrow, length_seqZ. lia. }
  destruct (mapM_is_Some_2 (fun y => mapM (fun x => f x y) (seqZ 0 width)) (seqZ 0 height))
    as [rows Hrows].
  { apply Forall_forall. intros y Hy. apply elem_of_seqZ in Hy.
    destruct (Hrow y ltac:(lia)) as (row & Hr & _). unfold compose. rewrite Hr. now eexists. }
  exists rows. split; [assumption|].
  apply mapM_Some_1 in Hrows.
  assert (Hall : Forall (fun y => 0 <= y < height) (seqZ 0 height)).
  { apply Forall_forall. intros y Hy. apply elem_of_seqZ in Hy. lia. }
  assert (Hsum : Z.of_nat (length (concat rows)) = width * Z.of_nat (length (seqZ 0 height))).
  { induction Hrows as [|y row ys rows' Hy _ IH]; [cbn; lia|].
    apply Forall_cons in Hall as [Hy0 Hall].
    destruct (Hrow y Hy0) as (row' & Hrow' & Hlen). rewrite Hrow' in Hy.
    injection Hy as ->. cbn [concat]. rewrite length_app, Nat2Z.inj_add, Hlen, (IH Hall).
    cbn [length]. lia. }
  rewrite Hsum, length_seqZ. lia.
Qed.

Lemma downscale_pixel_defined src src_w src_h tgt_w tgt_h options x y :
  1 <= src_w <= INT_MAX -> 1 <= src_h <= INT_MAX ->
  1 <= tgt_w <= 2 ^ 20 -> 1 <= tgt_h <= 2 ^ 20 ->
  Z.of_nat (length src) = src_w * src_h ->
  0 <= x < tgt_w -> 0 <= y < tgt_h ->
  is_Some (downscale_pixel src src_w src_h
             (f32_div (f32_of_int src_w) (f32_of_int tgt_w))
             (f32_div (f32_of_int src_h) (f32_of_int tgt_h)) options x y).
Proof.
  intros Hsw Hsh Htw Hth Hlen Hx Hy.
  pose proof (source_index_in_range src_w tgt_w x Hsw Htw Hx) as Hsx.
  pose proof (source_index_in_range src_h tgt_h y Hsh Hth Hy) as Hsy.
  unfold downscale_pixel.
  set (x_ratio := f32_div (f32_of_int src_w) (f32_of_int tgt_w)) in *.
  set (y_ratio := f32_div (f32_of_int src_h) (f32_of_int tgt_h)) in *.
  set (sx := f32_to_int (f32_mul (f32_of_int x) x_ratio)) in *.
  set (sy := f32_to_int (f32_mul (f32_of_int y) y_ratio)) in *.
  destruct (read_pixel_in_image src src_w src_h sx sy Hlen Hsx Hsy) as [p00 H00].
  destruct (use_bilinear_filtering options).
  - rewrite H00. cbn [mbind option_bind].
    destruct (Z.ltb_spec sx (src_w - 1)) as [Hx1|Hx1];
      destruct (Z.ltb_spec sy (src_h - 1)) as [Hy1|Hy1]; cbn [andb].
    + destruct (read_pixel_in_image src src_w src_h (sx + 1) sy Hlen
                  ltac:(lia) Hsy) as [p10 H10].
      destruct (read_pixel_in_image src src_w src_h sx (sy + 1) Hlen
                  Hsx ltac:(lia)) as [p01 H01].
      destruct (read_pixel_in_image src src_w src_h (sx + 1) (sy + 1) Hlen
                  ltac:(lia) ltac:(lia)) as [p11 H11].
      rewrite Z.add_assoc in H10, H11. rewrite H10. cbn [mbind option_bind].
      rewrite H01. cbn [mbind option_bind]. rewrite H11. cbn [mbind option_bind].
      now eexists.
    + destruct (read_pixel_in_image src src_w src_h (sx + 1) sy Hlen
                  ltac:(lia) Hsy) as [p10 H10].
      rewrite Z.add_assoc in H10. rewrite H10. cbn [mbind option_bind]. now eexists.
    + destruct (read_pixel_in_image src src_w src_h sx (sy + 1) Hlen
                  Hsx ltac:(lia)) as [p01 H01].
      cbn [mbind option_bind]. rewrite H01. cbn [mbind option_bind]. now eexists.
    + cbn [mbind option_bind]. now eexists.
  - rewrite H00. cbn [mbind option_bind]. now eexists.
Qed.

(** The scaling loops stay inside the source, and fill a buffer of the
    dimensions worked with. *)
Lemma downscale_image_color_fills e src src_w src_h tgt_w tgt_h options :
  1 <= src_w <= INT_MAX -> 1 <= src_h <= INT_MAX ->
  Z.of_nat (length src) = src_w * src_h ->
  let dims := scaled_dims src_w src_h tgt_w tgt_h options in
  1 <= fst dims -> 1 <= snd dims -> fst dims * snd dims <= 2 ^ 20 ->
  fst (memory_alloc e site_downscale (pixel_bytes (fst dims) (snd dims)) false) = true ->
  exists pixels,
    downscale_image_color e src src_w src_h tgt_w tgt_h options =
      Some (Some {| sc_pixels := pixels; sc_width := fst dims; sc_height := snd dims |}) /\
    Z.of_nat (length pixels) = fst dims * snd dims.
Proof.
  intros Hsw Hsh Hlen dims Hw Hh Hcount Halloc.
  unfold downscale_image_color. fold (scaled_dims src_w src_h tgt_w tgt_h options).
  fold dims. destruct dims as [aw ah]. cbn [fst snd] in *.
  rewrite Halloc. cbn [negb].
  rewrite pixel_bytes_small by nia. rewrite Z.ltb_irrefl, andb_false_r.
  destruct (mapM_rows
              (fun x y => downscale_pixel src src_w src_h
                            (f32_div (f32_of_int src_w) (f32_of_int aw))
                            (f32_div (f32_of_int src_h) (f32_of_int ah))
                            (default default_options options) x y)
              aw ah ltac:(lia) ltac:(lia)) as (rows & Hrows & Hrowcount).
  { intros x y Hx Hy. apply downscale_pixel_defined; auto; nia. }
  rewrite Hrows. cbn [mbind option_bind].
  eexists. split; [reflexivity|]. assumption.
Qed.




(** ** Running out of memory *)


Lemma runs_set_failure_reason reason w :
  runs (set_failure_reason reason) w tt
       {| shell_out := shell_out w; stbi_failure_reason := reason;
          stbi__jpeg_decode_reduced := stbi__jpeg_decode_reduced w |} [].
Proof. split; [reflexivity|]. unfold emitted. cbn [shell_out]. now rewrite app_nil_r. Qed.

Lemma runs_set_jpeg_decode_reduced v w :
  runs (set_jpeg_decode_reduced v) w tt
       {| shell_out := shell_out w; stbi_failure_reason := stbi_failure_reason w;
          stbi__jpeg_decode_reduced := v |} [].
Proof. split; [reflexivity|]. unfold emitted. cbn [shell_out]. now rewrite app_nil_r. Qed.

Lemma runs_get_failure_reason w :
  runs get_failure_reason w (stbi_failure_reason w) w [].
Proof. split; [reflexivity|apply emitted_nil]. Qed.

Lemma within_budget e ow oh :
  0 < ow -> 0 < oh -> ow * oh * 3 <= budget e ->
  (to_size_t (budget e) <? memory_needed_of ow oh) = false.
Proof.
  intros Hw Hh H.
  assert (budget e <= 3000000) by (unfold budget; destruct (CONFIG_ESP_SPIRAM e); lia).
  rewrite memory_needed_of_exact by (unfold INT_MAX; nia).
  apply Z.ltb_ge. unfold to_size_t. rewrite Z.mod_small; [assumption|].
  unfold budget. destruct (CONFIG_ESP_SPIRAM e); lia.
Qed.

(** What [gopher_render_image] prints before it decodes. *)
Lemma gopher_render_image_decodes e data config w ow oh oc is_image :
  looks_like_text_content data = false ->
  gopher_is_image data = Some is_image ->
  stbi_info_from_memory e data = stbi_ok (ow, oh, oc) ->
  0 < ow -> 0 < oh -> ow * oh * 3 <= budget e ->
  exists w0 evs,
    emitted w w0 evs /\
    stbi_failure_reason w0 = stbi_failure_reason w /\
    gopher_render_image e data config w =
    bind (decode_image_to_rgb e data true (budget e))
         (fun img =>
            match img with
            | None =>
                bind (report_decode_failure e (stbi_ok (ow, oh, oc))
                                            (default default_config config))
                     (fun handled =>
                        match handled with
                        | Some r => ret r
                        | None => show_as_text_and_fail data
                        end)
            | Some img => render_decoded e img (default default_config config)
            end) w0.
Proof.
  intros Htext Himg Hinfo Hw Hh Hfit.
  pose proof (within_budget e ow oh Hw Hh Hfit) as Hin.
  unfold gopher_render_image. rewrite Htext, Himg, Hinfo. fold (budget e).
  unfold render_large_placeholder. rewrite Hin.
  rewrite bind_emit, bind_lift_Some.
  destruct is_image; cbn [negb when].
  - rewrite bind_ret, bind_emit, !bind_ret.
    eexists _, _. split; [|split; [|reflexivity]]; [|reflexivity].
    repeat apply emitted_log. apply emitted_nil.
  - rewrite bind_bind, !bind_emit, !bind_ret.
    eexists _, _. split; [|split; [|reflexivity]]; [|reflexivity].
    repeat apply emitted_log. apply emitted_nil.
Qed.


(** The decoder when the codec decodes the image. *)
Lemma decode_succeeds e data max_memory w ow oh oc width height img :
  looks_like_text_content data = false ->
  stbi_info_from_memory e data = stbi_ok (ow, oh, oc) ->
  stbi_load_from_memory e data = stbi_ok (width, height, img) ->
  exists w1 evs,
    runs (decode_image_to_rgb e data true max_memory) w
         (Some {| dec_pixels := img; dec_width := width; dec_height := height |}) w1 evs.
Proof.
  intros Htext Hinfo Hload.
  unfold decode_image_to_rgb. rewrite Htext, Hinfo, Hload.
  eexists _, _.
  eapply runs_bind; [apply runs_emit|].
  eapply runs_bind; [apply runs_when, runs_set_jpeg_decode_reduced|].
  eapply runs_bind; [apply runs_emit|]. apply runs_ret.
Qed.



(** *** Images twice as wide as high *)

(** A rounded value of a number that binary32 holds is that number. *)
Lemma rounded_exact (X : R) f t : rounded X f -> pfin t -> B2R t = X -> B2R f = X.
Proof.
  intros (_ & Hub & Hlb & _) Ht HB.
  pose proof (Hub t Ht ltac:(lra)). pose proof (Hlb t Ht ltac:(lra)). lra.
Qed.

Lemma bpow_1 : bpow 1 = 2%R.
Proof. rewrite bpow_IZR by lia. reflexivity. Qed.

(** [(float)(2 * k) / k] is 2. *)
Lemma aspect_two_to_one k :
  1 <= k < 2 ^ 23 ->
  let aspect := f32_div (f32_of_int (2 * k)) (f32_of_int k) in
  pfin aspect /\ B2R aspect = 2%R.
Proof.
  intros Hk aspect.
  destruct (f32_of_int_exact (2 * k) ltac:(lia)) as [_ E2].
  destruct (f32_of_int_exact k ltac:(lia)) as [_ E1].
  destruct (aspect_ratio_rounded (2 * k) k ltac:(unfold INT_MAX; lia)
              ltac:(unfold INT_MAX; lia)) as [Hr _].
  fold aspect in Hr. rewrite E2, E1 in Hr.
  destruct (pfin_pow2 1 ltac:(lia)) as [Hpt HBt]. rewrite bpow_1 in HBt.
  assert (HX : (IZR (2 * k) / IZR k = 2)%R).
  { rewrite mult_IZR. field. apply not_0_IZR. lia. }
  rewrite HX in Hr. split; [apply Hr|]. exact (rounded_exact 2 aspect _ Hr Hpt HBt).
Qed.


(** The placeholder the decoder substitutes for it is 128x64. *)
Lemma decode_placeholder_two_to_one k :
  1 <= k < 2 ^ 23 -> decode_placeholder_dims (2 * k) k = (128, 64).
Proof.
  intros Hk. unfold decode_placeholder_dims.
  destruct (aspect_two_to_one k Hk) as [Hpa HBa].
  set (aspect := f32_div (f32_of_int (2 * k)) (f32_of_int k)) in *.
  destruct (pfin_pow2 0 ltac:(lia)) as [Hp1 HB1].
  destruct (pfin_pow2 7 ltac:(lia)) as [Hp128 HB128].
  destruct (pfin_pow2 6 ltac:(lia)) as [Hp64 HB64].
  change f32_one with (S754_finite false (Z.to_pos (2 ^ 23)) (0 - 23)).
  change (f32_of_int 128) with (S754_finite false (Z.to_pos (2 ^ 23)) (7 - 23)).
  assert (H128 : bpow 7 = 128%R) by (rewrite bpow_IZR by lia; reflexivity).
  assert (H64 : bpow 6 = 64%R) by (rewrite bpow_IZR by lia; reflexivity).
  change (bpow 0) with 1%R in HB1.
  assert (Hwide : f32_leb (S754_finite false (Z.to_pos (2 ^ 23)) (0 - 23)) aspect = true).
  { apply f32_leb_spec; [assumption|assumption|]. rewrite HB1, HBa. lra. }
  rewrite Hwide.
  set (v := f32_div (S754_finite false (Z.to_pos (2 ^ 23)) (7 - 23)) aspect).
  assert (Hv : rounded 64 v).
  { replace 64%R with (B2R (S754_finite false (Z.to_pos (2 ^ 23)) (7 - 23)) / B2R aspect)%R
      by (rewrite HB128, H128, HBa; lra).
    apply (f32_div_rounded _ _ _ _ Hp128 Hpa Hp64 Hp64).
    rewrite HB128, H128, HBa, HB64, H64. lra. }
  assert (HBv : B2R v = 64%R) by (apply (rounded_exact 64 v _ Hv Hp64); now rewrite HB64).
  assert (Hint : f32_to_int v = 64).
  { destruct (f32_to_int_floor v (proj1 Hv)) as (_ & Hlo & Hhi).
    { rewrite HBv. apply (IZR_lt 64). lia. }
    rewrite HBv in Hlo, Hhi.
    assert (f32_to_int v <= 64) by (apply le_IZR; lra).
    assert (64 < f32_to_int v + 1) by (apply lt_IZR; rewrite plus_IZR; lra).
    lia. }
  rewrite Hint. reflexivity.
Qed.





(** In that environment the placeholder of 128x64 pixels is scaled to
    40x20, dithered and rendered: the call returns 0. *)
Example codec_out_of_memory_is_rendered :
  fst <$> gopher_render_image codec_exhausted_env jpeg_bytes None initial_world = Some 0.
Proof. vm_compute. reflexivity. Qed.


(** ** The rendered characters *)

(** *** The gray value *)

Lemma luma_term a x :
  1 <= a <= 1000 -> 0 <= x <= 255 ->
  approximates 3 (a * x) (f32_mul (f32_lit a 1000) (f32_of_int x)).
Proof.
  intros Ha Hx. unfold approximates, f32_lit.
  destruct (ratio_rounded a 1000 ltac:(lia) ltac:(lia)) as (Hp & Hb & Hhi & Hlo).
  set (c := f32_div (f32_of_int a) (f32_of_int 1000)) in *.
  destruct (Z.eq_dec x 0) as [->|Hx0].
  { left. split; [|lia]. rewrite f32_of_int_zero.
    destruct Hp as (m & e & -> & _). reflexivity. }
  right.
  destruct (f32_of_int_exact x ltac:(lia)) as [Hpx Ex].
  destruct (pfin_pow2 (-31) ltac:(lia)) as [Hplo HBlo].
  destruct (pfin_pow2 41 ltac:(lia)) as [Hphi HBhi].
  assert (Hxr : (1 <= IZR x <= 255)%R).
  { split; [apply (IZR_le 1); lia|apply (IZR_le x 255); lia]. }
  assert (Har : (1 <= IZR a <= 1000)%R).
  { split; [apply (IZR_le 1); lia|apply (IZR_le a 1000); lia]. }
  assert (H41 : bpow 41 = (bpow 31 * 1024)%R).
  { change 1024%R with (IZR (2 ^ 10)). rewrite <- (bpow_IZR 10), <- bpow_plus by lia.
    reflexivity. }
  pose proof (bpow_gt_0 (-31)) as Hlo31. pose proof (bpow_gt_0 31) as Hhi31.
  pose proof (pfin_pos c Hp) as Hcpos.
  destruct (f32_mul_rounded c (f32_of_int x) _ _ Hp Hpx Hplo Hphi) as (Hpp & _ & _ & Hphi' & Hplo').
  { rewrite HBlo, HBhi, Ex, H41. split; nra. }
  rewrite Ex in Hphi', Hplo'.
  set (p := f32_mul c (f32_of_int x)) in *.
  pose proof (pfin_pos p Hpp) as Hppos.
  pose proof ulp_value as Hu. set (u := bpow (-23)) in *.
  split; [assumption|]. split; [lia|]. rewrite mult_IZR.
  change (IZR 1000) with 1000%R in Hhi, Hlo.
  split.
  - assert (1000 * B2R p <= (B2R c * 1000) * IZR x * (1 + u))%R by nra.
    assert ((B2R c * 1000) * (IZR x * (1 + u)) <= (IZR a * (1 + u)) * (IZR x * (1 + u)))%R
      by (apply Rmult_le_compat_r; nra).
    nra.
  - assert (IZR a * IZR x <= (B2R c * 1000 * (1 + u)) * IZR x)%R
      by (apply Rmult_le_compat_r; lra).
    assert ((B2R c * IZR x) * (1000 * (1 + u)) <= (B2R p * (1 + u)) * (1000 * (1 + u)))%R
      by (apply Rmult_le_compat_r; nra).
    nra.
Qed.

Lemma approximates_weaken K K' W f :
  0 <= K <= K' -> approximates K W f -> approximates K' W f.
Proof.
  intros HK [H|(Hp & HW & Hhi & Hlo)]; [left; exact H|right].
  pose proof (pfin_pos f Hp) as Hpos. pose proof (bpow_gt_0 (-23)) as Hu.
  assert (0 < IZR W)%R by (apply (IZR_lt 0); lia).
  assert (0 <= IZR K <= IZR K')%R by (split; apply IZR_le; lia).
  set (u := bpow (-23)) in *.
  assert (IZR K * u <= IZR K' * u)%R by (apply Rmult_le_compat_r; lra).
  repeat split; try assumption.
  - eapply Rle_trans; [exact Hhi|]. apply Rmult_le_compat_l; lra.
  - eapply Rle_trans; [exact Hlo|]. apply Rmult_le_compat_l; [nra|lra].
Qed.

Lemma approximates_add K W1 W2 f g :
  0 <= K <= 5 -> W1 + W2 <= 255000 ->
  approximates K W1 f -> approximates K W2 g ->
  approximates (K + 2) (W1 + W2) (f32_add f g).
Proof.
  intros HK HW Hf Hg.
  destruct Hf as [[-> ->]|(Hpf & HW1 & Hfhi & Hflo)].
  { destruct Hg as [[-> ->]|Hg]; [left; split; reflexivity|].
    apply (approximates_weaken K); [lia|].
    destruct Hg as (Hpg & Hg). destruct (Hpg) as (m & e & -> & _).
    right. split; [exact Hpg|exact Hg]. }
  destruct Hg as [[-> ->]|(Hpg & HW2 & Hghi & Hglo)].
  { rewrite Z.add_0_r. apply (approximates_weaken K); [lia|].
    destruct (Hpf) as (m & e & -> & _). right. repeat split; assumption. }
  right.
  pose proof (pfin_pos f Hpf) as Hfpos. pose proof (pfin_pos g Hpg) as Hgpos.
  pose proof ulp_value as Hu. set (u := bpow (-23)) in *.
  assert (HKr : (0 <= IZR K <= 5)%R) by (split; [apply (IZR_le 0)|apply (IZR_le K 5)]; lia).
  assert (HW1r : (0 < IZR W1 <= 255000)%R)
    by (split; [apply (IZR_lt 0)|apply (IZR_le W1 255000)]; lia).
  assert (HW2r : (0 < IZR W2 <= 255000)%R)
    by (split; [apply (IZR_lt 0)|apply (IZR_le W2 255000)]; lia).
  destruct (pfin_pow2 10 ltac:(lia)) as [Hphi HBhi].
  assert (H10 : bpow 10 = 1024%R) by (rewrite bpow_IZR by lia; reflexivity).
  destruct (f32_add_rounded f g _ Hpf Hpg Hphi) as (Hps & _ & _ & Hshi & Hslo).
  { rewrite HBhi, H10. nra. }
  fold u in Hshi, Hslo. set (s := f32_add f g) in *.
  pose proof (pfin_pos s Hps) as Hspos.
  split; [assumption|]. split; [lia|].
  rewrite !plus_IZR. change (IZR 2) with 2%R.
  set (k := IZR K) in *. set (w1 := IZR W1) in *. set (w2 := IZR W2) in *.
  assert (Hfac : ((1 + k * u) * (1 + u) <= 1 + (k + 2) * u)%R) by nra.
  split.
  - assert (1000 * B2R s <= (w1 + w2) * (1 + k * u) * (1 + u))%R.
    { eapply Rle_trans; [apply Rmult_le_compat_l; [lra|exact Hshi]|].
      rewrite <- Rmult_assoc. apply Rmult_le_compat_r; lra. }
    eapply Rle_trans; [eassumption|]. rewrite Rmult_assoc.
    apply Rmult_le_compat_l; lra.
  - assert (w1 + w2 <= 1000 * B2R s * (1 + u) * (1 + k * u))%R.
    { eapply Rle_trans; [|apply Rmult_le_compat_r; [nra|]].
      2:{ rewrite Rmult_assoc. apply Rmult_le_compat_l; [lra|exact Hslo]. }
      lra. }
    eapply Rle_trans; [eassumption|]. rewrite Rmult_assoc.
    apply Rmult_le_compat_l; [nra|]. lra.
Qed.

(** The gray value is the weighted sum [0.299 r + 0.587 g + 0.114 b]
    with its fraction dropped, or one less when the sum is a whole
    number. *)
Lemma rgb_to_gray_luma r g b :
  0 <= r <= 255 -> 0 <= g <= 255 -> 0 <= b <= 255 ->
  1000 * rgb_to_gray r g b <= 299 * r + 587 * g + 114 * b <= 1000 * (rgb_to_gray r g b + 1).
Proof.
  intros Hr Hg Hb. unfold rgb_to_gray, f32_to_uint8.
  pose proof (luma_term 299 r ltac:(lia) Hr) as H1.
  pose proof (luma_term 587 g ltac:(lia) Hg) as H2.
  pose proof (luma_term 114 b ltac:(lia) Hb) as H3.
  pose proof (approximates_add 3 (299 * r) (587 * g) _ _ ltac:(lia) ltac:(lia) H1 H2) as H12.
  apply (approximates_weaken 3 5) in H3; [|lia].
  pose proof (approximates_add 5 (299 * r + 587 * g) (114 * b) _ _
                ltac:(lia) ltac:(lia) H12 H3) as Hs.
  change (3 + 2) with 5 in *. change (5 + 2) with 7 in Hs.
  match type of Hs with approximates _ _ ?t => set (s := t) in * end. clearbody s.
  set (W := 299 * r + 587 * g + 114 * b) in *.
  assert (HWmax : W <= 255000) by (subst W; lia). clearbody W.
  destruct Hs as [[-> HW]|(Hp & HW & Hhi & Hlo)]; [subst W; change (to_uint8 (f32_to_int (S754_zero false))) with 0; lia|].
  pose proof ulp_value as Hu. set (u := bpow (-23)) in *.
  assert (HWr : (0 < IZR W <= 255000)%R).
  { split; [apply (IZR_lt 0); lia|apply (IZR_le W 255000); lia]. }
  pose proof (pfin_pos s Hp) as Hspos.
  assert (Hs31 : (B2R s < IZR (2 ^ 31))%R).
  { change (IZR (2 ^ 31)) with 2147483648%R. nra. }
  destruct (f32_to_int_floor s Hp Hs31) as (Hf0 & Hfl & Hfu).
  set (fl := f32_to_int s) in *.
  assert (Hle : 1000 * fl <= W).
  { apply Z.lt_succ_r, lt_IZR. rewrite mult_IZR, succ_IZR. change (IZR 1000) with 1000%R. nra. }
  assert (Hfl255 : fl <= 255) by lia.
  assert (Hflr : (0 <= IZR fl <= 255)%R)
    by (split; [apply (IZR_le 0)|apply (IZR_le fl 255)]; lia).
  assert (Hge : W <= 1000 * (fl + 1)).
  { apply Z.lt_succ_r, lt_IZR. rewrite succ_IZR, mult_IZR, plus_IZR.
    change (IZR 1000) with 1000%R. nra. }
  unfold to_uint8. rewrite Z.mod_small by lia. lia.
Qed.

(** *** The rendered lines *)

(** C7, as amended. For a buffer of [width * height] pixels with both
    dimensions between 1 and 1000, whose rows fit the 1600-byte line
    buffer, and with the line buffer allocated, [render_ascii_art]
    returns 0 and prints, between its header and its footer, exactly
    [height] lines; stripped of its escape sequences, the line of row [y]
    is the characters of the pixels of that row, each twice, [2 * width]
    characters in all.  The character of a pixel is the ramp
    [" .:-=+*#%@"] at [gray * 9 / 255], where [gray], computed in
    single precision, is [0.299 r + 0.587 g + 0.114 b] with its fraction
    dropped, or one less when that sum is a whole number; a pixel of
    luma 0 gives two spaces. *)
Theorem render_ascii_art_lines e rgb_buffer width height config w :
  1 <= width <= 1000 -> 1 <= height <= 1000 ->
  Z.of_nat (length rgb_buffer) = width * height ->
  line_bytes (use_color config) width <= LINE_ALLOC ->
  fst (memory_alloc e site_line LINE_ALLOC true) = true ->
  (exists lines w',
     render_ascii_art e (Some rgb_buffer) width height config w = Some (0, w') /\
     emitted w w' (render_preamble e rgb_buffer width height
                   ++ map art_line lines ++ render_footer) /\
     Z.of_nat (length lines) = height /\
     forall y, 0 <= y < height ->
       exists line, lines !! Z.to_nat y = Some line /\
                    strip_escapes line = row_text rgb_buffer width y width /\
                    strlen (strip_escapes line) = 2 * width) /\
  (forall p,
     let gray := rgb_to_gray (px_r p) (px_g p) (px_b p) in
     exists ch, String.get (Z.to_nat (gray * 9 / 255)) " .:-=+*#%@" = Some ch /\
                pixel_text (Some p) = String ch (String ch EmptyString)) /\
  (forall r g b, 0 <= r <= 255 -> 0 <= g <= 255 -> 0 <= b <= 255 ->
     1000 * rgb_to_gray r g b <= 299 * r + 587 * g + 114 * b
       <= 1000 * (rgb_to_gray r g b + 1)) /\
  pixel_text (Some {| px_r := 0; px_g := 0; px_b := 0 |}) = "  "%string.
Proof.
  intros Hw Hh Hlen Hfit Halloc.
  split; [now apply render_ascii_art_defined|].
  split; [|split; [apply rgb_to_gray_luma|reflexivity]].
  intros p gray. destruct (ramp_char_defined p) as (ch & Hch & _).
  exists ch. unfold pixel_text. rewrite Hch. split; [|reflexivity].
  rewrite <- Hch. unfold ramp_char, ASCII_RAMP_LEN, ASCII_RAMP. fold gray.
  change (10 - 1) with 9. rewrite Z.quot_div_nonneg; [reflexivity| |lia].
  pose proof (rgb_to_gray_range (px_r p) (px_g p) (px_b p)). fold gray in H. lia.
Qed.

Lemma render_ascii_art_lines_witness :
  let buf := [black_pixel; {| px_r := 255; px_g := 255; px_b := 255 |}] in
  (1 <= 2 <= 1000 /\ 1 <= 1 <= 1000) /\
  (exists lines w',
     render_ascii_art test_env (Some buf) 2 1 default_config initial_world = Some (0, w') /\
     emitted initial_world w' (render_preamble test_env buf 2 1
                               ++ map art_line lines ++ render_footer) /\
     Z.of_nat (length lines) = 1 /\
     forall y, 0 <= y < 1 ->
       exists line, lines !! Z.to_nat y = Some line /\
                    strip_escapes line = row_text buf 2 y 2 /\
                    strlen (strip_escapes line) = 2 * 2) /\
  (forall p,
     let gray := rgb_to_gray (px_r p) (px_g p) (px_b p) in
     exists ch, String.get (Z.to_nat (gray * 9 / 255)) " .:-=+*#%@" = Some ch /\
                pixel_text (Some p) = String ch (String ch EmptyString)) /\
  (forall r g b, 0 <= r <= 255 -> 0 <= g <= 255 -> 0 <= b <= 255 ->
     1000 * rgb_to_gray r g b <= 299 * r + 587 * g + 114 * b
       <= 1000 * (rgb_to_gray r g b + 1)) /\
  pixel_text (Some {| px_r := 0; px_g := 0; px_b := 0 |}) = "  "%string.
Proof.
  split; [lia|].
  apply (render_ascii_art_lines test_env
           [black_pixel; {| px_r := 255; px_g := 255; px_b := 255 |}] 2 1
           default_config initial_world); [lia|lia|reflexivity|vm_compute; discriminate|reflexivity].
Defined.

(** C7 as stated fails: a buffer 1001 pixels wide and one pixel high is
    turned down with [-EINVAL] and no line of the image is printed. *)
Lemma render_ascii_art_rejects_wide_buffer :
  render_ascii_art test_env (Some (repeat black_pixel 1001)) 1001 1
                   default_config initial_world =
  Some (- EINVAL,
        {| shell_out :=
             [shell_print "DEBUG: render_ascii_art called with %dx%d image at %p"
                          [arg_int 1001; arg_int 1; arg_ptr];
              shell_error "ERROR: Invalid image dimensions: %dx%d"
                          [arg_int 1001; arg_int 1]];
           stbi_failure_reason := "";
           stbi__jpeg_decode_reduced := 1 |}).
Proof. reflexivity. Qed.

(** ** The content classifier, both ways *)

Lemma is_prefix_inv needle hay :
  is_prefix needle hay = true -> exists post, hay = needle ++ post.
Proof.
  revert hay. induction needle as [|c needle IH]; intros hay H.
  - now exists hay.
  - destruct hay as [|d hay]; [discriminate|]. cbn [is_prefix] in H.
    apply andb_true_iff in H as [Hc H]. apply Ascii.eqb_eq in Hc as ->.
    destruct (IH hay H) as [post ->]. now exists post.
Qed.

Lemma memmem_inv hay needle :
  memmem hay needle = true -> exists pre post, hay = pre ++ needle ++ post.
Proof.
  induction hay as [|c hay IH]; cbn [memmem]; intros H.
  - rewrite orb_false_r in H. apply is_prefix_inv in H as [post H]. now exists [], post.
  - apply orb_true_iff in H as [H|H].
    + apply is_prefix_inv in H as [post H]. now exists [], post.
    + destruct (IH H) as (pre & post & ->). now exists (c :: pre), post.
Qed.

(** X1. [looks_like_text_content] holds exactly when one of the markers lies
    within the first 200 bytes or more than nine tenths of those bytes
    are printable or white space; the empty buffer is not text. *)
Theorem looks_like_text_content_iff data :
  (looks_like_text_content data = true <->
   (exists marker, In marker html_markers /\ occurs_in marker (sampled data)) \/
   9 * Z.of_nat (length (sampled data)) < 10 * printable_in (sampled data)) /\
  looks_like_text_content [] = false.
Proof.
  split; [|vm_compute; reflexivity]. split.
  - unfold looks_like_text_content.
    destruct (existsb _ html_markers) eqn:Hex.
    + intros _. left. apply existsb_exists in Hex as (marker & Hin & H).
      apply andb_true_iff in H as [_ H]. rewrite sample_prefix in H.
      apply memmem_inv in H. exists marker. split; [assumption|exact H].
    + rewrite sample_prefix', count_loop_filter, Z.add_0_l. fold (sampled data).
      assert (Htot : MIN 200 (Z.of_nat (length data)) = Z.of_nat (length (sampled data))).
      { unfold sampled, MIN. rewrite length_take.
        destruct (Z.ltb_spec 200 (Z.of_nat (length data))); lia. }
      rewrite Htot. pose proof (printable_in_le (sampled data)).
      rewrite ninety_percent_threshold; [|lia|unfold sampled; rewrite length_take; lia].
      intros Hlt. right. apply Z.ltb_lt in Hlt. lia.
  - intros [(marker & Hin & Hocc)|H];
      eauto using marker_found_is_text, mostly_printable_is_text.
Qed.

(** ** gopher_is_image *)

Lemma strncasecmp_eq_fits s1 s2 :
  (length s2 <= length s1)%nat ->
  exists b, strncasecmp_eq s1 s2 = Some b /\
            (b = true <-> same_ignoring_case (take (length s2) s1) s2).
Proof.
  unfold same_ignoring_case. revert s1. induction s2 as [|c2 s2 IH]; intros s1 Hlen.
  - exists true. cbn [length]. rewrite take_0. split; [now destruct s1|tauto].
  - destruct s1 as [|c1 s1]; [cbn in Hlen; lia|]. cbn [strncasecmp_eq length take map].
    destruct (Ascii.eqb_spec (tolower c1) (tolower c2)) as [Hc|Hc].
    + destruct (IH s1 ltac:(cbn in Hlen; lia)) as (b & Hb & Hiff). exists b.
      split; [assumption|]. rewrite Hiff, Hc. split; [now intros ->|now intros [=]].
    + exists false. split; [reflexivity|]. split; [discriminate|intros [=]; contradiction].
Qed.

Lemma strncasecmp_eq_short s1 s2 :
  (length s1 < length s2)%nat ->
  strncasecmp_eq s1 s2 = None \/ strncasecmp_eq s1 s2 = Some false.
Proof.
  revert s1. induction s2 as [|c2 s2 IH]; intros s1 Hlen; [cbn in Hlen; lia|].
  destruct s1 as [|c1 s1]; [now left|]. cbn [strncasecmp_eq].
  destruct (Ascii.eqb (tolower c1) (tolower c2)); [|now right].
  apply IH. cbn in Hlen. lia.
Qed.

Lemma scan_extension_fits data ext n j :
  0 <= j -> j + Z.of_nat n + Z.of_nat (length ext) <= Z.of_nat (length data) ->
  exists b, scan_extension data ext n j = Some b /\
            (b = true <-> exists k, j <= k < j + Z.of_nat n /\
                            same_ignoring_case (take (length ext) (drop (Z.to_nat k) data)) ext).
Proof.
  revert j. induction n as [|n IH]; intros j Hj Hfit.
  - exists false. split; [reflexivity|]. split; [discriminate|]. intros (k & Hk & _). lia.
  - cbn [scan_extension].
    destruct (strncasecmp_eq_fits (drop (Z.to_nat j) data) ext) as (b & Hb & Hiff).
    { rewrite length_drop. lia. }
    rewrite Hb. destruct b.
    + exists true. split; [reflexivity|]. split; [|reflexivity]. intros _.
      exists j. split; [lia|]. now apply Hiff.
    + destruct (IH (j + 1) ltac:(lia) ltac:(lia)) as (b & Hscan & Hiff').
      exists b. split; [assumption|]. rewrite Hiff'. split.
      * intros (k & Hk & Hm). exists k. split; [lia|assumption].
      * intros (k & Hk & Hm). destruct (Z.eq_dec k j) as [->|Hne].
        -- apply Hiff in Hm. discriminate.
        -- exists k. split; [lia|assumption].
Qed.

(** Past the end of the buffer the scan reads outside it. *)
Lemma scan_extension_past_end data ext n j :
  0 <= j <= Z.of_nat (length data) ->
  Z.of_nat (length data) < j + Z.of_nat (length ext) ->
  Z.of_nat (length data) < j + Z.of_nat n ->
  scan_extension data ext n j = None.
Proof.
  revert j. induction n as [|n IH]; intros j Hj Hext Hn; [lia|].
  cbn [scan_extension].
  destruct (Z.eq_dec j (Z.of_nat (length data))) as [->|Hne].
  - rewrite Nat2Z.id, drop_all. destruct ext; [cbn in Hext; lia|reflexivity].
  - destruct (strncasecmp_eq_short (drop (Z.to_nat j) data) ext) as [->| ->];
      [rewrite length_drop; lia|reflexivity|].
    apply IH; lia.
Qed.

Lemma scan_extensions_fits data exts :
  let size := Z.of_nat (length data) in
  size < 2 ^ 32 -> Forall (fun ext => strlen ext <= size) exts ->
  exists b, scan_extensions data exts = Some b /\
            (b = true <-> exists ext j, In ext exts /\
                            0 <= j < MIN 100 (size - strlen ext) /\
                            extension_at data ext j).
Proof.
  intros size Hsize Hall. induction Hall as [|ext exts Hext Hall IH].
  - exists false. split; [reflexivity|]. split; [discriminate|]. intros (ext & j & [] & _).
  - cbn [scan_extensions]. fold size.
    assert (Hn : to_size_t (size - strlen ext) = size - strlen ext).
    { unfold to_size_t. apply Z.mod_small. unfold strlen in *. lia. }
    rewrite Hn.
    assert (Hmin : 0 <= MIN 100 (size - strlen ext) <= size - strlen ext).
    { unfold MIN. destruct (Z.ltb_spec 100 (size - strlen ext)); lia. }
    destruct (scan_extension_fits data (list_ascii_of_string ext)
                (Z.to_nat (MIN 100 (size - strlen ext))) 0 ltac:(lia)) as (b & Hb & Hiff).
    { rewrite length_list_ascii_of_string. unfold strlen in *. fold size. lia. }
    rewrite Hb. rewrite length_list_ascii_of_string in Hiff. destruct b.
    + exists true. split; [reflexivity|]. split; [|reflexivity]. intros _.
      destruct (proj1 Hiff eq_refl) as (k & Hk & Hm).
      exists ext, k. split; [now left|]. split; [lia|exact Hm].
    + destruct IH as (b & Hscan & Hiff'). exists b. split; [assumption|].
      rewrite Hiff'. split.
      * intros (ext' & j & Hin & Hj & Hm). exists ext', j. split; [now right|]. now split.
      * intros (ext' & j & [<-|Hin] & Hj & Hm).
        -- assert (false = true); [|discriminate]. apply Hiff. exists j. split; [lia|exact Hm].
        -- exists ext', j. now repeat split.
Qed.

(** X2. [gopher_is_image] on a buffer of at least five bytes reads inside
    the buffer only, and answers [true] exactly when the buffer starts
    with the JPEG, PNG or GIF magic, or one of the extensions [.jpg],
    [.jpeg], [.gif], [.png], [.bmp] stands, in any case, at one of the
    first 100 offsets and ends before the last byte of the buffer. *)
Theorem gopher_is_image_spec data :
  5 <= Z.of_nat (length data) < 2 ^ 32 ->
  exists b, gopher_is_image data = Some b /\
    (b = true <->
     (exists rest, data = jpeg_magic ++ rest) \/
     (exists rest, data = png_magic ++ rest) \/
     (exists rest, data = list_ascii_of_string "GIF8" ++ rest) \/
     exists ext j, In ext extensions /\
                   0 <= j < MIN 100 (Z.of_nat (length data) - strlen ext) /\
                   extension_at data ext j).
Proof.
  intros Hsize. unfold gopher_is_image.
  destruct (Z.ltb_spec (Z.of_nat (length data)) 4); [lia|].
  destruct (is_prefix jpeg_magic data) eqn:Hjpeg.
  { exists true. split; [reflexivity|]. split; [|reflexivity]. intros _. left.
    now apply is_prefix_inv. }
  destruct (is_prefix png_magic data) eqn:Hpng.
  { destruct (Z.leb_spec 8 (Z.of_nat (length data))) as [H8|H8].
    - exists true. split; [reflexivity|]. split; [|reflexivity]. intros _. right. left.
      now apply is_prefix_inv.
    - apply is_prefix_inv in Hpng as [rest ->]. rewrite length_app in H8. cbn in H8. lia. }
  rewrite andb_false_r.
  destruct (Z.leb_spec 5 (Z.of_nat (length data))); [|lia]. cbn [andb].
  destruct (is_prefix (list_ascii_of_string "GIF8") data) eqn:Hgif.
  { exists true. split; [reflexivity|]. split; [|reflexivity]. intros _. right. right. left.
    now apply is_prefix_inv. }
  destruct (scan_extensions_fits data extensions ltac:(lia)) as (b & Hb & Hiff).
  { unfold extensions, strlen. repeat constructor; cbn; lia. }
  exists b. split; [assumption|]. rewrite Hiff. split; [auto|].
  intros [[rest ->]|[[rest ->]|[[rest ->]|Hext]]]; [| | |exact Hext].
  - rewrite is_prefix_app in Hjpeg. discriminate.
  - rewrite is_prefix_app in Hpng. discriminate.
  - rewrite is_prefix_app in Hgif. discriminate.
Qed.

Lemma gopher_is_image_spec_witness :
  let data := list_ascii_of_string "see photo.PNG here" in
  (5 <= Z.of_nat (length data) < 2 ^ 32 /\ extension_at data ".png" 9) /\
  exists b, gopher_is_image data = Some b /\
    (b = true <->
     (exists rest, data = jpeg_magic ++ rest) \/
     (exists rest, data = png_magic ++ rest) \/
     (exists rest, data = list_ascii_of_string "GIF8" ++ rest) \/
     exists ext j, In ext extensions /\
                   0 <= j < MIN 100 (Z.of_nat (length data) - strlen ext) /\
                   extension_at data ext j).
Proof.
  split; [split; [vm_compute; split; [discriminate|reflexivity]|reflexivity]|].
  apply (gopher_is_image_spec (list_ascii_of_string "see photo.PNG here")).
  vm_compute. split; [discriminate|reflexivity].
Defined.

(** X3. On a buffer of fewer than four bytes [gopher_is_image] answers
    [false], whatever the bytes.  On a buffer of four bytes that is not
    a JPEG the scan for [.jpeg] runs with the bound
    [(size_t)(4 - 5)] and reads past the end of the buffer. *)
Theorem gopher_is_image_short data :
  Z.of_nat (length data) <= 4 ->
  gopher_is_image data =
  if Z.of_nat (length data) <? 4 then Some false
  else if is_prefix jpeg_magic data then Some true
  else None.
Proof.
  intros Hlen. unfold gopher_is_image.
  destruct (Z.ltb_spec (Z.of_nat (length data)) 4) as [|H4]; [reflexivity|].
  assert (Hlen4 : Z.of_nat (length data) = 4) by lia.
  rewrite Hlen4. change (8 <=? 4) with false. change (5 <=? 4) with false. cbn [andb].
  destruct (is_prefix jpeg_magic data); [reflexivity|].
  unfold extensions. cbn [scan_extensions]. rewrite Hlen4.
  change (Z.to_nat (MIN 100 (to_size_t (4 - strlen ".jpg")))) with 0%nat.
  cbn [scan_extension].
  change (Z.to_nat (MIN 100 (to_size_t (4 - strlen ".jpeg")))) with 100%nat.
  rewrite scan_extension_past_end; [reflexivity|lia|cbn; lia|lia].
Qed.

Lemma gopher_is_image_short_witness :
  gopher_is_image (list_ascii_of_string "abcd") = None /\
  gopher_is_image (list_ascii_of_string "abc") = Some false.
Proof.
  split.
  - apply (gopher_is_image_short (list_ascii_of_string "abcd")). vm_compute. discriminate.
  - apply (gopher_is_image_short (list_ascii_of_string "abc")). vm_compute. discriminate.
Defined.

(** ** The text display *)

Lemma drop_leading_crlf_spec l :
  exists t, l = t ++ drop_leading_crlf l /\ Forall (fun c => is_cr_or_lf c = true) t /\
            forall c, head (drop_leading_crlf l) = Some c -> is_cr_or_lf c = false.
Proof.
  induction l as [|c l (t & Hl & Ht & Hh)]; cbn [drop_leading_crlf].
  - exists []. repeat split; [constructor|discriminate].
  - destruct (is_cr_or_lf c) eqn:Hc.
    + exists (c :: t). cbn [app]. split; [now f_equal|]. split; [now constructor|assumption].
    + exists []. split; [reflexivity|]. split; [constructor|]. now intros c' [= <-].
Qed.

Lemma last_rev {A : Type} (l : list A) : last (rev l) = head l.
Proof. destruct l as [|a l]; [reflexivity|]. cbn [rev head]. apply last_snoc. Qed.

(** Stripping removes a tail of CRs and LFs and leaves none at the end. *)
Lemma strip_trailing_crlf_spec chunk :
  exists t, chunk = strip_trailing_crlf chunk ++ t /\
            Forall (fun c => is_cr_or_lf c = true) t /\
            forall c, last (strip_trailing_crlf chunk) = Some c -> is_cr_or_lf c = false.
Proof.
  unfold strip_trailing_crlf.
  destruct (drop_leading_crlf_spec (rev chunk)) as (t & Hl & Ht & Hh).
  exists (rev t). split; [|split].
  - rewrite <- rev_app_distr, <- Hl. now rewrite rev_involutive.
  - now apply Forall_rev.
  - intros c Hc. apply Hh. rewrite <- Hc. symmetry. apply last_rev.
Qed.

Lemma strip_trailing_crlf_app chunk t :
  Forall (fun c => is_cr_or_lf c = true) t ->
  (forall c, last chunk = Some c -> is_cr_or_lf c = false) ->
  strip_trailing_crlf (chunk ++ t) = chunk.
Proof.
  intros Ht Hlast. unfold strip_trailing_crlf. rewrite rev_app_distr.
  assert (Hdrop : forall l, drop_leading_crlf (rev t ++ l) = drop_leading_crlf l).
  { intros l. apply Forall_rev in Ht. induction Ht as [|c t' Hc _ IH]; [reflexivity|].
    cbn [app drop_leading_crlf]. now rewrite Hc. }
  rewrite Hdrop. destruct (rev chunk) as [|c r] eqn:Hr.
  - apply (f_equal (@rev _)) in Hr. rewrite rev_involutive in Hr. now subst.
  - cbn [drop_leading_crlf]. rewrite (Hlast c).
    + rewrite <- Hr. apply rev_involutive.
    + rewrite <- (rev_involutive chunk), Hr. cbn [rev]. rewrite last_snoc. reflexivity.
Qed.

Lemma sanitised_byte d :
  let c := if iscntrl d && negb (byte_val d =? 13) && negb (byte_val d =? 10)
              && negb (byte_val d =? 9)
           then " "%char else d in
  byte_val c = 10 \/ shown_byte c.
Proof.
  cbv zeta. unfold shown_byte.
  destruct (iscntrl d) eqn:Hcntrl; cbn [andb].
  - destruct (Z.eqb_spec (byte_val d) 13); cbn [negb andb]; [right; split; [lia|auto]|].
    destruct (Z.eqb_spec (byte_val d) 10); cbn [negb andb]; [now left|].
    destruct (Z.eqb_spec (byte_val d) 9); cbn [negb andb]; [right; split; [lia|auto]|].
    right. split; [vm_compute; discriminate|]. vm_compute. discriminate.
  - destruct (Z.eq_dec (byte_val d) 10); [now left|]. right. split; [assumption|].
    rewrite Hcntrl. discriminate.
Qed.

Lemma display_chunks_clean rest chunk :
  (length chunk < 127)%nat -> Forall shown_byte chunk ->
  exists chunks, display_chunks rest chunk = map text_line chunks /\
                 Forall clean_chunk chunks.
Proof.
  revert chunk. induction rest as [|d rest IH]; intros chunk Hlen Hshown.
  - exists []. split; [reflexivity|constructor].
  - cbn [display_chunks].
    pose proof (sanitised_byte d) as Hc. cbv zeta in Hc.
    set (c := if iscntrl d && negb (byte_val d =? 13) && negb (byte_val d =? 10)
                 && negb (byte_val d =? 9) then " "%char else d) in *.
    unfold TEXT_BUFFER_SIZE. change (128 - 1) with 127.
    destruct (Z.ltb_spec (Z.of_nat (length chunk)) 127) as [_|]; [|lia].
    assert (Hlen' : length (chunk ++ [c]) = S (length chunk))
      by (rewrite length_app; cbn; lia).
    destruct ((127 <=? Z.of_nat (length (chunk ++ [c])))
              || match rest with [] => true | _ => false end
              || (byte_val c =? 10)) eqn:Hflush.
    + destruct (strip_trailing_crlf_spec (chunk ++ [c])) as (t & Hsplit & Ht & Hlast).
      set (stripped := strip_trailing_crlf (chunk ++ [c])) in *.
      destruct (IH [] ltac:(cbn; lia) ltac:(constructor)) as (chunks & Hrest & Hclean).
      assert (Hstripped : Forall shown_byte stripped).
      { destruct Hc as [Hlf|Hc].
        - destruct t as [|a t' _] using rev_ind.
          + rewrite app_nil_r in Hsplit. exfalso.
            assert (Hl : last stripped = Some c) by (rewrite <- Hsplit; apply last_snoc).
            apply Hlast in Hl. unfold is_cr_or_lf in Hl. rewrite Hlf in Hl. discriminate.
          + rewrite app_assoc in Hsplit. apply app_inj_tail in Hsplit as [Heq _].
            rewrite Heq in Hshown. now apply Forall_app in Hshown as [? _].
        - assert (Hall : Forall shown_byte (chunk ++ [c]))
            by (apply Forall_app; split; [assumption|now constructor]).
          rewrite Hsplit in Hall. now apply Forall_app in Hall as [? _]. }
      assert (Hslen : (length stripped <= 127)%nat).
      { apply (f_equal (@length _)) in Hsplit. rewrite !length_app in Hsplit.
        cbn [length] in Hsplit. lia. }
      destruct (Z.ltb_spec 0 (Z.of_nat (length stripped))).
      * exists (stripped :: chunks). cbn [map app]. rewrite Hrest. split; [reflexivity|].
        constructor; [|assumption]. repeat split; [lia|assumption|assumption|assumption].
      * exists chunks. split; [exact Hrest|assumption].
    + apply orb_false_iff in Hflush as [Hflush Hlf]. apply orb_false_iff in Hflush as [Hfull _].
      apply Z.leb_gt in Hfull. apply Z.eqb_neq in Hlf.
      destruct Hc as [Hc|Hc]; [contradiction|].
      apply IH; [lia|]. apply Forall_app. split; [assumption|now constructor].
Qed.

(** X4. [display_text_content] prints its header, then chunks, then its
    footer; every chunk has between 1 and 127 bytes, holds no LF and no
    control character other than CR and TAB, and does not end in CR. *)
Theorem display_text_content_chunks data :
  exists chunks,
    display_text_content data =
      [shell_print "Server response appears to be text. Content:" [];
       shell_print "-------------------------------------------" []]
      ++ map text_line chunks
      ++ [shell_print "-------------------------------------------" []] /\
    Forall clean_chunk chunks.
Proof.
  destruct (display_chunks_clean (skip_binary_prefix data) [] ltac:(cbn; lia)
              ltac:(constructor)) as (chunks & Hrun & Hclean).
  exists chunks. split; [|assumption]. unfold display_text_content. now rewrite Hrun.
Qed.

(** One round of the loop of [display_text_content]. *)
Lemma display_chunks_step d rest chunk :
  (length chunk < 127)%nat ->
  let c := if iscntrl d && negb (byte_val d =? 13) && negb (byte_val d =? 10)
              && negb (byte_val d =? 9)
           then " "%char else d in
  display_chunks (d :: rest) chunk =
  if (126 <=? Z.of_nat (length chunk))
     || match rest with [] => true | _ => false end
     || (byte_val c =? 10)
  then (if nonempty (strip_trailing_crlf (chunk ++ [c]))
        then [text_line (strip_trailing_crlf (chunk ++ [c]))] else [])
       ++ display_chunks rest []
  else display_chunks rest (chunk ++ [c]).
Proof.
  intros Hlen c. cbn [display_chunks]. fold c.
  unfold TEXT_BUFFER_SIZE. change (128 - 1) with 127.
  destruct (Z.ltb_spec (Z.of_nat (length chunk)) 127) as [_|]; [|lia].
  assert (Hfull : (127 <=? Z.of_nat (length (chunk ++ [c]))) = (126 <=? Z.of_nat (length chunk))).
  { rewrite length_app. cbn [length].
    destruct (Z.leb_spec 127 (Z.of_nat (length chunk + 1))),
             (Z.leb_spec 126 (Z.of_nat (length chunk))); lia || reflexivity. }
  rewrite Hfull.
  destruct ((126 <=? Z.of_nat (length chunk)) || _ || _); [|reflexivity].
  destruct (strip_trailing_crlf (chunk ++ [c])); reflexivity.
Qed.

Lemma plain_byte c :
  isprint c = true ->
  (if iscntrl c && negb (byte_val c =? 13) && negb (byte_val c =? 10)
      && negb (byte_val c =? 9) then " "%char else c) = c /\
  (byte_val c =? 10) = false /\ is_cr_or_lf c = false.
Proof.
  unfold isprint, iscntrl, is_cr_or_lf. intros H. apply andb_true_iff in H as [Hlo Hhi].
  apply Z.leb_le in Hlo, Hhi.
  destruct (Z.ltb_spec (byte_val c) 32); [lia|].
  destruct (Z.eqb_spec (byte_val c) 127); [lia|].
  destruct (Z.eqb_spec (byte_val c) 10); [lia|].
  destruct (Z.eqb_spec (byte_val c) 13); [lia|]. auto.
Qed.

Lemma last_plain chunk :
  Forall (fun c => isprint c = true) chunk ->
  forall c, last chunk = Some c -> is_cr_or_lf c = false.
Proof.
  intros Hall c Hc. apply last_Some in Hc as [l' ->].
  apply Forall_app in Hall as [_ Hall]. apply Forall_cons in Hall as [Hc _].
  now apply plain_byte.
Qed.

(** A line of printable bytes and its CR LF, after [chunk]. *)
Lemma display_chunks_line l chunk rest :
  Forall (fun c => isprint c = true) chunk -> Forall (fun c => isprint c = true) l ->
  (length chunk < 127)%nat -> (length chunk + length l <= 127)%nat ->
  display_chunks (l ++ CRLF ++ rest) chunk =
  (if nonempty (chunk ++ l) then [text_line (chunk ++ l)] else [])
  ++ display_chunks rest [].
Proof.
  revert chunk. induction l as [|c l IH]; intros chunk Hchunk Hl Hlen Htotal.
  - rewrite app_nil_r. cbn [app CRLF].
    pose proof (last_plain chunk Hchunk) as Hlast.
    rewrite display_chunks_step by assumption.
    change (if iscntrl "013" && _ && _ && _ then " "%char else "013"%char) with "013"%char.
    change (byte_val "013" =? 10) with false. rewrite !orb_false_r.
    destruct (Z.leb_spec 126 (Z.of_nat (length chunk))) as [Hfull|Hroom].
    + rewrite (strip_trailing_crlf_app chunk ["013"%char]) by (auto; repeat constructor).
      rewrite (display_chunks_step "010"%char rest []) by (cbn; lia).
      change (if iscntrl "010" && _ && _ && _ then " "%char else "010"%char) with "010"%char.
      change (byte_val "010" =? 10) with true. rewrite !orb_true_r.
      change (strip_trailing_crlf ([] ++ ["010"%char])) with (@nil ascii).
      cbn [nonempty app]. reflexivity.
    + rewrite display_chunks_step by (rewrite length_app; cbn; lia).
      change (if iscntrl "010" && _ && _ && _ then " "%char else "010"%char) with "010"%char.
      change (byte_val "010" =? 10) with true. rewrite !orb_true_r.
      rewrite <- app_assoc. cbn [app].
      rewrite (strip_trailing_crlf_app chunk ["013"; "010"]%char) by (auto; repeat constructor).
      reflexivity.
  - apply Forall_cons in Hl as [Hc Hl]. destruct (plain_byte c Hc) as (Hsan & Hlf & Hcrlf).
    cbn [app length] in *. rewrite display_chunks_step by assumption.
    rewrite Hsan, Hlf, orb_false_r.
    assert (Hchunk' : Forall (fun c => isprint c = true) (chunk ++ [c]))
      by (apply Forall_app; split; [assumption|now constructor]).
    replace (match l ++ CRLF ++ rest with [] => true | _ => false end) with false
      by (destruct l; reflexivity).
    rewrite orb_false_r.
    replace (chunk ++ c :: l) with ((chunk ++ [c]) ++ l) by (now rewrite <- app_assoc).
    destruct (Z.leb_spec 126 (Z.of_nat (length chunk))) as [Hfull|Hroom].
    + destruct l as [|? ?]; [|cbn [length] in Htotal; lia].
      rewrite app_nil_r.
      pose proof (strip_trailing_crlf_app (chunk ++ [c]) [] ltac:(constructor)
                    (last_plain _ Hchunk')) as Hstrip.
      rewrite app_nil_r in Hstrip. rewrite Hstrip.
      pose proof (IH [] ltac:(constructor) ltac:(constructor) ltac:(cbn; lia)
                    ltac:(cbn; lia)) as IH0.
      cbn [app nonempty] in IH0. cbn [app]. rewrite IH0.
      cbn [nonempty app]. destruct (chunk ++ [c]) eqn:E; [now destruct chunk|reflexivity].
    + apply IH; auto; rewrite length_app; cbn [length]; lia.
Qed.

Lemma skip_binary_prefix_text lines :
  Forall (fun line => Forall (fun c => isprint c = true) line) lines ->
  skip_binary_prefix (text_of_lines lines) = text_of_lines lines.
Proof.
  intros Hall. destruct Hall as [|line lines Hline _]; [reflexivity|].
  unfold text_of_lines. cbn [map concat]. destruct Hline as [|c line Hc _].
  - reflexivity.
  - cbn [app skip_binary_prefix]. now rewrite Hc.
Qed.

(** X5. A text of lines of at most 127 printable bytes, each followed by
    CR LF, is printed line by line, in order, without the empty lines. *)
Theorem display_text_content_lines lines :
  Forall (fun line => Forall (fun c => isprint c = true) line /\
                      (length line <= 127)%nat) lines ->
  display_text_content (text_of_lines lines) =
    [shell_print "Server response appears to be text. Content:" [];
     shell_print "-------------------------------------------" []]
    ++ map text_line (List.filter nonempty lines)
    ++ [shell_print "-------------------------------------------" []].
Proof.
  intros Hall. unfold display_text_content.
  rewrite skip_binary_prefix_text by (eapply Forall_impl; [exact Hall|]; now intros ? []).
  do 2 f_equal.
  induction Hall as [|line lines [Hplain Hlen] _ IH]; [reflexivity|].
  unfold text_of_lines. cbn [map concat]. fold (text_of_lines lines).
  rewrite <- app_assoc, (display_chunks_line line [] (text_of_lines lines))
    by (auto; cbn; lia).
  cbn [app List.filter]. rewrite IH. now destruct (nonempty line).
Qed.

Lemma display_text_content_lines_witness :
  display_text_content
    (text_of_lines [list_ascii_of_string "3 '/missing' doesn't exist!"; [];
                    list_ascii_of_string "Error"]) =
    [shell_print "Server response appears to be text. Content:" [];
     shell_print "-------------------------------------------" []]
    ++ map text_line [list_ascii_of_string "3 '/missing' doesn't exist!";
                      list_ascii_of_string "Error"]
    ++ [shell_print "-------------------------------------------" []].
Proof.
  apply (display_text_content_lines
           [list_ascii_of_string "3 '/missing' doesn't exist!"; [];
            list_ascii_of_string "Error"]).
  repeat constructor; cbn; lia.
Defined.

(** ** The rendered lines, exactly *)

Lemma colored_text_snoc prev pixels p :
  colored_text prev (pixels ++ [p]) =
  (colored_text prev pixels ++ color_change (last_color prev pixels) p
   ++ pixel_text (Some p))%string.
Proof.
  revert prev. induction pixels as [|q pixels IH]; intros prev.
  - cbn [app colored_text]. unfold last_color. cbn [last].
    now rewrite string_app_empty_r.
  - cbn [app colored_text]. rewrite IH, !string_app_assoc. do 3 f_equal.
    unfold last_color. destruct pixels as [|q' pixels]; [reflexivity|].
    change (last (q :: q' :: pixels)) with (last (q' :: pixels)).
    destruct (last (q' :: pixels)) eqn:E; [reflexivity|].
    apply last_None in E. discriminate.
Qed.

Lemma plain_text_snoc pixels p :
  plain_text (pixels ++ [p]) = (plain_text pixels ++ pixel_text (Some p))%string.
Proof.
  induction pixels as [|q pixels IH]; cbn [app plain_text].
  - now rewrite string_app_empty_r.
  - now rewrite IH, string_app_assoc.
Qed.

Lemma row_pixels_lookup rgb_buffer width height x y :
  Z.of_nat (length rgb_buffer) = width * height -> 0 <= x < width -> 0 <= y < height ->
  exists p, read rgb_buffer (y * width + x) = Some p /\
            take (Z.to_nat (x + 1)) (row_pixels rgb_buffer width y)
            = take (Z.to_nat x) (row_pixels rgb_buffer width y) ++ [p].
Proof.
  intros Hlen Hx Hy.
  destruct (read_pixel_in_image rgb_buffer width height x y Hlen Hx Hy) as (p & Hp).
  exists p. split; [assumption|].
  replace (Z.to_nat (x + 1)) with (S (Z.to_nat x)) by lia.
  apply take_S_r. unfold row_pixels. rewrite lookup_take_lt by lia.
  rewrite lookup_drop. unfold read in Hp.
  destruct (Z.ltb_spec (y * width + x) 0); [nia|].
  replace (Z.to_nat (y * width) + Z.to_nat x)%nat with (Z.to_nat (y * width + x)) by nia.
  exact Hp.
Qed.

Lemma row_pixels_length rgb_buffer width height y :
  Z.of_nat (length rgb_buffer) = width * height -> 0 <= width -> 0 <= y < height ->
  length (row_pixels rgb_buffer width y) = Z.to_nat width.
Proof.
  intros Hlen Hw Hy. unfold row_pixels. rewrite length_take, length_drop. nia.
Qed.

Lemma term_color_eqb_eq a b : term_color_eqb a b = true <-> a = b.
Proof. destruct a, b; cbn; split; congruence. Qed.

Section RenderRowExact.

Variables (rgb_buffer : list rgb_pixel_t) (width height : Z) (color : bool).
Hypothesis Hlen : Z.of_nat (length rgb_buffer) = width * height.
Hypothesis Hwidth : 0 <= width.
Hypothesis Hfit : line_bytes color width <= LINE_ALLOC.

Let row_exact (y x : Z) (st : render_state) : Prop :=
  let seen := take (Z.to_nat x) (row_pixels rgb_buffer width y) in
  rs_line st = (if color then colored_text None seen else plain_text seen) /\
  rs_last_bg st = BLACK /\
  (0 < x -> color = true ->
   rs_color_active st = true /\ Some (rs_last_fg st) = last_color None seen) /\
  (x = 0 -> rs_color_active st = false) /\
  strlen (rs_line st) <= (if color then 12 else 2) * x.

Lemma render_pixel_exact y x st :
  0 <= y < height -> 0 <= x < width -> row_exact y x st ->
  exists st', render_pixel rgb_buffer width color y x st = Some st' /\
              row_exact y (x + 1) st'.
Proof.
  intros Hy Hx (Hline & Hbg & Hactive & Hstart & Hsize). unfold render_pixel.
  destruct (row_pixels_lookup rgb_buffer width height x y Hlen Hx Hy) as (p & Hp & Htake).
  rewrite Hp. cbn [mbind option_bind].
  destruct (pixel_text_spec p) as (ch & Hch & Htext & _ & _ & Htl).
  rewrite Hch. cbn [mbind option_bind].
  set (seen := take (Z.to_nat x) (row_pixels rgb_buffer width y)) in *.
  fold (pixel_color p).
  assert (Hlast : last_color None (seen ++ [p]) = Some (pixel_color p))
    by (unfold last_color; now rewrite last_snoc).
  unfold line_bytes in Hfit.
  assert (Hcolored : exists st1,
    (if color then
       if negb (rs_color_active st)
          || negb (term_color_eqb (pixel_color p) (rs_last_fg st))
          || negb (term_color_eqb BLACK (rs_last_bg st))
       then
         line ← line_snprintf (rs_line st)
                  (fg_color_codes (pixel_color p) ++ bg_color_codes BLACK);
         Some {| rs_line := line; rs_last_fg := pixel_color p;
                 rs_last_bg := BLACK; rs_color_active := true |}
       else Some st
     else Some st) = Some st1 /\
    rs_line st1 = (rs_line st ++ if color then color_change (last_color None seen) p
                                else EmptyString)%string /\
    rs_last_bg st1 = BLACK /\
    (color = true -> rs_color_active st1 = true /\ rs_last_fg st1 = pixel_color p) /\
    (color = false -> rs_color_active st1 = rs_color_active st) /\
    strlen (rs_line st1) + 2 <= (if color then 12 else 2) * (x + 1) /\
    strlen (rs_line st1) + 2 < LINE_ALLOC).
  { destruct color.
    - assert (Hcode : forall line,
                line_snprintf (rs_line st)
                  (fg_color_codes (pixel_color p) ++ bg_color_codes BLACK) = Some line ->
                line = (rs_line st ++ fg_color_codes (pixel_color p)
                        ++ bg_color_codes BLACK)%string).
      { unfold line_snprintf. intros line. destruct (_ <=? _); now intros [= <-]. }
      destruct (color_codes_strip (pixel_color p) BLACK) as (_ & _ & Hcl).
      assert (Hsn : line_snprintf (rs_line st)
                      (fg_color_codes (pixel_color p) ++ bg_color_codes BLACK)
                    = Some (rs_line st ++ fg_color_codes (pixel_color p)
                            ++ bg_color_codes BLACK)%string).
      { unfold line_snprintf. rewrite Hcl.
        destruct (Z.leb_spec (strlen (rs_line st) + 10 + 1) LINE_ALLOC); [reflexivity|lia]. }
      destruct (Z.eq_dec x 0) as [->|Hx0].
      + rewrite (Hstart eq_refl). cbn [negb orb]. rewrite Hsn. cbn [mbind option_bind].
        eexists. split; [reflexivity|]. cbn [rs_line rs_last_bg rs_color_active rs_last_fg].
        subst seen. cbn [Z.to_nat take]. rewrite take_0. unfold last_color, color_change.
        cbn [last]. rewrite strlen_app, Hcl. repeat split; auto; lia.
      + destruct (Hactive ltac:(lia) eq_refl) as [Hact Hfg].
        rewrite Hact, Hbg. rewrite <- Hfg. cbn [negb orb]. unfold color_change.
        change (term_color_eqb BLACK BLACK) with true. cbn [negb]. rewrite orb_false_r.
        destruct (term_color_eqb (pixel_color p) (rs_last_fg st)) eqn:Heq; cbn [negb].
        * apply term_color_eqb_eq in Heq. exists st. rewrite string_app_empty_r.
          repeat split; auto; lia.
        * rewrite Hsn. cbn [mbind option_bind]. eexists. split; [reflexivity|].
          cbn [rs_line rs_last_bg rs_color_active rs_last_fg].
          rewrite strlen_app, Hcl. repeat split; auto; lia.
    - exists st. rewrite string_app_empty_r. repeat split; auto; try discriminate; lia. }
  destruct Hcolored as (st1 & -> & Hline1 & Hbg1 & Hon & Hoff & Hsize1 & Hcap1).
  cbn [mbind option_bind]. unfold line_put.
  destruct (Z.ltb_spec (strlen (rs_line st1)) LINE_ALLOC); [|lia].
  cbn [mbind option_bind]. rewrite strlen_app. change (strlen (String ch "")) with 1.
  destruct (Z.ltb_spec (strlen (rs_line st1) + 1) LINE_ALLOC); [|lia].
  cbn [mbind option_bind]. eexists. split; [reflexivity|]. unfold row_exact.
  cbn [rs_line rs_last_bg rs_color_active rs_last_fg]. cbv zeta. rewrite Htake.
  rewrite string_app_assoc.
  change (String ch "" ++ String ch "")%string with (String ch (String ch "")).
  rewrite <- Htext, Hline1, Hline. split; [|split; [assumption|split; [|split]]].
  - destruct color.
    + rewrite colored_text_snoc, !string_app_assoc. reflexivity.
    + rewrite plain_text_snoc, string_app_empty_r. reflexivity.
  - intros _ Hc. destruct (Hon Hc) as [Ha Hf]. split; [exact Ha|].
    rewrite Hf. symmetry. exact Hlast.
  - lia.
  - rewrite strlen_app, Htl, <- Hline, <- Hline1. lia.
Qed.

Lemma render_row_exact y last :
  0 <= y < height -> snd last = BLACK ->
  exists last', render_row rgb_buffer width color y last
                = Some (rendered_line color (row_pixels rgb_buffer width y), last') /\
                snd last' = BLACK.
Proof.
  intros Hy Hlast. unfold render_row.
  destruct (for_range_invariant (row_exact y)
              (render_pixel rgb_buffer width color y) width
              {| rs_line := ""; rs_last_fg := fst last; rs_last_bg := snd last;
                 rs_color_active := false |} Hwidth)
    as (st & -> & Hline & Hbg & Hactive & Hstart & Hsize).
  - unfold row_exact. cbn [rs_line rs_last_bg rs_color_active Z.to_nat]. rewrite take_0.
    split; [now destruct color|]. split; [assumption|]. split; [lia|].
    split; [reflexivity|]. rewrite Z.mul_0_r. reflexivity.
  - intros x st Hx Hst. now apply render_pixel_exact.
  - cbn [mbind option_bind]. unfold line_bytes in Hfit.
    rewrite firstn_all2 in Hline
      by (rewrite (row_pixels_length rgb_buffer width height); auto; lia).
    pose proof (row_pixels_length rgb_buffer width height y Hlen Hwidth Hy) as Hrow.
    unfold rendered_line. destruct color; cbn [andb].
    + destruct (Z.eq_dec width 0) as [Hw0|Hw0].
      * rewrite (Hstart Hw0). cbn [mbind option_bind].
        destruct (Z.ltb_spec (strlen (rs_line st)) LINE_ALLOC); [|lia].
        exists (rs_last_fg st, rs_last_bg st). split; [|exact Hbg]. rewrite Hline.
        destruct (row_pixels rgb_buffer width y); [|cbn in Hrow; lia].
        reflexivity.
      * destruct (Hactive ltac:(lia) eq_refl) as [-> _].
        destruct color_reset_strip as [_ Hrl]. unfold line_snprintf. rewrite Hrl.
        destruct (Z.leb_spec (strlen (rs_line st) + 4 + 1) LINE_ALLOC); [|lia].
        cbn [mbind option_bind]. rewrite strlen_app, Hrl.
        destruct (Z.ltb_spec (strlen (rs_line st) + 4) LINE_ALLOC); [|lia].
        exists (rs_last_fg st, rs_last_bg st). split; [|exact Hbg]. rewrite Hline.
        destruct (row_pixels rgb_buffer width y); [cbn in Hrow; lia|reflexivity].
    + cbn [mbind option_bind].
      destruct (Z.ltb_spec (strlen (rs_line st)) LINE_ALLOC); [|lia].
      exists (rs_last_fg st, rs_last_bg st). split; [|exact Hbg]. now rewrite Hline.
Qed.

End RenderRowExact.

Lemma render_rows_exact (rgb_buffer : list rgb_pixel_t) width height color :
  Z.of_nat (length rgb_buffer) = width * height ->
  0 <= width -> 0 <= height ->
  line_bytes color width <= LINE_ALLOC ->
  render_rows rgb_buffer width height color =
  Some (map (fun y => rendered_line color (row_pixels rgb_buffer width y)) (seqZ 0 height)).
Proof.
  intros Hlen Hw Hh Hfit. unfold render_rows.
  destruct (for_range_invariant
              (fun y (acc : list string * (term_color_t * term_color_t)) =>
                 fst acc = map (fun y => rendered_line color (row_pixels rgb_buffer width y))
                               (seqZ 0 y) /\
                 snd (snd acc) = BLACK)
              (fun y acc =>
                 row ← render_row rgb_buffer width color y (snd acc);
                 Some (fst acc ++ [fst row], snd row))
              height ([], (BLACK, BLACK)) Hh)
    as (acc & -> & Hlines & _).
  - split; reflexivity.
  - intros y acc Hy [Hlines Hbg].
    destruct (render_row_exact rgb_buffer width height color Hlen Hw Hfit y (snd acc) Hy Hbg)
      as (last' & -> & Hbg').
    cbn [mbind option_bind fst snd]. eexists. split; [reflexivity|]. cbn [fst snd].
    split; [|assumption].
    rewrite seqZ_app by lia. rewrite map_app, Hlines. f_equal.
  - cbn [mbind option_bind]. now rewrite Hlines.
Qed.

(** X6. On a buffer it accepts, [render_ascii_art] prints for every row one
    line: without colour the two characters of each pixel and nothing
    else; with colour, in front of a pixel, the foreground and
    background codes exactly where the row starts or the colour differs
    from that of the pixel before, and the reset code at the end of the
    line. *)
Theorem render_ascii_art_exact e rgb_buffer width height config w :
  1 <= width <= 1000 -> 1 <= height <= 1000 ->
  Z.of_nat (length rgb_buffer) = width * height ->
  line_bytes (use_color config) width <= LINE_ALLOC ->
  fst (memory_alloc e site_line LINE_ALLOC true) = true ->
  exists w',
    runs (render_ascii_art e (Some rgb_buffer) width height config) w 0 w'
         (render_preamble e rgb_buffer width height
          ++ map (fun y => art_line (rendered_line (use_color config)
                                       (row_pixels rgb_buffer width y)))
                 (seqZ 0 height)
          ++ render_footer).
Proof.
  intros Hw Hh Hlen Hfit Halloc.
  destruct (read_Some rgb_buffer 0) as (first & Hfirst & _); [nia|].
  pose proof (render_rows_exact rgb_buffer width height (use_color config) Hlen
                ltac:(lia) ltac:(lia) Hfit) as Hrows.
  unfold render_ascii_art, render_preamble, render_footer.
  destruct (Z.leb_spec width 0); [lia|]. destruct (Z.leb_spec height 0); [lia|].
  destruct (Z.ltb_spec 1000 width); [lia|]. destruct (Z.ltb_spec 1000 height); [lia|].
  cbn [orb]. rewrite Hfirst, Hrows. eexists. eapply runs_events.
  { eapply runs_bind; [apply runs_emit|].
    eapply runs_bind; [apply runs_lift_Some|].
    eapply runs_bind; [apply runs_emit|].
    eapply runs_bind; [apply runs_alloc|]. rewrite Halloc. cbn [negb].
    eapply runs_bind; [apply runs_emit|].
    eapply runs_bind; [apply runs_emit|].
    eapply runs_bind; [apply runs_lift_Some|].
    eapply runs_bind; [apply runs_emit_all|].
    eapply runs_bind; [apply runs_emit|]. apply runs_ret. }
  rewrite map_map, !app_nil_r. cbn [app]. rewrite <- !app_assoc. reflexivity.
Qed.

Lemma render_ascii_art_exact_witness :
  let red := {| px_r := 255; px_g := 0; px_b := 0 |} in
  rendered_line true [red; red; black_pixel]
    = (fg_color_codes RED ++ bg_color_codes BLACK ++ "::::"
       ++ fg_color_codes BLACK ++ bg_color_codes BLACK ++ "  " ++ COLOR_RESET)%string /\
  exists w',
    runs (render_ascii_art test_env (Some [red; red; black_pixel]) 3 1 default_config)
         initial_world 0 w'
         (render_preamble test_env [red; red; black_pixel] 3 1
          ++ map (fun y => art_line (rendered_line (use_color default_config)
                                       (row_pixels [red; red; black_pixel] 3 y)))
                 (seqZ 0 1)
          ++ render_footer).
Proof.
  split; [vm_compute; reflexivity|].
  apply (render_ascii_art_exact test_env
           [{| px_r := 255; px_g := 0; px_b := 0 |}; {| px_r := 255; px_g := 0; px_b := 0 |};
            black_pixel] 3 1 default_config initial_world);
    first [lia | reflexivity | vm_compute; discriminate].
Defined.

(** ** The line buffer of the renderer *)

Lemma fold_option_preserves {A B : Type} (P : nat -> A -> Prop) (f : A -> B -> option A) l a a' :
  P 0%nat a ->
  (forall k a b a', P k a -> f a b = Some a' -> P (S k) a') ->
  fold_option f l a = Some a' -> P (length l) a'.
Proof.
  intros H0 Hstep. revert a P H0 Hstep.
  induction l as [|b l IH]; intros a P H0 Hstep Hrun.
  - cbn in Hrun. now injection Hrun as <-.
  - cbn [fold_option] in Hrun. destruct (f a b) as [a1|] eqn:Hf; [|discriminate].
    apply (IH a1 (fun k => P (S k))); eauto.
Qed.

Lemma render_pixel_grows rgb_buffer width color y x st st' :
  render_pixel rgb_buffer width color y x st = Some st' ->
  strlen (rs_line st) + 2 <= strlen (rs_line st').
Proof.
  unfold render_pixel. intros H.
  destruct (read rgb_buffer (y * width + x)) as [p|]; [|discriminate].
  cbn [mbind option_bind] in H.
  destruct (ramp_char p) as [ch|]; [|discriminate]. cbn [mbind option_bind] in H.
  match type of H with
  | context [mbind _ ?m] => destruct m as [st1|] eqn:Hst1; [|discriminate]
  end.
  cbn [mbind option_bind] in H.
  assert (Hgrow : strlen (rs_line st) <= strlen (rs_line st1)).
  { destruct color; [|injection Hst1 as <-; lia].
    destruct (_ || _ || _); [|injection Hst1 as <-; lia].
    unfold line_snprintf in Hst1. destruct (_ <=? _); [|discriminate].
    cbn [mbind option_bind] in Hst1. injection Hst1 as <-. cbn [rs_line].
    rewrite strlen_app. unfold strlen. lia. }
  unfold line_put in H.
  destruct (strlen (rs_line st1) <? LINE_ALLOC); [|discriminate].
  cbn [mbind option_bind] in H.
  destruct (_ <? LINE_ALLOC); [|discriminate].
  cbn [mbind option_bind] in H. injection H as <-. cbn [rs_line].
  rewrite !strlen_app. change (strlen (String ch "")) with 1. lia.
Qed.

(** A row of 800 pixels or more does not fit the line buffer. *)
Lemma render_row_overflow rgb_buffer width color y last :
  800 <= width -> render_row rgb_buffer width color y last = None.
Proof.
  intros Hw. unfold render_row.
  destruct (for_range 0 width _ _) as [st|] eqn:Hloop; [|reflexivity].
  cbn [mbind option_bind].
  assert (Hsize : 2 * width <= strlen (rs_line st)).
  { rewrite for_range_fold in Hloop.
    apply (fold_option_preserves
             (fun k st => 2 * Z.of_nat k <= strlen (rs_line st))) in Hloop.
    - rewrite length_seqZ in Hloop. lia.
    - cbn [rs_line]. change (strlen "") with 0. lia.
    - intros k a b a' Hk Hstep. apply render_pixel_grows in Hstep. lia. }
  assert (Hfull : forall line, strlen (rs_line st) <= strlen line ->
            (if strlen line <? LINE_ALLOC
             then Some (line, (rs_last_fg st, rs_last_bg st)) else None) = None).
  { intros line Hline. unfold LINE_ALLOC in *.
    destruct (Z.ltb_spec (strlen line) (80 * 20)); [lia|reflexivity]. }
  destruct (color && rs_color_active st).
  - unfold line_snprintf. destruct (_ <=? _); [|reflexivity]. cbn [mbind option_bind].
    apply Hfull. rewrite strlen_app. unfold strlen. lia.
  - cbn [mbind option_bind]. apply Hfull. lia.
Qed.

(** X7. For a width of 800 to 1000 pixels, which the check of the dimensions
    lets through, the first row written overruns the line buffer of
    1600 bytes. *)
Theorem render_ascii_art_line_overflow e rgb_buffer width height config w :
  800 <= width <= 1000 -> 1 <= height <= 1000 ->
  Z.of_nat (length rgb_buffer) = width * height ->
  fst (memory_alloc e site_line LINE_ALLOC true) = true ->
  render_ascii_art e (Some rgb_buffer) width height config w = None.
Proof.
  intros Hw Hh Hlen Halloc.
  destruct (read_Some rgb_buffer 0) as (first & Hfirst & _); [nia|].
  assert (Hrows : render_rows rgb_buffer width height (use_color config) = None).
  { unfold render_rows. rewrite for_range_fold.
    replace (height - 0) with (Z.succ (height - 1)) by lia.
    rewrite seqZ_cons by lia. cbn [fold_option].
    now rewrite render_row_overflow by lia. }
  unfold render_ascii_art.
  destruct (Z.leb_spec width 0); [lia|]. destruct (Z.leb_spec height 0); [lia|].
  destruct (Z.ltb_spec 1000 width); [lia|]. destruct (Z.ltb_spec 1000 height); [lia|].
  cbn [orb]. rewrite Hfirst, Hrows.
  rewrite bind_emit, bind_lift_Some, bind_emit.
  rewrite (bind_run _ _ _ _ _ (proj1 (runs_alloc e site_line LINE_ALLOC _))).
  rewrite Halloc. cbn [negb]. rewrite !bind_emit. reflexivity.
Qed.

Lemma render_ascii_art_line_overflow_witness :
  render_ascii_art test_env (Some (repeat black_pixel 800)) 800 1
                   (without_dithering default_config) initial_world = None.
Proof.
  apply (render_ascii_art_line_overflow test_env (repeat black_pixel 800) 800 1);
    first [lia | reflexivity].
Defined.

(** ** Brightness and contrast *)

Lemma adjust_channel_value v brightness contrast :
  adjust_channel v brightness contrast
  = clamp (f32_to_int (adjusted_value v brightness contrast)) 0 255.
Proof. reflexivity. Qed.

Lemma adjusted_value_neutral_table :
  forallb (fun v =>
             match adjusted_value v f32_one f32_one, f32_of_int v with
             | S754_zero s, S754_zero s' => Bool.eqb s s'
             | S754_finite s m e, S754_finite s' m' e' =>
                 Bool.eqb s s' && (Z.pos m =? Z.pos m') && (e =? e')
             | _, _ => false
             end && (f32_to_int (f32_of_int v) =? v))
          (seqZ 0 256) = true.
Proof. vm_compute. reflexivity. Qed.

(** At the neutral settings the value converted is the channel's, and
    the conversion gives it back. *)
Lemma adjusted_value_neutral v :
  0 <= v <= 255 ->
  adjusted_value v f32_one f32_one = f32_of_int v /\ f32_to_int (f32_of_int v) = v.
Proof.
  intros Hv. pose proof adjusted_value_neutral_table as H.
  rewrite forallb_forall in H. specialize (H v).
  apply andb_true_iff in H as [Hsame Hint];
    [|apply list_elem_of_In, elem_of_seqZ; lia].
  split; [|now apply Z.eqb_eq].
  destruct (adjusted_value v f32_one f32_one) as [s| | |s m e],
           (f32_of_int v) as [s'| | |s' m' e']; try discriminate.
  - apply Bool.eqb_prop in Hsame. now subst.
  - apply andb_true_iff in Hsame as [Hsame He]. apply andb_true_iff in Hsame as [Hs Hm].
    apply Bool.eqb_prop in Hs. apply Z.eqb_eq in Hm, He. congruence.
Qed.

(** X8. With the neutral settings 1.0 and 1.0, the defaults of the
    pipeline, [adjust_pixel] returns a pixel with channels between 0 and
    255 unchanged: for each channel the [float] it converts to [int] is
    the channel's value itself, so the conversion is defined and [clamp]
    changes nothing. *)
Theorem adjust_pixel_neutral pixel :
  valid_pixel pixel ->
  adjusted_value (px_r pixel) f32_one f32_one = f32_of_int (px_r pixel) /\
  adjusted_value (px_g pixel) f32_one f32_one = f32_of_int (px_g pixel) /\
  adjusted_value (px_b pixel) f32_one f32_one = f32_of_int (px_b pixel) /\
  adjust_pixel pixel f32_one f32_one = pixel.
Proof.
  intros (Hr & Hg & Hb).
  destruct (adjusted_value_neutral _ Hr) as [Er Ir].
  destruct (adjusted_value_neutral _ Hg) as [Eg Ig].
  destruct (adjusted_value_neutral _ Hb) as [Eb Ib].
  repeat split; try assumption.
  unfold adjust_pixel. rewrite !adjust_channel_value, Er, Eg, Eb, Ir, Ig, Ib.
  rewrite !clamp_in_range by assumption. now destruct pixel.
Qed.

Lemma adjust_pixel_neutral_witness :
  let p := {| px_r := 200; px_g := 0; px_b := 128 |} in
  adjusted_value (px_r p) f32_one f32_one = f32_of_int (px_r p) /\
  adjusted_value (px_g p) f32_one f32_one = f32_of_int (px_g p) /\
  adjusted_value (px_b p) f32_one f32_one = f32_of_int (px_b p) /\
  adjust_pixel p f32_one f32_one = p.
Proof.
  apply (adjust_pixel_neutral {| px_r := 200; px_g := 0; px_b := 128 |}).
  unfold valid_pixel. cbn. lia.
Defined.

(** ** The dithered buffer *)

(** What one step stores in the buffer. *)
Lemma dither_pixel_output (n : nat) width height x y st :
  Z.of_nat n = width * height -> 0 <= x < width -> 0 <= y < height ->
  length (fst st) = n /\ length (snd st) = n ->
  exists st' c, dither_pixel width height x y st = Some st' /\
                fst st' = <[Z.to_nat (y * width + x) := terminal_colors c]> (fst st) /\
                (length (fst st') = n /\ length (snd st') = n).
Proof.
  intros Hn Hx Hy Hst.
  destruct (dither_pixel_defined n width height x y st Hn Hx Hy Hst) as (st' & Hrun & Hlen').
  destruct st as [image img_copy]. cbn [fst snd] in *.
  pose proof Hrun as H. unfold dither_pixel in H.
  destruct (read img_copy (y * width + x)) as [old|]; [|discriminate].
  cbn [mbind option_bind] in H.
  set (c := rgb_to_terminal_color (px_r old) (px_g old) (px_b old)) in *.
  rewrite write_Some in H by nia. cbn [mbind option_bind] in H.
  repeat match type of H with
         | context [mbind _ ?m] =>
             destruct m; [|discriminate]; cbn [mbind option_bind] in H
         end.
  exists st', c. split; [exact Hrun|]. split; [|exact Hlen'].
  injection H as <-. reflexivity.
Qed.

Lemma dither_palette_unchanged e image width height :
  Forall is_palette_pixel image ->
  Z.of_nat (length image) = width * height ->
  3 * Z.of_nat (length image) < 2 ^ 32 ->
  apply_floyd_steinberg_dithering e image width height = Some image.
Proof.
  intros Hpal Hlen Hsz. unfold apply_floyd_steinberg_dithering.
  destruct (fst _); [|reflexivity]. cbn [negb].
  destruct (dither_working_copy image width height Hlen Hsz) as [-> ->].
  rewrite for_range_fold.
  destruct (fold_option_invariant (fun st => st = (image, image))
              (fun y => 0 <= y < 0 + (height - 0))
              (fun s y => for_range 0 width (fun x => dither_pixel width height x y) s)
              (seqZ 0 (height - 0)) (image, image) eq_refl (Forall_seqZ _ _))
    as (st & -> & ->); [|reflexivity].
  intros st y -> Hy. rewrite for_range_fold.
  apply (fold_option_invariant (fun st => st = (image, image))
           (fun x => 0 <= x < 0 + (width - 0)));
    [reflexivity|apply Forall_seqZ|].
  intros st x -> Hx. exists (image, image). split; [|reflexivity].
  apply dither_pixel_palette; auto; lia.
Qed.

(** The state of the loops before the pixel of row-major index [k]: the
    buffers keep their length and the first [k] pixels of the buffer are
    reference colours. *)
Lemma dither_loops_palette (n : nat) width height st :
  Z.of_nat n = width * height -> 0 <= width -> 0 <= height ->
  length (fst st) = n /\ length (snd st) = n ->
  exists st',
    for_range 0 height (fun y => for_range 0 width (fun x => dither_pixel width height x y)) st
      = Some st' /\
    (length (fst st') = n /\ length (snd st') = n) /\
    Forall is_palette_pixel (fst st').
Proof.
  intros Hn Hw Hh Hst.
  pose (inv := fun (k : Z) (s : list rgb_pixel_t * list rgb_pixel_t) =>
                 (length (fst s) = n /\ length (snd s) = n) /\
                 forall i p, (Z.of_nat i < k) -> fst s !! i = Some p -> is_palette_pixel p).
  destruct (for_range_invariant (fun y s => inv (y * width) s)
              (fun y => for_range 0 width (fun x => dither_pixel width height x y))
              height st Hh) as (st' & Hrun & Hlen' & Hpal).
  - split; [assumption|]. intros i p Hi. lia.
  - intros y s Hy Hs.
    destruct (for_range_invariant (fun x s => inv (y * width + x) s)
                (fun x => dither_pixel width height x y) width s Hw)
      as (s' & Hrow & Hs').
    + now rewrite Z.add_0_r.
    + intros x s0 Hx [Hlen0 Hpal0].
      destruct (dither_pixel_output n width height x y s0 Hn Hx Hy Hlen0)
        as (s1 & c & Hstep & Hout & Hlen1).
      exists s1. split; [assumption|]. split; [assumption|].
      intros i p Hi Hp. rewrite Hout in Hp.
      destruct (Nat.eq_dec i (Z.to_nat (y * width + x))) as [->|Hne].
      * rewrite list_lookup_insert_eq in Hp by nia. injection Hp as <-. now exists c.
      * rewrite list_lookup_insert_ne in Hp by congruence. apply (Hpal0 i); [nia|assumption].
    + exists s'. split; [assumption|].
      replace ((y + 1) * width) with (y * width + width) by lia. exact Hs'.
  - exists st'. split; [assumption|]. split; [assumption|].
    apply Forall_forall. intros p Hp. apply list_elem_of_lookup in Hp as [i Hi].
    apply (Hpal i); [|assumption]. apply lookup_lt_Some in Hi. nia.
Qed.

(** X9. With its working copy, dithering leaves in the buffer nothing but
    reference colours of the palette, as many pixels as before; and
    dithering the result again changes nothing. *)
Theorem dithering_output_is_palette e image width height :
  fst (memory_alloc e site_dither_copy (pixel_bytes width height) false) = true ->
  Z.of_nat (length image) = width * height -> 0 <= width -> 0 <= height ->
  3 * Z.of_nat (length image) < 2 ^ 32 ->
  exists result,
    apply_floyd_steinberg_dithering e image width height = Some result /\
    length result = length image /\
    Forall is_palette_pixel result /\
    apply_floyd_steinberg_dithering e result width height = Some result.
Proof.
  intros Halloc Hlen Hw Hh Hsz.
  destruct (dither_loops_palette (length image) width height (image, image) Hlen Hw Hh
              (conj eq_refl eq_refl)) as (st & Hrun & [Hlen' _] & Hpal).
  exists (fst st). split; [|split; [assumption|split; [assumption|]]].
  - unfold apply_floyd_steinberg_dithering. rewrite Halloc. cbn [negb].
    destruct (dither_working_copy image width height Hlen Hsz) as [-> ->].
    now rewrite Hrun.
  - apply dither_palette_unchanged; [assumption|lia|lia].
Qed.

Lemma dithering_output_is_palette_witness :
  let image := [{| px_r := 200; px_g := 100; px_b := 50 |};
                {| px_r := 10; px_g := 20; px_b := 30 |};
                {| px_r := 90; px_g := 160; px_b := 250 |};
                {| px_r := 128; px_g := 128; px_b := 128 |}] in
  exists result,
    apply_floyd_steinberg_dithering test_env image 2 2 = Some result /\
    length result = length image /\
    Forall is_palette_pixel result /\
    apply_floyd_steinberg_dithering test_env result 2 2 = Some result.
Proof.
  apply (dithering_output_is_palette test_env _ 2 2); first [reflexivity | lia].
Defined.

(** ** The return codes of the pipeline *)

Lemma yields_bind {A B : Type} (m : M A) (k : A -> M B) P :
  (forall a, yields (k a) P) -> yields (bind m k) P.
Proof.
  intros Hk w b w' H. unfold bind in H. destruct (m w) as [[a w1]|]; [|discriminate].
  eapply Hk, H.
Qed.

Lemma yields_bind_with {A B : Type} (m : M A) (k : A -> M B) Q P :
  yields m Q -> (forall a w1, Q a w1 -> forall b w', k a w1 = Some (b, w') -> P b w') ->
  yields (bind m k) P.
Proof.
  intros Hm Hk w b w' H. unfold bind in H. destruct (m w) as [[a w1]|] eqn:E; [|discriminate].
  eapply Hk; [eapply Hm, E|exact H].
Qed.

Lemma yields_ret_failure r : r = - EINVAL \/ r = - ENOMEM -> yields (ret r) render_outcome.
Proof.
  intros Hr w a w' [= <- <-]. split; [tauto|]. intros ->. unfold EINVAL, ENOMEM in Hr. lia.
Qed.

Lemma render_ascii_art_outcome e rgb_buffer width height config :
  yields (render_ascii_art e rgb_buffer width height config) render_outcome.
Proof.
  unfold render_ascii_art. apply yields_bind. intros _.
  destruct rgb_buffer as [rgb_buffer|].
  2:{ apply yields_bind. intros _. apply yields_ret_failure. now left. }
  destruct (_ || _ || _ || _).
  { apply yields_bind. intros _. apply yields_ret_failure. now left. }
  apply yields_bind. intros first. apply yields_bind. intros _.
  apply yields_bind. intros line. destruct line; cbn [negb].
  2:{ apply yields_ret_failure. now right. }
  do 4 (apply yields_bind; intros ?).
  intros w r w' H. unfold bind, emit, ret, log in H. injection H as <- <-.
  split; [now left|]. intros _. cbn [shell_out]. apply last_snoc.
Qed.

Lemma render_large_placeholder_outcome e info max_memory config :
  yields (render_large_placeholder e info max_memory config)
         (fun early w' => forall r, early = Some r -> render_outcome r w').
Proof.
  assert (Hnone : yields (ret (@None Z))
                    (fun early w' => forall r, early = Some r -> render_outcome r w')).
  { intros w a w' [= <- <-]. discriminate. }
  unfold render_large_placeholder. destruct info as [[[ow oh] oc]|reason]; [|exact Hnone].
  destruct (_ <? _); [|exact Hnone].
  apply yields_bind. intros _. destruct (large_placeholder_dims ow oh) as [tw th].
  apply yields_bind. intros placeholder. destruct placeholder; [|exact Hnone].
  do 2 (apply yields_bind; intros _).
  eapply yields_bind_with; [apply render_ascii_art_outcome|].
  intros r w1 Hr b w' [= <- <-] r' [= <-]. exact Hr.
Qed.

Lemma report_decode_failure_outcome e info config :
  yields (report_decode_failure e info config)
         (fun handled w' => forall r, handled = Some r -> render_outcome r w').
Proof.
  assert (Hnone : yields (ret (@None Z))
                    (fun early w' => forall r, early = Some r -> render_outcome r w')).
  { intros w a w' [= <- <-]. discriminate. }
  unfold report_decode_failure. apply yields_bind. intros _.
  apply yields_bind. intros error.
  destruct (strstr error "no SOF"); [do 4 (apply yields_bind; intros _); exact Hnone|].
  destruct (strstr error "bad huffman"); [apply yields_bind; intros _; exact Hnone|].
  destruct (strstr error "PNG"); [apply yields_bind; intros _; exact Hnone|].
  destruct (strstr error "outofmem"); [|apply yields_bind; intros _; exact Hnone].
  do 2 (apply yields_bind; intros _).
  apply yields_bind. intros placeholder. destruct placeholder; [|exact Hnone].
  apply yields_bind; intros _.
  eapply yields_bind_with; [apply render_ascii_art_outcome|].
  intros r w1 Hr b w' [= <- <-] r' [= <-]. exact Hr.
Qed.

Lemma render_decoded_outcome e img config :
  yields (render_decoded e img config) render_outcome.
Proof.
  unfold render_decoded. do 2 (apply yields_bind; intros _).
  apply yields_bind. intros [scaled_img|].
  - apply yields_bind; intros _. apply yields_bind. intros scaled_px.
    apply render_ascii_art_outcome.
  - apply yields_bind; intros _. apply yields_ret_failure. now right.
Qed.

Lemma yields_or_else {A : Type} (m : M (option A)) (rest : M A) P :
  yields m (fun early w' => forall r, early = Some r -> P r w') ->
  yields rest P ->
  yields (bind m (fun early => match early with Some r => ret r | None => rest end)) P.
Proof.
  intros Hm Hrest. eapply yields_bind_with; [exact Hm|].
  intros [r|] w1 Hearly b w' H.
  - injection H as <- <-. now apply Hearly.
  - exact (Hrest w1 b w' H).
Qed.

(** X10. Whenever [gopher_render_image] returns, it returns 0, [-EINVAL] or
    [-ENOMEM]; and it returns 0 only when the last thing it printed is
    the footer of a rendered image. *)
Theorem gopher_render_image_outcome e data config w r w' :
  gopher_render_image e data config w = Some (r, w') ->
  (r = 0 \/ r = - EINVAL \/ r = - ENOMEM) /\
  (r = 0 -> last (shell_out w') =
            Some (shell_fprintf ("----------------------------------------" ++ LF) [])).
Proof.
  revert w r w'. change (yields (gopher_render_image e data config) render_outcome).
  unfold gopher_render_image. apply yields_bind. intros _.
  destruct (looks_like_text_content data) eqn:Htext.
  { do 2 (apply yields_bind; intros _). apply yields_ret_failure. now left. }
  apply yields_bind. intros is_image. do 3 (apply yields_bind; intros _).
  apply yields_or_else; [apply render_large_placeholder_outcome|].
  apply yields_bind. intros [img|]; [apply render_decoded_outcome|].
  apply yields_or_else; [apply report_decode_failure_outcome|].
  unfold show_as_text_and_fail. apply yields_bind. intros _.
  apply yields_ret_failure. now left.
Qed.

Lemma gopher_render_image_outcome_witness :
  exists w',
    gopher_render_image large_image_env jpeg_bytes None initial_world = Some (0, w') /\
    last (shell_out w') =
      Some (shell_fprintf ("----------------------------------------" ++ LF) []).
Proof.
  eexists. split; [vm_compute; reflexivity|].
  refine (proj2 (gopher_render_image_outcome large_image_env jpeg_bytes None initial_world
                   0 _ _) eq_refl).
  vm_compute. reflexivity.
Defined.

(** ** Data the codec does not recognise *)

Lemma no_codec_no_load evs :
  Forall (fun ev => is_codec_call ev = false) evs ->
  Forall (fun ev => is_load_call ev = false) evs.
Proof.
  intros H. eapply Forall_impl; [exact H|].
  intros [] Hev; try reflexivity; discriminate.
Qed.

Lemma show_as_text_and_fail_runs data w :
  exists w' evs, runs (show_as_text_and_fail data) w (- EINVAL) w' evs /\
                 Forall (fun ev => is_load_call ev = false) evs.
Proof.
  unfold show_as_text_and_fail.
  pose proof (no_codec_no_load _ (display_text_content_no_codec data)) as Htext.
  destruct (looks_like_text_content data); [|destruct (_ <? 1024)].
  - eexists _, _. split.
    + eapply runs_bind; [apply runs_emit_all|]. apply runs_ret.
    + rewrite app_nil_r. exact Htext.
  - eexists _, _. split.
    + eapply runs_bind; [|apply runs_ret].
      eapply runs_bind; [apply runs_emit|]. apply runs_emit_all.
    + rewrite app_nil_r. constructor; [reflexivity|exact Htext].
  - eexists _, _. split.
    + eapply runs_bind; [apply runs_ret|]. apply runs_ret.
    + constructor.
Qed.

(** The error report when the failure is not for lack of memory. *)
Lemma report_decode_failure_runs e info config w :
  strstr (stbi_failure_reason w) "outofmem" = false ->
  exists w' evs, runs (report_decode_failure e info config) w None w' evs /\
                 Forall (fun ev => is_load_call ev = false) evs /\
                 head evs = Some (shell_error "Failed to decode image data" []).
Proof.
  intros Hreason. unfold report_decode_failure.
  set (w1 := log [shell_error "Failed to decode image data" []] w).
  destruct (strstr (stbi_failure_reason w) "no SOF") eqn:Hsof;
    [|destruct (strstr (stbi_failure_reason w) "bad huffman") eqn:Hhuff;
      [|destruct (strstr (stbi_failure_reason w) "PNG") eqn:Hpng]].
  all: eexists _, _; split;
    [eapply runs_bind; [apply runs_emit|]; fold w1;
     eapply runs_bind; [apply runs_get_failure_reason|];
     change (stbi_failure_reason w1) with (stbi_failure_reason w);
     rewrite ?Hsof, ?Hhuff, ?Hpng, ?Hreason;
     repeat (eapply runs_bind; [apply runs_emit|]); apply runs_ret
    |split; [repeat constructor|reflexivity]].
Qed.

(** X11. When the codec cannot tell the dimensions of the data and the
    reason is not a lack of memory, [gopher_render_image] never calls
    the decoder: it reports the failure and returns [-EINVAL]. *)
Theorem unrecognised_data_is_not_decoded e data config w reason is_image :
  looks_like_text_content data = false ->
  gopher_is_image data = Some is_image ->
  stbi_info_from_memory e data = stbi_fail reason ->
  strstr reason "outofmem" = false ->
  exists w' evs,
    runs (gopher_render_image e data config) w (- EINVAL) w' evs /\
    Forall (fun ev => is_load_call ev = false) evs /\
    In (shell_error "Failed to decode image data" []) evs.
Proof.
  intros Htext Himg Hinfo Hreason.
  set (w1 := log [memory_banner e] w).
  set (w2 := if negb is_image
             then log [shell_print "Attempting to decode anyway..." []]
                    (log [shell_error
                            "File format is not a recognized image type (JPEG, PNG, or GIF)" []]
                         w1)
             else w1).
  set (w3 := {| shell_out := shell_out (log [stbi_info_call] w2);
                stbi_failure_reason := reason;
                stbi__jpeg_decode_reduced := stbi__jpeg_decode_reduced (log [stbi_info_call] w2) |}).
  set (w4 := {| shell_out := shell_out (log [stbi_info_call] w3);
                stbi_failure_reason := reason;
                stbi__jpeg_decode_reduced := stbi__jpeg_decode_reduced (log [stbi_info_call] w3) |}).
  destruct (report_decode_failure_runs e (stbi_fail reason)
              (default default_config config) w4 Hreason)
    as (w5 & evs5 & Hreport & Hno5 & Hhead5).
  destruct (show_as_text_and_fail_runs data w5) as (w6 & evs6 & Hshow & Hno6).
  exists w6. eexists. split; [|split].
  - unfold gopher_render_image, render_large_placeholder, decode_image_to_rgb.
    rewrite Htext, Himg, Hinfo. fold (memory_banner e).
    eapply runs_bind; [apply runs_emit|]. fold w1.
    eapply runs_bind; [apply runs_lift_Some|].
    eapply runs_bind.
    { apply runs_when. eapply runs_events; [eapply runs_bind; apply runs_emit|reflexivity]. }
    fold w2.
    eapply runs_bind; [apply runs_emit|].
    eapply runs_bind; [apply runs_set_failure_reason|]. fold w3.
    eapply runs_bind; [apply runs_ret|].
    eapply runs_bind.
    { eapply runs_bind; [apply runs_emit|].
      eapply runs_bind; [apply runs_set_failure_reason|]. fold w4. apply runs_ret. }
    eapply runs_bind; [exact Hreport|]. exact Hshow.
  - repeat (apply Forall_app; split); try assumption; try (destruct (negb is_image));
      repeat constructor.
    unfold memory_banner. now destruct (CONFIG_ESP_SPIRAM e).
    unfold memory_banner. now destruct (CONFIG_ESP_SPIRAM e).
  - destruct evs5 as [|ev evs5]; [discriminate|]. injection Hhead5 as ->.
    rewrite !in_app_iff. cbn [In].
    do 7 right. left. left. reflexivity.
Qed.

Lemma unrecognised_data_is_not_decoded_witness :
  exists w' evs,
    runs (gopher_render_image test_env jpeg_bytes None) initial_world (- EINVAL) w' evs /\
    Forall (fun ev => is_load_call ev = false) evs /\
    In (shell_error "Failed to decode image data" []) evs.
Proof.
  apply (unrecognised_data_is_not_decoded test_env jpeg_bytes None initial_world
           "unknown image type" true); reflexivity.
Defined.

(* ================================================================== *)
(** * Part III: the Gopher client *)
(* ================================================================== *)

(** ** Strings in character arrays *)

Lemma c_str_app (s t : list ascii) :
  Forall (fun c => c <> NUL) s -> c_str (s ++ t) = s ++ c_str t.
Proof.
  induction 1 as [|c s Hc _ IH]; [reflexivity|].
  cbn [app c_str]. destruct (Ascii.eqb_spec c NUL) as [->|_]; [contradiction|].
  now rewrite IH.
Qed.

Lemma c_str_plain (s : list ascii) :
  Forall (fun c => c <> NUL) s -> c_str s = s.
Proof.
  intros H. rewrite <- (app_nil_r s) at 1. rewrite (c_str_app _ _ H).
  cbn [c_str]. apply app_nil_r.
Qed.

Lemma c_str_NUL (rest : list ascii) : c_str (NUL :: rest) = [].
Proof. reflexivity. Qed.

Lemma c_str_no_NUL (a : list ascii) : Forall (fun c => c <> NUL) (c_str a).
Proof.
  induction a as [|c a IH]; [constructor|].
  cbn [c_str]. destruct (Ascii.eqb_spec c NUL); [constructor|].
  now constructor.
Qed.

Lemma c_str_idemp (a : list ascii) : c_str (c_str a) = c_str a.
Proof. apply c_str_plain, c_str_no_NUL. Qed.

Lemma c_str_take (a : list ascii) : take (length (c_str a)) a = c_str a.
Proof.
  induction a as [|c a IH]; [reflexivity|].
  cbn [c_str]. destruct (Ascii.eqb c NUL); [reflexivity|].
  cbn [length take]. now rewrite IH.
Qed.

Lemma c_str_length (a : list ascii) : (length (c_str a) <= length a)%nat.
Proof.
  induction a as [|c a IH]; [reflexivity|].
  cbn [c_str]. destruct (Ascii.eqb c NUL); cbn [length]; lia.
Qed.

Lemma c_str_zeros (n : nat) (rest : list ascii) :
  c_str (replicate n NUL ++ NUL :: rest) = [].
Proof. destruct n; reflexivity. Qed.

Lemma c_str_drop (a : list ascii) (k : nat) :
  (k <= length (c_str a))%nat -> c_str (drop k a) = drop k (c_str a).
Proof.
  revert k. induction a as [|c a IH]; intros k Hk.
  - cbn [c_str]. rewrite !drop_nil. reflexivity.
  - destruct k as [|k]; [reflexivity|].
    cbn [c_str] in *. destruct (Ascii.eqb c NUL); cbn [length] in Hk; [lia|].
    cbn [drop]. apply IH. lia.
Qed.

Lemma length_zeros (n : Z) : length (zeros n) = Z.to_nat n.
Proof. apply length_replicate. Qed.

Lemma length_strncpy (dst src : list ascii) (n : Z) :
  (Z.to_nat n <= length dst)%nat -> length (strncpy dst src n) = length dst.
Proof.
  intros Hn. unfold strncpy.
  rewrite !length_app, length_replicate, length_drop, length_take. lia.
Qed.

(** After [strncpy(dst, src, n); dst[n] = 0] the array holds the first
    [n] characters of the source string. *)
Lemma c_str_strncpy (dst src : list ascii) (n : nat) :
  (n < length dst)%nat ->
  c_str (<[n := NUL]> (strncpy dst src (Z.of_nat n))) = take n (c_str src).
Proof.
  intros Hn. unfold strncpy. rewrite Nat2Z.id.
  set (copied := take n (c_str src)).
  assert (Hlen : (length copied <= n)%nat) by (unfold copied; rewrite length_take; lia).
  assert (Hplain : Forall (fun c => c <> NUL) copied)
    by (apply Forall_take, c_str_no_NUL).
  destruct (drop n dst) as [|d rest] eqn:Hdrop.
  { apply (f_equal length) in Hdrop. rewrite length_drop in Hdrop. cbn in Hdrop. lia. }
  rewrite app_assoc.
  replace n with (length (copied ++ replicate (n - length copied) NUL) + 0)%nat at 1
    by (rewrite length_app, length_replicate; lia).
  rewrite insert_app_r. cbn [insert list_insert].
  rewrite <- app_assoc, (c_str_app _ _ Hplain), c_str_zeros. apply app_nil_r.
Qed.

(** ** Connecting *)

(** X12. [gopher_connect] keeps the first 63 characters of the host name,
    replaces port 0 by 70, and forgets the listing and the history of
    the client it is given. *)
Theorem gopher_connect_resets client hostname port :
  exists client',
    gopher_connect client (Some hostname) port = (0, client') /\
    c_str (client_hostname client') = take 63 (c_str hostname) /\
    length (client_hostname client') = 64%nat /\
    client_port client' = (if port =? 0 then 70 else port) /\
    connected client' = true /\
    items client' = zero_items /\ item_count client' = 0 /\
    history client' = history zero_client /\
    history_pos client' = 0 /\ history_count client' = 0.
Proof.
  eexists. split; [reflexivity|]. cbn [client_hostname client_port connected items
    item_count history history_pos history_count zero_client].
  split; [|split; [|repeat split]].
  - apply (c_str_strncpy _ hostname 63). rewrite length_zeros. cbv. lia.
  - rewrite length_insert, length_strncpy; rewrite length_zeros; cbv; [reflexivity|lia].
Qed.

(** ** The history *)

Lemma c_str_strncpy_zeros (src : list ascii) (n size : Z) :
  0 <= n < size ->
  c_str (strncpy (zeros size) src n) = take (Z.to_nat n) (c_str src).
Proof.
  intros Hn. unfold strncpy.
  set (copied := take (Z.to_nat n) (c_str src)).
  assert (Hplain : Forall (fun c => c <> NUL) copied)
    by (apply Forall_take, c_str_no_NUL).
  rewrite (c_str_app _ _ Hplain).
  unfold zeros. rewrite drop_replicate.
  destruct (Z.to_nat size - Z.to_nat n)%nat as [|k] eqn:Hk; [lia|].
  cbn [replicate]. rewrite c_str_zeros. apply app_nil_r.
Qed.

Lemma gopher_update_history_step client selector :
  length (history client) = 10%nat -> 0 <= history_pos client < 10 ->
  let pos := (history_pos client + 1) mod 10 in
  exists slot,
    gopher_update_history client (Some selector) =
      Some (0, {| client_hostname := client_hostname client;
                  client_port := client_port client;
                  connected := connected client;
                  items := items client;
                  item_count := item_count client;
                  history := <[Z.to_nat pos := slot]> (history client);
                  history_pos := pos;
                  history_count := if history_count client <? 10
                                   then history_count client + 1
                                   else history_count client |}) /\
    c_str slot = take 255 (c_str selector) /\ length slot = 256%nat.
Proof.
  intros Hlen Hpos pos.
  assert (Hrem : Z.rem (to_int (history_pos client + 1)) 10 = pos).
  { unfold to_int, pos. rewrite (Z.mod_small (_ + 2 ^ 31)) by lia.
    rewrite Z.rem_mod_nonneg by lia. f_equal. lia. }
  assert (Hrange : 0 <= pos < 10) by (apply Z.mod_pos_bound; lia).
  exists (strncpy (zeros GOPHER_MAX_SELECTOR_LEN) selector (GOPHER_MAX_SELECTOR_LEN - 1)).
  split; [|split].
  - unfold gopher_update_history. rewrite Hrem.
    destruct (read_Some (history client) pos) as (old & -> & _); [lia|].
    cbn [mbind option_bind]. rewrite write_Some by lia. reflexivity.
  - apply (c_str_strncpy_zeros selector 255 256). lia.
  - rewrite length_strncpy; rewrite length_zeros; cbv; [reflexivity|lia].
Qed.

(** X13. The history is a ring of ten slots: after any number of calls
    from a consistent state the position has advanced by that number
    modulo 10, the count has grown up to 10, each of the last ten
    selectors sits (cut to 255 characters) in the slot its turn gave it,
    and the other slots are untouched. *)
Theorem gopher_update_history_ring client selectors :
  length (history client) = 10%nat ->
  0 <= history_pos client < 10 ->
  0 <= history_count client <= 10 ->
  let n := Z.of_nat (length selectors) in
  exists client',
    record_history client selectors = Some client' /\
    history_pos client' = (history_pos client + n) mod 10 /\
    history_count client' = Z.min 10 (history_count client + n) /\
    length (history client') = 10%nat /\
    (forall k selector,
        0 <= k < 10 -> rev selectors !! Z.to_nat k = Some selector ->
        exists slot,
          history client' !! Z.to_nat ((history_pos client + n - k) mod 10) = Some slot /\
          c_str slot = take 255 (c_str selector)) /\
    (forall j,
        0 <= j < 10 ->
        (forall k, 0 <= k < Z.min 10 n -> j <> (history_pos client + n - k) mod 10) ->
        history client' !! Z.to_nat j = history client !! Z.to_nat j).
Proof.
  revert client. induction selectors as [|selector rest IH]; intros client Hlen Hpos Hcount n.
  - exists client. cbn [record_history length] in *. subst n.
    change (Z.of_nat 0) with 0. rewrite !Z.add_0_r, Z.mod_small, Z.min_r by lia.
    split; [reflexivity|]. split; [reflexivity|]. split; [reflexivity|].
    split; [exact Hlen|]. split; [|reflexivity].
    intros k sel _ Hk. cbn [rev] in Hk. rewrite lookup_nil in Hk. discriminate.
  - destruct (gopher_update_history_step client selector Hlen Hpos)
      as (slot & Hstep & Hslot & Hslotlen).
    set (pos1 := (history_pos client + 1) mod 10) in *.
    assert (Hpos1 : 0 <= pos1 < 10) by (apply Z.mod_pos_bound; lia).
    match type of Hstep with _ = Some (0, ?c) => set (client1 := c) in * end.
    destruct (IH client1) as (client' & Hrun & Hp & Hc & Hl & Hlast & Hkeep).
    { cbn [client1 history]. now rewrite length_insert. }
    { exact Hpos1. }
    { cbn [client1 history_count]. destruct (history_count client <? 10) eqn:E; lia. }
    set (m := Z.of_nat (length rest)) in *.
    assert (Hn : n = m + 1) by (subst n m; cbn [length]; lia).
    assert (Hshift : forall k, (pos1 + m - k) mod 10 = (history_pos client + n - k) mod 10).
    { intros k. unfold pos1. rewrite Hn.
      rewrite <- Z.add_sub_assoc, Zplus_mod_idemp_l. f_equal. lia. }
    exists client'. cbn [record_history]. rewrite Hstep. cbn [mbind option_bind snd].
    split; [exact Hrun|].
    cbn [client1 history_pos history_count history] in Hp, Hc, Hlast, Hkeep.
    split; [|split; [|split; [exact Hl|split]]].
    + rewrite Hp. fold pos1. rewrite <- (Z.sub_0_r (pos1 + m)), Hshift. f_equal. lia.
    + rewrite Hc. destruct (history_count client <? 10) eqn:E; lia.
    + intros k sel Hk Hsel. cbn [rev] in Hsel.
      destruct (Z.lt_ge_cases k m) as [Hkm|Hkm].
      * rewrite lookup_app_l in Hsel by (rewrite length_rev; lia).
        destruct (Hlast k sel Hk Hsel) as (s & Hs & Hcs).
        exists s. now rewrite <- Hshift.
      * rewrite lookup_app_r in Hsel by (rewrite length_rev; lia).
        rewrite length_rev in Hsel.
        destruct (Z.to_nat k - length rest)%nat as [|d] eqn:Hd; [|destruct d; discriminate].
        injection Hsel as <-.
        assert (k = m) by lia. subst k. clear Hkm Hd.
        replace ((history_pos client + n - m) mod 10) with pos1
          by (unfold pos1; f_equal; lia).
        exists slot. split; [|exact Hslot].
        rewrite Hkeep; [apply list_lookup_insert_eq; lia|exact Hpos1|].
        intros k Hk' Heq.
        assert (Hz : (m - k) mod 10 = 0).
        { rewrite <- (Z.mod_small pos1 10) in Heq at 1 by lia.
          assert (Hd' : (pos1 + m - k - pos1) mod 10 = 0).
          { rewrite Zminus_mod, <- Heq, Z.sub_diag. reflexivity. }
          rewrite <- Hd'. f_equal. lia. }
        apply Z.mod_divide in Hz; [|lia]. destruct Hz as [q Hq]. lia.
    + intros j Hj Hfree.
      rewrite Hkeep; [|exact Hj|].
      * apply list_lookup_insert_ne. intros Heq.
        apply (Hfree ((n - 1) mod 10)).
        { pose proof (Z.mod_pos_bound (n - 1) 10 ltac:(lia)).
          pose proof (Z.mod_le (n - 1) 10 ltac:(lia) ltac:(lia)). lia. }
        assert (j = pos1) by lia. subst j. unfold pos1.
        pose proof (Z.div_mod (n - 1) 10 ltac:(lia)).
        replace (history_pos client + n - (n - 1) mod 10)
          with (history_pos client + 1 + (n - 1) / 10 * 10) by lia.
        symmetry. apply Z_mod_plus_full.
      * intros k Hk. rewrite Hshift. apply Hfree. lia.
Qed.

Lemma gopher_update_history_ring_witness :
  exists client',
    record_history (snd (gopher_client_init zero_client))
      (map (fun n => replicate n "a"%char) (seq 1 12)) = Some client' /\
    history_pos client' = 2 /\ history_count client' = 10 /\
    (c_str <$> history client' !! 2%nat) =
      Some (list_ascii_of_string "aaaaaaaaaaaa") /\
    (c_str <$> history client' !! 3%nat) = Some (list_ascii_of_string "aaa").
Proof.
  destruct (gopher_update_history_ring (snd (gopher_client_init zero_client))
              (map (fun n => replicate n "a"%char) (seq 1 12)))
    as (client' & Hrun & Hpos & Hcount & _ & Hlast & _).
  - reflexivity.
  - cbn. lia.
  - cbn. lia.
  - exists client'. split; [exact Hrun|]. split; [exact Hpos|]. split; [exact Hcount|].
    split.
    + destruct (Hlast 0 (list_ascii_of_string "aaaaaaaaaaaa")) as (slot & Hs & Hc);
        [lia|reflexivity|].
      change (history client' !! 2%nat = Some slot) in Hs. rewrite Hs. cbn [fmap option_fmap option_map].
      f_equal. exact Hc.
    + destruct (Hlast 9 (list_ascii_of_string "aaa")) as (slot & Hs & Hc);
        [lia|reflexivity|].
      change (history client' !! 3%nat = Some slot) in Hs. rewrite Hs. cbn [fmap option_fmap option_map].
      f_equal. exact Hc.
Defined.

(** ** The directory parser stays in bounds *)

Lemma memchr_range (s : list ascii) (c : ascii) (off : Z) :
  memchr s c = Some off -> 0 <= off < Z.of_nat (length s).
Proof.
  revert off. induction s as [|d s IH]; intros off H; [discriminate|].
  cbn [memchr] in H. destruct (Ascii.eqb d c).
  - injection H as <-. cbn [length]. lia.
  - destruct (memchr s c) as [o|]; [|discriminate].
    injection H as <-. specialize (IH o eq_refl). cbn [length]. lia.
Qed.

Lemma memmem_at_range (hay needle : list ascii) (off : Z) :
  memmem_at hay needle = Some off -> 0 <= off <= Z.of_nat (length hay).
Proof.
  revert off. induction hay as [|d hay IH]; intros off H.
  - cbn [memmem_at] in H. destruct (is_prefix needle []); [|discriminate].
    injection H as <-. cbn. lia.
  - cbn [memmem_at] in H. destruct (is_prefix needle (d :: hay)).
    + injection H as <-. cbn [length]. lia.
    + destruct (memmem_at hay needle) as [o|]; [|discriminate].
      injection H as <-. specialize (IH o eq_refl). cbn [length]. lia.
Qed.

Lemma length_slice (buf : list ascii) (lo hi : Z) :
  0 <= lo <= hi -> hi <= Z.of_nat (length buf) ->
  Z.of_nat (length (slice buf lo hi)) = hi - lo.
Proof.
  intros H1 H2. unfold slice. rewrite length_take, length_drop. lia.
Qed.

Lemma find_tab_range (buffer : list ascii) (field_start line_end field_end : Z) :
  0 <= field_start <= line_end -> line_end <= Z.of_nat (length buffer) ->
  find_tab buffer field_start line_end = Some field_end ->
  field_start <= field_end < line_end.
Proof.
  intros H1 H2. unfold find_tab.
  destruct (memchr _ TAB) as [off|] eqn:E; [|discriminate].
  intros [= <-]. apply memchr_range in E. rewrite length_slice in E by lia. lia.
Qed.

Lemma copy_field_Some (size : Z) (src : list ascii) (len : Z) :
  0 < size -> 0 <= len ->
  exists dst, copy_field size src len = Some dst /\ length dst = Z.to_nat size.
Proof.
  intros Hsize Hlen. unfold copy_field.
  set (n := if size <=? len then size - 1 else len).
  assert (Hn : 0 <= n < size) by (unfold n; destruct (Z.leb_spec size len); lia).
  set (dst := if 0 <? n then strncpy (zeros size) src n else zeros size).
  assert (Hdst : length dst = Z.to_nat size).
  { unfold dst. destruct (0 <? n); [rewrite length_strncpy|]; rewrite length_zeros; lia. }
  rewrite write_Some by lia. eexists. split; [reflexivity|].
  now rewrite length_insert.
Qed.

Lemma advance_refl st : advance st st.
Proof. unfold advance. split; [lia|]. split; reflexivity. Qed.

Lemma advance_write st (n : Z) (it : gopher_item) :
  0 <= count st < Z.of_nat (length (parsed st)) ->
  count st <= n <= count st + 1 ->
  advance st {| line_start := line_start st; count := n;
                parsed := <[Z.to_nat (count st) := it]> (parsed st) |}.
Proof.
  intros Hc Hn. unfold advance. cbn [count parsed]. split; [exact Hn|]. split.
  - apply length_insert.
  - intros i Hi. apply list_lookup_insert_ne. congruence.
Qed.

Lemma next_line_ok (line_end buffer_end : Z) st0 st :
  advance st0 st -> line_start st0 <= line_end ->
  exit_ok buffer_end st0 (next_line line_end buffer_end st).
Proof.
  intros Hadv Hle. unfold next_line.
  destruct (Z.leb_spec (line_end + 2) buffer_end); cbn [exit_ok]; [|exact Hadv].
  split; [|cbn [line_start]; lia].
  destruct Hadv as (H1 & H2 & H3). unfold advance. cbn [count parsed]. auto.
Qed.

Ltac write_back :=
  rewrite write_Some by lia; cbn [mbind option_bind];
  eexists; (split; [reflexivity|]).

Lemma parse_line_ok client buffer buffer_end st :
  0 <= line_start st < buffer_end -> buffer_end <= Z.of_nat (length buffer) ->
  0 <= count st < Z.of_nat (length (parsed st)) ->
  exists ex, parse_line client buffer buffer_end st = Some ex /\ exit_ok buffer_end st ex.
Proof.
  intros Hls Hbe Hcount. unfold parse_line. cbv zeta.
  destruct ((line_start st <? 0) || (buffer_end <=? line_start st));
    [eexists; split; [reflexivity|apply advance_refl]|].
  destruct (read_Some buffer (line_start st)) as (c & -> & _); [lia|].
  cbn [mbind option_bind].
  destruct (Ascii.eqb c NUL); [eexists; split; [reflexivity|apply advance_refl]|].
  set (line_end := match memmem_at _ _ with Some _ => _ | None => _ end).
  assert (Hle : line_start st <= line_end <= buffer_end).
  { unfold line_end. destruct (memmem_at _ _) as [off|] eqn:E; [|lia].
    apply memmem_at_range in E. destruct (Z.ltb_spec (line_start st + off) buffer_end); lia. }
  clearbody line_end.
  destruct (Ascii.eqb c "." && (line_end =? line_start st + 1));
    [eexists; split; [reflexivity|apply advance_refl]|].
  destruct (Z.leb_spec line_end (line_start st)).
  { eexists. split; [reflexivity|]. apply next_line_ok; [apply advance_refl|lia]. }
  destruct (read_Some (parsed st) (count st)) as (it & -> & _); [lia|].
  cbn [mbind option_bind].
  assert (Hsame : forall it', exit_ok buffer_end st
            (next_line line_end buffer_end
               {| line_start := line_start st; count := count st;
                  parsed := <[Z.to_nat (count st) := it']> (parsed st) |})).
  { intros it'. apply next_line_ok; [apply advance_write; lia|lia]. }
  assert (Hnext : forall it', exit_ok buffer_end st
            (next_line line_end buffer_end
               {| line_start := line_start st; count := count st + 1;
                  parsed := <[Z.to_nat (count st) := it']> (parsed st) |})).
  { intros it'. apply next_line_ok; [apply advance_write; lia|lia]. }
  destruct (Z.leb_spec buffer_end (line_start st + 1)).
  { write_back. apply advance_write; lia. }
  destruct (find_tab buffer (line_start st + 1) line_end) as [field_end1|] eqn:Htab1.
  2:{ cbn [set_type item_type]. destruct (Ascii.eqb c "i").
      - destruct (copy_field_Some GOPHER_MAX_SELECTOR_LEN
                    (drop (Z.to_nat (line_start st + 1)) buffer)
                    (line_end - (line_start st + 1))) as (display & -> & _);
          [reflexivity|lia|].
        cbn [mbind option_bind]. write_back. apply Hnext.
      - write_back. apply Hsame. }
  apply find_tab_range in Htab1; [|lia|lia].
  destruct (copy_field_Some GOPHER_MAX_SELECTOR_LEN
              (drop (Z.to_nat (line_start st + 1)) buffer)
              (field_end1 - (line_start st + 1))) as (display & -> & _);
    [reflexivity|lia|].
  cbn [mbind option_bind].
  destruct ((buffer_end <=? field_end1 + 1) || (line_end <=? field_end1 + 1)) eqn:Hend1.
  { write_back. apply Hsame. }
  apply orb_false_elim in Hend1. destruct Hend1 as [_ Hend1]. apply Z.leb_gt in Hend1.
  destruct (find_tab buffer (field_end1 + 1) line_end) as [field_end2|] eqn:Htab2.
  2:{ write_back. apply Hsame. }
  apply find_tab_range in Htab2; [|lia|lia].
  destruct (copy_field_Some GOPHER_MAX_SELECTOR_LEN
              (drop (Z.to_nat (field_end1 + 1)) buffer)
              (field_end2 - (field_end1 + 1))) as (selector & -> & _);
    [reflexivity|lia|].
  cbn [mbind option_bind].
  destruct ((buffer_end <=? field_end2 + 1) || (line_end <=? field_end2 + 1)) eqn:Hend2.
  { write_back. apply Hsame. }
  apply orb_false_elim in Hend2. destruct Hend2 as [_ Hend2]. apply Z.leb_gt in Hend2.
  destruct (find_tab buffer (field_end2 + 1) line_end) as [field_end3|] eqn:Htab3.
  2:{ write_back. apply Hsame. }
  apply find_tab_range in Htab3; [|lia|lia].
  destruct (copy_field_Some GOPHER_MAX_HOSTNAME_LEN
              (drop (Z.to_nat (field_end2 + 1)) buffer)
              (field_end3 - (field_end2 + 1))) as (hostname & -> & _);
    [reflexivity|lia|].
  cbn [mbind option_bind].
  destruct ((buffer_end <=? field_end3 + 1) || (line_end <=? field_end3 + 1)) eqn:Hend3.
  { write_back. apply Hsame. }
  apply orb_false_elim in Hend3. destruct Hend3 as [_ Hend3]. apply Z.leb_gt in Hend3.
  set (len := MIN (line_end - (field_end3 + 1)) (16 - 1)).
  assert (Hlen : 0 < len <= 15).
  { unfold len, MIN. destruct (Z.ltb_spec (line_end - (field_end3 + 1)) (16 - 1)); lia. }
  destruct (Z.ltb_spec 0 len); [|lia].
  rewrite write_Some by (rewrite length_strncpy; rewrite length_zeros; lia).
  cbn [mbind option_bind]. write_back. apply Hnext.
Qed.

Lemma parse_lines_ok client buffer buffer_end fuel st :
  0 <= line_start st <= buffer_end -> buffer_end <= Z.of_nat (length buffer) ->
  0 <= count st <= GOPHER_MAX_DIR_ITEMS ->
  Z.of_nat (length (parsed st)) = GOPHER_MAX_DIR_ITEMS ->
  buffer_end - line_start st <= Z.of_nat fuel ->
  exists st',
    parse_lines fuel client buffer buffer_end st = Some st' /\
    count st <= count st' <= GOPHER_MAX_DIR_ITEMS /\
    length (parsed st') = length (parsed st) /\
    forall i, (Z.to_nat (count st') < i)%nat -> parsed st' !! i = parsed st !! i.
Proof.
  revert st. induction fuel as [|fuel IH]; intros st Hls Hbe Hcount Hlen Hfuel.
  - exists st. cbn [parse_lines].
    destruct (Z.ltb_spec (line_start st) buffer_end); [lia|]. cbn [andb].
    split; [reflexivity|]. split; [lia|]. split; reflexivity.
  - cbn [parse_lines].
    destruct (Z.ltb_spec (line_start st) buffer_end);
      [destruct (Z.ltb_spec (count st) GOPHER_MAX_DIR_ITEMS)|]; cbn [andb].
    2,3: exists st; split; [reflexivity|]; split; [lia|]; split; reflexivity.
    destruct (parse_line_ok client buffer buffer_end st) as (ex & -> & Hex); [lia|lia|lia|].
    destruct ex as [st'|st']; cbn [exit_ok] in Hex.
    + destruct Hex as ((Hc & Hl & Hkeep) & Hadv).
      destruct (IH st') as (st'' & -> & Hc' & Hl' & Hkeep'); [lia|lia|lia|lia|lia|].
      exists st''. split; [reflexivity|]. split; [lia|]. split; [congruence|].
      intros i Hi. rewrite Hkeep' by exact Hi. apply Hkeep. lia.
    + destruct Hex as (Hc & Hl & Hkeep).
      exists st'. split; [reflexivity|]. split; [lia|]. split; [exact Hl|].
      intros i Hi. apply Hkeep. lia.
Qed.

Lemma existsb_In_eqb (c : ascii) (s : list ascii) :
  existsb (Ascii.eqb c) s = true -> In c s.
Proof.
  intros H. apply existsb_exists in H. destruct H as (d & Hd & Heq).
  apply Ascii.eqb_eq in Heq. now subst.
Qed.

(** X14. [gopher_parse_directory] returns for every buffer, never
    touches memory outside the buffer or the item table, and reports
    between 0 and 64 items.  An empty response leaves the client as it
    was, listing included; otherwise the item count is the result and
    the entries after the one at the result are zero.  It finds items
    only in a response that starts with an item type and has a TAB. *)
Theorem gopher_parse_directory_safe client buffer :
  exists n client',
    gopher_parse_directory client (Some buffer) = Some (n, client') /\
    0 <= n <= 64 /\
    client_hostname client' = client_hostname client /\
    client_port client' = client_port client /\
    connected client' = connected client /\
    history client' = history client /\
    history_pos client' = history_pos client /\
    history_count client' = history_count client /\
    (c_str buffer = [] -> n = 0 /\ client' = client) /\
    (c_str buffer <> [] ->
       item_count client' = n /\ length (items client') = 64%nat /\
       forall i, (Z.to_nat n < i)%nat -> (i < 64)%nat -> items client' !! i = Some zero_item) /\
    (0 < n -> exists c, head buffer = Some c /\ is_listing_type c = true /\
                        In TAB (c_str buffer)).
Proof.
  unfold gopher_parse_directory.
  destruct (c_str buffer) as [|c0 text] eqn:Htext.
  { exists 0, client. cbn. repeat split; try lia; try congruence. }
  change (Z.of_nat (length (c0 :: text)) =? 0) with false. cbv iota.
  pose proof (c_str_length buffer) as Hlen. rewrite Htext in Hlen.
  destruct buffer as [|c buffer']; [discriminate|].
  change (read (c :: buffer') 0) with (Some c). cbn [mbind option_bind].
  destruct (is_listing_type c && existsb (Ascii.eqb TAB) (c0 :: text)) eqn:Hdir; cbn [negb].
  2:{ exists 0, (with_items client zero_items 0). cbn.
      repeat split; try lia; try congruence.
      intros i _ Hi. apply lookup_replicate_2. exact Hi. }
  apply andb_prop in Hdir. destruct Hdir as [Htype Htab].
  destruct (parse_lines_ok (with_items client zero_items 0) (c :: buffer')
              (Z.of_nat (length (c0 :: text))) (S (length (c :: buffer')))
              {| line_start := 0; count := 0; parsed := zero_items |})
    as (st & Hrun & Hc & Hl & Hkeep); cbn [line_start count parsed]; try lia; try reflexivity.
  { unfold GOPHER_MAX_DIR_ITEMS. lia. }
  cbn [items with_items]. rewrite Hrun. cbn [mbind option_bind].
  exists (count st), (with_items (with_items client zero_items 0) (parsed st) (count st)).
  cbn [with_items client_hostname client_port connected items item_count history
       history_pos history_count].
  cbn [line_start count parsed] in Hc, Hl, Hkeep.
  unfold GOPHER_MAX_DIR_ITEMS in Hc.
  split; [reflexivity|]. split; [lia|]. do 6 (split; [reflexivity|]).
  split; [discriminate|]. split.
  - intros _. split; [reflexivity|]. split; [rewrite Hl; reflexivity|].
    intros i Hi Hi64. rewrite Hkeep by exact Hi. apply lookup_replicate_2. exact Hi64.
  - intros _. exists c. split; [reflexivity|]. split; [exact Htype|].
    apply existsb_In_eqb. exact Htab.
Qed.

(** ** Parsing a well-formed listing *)

(** *** Decimal numbers *)

Lemma isdigit_digit (d : Z) :
  0 <= d < 10 -> isdigit (ascii_of_nat (Z.to_nat (48 + d))) = true /\
                 byte_val (ascii_of_nat (Z.to_nat (48 + d))) - 48 = d.
Proof.
  intros Hd.
  assert (Hcases : d = 0 \/ d = 1 \/ d = 2 \/ d = 3 \/ d = 4 \/ d = 5 \/ d = 6 \/
                   d = 7 \/ d = 8 \/ d = 9) by lia.
  repeat (destruct Hcases as [->|Hcases]; [split; reflexivity|]).
  subst d. split; reflexivity.
Qed.

Lemma decimal_digits_acc (fuel : nat) (n : Z) (acc : list ascii) :
  decimal_digits fuel n acc = decimal_digits fuel n [] ++ acc.
Proof.
  revert n acc. induction fuel as [|fuel IH]; intros n acc; [reflexivity|].
  cbn [decimal_digits]. destruct (n <? 10); [reflexivity|].
  rewrite (IH _ (_ :: acc)), (IH _ [_]), <- app_assoc. reflexivity.
Qed.

Lemma strtol_digits_app (s rest : list ascii) (acc : Z) :
  Forall (fun c => isdigit c = true) s ->
  strtol_digits acc (s ++ rest) =
    strtol_digits (fold_left (fun v c => 10 * v + (byte_val c - 48)) s acc) rest.
Proof.
  intros Hs. revert acc. induction Hs as [|c s Hc _ IH]; intros acc; [reflexivity|].
  cbn [app strtol_digits fold_left]. rewrite Hc. apply IH.
Qed.

Lemma decimal_digits_spec (fuel : nat) (n : Z) :
  0 <= n < 10 ^ Z.of_nat (S fuel) ->
  Forall (fun c => isdigit c = true) (decimal_digits fuel n []) /\
  fold_left (fun v c => 10 * v + (byte_val c - 48)) (decimal_digits fuel n []) 0 = n /\
  (1 <= length (decimal_digits fuel n []) <= S fuel)%nat.
Proof.
  revert n. induction fuel as [|fuel IH]; intros n Hn.
  - change (10 ^ Z.of_nat 1) with 10 in Hn.
    cbn [decimal_digits]. rewrite Z.mod_small by lia.
    destruct (isdigit_digit n Hn) as [Hd Hv].
    split; [repeat constructor; exact Hd|]. split; [simpl fold_left; lia|simpl length; lia].
  - cbn [decimal_digits]. destruct (Z.ltb_spec n 10).
    + rewrite Z.mod_small by lia.
      destruct (isdigit_digit n ltac:(lia)) as [Hd Hv].
      split; [repeat constructor; exact Hd|]. split; [simpl fold_left; lia|simpl length; lia].
    + rewrite decimal_digits_acc.
      assert (Hq : 0 <= n / 10 < 10 ^ Z.of_nat (S fuel)).
      { split; [apply Z.div_pos; lia|].
        apply Z.div_lt_upper_bound; [lia|].
        replace (Z.of_nat (S (S fuel))) with (Z.succ (Z.of_nat (S fuel))) in Hn by lia.
        rewrite Z.pow_succ_r in Hn by lia. lia. }
      destruct (IH _ Hq) as (Hall & Hval & Hlen).
      destruct (isdigit_digit (n mod 10)) as [Hd Hv];
        [apply Z.mod_pos_bound; lia|].
      split; [apply Forall_app; split; [exact Hall|repeat constructor; exact Hd]|].
      split.
      * rewrite fold_left_app, Hval. cbn [fold_left]. rewrite Hv.
        pose proof (Z.div_mod n 10 ltac:(lia)). lia.
      * rewrite length_app. cbn [length]. lia.
Qed.

Lemma decimal_spec (n : Z) :
  0 <= n < 10 ^ 15 ->
  Forall (fun c => isdigit c = true) (decimal n) /\
  strtol_digits 0 (decimal n) = n /\
  (1 <= length (decimal n) <= 15)%nat.
Proof.
  intros Hn. destruct (decimal_digits_spec 14 n Hn) as (Hall & Hval & Hlen).
  split; [exact Hall|]. split; [|exact Hlen].
  rewrite <- (app_nil_r (decimal n)), (strtol_digits_app _ _ _ Hall). exact Hval.
Qed.

Lemma isdigit_field_char (c : ascii) : isdigit c = true -> field_char c.
Proof.
  intros H. repeat split; intros ->; discriminate.
Qed.

Lemma strtol_of_digits (s : list ascii) (c : ascii) (digits : list ascii) :
  c_str s = c :: digits -> isdigit c = true ->
  strtol s = Z.min LONG_MAX (strtol_digits 0 (c :: digits)).
Proof.
  intros Hs Hc. unfold strtol. rewrite Hs.
  assert (Hsp : isspace c = false).
  { unfold isdigit in Hc. unfold isspace.
    destruct (Z.leb_spec 48 (byte_val c)); [|discriminate].
    destruct (Z.eqb_spec (byte_val c) 32); [lia|].
    destruct (Z.leb_spec (byte_val c) 13); [lia|]. now rewrite andb_false_r. }
  cbn [skip_spaces]. rewrite Hsp.
  destruct c as [[] [] [] [] [] [] [] []]; try discriminate Hc; reflexivity.
Qed.

(** *** Pieces of the buffer *)

Ltac list_norm := repeat (progress (rewrite <- ?app_assoc; cbn [app])).
Ltac list_len := repeat first [rewrite length_app | progress cbn [length]]; lia.

Lemma slice_mid (a b c : list ascii) (lo hi : Z) :
  lo = Z.of_nat (length a) -> hi = lo + Z.of_nat (length b) ->
  slice (a ++ b ++ c) lo hi = b.
Proof.
  intros -> ->. unfold slice. rewrite Nat2Z.id, drop_app_length.
  replace (Z.to_nat _) with (length b) by lia. apply take_app_length.
Qed.

Lemma read_mid (a : list ascii) (c : ascii) (b : list ascii) (i : Z) :
  i = Z.of_nat (length a) -> read (a ++ c :: b) i = Some c.
Proof.
  intros ->. unfold read. destruct (Z.ltb_spec (Z.of_nat (length a)) 0); [lia|].
  rewrite Nat2Z.id. apply list_lookup_middle. reflexivity.
Qed.

Lemma drop_mid (a b : list ascii) (i : Z) :
  i = Z.of_nat (length a) -> drop (Z.to_nat i) (a ++ b) = b.
Proof. intros ->. rewrite Nat2Z.id. apply drop_app_length. Qed.

Lemma memmem_at_crlf (line rest : list ascii) :
  Forall (fun c => c <> CR) line ->
  memmem_at (line ++ CR :: NL :: rest) [CR; NL] = Some (Z.of_nat (length line)).
Proof.
  induction 1 as [|c line Hc _ IH]; [reflexivity|].
  cbn [app memmem_at is_prefix].
  destruct (Ascii.eqb_spec CR c) as [<-|_]; [contradiction|].
  cbn [andb]. cbn [memmem_at] in IH. rewrite IH. cbn [fmap option_fmap option_map length].
  f_equal. lia.
Qed.

Lemma memchr_found (s rest : list ascii) (c : ascii) :
  Forall (fun d => d <> c) s ->
  memchr (s ++ c :: rest) c = Some (Z.of_nat (length s)).
Proof.
  induction 1 as [|d s Hd _ IH].
  - cbn [app memchr]. now rewrite Ascii.eqb_refl.
  - cbn [app memchr]. destruct (Ascii.eqb_spec d c) as [->|_]; [contradiction|].
    rewrite IH. cbn [fmap option_fmap option_map length]. f_equal. lia.
Qed.

Lemma memchr_missing (s : list ascii) (c : ascii) :
  Forall (fun d => d <> c) s -> memchr s c = None.
Proof.
  induction 1 as [|d s Hd _ IH]; [reflexivity|].
  cbn [memchr]. destruct (Ascii.eqb_spec d c) as [->|_]; [contradiction|].
  now rewrite IH.
Qed.

Lemma find_tab_found (buffer a field more c : list ascii) (field_start line_end : Z) :
  buffer = a ++ (field ++ TAB :: more) ++ c ->
  Forall (fun d => d <> TAB) field ->
  field_start = Z.of_nat (length a) ->
  line_end = field_start + Z.of_nat (length (field ++ TAB :: more)) ->
  find_tab buffer field_start line_end = Some (field_start + Z.of_nat (length field)).
Proof.
  intros -> Hfield Hfs Hle. unfold find_tab.
  rewrite (slice_mid a _ c _ _ Hfs Hle), (memchr_found _ _ _ Hfield). reflexivity.
Qed.

Lemma find_tab_missing (buffer a b c : list ascii) (field_start line_end : Z) :
  buffer = a ++ b ++ c ->
  Forall (fun d => d <> TAB) b ->
  field_start = Z.of_nat (length a) ->
  line_end = field_start + Z.of_nat (length b) ->
  find_tab buffer field_start line_end = None.
Proof.
  intros -> Hb Hfs Hle. unfold find_tab.
  rewrite (slice_mid a _ c _ _ Hfs Hle), (memchr_missing _ _ Hb). reflexivity.
Qed.

Lemma length_field_array (size : Z) (s : list ascii) :
  (length s <= Z.to_nat size)%nat -> length (field_array size s) = Z.to_nat size.
Proof. intros H. unfold field_array. rewrite length_app, length_replicate. lia. Qed.

Lemma c_str_field_array (size : Z) (s : list ascii) :
  Forall (fun c => c <> NUL) s -> (length s < Z.to_nat size)%nat ->
  c_str (field_array size s) = s.
Proof.
  intros Hs Hlen. unfold field_array. rewrite (c_str_app _ _ Hs).
  destruct (Z.to_nat size - length s)%nat as [|k] eqn:Hk; [lia|].
  cbn [replicate c_str]. apply app_nil_r.
Qed.

Lemma strncpy_zeros (size : Z) (src : list ascii) (n : Z) :
  0 <= n <= size ->
  strncpy (zeros size) src n = field_array size (take (Z.to_nat n) (c_str src)).
Proof.
  intros Hn. unfold strncpy, field_array, zeros.
  set (copied := take (Z.to_nat n) (c_str src)).
  assert (Hlen : (length copied <= Z.to_nat n)%nat)
    by (unfold copied; rewrite length_take; lia).
  rewrite drop_replicate, <- replicate_add. do 2 f_equal. lia.
Qed.

Lemma insert_field_array (size : Z) (s : list ascii) (n : nat) :
  (length s <= n)%nat -> <[n := NUL]> (field_array size s) = field_array size s.
Proof.
  intros Hn. unfold field_array.
  rewrite insert_app_r_alt by exact Hn.
  f_equal. destruct (decide (n - length s < Z.to_nat size - length s)%nat) as [Hin|Hout].
  - apply list_insert_id. now apply lookup_replicate_2.
  - apply list_insert_ge. rewrite length_replicate. lia.
Qed.

(** The array after a field was copied in. *)
Lemma copy_field_exact (size : Z) (src : list ascii) (len : Z) :
  0 < size -> 0 <= len ->
  copy_field size src len =
    Some (field_array size (take (Z.to_nat (Z.min len (size - 1))) (c_str src))).
Proof.
  intros Hsize Hlen. unfold copy_field.
  set (n := if size <=? len then size - 1 else len).
  assert (Hn : n = Z.min len (size - 1))
    by (unfold n; destruct (Z.leb_spec size len); lia).
  rewrite <- Hn.
  assert (Hdst : (if 0 <? n then strncpy (zeros size) src n else zeros size)
                 = field_array size (take (Z.to_nat n) (c_str src))).
  { destruct (Z.ltb_spec 0 n); [apply strncpy_zeros; lia|].
    replace (Z.to_nat n) with 0%nat by lia. rewrite take_0.
    unfold field_array, zeros. cbn [app length]. f_equal. lia. }
  rewrite Hdst.
  rewrite write_Some.
  - f_equal. apply insert_field_array. rewrite length_take. lia.
  - rewrite length_field_array; [lia|]. rewrite length_take. lia.
Qed.

Lemma copy_field_at (buffer a field rest : list ascii) (size field_start len : Z) :
  buffer = a ++ field ++ rest ->
  Forall (fun c => c <> NUL) field ->
  field_start = Z.of_nat (length a) -> len = Z.of_nat (length field) -> 0 < size ->
  copy_field size (drop (Z.to_nat field_start) buffer) len =
    Some (field_array size (take (Z.to_nat (size - 1)) field)).
Proof.
  intros -> Hfield Hfs -> Hsize.
  rewrite (drop_mid a _ _ Hfs), copy_field_exact by lia.
  rewrite (c_str_app _ _ Hfield). do 2 f_equal.
  destruct (Z.le_gt_cases (Z.of_nat (length field)) (size - 1)).
  - rewrite Z.min_l, Nat2Z.id by lia.
    rewrite take_app_length. symmetry. apply take_ge. lia.
  - rewrite Z.min_r by lia. apply take_app_le. lia.
Qed.

Lemma Forall_field_char_weaken (P : ascii -> Prop) (s : list ascii) :
  (forall c, field_char c -> P c) -> Forall field_char s -> Forall P s.
Proof. intros HP Hs. eapply Forall_impl; [exact Hs|exact HP]. Qed.

Lemma line_text_plain (l : listing_line) :
  well_formed l ->
  Forall (fun c => c <> NUL) (line_text l) /\ Forall (fun c => c <> CR) (line_text l).
Proof.
  assert (Hnul : forall c, field_char c -> c <> NUL) by (intros c H; apply H).
  assert (Hcr : forall c, field_char c -> c <> CR) by (intros c H; apply H).
  destruct l as [type display selector host port|display]; cbn [well_formed line_text].
  - intros (Htype & Hd & Hs & Hh & Hport).
    destruct (decimal_spec port Hport) as (Hdigits & _ & _).
    assert (Hp : Forall field_char (decimal port))
      by (eapply Forall_impl; [exact Hdigits|exact isdigit_field_char]).
    split.
    + constructor; [now apply Hnul|].
      repeat first [apply Forall_app; split | apply Forall_cons; split; [discriminate|]];
        eapply Forall_field_char_weaken; eauto.
    + constructor; [now apply Hcr|].
      repeat first [apply Forall_app; split | apply Forall_cons; split; [discriminate|]];
        eapply Forall_field_char_weaken; eauto.
  - intros Hd. split.
    + constructor; [discriminate|]. eapply Forall_field_char_weaken; eauto.
    + constructor; [discriminate|]. eapply Forall_field_char_weaken; eauto.
Qed.

Lemma listing_bytes_plain (lines : list listing_line) :
  Forall well_formed lines -> Forall (fun c => c <> NUL) (listing_bytes lines).
Proof.
  induction 1 as [|l lines Hl _ IH]; [constructor|].
  cbn [listing_bytes flat_map]. apply Forall_app. split; [|exact IH].
  apply Forall_app. split; [apply line_text_plain, Hl|].
  repeat constructor; discriminate.
Qed.

Lemma listing_bytes_app (a b : list listing_line) :
  listing_bytes (a ++ b) = listing_bytes a ++ listing_bytes b.
Proof. unfold listing_bytes. apply flat_map_app. Qed.

(** The string in a buffer that continues a NUL-free prefix with a
    line and CR LF. *)
Lemma buffer_string (pre line post : list ascii) :
  Forall (fun c => c <> NUL) pre -> Forall (fun c => c <> NUL) line ->
  c_str (pre ++ line ++ CR :: NL :: post) = pre ++ line ++ CR :: NL :: c_str post.
Proof.
  intros Hpre Hline. rewrite (c_str_app _ _ Hpre), (c_str_app _ _ Hline). reflexivity.
Qed.

Lemma slice_line (pre line post : list ascii) (lo hi : Z) :
  lo = Z.of_nat (length pre) ->
  hi = lo + Z.of_nat (length line) + 2 + Z.of_nat (length (c_str post)) ->
  slice (pre ++ line ++ CR :: NL :: post) lo hi = line ++ CR :: NL :: c_str post.
Proof.
  intros Hlo Hhi. unfold slice. rewrite (drop_mid pre _ _ Hlo).
  replace (Z.to_nat (hi - lo)) with (length (line ++ [CR; NL]) + length (c_str post))%nat
    by (rewrite length_app; cbn [length]; lia).
  replace (line ++ CR :: NL :: post) with ((line ++ [CR; NL]) ++ post)
    by (rewrite <- app_assoc; reflexivity).
  rewrite take_app_add, c_str_take, <- app_assoc. reflexivity.
Qed.

(** *** One line *)

Lemma port_value (port : Z) :
  0 <= port ->
  (if (Z.min LONG_MAX port <=? 0) || (UINT16_MAX <? Z.min LONG_MAX port)
   then GOPHER_DEFAULT_PORT else Z.min LONG_MAX port)
  = (if (1 <=? port) && (port <=? 65535) then port else 70).
Proof.
  intros Hport. unfold LONG_MAX, UINT16_MAX, GOPHER_DEFAULT_PORT.
  destruct (Z.leb_spec (Z.min (2 ^ 31 - 1) port) 0);
    destruct (Z.ltb_spec 65535 (Z.min (2 ^ 31 - 1) port));
    destruct (Z.leb_spec 1 port); destruct (Z.leb_spec port 65535);
    cbn [orb andb]; lia.
Qed.

Lemma parse_line_item client pre type display selector host port post buffer buffer_end
    k items :
  Forall (fun c => c <> NUL) pre ->
  well_formed (item_line type display selector host port) ->
  buffer = pre ++ line_text (item_line type display selector host port) ++ CR :: NL :: post ->
  buffer_end = Z.of_nat (length (c_str buffer)) ->
  0 <= k < Z.of_nat (length items) ->
  parse_line client buffer buffer_end
    {| line_start := Z.of_nat (length pre); count := k; parsed := items |}
  = Some (continue_with
            {| line_start :=
                 Z.of_nat (length pre)
                 + Z.of_nat (length (line_text (item_line type display selector host port)))
                 + 2;
               count := k + 1;
               parsed := <[Z.to_nat k :=
                             parsed_item client (item_line type display selector host port)]>
                           items |}).
Proof.
  intros Hpre Hwf Hbuf Hend Hk.
  destruct (line_text_plain _ Hwf) as [Hnul Hcr].
  destruct Hwf as (Htype & Hd & Hs & Hh & Hport).
  destruct (decimal_spec port Hport) as (Hdigits & Hval & Hplen).
  set (line := line_text (item_line type display selector host port)) in *.
  set (ps := decimal port) in *.
  set (ls := Z.of_nat (length pre)).
  assert (Hline : Z.of_nat (length line)
                  = 1 + Z.of_nat (length display) + 1 + Z.of_nat (length selector) + 1
                    + Z.of_nat (length host) + 1 + Z.of_nat (length ps)).
  { unfold line. cbn [line_text]. fold ps. list_len. }
  assert (Hbe : buffer_end = ls + Z.of_nat (length line) + 2 + Z.of_nat (length (c_str post))).
  { rewrite Hend, Hbuf, (buffer_string _ _ _ Hpre Hnul). unfold ls. list_len. }
  assert (Hbuf' : buffer = pre ++ type :: display ++ TAB :: selector ++ TAB :: host
                             ++ TAB :: ps ++ CR :: NL :: post).
  { rewrite Hbuf. unfold line. cbn [line_text]. fold ps. list_norm. reflexivity. }
  assert (Htab : forall s, Forall field_char s -> Forall (fun d => d <> TAB) s).
  { intros s. apply Forall_field_char_weaken. intros c H. apply H. }
  assert (Hnn : forall s, Forall field_char s -> Forall (fun d => d <> NUL) s).
  { intros s. apply Forall_field_char_weaken. intros c H. apply H. }
  (* the values of the steps *)
  assert (Hread : read buffer ls = Some type).
  { rewrite Hbuf'. apply read_mid. reflexivity. }
  assert (Htype0 : Ascii.eqb type NUL = false).
  { apply Ascii.eqb_neq. apply Htype. }
  assert (Hcrlf : memmem_at (slice buffer ls buffer_end) [CR; NL]
                  = Some (Z.of_nat (length line))).
  { rewrite Hbuf, (slice_line pre line post ls buffer_end eq_refl Hbe).
    apply memmem_at_crlf, Hcr. }
  set (fe1 := ls + 1 + Z.of_nat (length display)).
  set (fe2 := fe1 + 1 + Z.of_nat (length selector)).
  set (fe3 := fe2 + 1 + Z.of_nat (length host)).
  set (le := ls + Z.of_nat (length line)).
  assert (Htab1 : find_tab buffer (ls + 1) le = Some fe1).
  { apply (find_tab_found buffer (pre ++ [type]) display
             (selector ++ TAB :: host ++ TAB :: ps) (CR :: NL :: post)).
    - rewrite Hbuf'. list_norm. reflexivity.
    - apply Htab, Hd.
    - unfold ls. list_len.
    - unfold le. rewrite Hline. list_len. }
  assert (Hcopy1 : copy_field GOPHER_MAX_SELECTOR_LEN (drop (Z.to_nat (ls + 1)) buffer)
                     (fe1 - (ls + 1))
                   = Some (field_array GOPHER_MAX_SELECTOR_LEN (take 255 display))).
  { apply (copy_field_at buffer (pre ++ [type]) display
             (TAB :: selector ++ TAB :: host ++ TAB :: ps ++ CR :: NL :: post)).
    - rewrite Hbuf'. list_norm. reflexivity.
    - apply Hnn, Hd.
    - unfold ls. list_len.
    - unfold fe1. lia.
    - reflexivity. }
  assert (Htab2 : find_tab buffer (fe1 + 1) le = Some fe2).
  { apply (find_tab_found buffer (pre ++ type :: display ++ [TAB]) selector
             (host ++ TAB :: ps) (CR :: NL :: post)).
    - rewrite Hbuf'. list_norm. reflexivity.
    - apply Htab, Hs.
    - unfold fe1, ls. list_len.
    - unfold le, fe1. rewrite Hline. list_len. }
  assert (Hcopy2 : copy_field GOPHER_MAX_SELECTOR_LEN (drop (Z.to_nat (fe1 + 1)) buffer)
                     (fe2 - (fe1 + 1))
                   = Some (field_array GOPHER_MAX_SELECTOR_LEN (take 255 selector))).
  { apply (copy_field_at buffer (pre ++ type :: display ++ [TAB]) selector
             (TAB :: host ++ TAB :: ps ++ CR :: NL :: post)).
    - rewrite Hbuf'. list_norm. reflexivity.
    - apply Hnn, Hs.
    - unfold fe1, ls. list_len.
    - unfold fe2. lia.
    - reflexivity. }
  assert (Htab3 : find_tab buffer (fe2 + 1) le = Some fe3).
  { apply (find_tab_found buffer (pre ++ type :: display ++ TAB :: selector ++ [TAB]) host
             ps (CR :: NL :: post)).
    - rewrite Hbuf'. list_norm. reflexivity.
    - apply Htab, Hh.
    - unfold fe2, fe1, ls. list_len.
    - unfold le, fe2, fe1. rewrite Hline. list_len. }
  assert (Hcopy3 : copy_field GOPHER_MAX_HOSTNAME_LEN (drop (Z.to_nat (fe2 + 1)) buffer)
                     (fe3 - (fe2 + 1))
                   = Some (field_array GOPHER_MAX_HOSTNAME_LEN (take 63 host))).
  { apply (copy_field_at buffer (pre ++ type :: display ++ TAB :: selector ++ [TAB]) host
             (TAB :: ps ++ CR :: NL :: post)).
    - rewrite Hbuf'. list_norm. reflexivity.
    - apply Hnn, Hh.
    - unfold fe2, fe1, ls. list_len.
    - unfold fe3. lia.
    - reflexivity. }
  assert (Hlen : MIN (le - (fe3 + 1)) (16 - 1) = Z.of_nat (length ps)).
  { unfold MIN, le, fe3, fe2, fe1. rewrite Hline.
    destruct (Z.ltb_spec
                (ls + (1 + Z.of_nat (length display) + 1 + Z.of_nat (length selector) + 1
                       + Z.of_nat (length host) + 1 + Z.of_nat (length ps))
                 - (ls + 1 + Z.of_nat (length display) + 1 + Z.of_nat (length selector) + 1
                    + Z.of_nat (length host) + 1)) (16 - 1)); lia. }
  assert (Hpstr : strncpy (zeros 16) (drop (Z.to_nat (fe3 + 1)) buffer)
                    (Z.of_nat (length ps)) = field_array 16 ps).
  { rewrite strncpy_zeros by lia. f_equal.
    replace buffer
      with ((pre ++ type :: display ++ TAB :: selector ++ TAB :: host ++ [TAB])
            ++ ps ++ CR :: NL :: post)
      by (rewrite Hbuf'; list_norm; reflexivity).
    rewrite (drop_mid (pre ++ type :: display ++ TAB :: selector ++ TAB :: host ++ [TAB])
               (ps ++ CR :: NL :: post)).
    - rewrite c_str_app by (apply Hnn; eapply Forall_impl; [exact Hdigits|exact isdigit_field_char]).
      rewrite Nat2Z.id. apply take_app_length.
    - unfold fe3, fe2, fe1, ls. list_len. }
  assert (Hnnps : Forall (fun c => c <> NUL) ps).
  { apply Hnn. eapply Forall_impl; [exact Hdigits|exact isdigit_field_char]. }
  assert (Hstrtol : strtol (field_array 16 ps) = Z.min LONG_MAX port).
  { destruct ps as [|c digits] eqn:Hps; [cbn in Hplen; lia|].
    rewrite (strtol_of_digits _ c digits).
    - now rewrite Hval.
    - apply c_str_field_array; [exact Hnnps|]. cbn [length] in *. lia.
    - now inversion Hdigits. }
  unfold parse_line. cbv zeta. cbn [line_start count parsed]. fold ls.
  destruct (Z.ltb_spec ls 0); [lia|]. destruct (Z.leb_spec buffer_end ls); [lia|].
  cbn [orb]. rewrite Hread. cbn [mbind option_bind]. rewrite Htype0, Hcrlf.
  destruct (Z.ltb_spec (ls + Z.of_nat (length line)) buffer_end); [|lia].
  fold le.
  replace (le =? ls + 1) with false by (symmetry; apply Z.eqb_neq; unfold le; lia).
  rewrite andb_false_r.
  destruct (Z.leb_spec le ls); [unfold le in *; lia|].
  destruct (read_Some items k Hk) as (it & -> & _). cbn [mbind option_bind].
  destruct (Z.leb_spec buffer_end (ls + 1)); [lia|].
  rewrite Htab1, Hcopy1. cbn [mbind option_bind].
  destruct (Z.leb_spec buffer_end (fe1 + 1)); [unfold fe1 in *; lia|].
  destruct (Z.leb_spec le (fe1 + 1)); [unfold le, fe1 in *; lia|]. cbn [orb].
  rewrite Htab2, Hcopy2. cbn [mbind option_bind].
  destruct (Z.leb_spec buffer_end (fe2 + 1)); [unfold fe2, fe1 in *; lia|].
  destruct (Z.leb_spec le (fe2 + 1)); [unfold le, fe2, fe1 in *; lia|]. cbn [orb].
  rewrite Htab3, Hcopy3. cbn [mbind option_bind].
  destruct (Z.leb_spec buffer_end (fe3 + 1)); [unfold fe3, fe2, fe1 in *; lia|].
  destruct (Z.leb_spec le (fe3 + 1)); [unfold le, fe3, fe2, fe1 in *; lia|]. cbn [orb].
  rewrite Hlen.
  destruct (Z.ltb_spec 0 (Z.of_nat (length ps))); [|lia].
  rewrite Hpstr.
  rewrite write_Some by (rewrite length_field_array; lia).
  cbn [mbind option_bind]. rewrite Nat2Z.id, insert_field_array by lia.
  rewrite Hstrtol, (port_value port) by lia.
  rewrite write_Some by lia. cbn [mbind option_bind].
  unfold next_line. cbn [line_start count parsed].
  destruct (Z.leb_spec (le + 2) buffer_end); [|unfold le in *; lia].
  reflexivity.
Qed.

Lemma parse_line_info client pre display post buffer buffer_end k items :
  Forall (fun c => c <> NUL) pre ->
  well_formed (info_line display) ->
  buffer = pre ++ line_text (info_line display) ++ CR :: NL :: post ->
  buffer_end = Z.of_nat (length (c_str buffer)) ->
  0 <= k < Z.of_nat (length items) ->
  items !! Z.to_nat k = Some zero_item ->
  parse_line client buffer buffer_end
    {| line_start := Z.of_nat (length pre); count := k; parsed := items |}
  = Some (continue_with
            {| line_start :=
                 Z.of_nat (length pre) + Z.of_nat (length (line_text (info_line display))) + 2;
               count := k + 1;
               parsed := <[Z.to_nat k := parsed_item client (info_line display)]> items |}).
Proof.
  intros Hpre Hwf Hbuf Hend Hk Hzero.
  destruct (line_text_plain _ Hwf) as [Hnul Hcr].
  cbn [well_formed] in Hwf.
  set (line := line_text (info_line display)) in *.
  set (ls := Z.of_nat (length pre)).
  assert (Hline : Z.of_nat (length line) = 1 + Z.of_nat (length display)).
  { unfold line. cbn [line_text]. list_len. }
  assert (Hbe : buffer_end = ls + Z.of_nat (length line) + 2 + Z.of_nat (length (c_str post))).
  { rewrite Hend, Hbuf, (buffer_string _ _ _ Hpre Hnul). unfold ls. list_len. }
  assert (Hbuf' : buffer = pre ++ "i"%char :: display ++ CR :: NL :: post).
  { rewrite Hbuf. unfold line. cbn [line_text]. list_norm. reflexivity. }
  assert (Hread : read buffer ls = Some "i"%char).
  { rewrite Hbuf'. apply read_mid. reflexivity. }
  assert (Hcrlf : memmem_at (slice buffer ls buffer_end) [CR; NL]
                  = Some (Z.of_nat (length line))).
  { rewrite Hbuf, (slice_line pre line post ls buffer_end eq_refl Hbe).
    apply memmem_at_crlf, Hcr. }
  set (le := ls + Z.of_nat (length line)).
  assert (Htab1 : find_tab buffer (ls + 1) le = None).
  { apply (find_tab_missing buffer (pre ++ ["i"%char]) display (CR :: NL :: post)).
    - rewrite Hbuf'. list_norm. reflexivity.
    - eapply Forall_field_char_weaken; [|exact Hwf]. intros c H. apply H.
    - unfold ls. list_len.
    - unfold le. rewrite Hline. list_len. }
  assert (Hcopy1 : copy_field GOPHER_MAX_SELECTOR_LEN (drop (Z.to_nat (ls + 1)) buffer)
                     (le - (ls + 1))
                   = Some (field_array GOPHER_MAX_SELECTOR_LEN (take 255 display))).
  { apply (copy_field_at buffer (pre ++ ["i"%char]) display (CR :: NL :: post)).
    - rewrite Hbuf'. list_norm. reflexivity.
    - eapply Forall_field_char_weaken; [|exact Hwf]. intros c H. apply H.
    - unfold ls. list_len.
    - unfold le. lia.
    - reflexivity. }
  assert (Hhost : <[63%nat := NUL]>
                    (strncpy (zeros GOPHER_MAX_HOSTNAME_LEN) (client_hostname client)
                       (GOPHER_MAX_HOSTNAME_LEN - 1))
                  = field_array GOPHER_MAX_HOSTNAME_LEN
                      (take 63 (c_str (client_hostname client)))).
  { rewrite strncpy_zeros by (unfold GOPHER_MAX_HOSTNAME_LEN; lia).
    apply insert_field_array. rewrite length_take. lia. }
  assert (Hsel : <[0%nat := NUL]> (zeros GOPHER_MAX_SELECTOR_LEN)
                 = zeros GOPHER_MAX_SELECTOR_LEN).
  { apply list_insert_id. reflexivity. }
  unfold parse_line. cbv zeta. cbn [line_start count parsed]. fold ls.
  destruct (Z.ltb_spec ls 0); [lia|]. destruct (Z.leb_spec buffer_end ls); [lia|].
  cbn [orb]. rewrite Hread. cbn [mbind option_bind].
  change (Ascii.eqb "i" NUL) with false. change (Ascii.eqb "i" ".") with false.
  cbv iota. rewrite Hcrlf.
  destruct (Z.ltb_spec (ls + Z.of_nat (length line)) buffer_end); [|lia].
  fold le. cbn [andb].
  destruct (Z.leb_spec le ls); [unfold le in *; lia|].
  assert (Hit : read items k = Some zero_item).
  { unfold read. destruct (Z.ltb_spec k 0); [lia|exact Hzero]. }
  rewrite Hit. cbn [mbind option_bind].
  destruct (Z.leb_spec buffer_end (ls + 1)); [lia|].
  rewrite Htab1.
  cbn [set_type item_type item_display_string item_selector item_hostname item_port
       zero_item].
  change (Ascii.eqb "i" "i") with true. cbv iota.
  rewrite Hcopy1. cbn [mbind option_bind].
  cbn [set_type set_display_string set_selector set_hostname set_port item_type
       item_display_string item_selector item_hostname item_port zero_item].
  rewrite Hhost, Hsel.
  rewrite write_Some by lia. cbn [mbind option_bind].
  unfold next_line. cbn [line_start count parsed].
  destruct (Z.leb_spec (le + 2) buffer_end); [|unfold le in *; lia].
  reflexivity.
Qed.

Lemma parse_line_listing client pre l post buffer buffer_end k items :
  Forall (fun c => c <> NUL) pre ->
  well_formed l ->
  buffer = pre ++ line_text l ++ CR :: NL :: post ->
  buffer_end = Z.of_nat (length (c_str buffer)) ->
  0 <= k < Z.of_nat (length items) ->
  items !! Z.to_nat k = Some zero_item ->
  parse_line client buffer buffer_end
    {| line_start := Z.of_nat (length pre); count := k; parsed := items |}
  = Some (continue_with
            {| line_start := Z.of_nat (length pre) + Z.of_nat (length (line_text l)) + 2;
               count := k + 1;
               parsed := <[Z.to_nat k := parsed_item client l]> items |}).
Proof.
  destruct l; intros; [eapply parse_line_item|eapply parse_line_info]; eassumption.
Qed.

(** *** The loop *)

Lemma parse_line_period client pre rest buffer buffer_end st :
  Forall (fun c => c <> NUL) pre ->
  buffer = pre ++ ["."%char] ++ CR :: NL :: rest ->
  buffer_end = Z.of_nat (length (c_str buffer)) ->
  line_start st = Z.of_nat (length pre) ->
  parse_line client buffer buffer_end st = Some (break_with st).
Proof.
  intros Hpre Hbuf Hend Hls.
  set (ls := Z.of_nat (length pre)) in *.
  assert (Hbe : buffer_end = ls + Z.of_nat (length ["."%char]) + 2
                             + Z.of_nat (length (c_str rest))).
  { rewrite Hend, Hbuf, (buffer_string pre ["."%char] rest Hpre).
    - unfold ls. list_len.
    - repeat constructor. discriminate. }
  assert (Hread : read buffer ls = Some "."%char).
  { rewrite Hbuf. apply read_mid. reflexivity. }
  assert (Hcrlf : memmem_at (slice buffer ls buffer_end) [CR; NL] = Some 1).
  { rewrite Hbuf. rewrite (slice_line pre ["."%char] rest ls buffer_end eq_refl Hbe).
    reflexivity. }
  cbn [length] in Hbe.
  unfold parse_line. cbv zeta. rewrite Hls.
  destruct (Z.ltb_spec ls 0); [lia|]. destruct (Z.leb_spec buffer_end ls); [lia|].
  cbn [orb]. rewrite Hread. cbn [mbind option_bind].
  change (Ascii.eqb "." NUL) with false. change (Ascii.eqb "." ".") with true.
  cbv iota. rewrite Hcrlf.
  destruct (Z.ltb_spec (ls + 1) buffer_end); [|lia].
  rewrite Z.eqb_refl. reflexivity.
Qed.

Lemma parse_lines_listing client tail lines :
  forall done head fuel buffer,
    Forall well_formed done -> Forall well_formed lines -> listing_end tail ->
    (length done + length lines <= 64)%nat ->
    length head = length done ->
    (length lines < fuel)%nat ->
    buffer = listing_bytes (done ++ lines) ++ tail ->
    exists ls,
      parse_lines fuel client buffer (Z.of_nat (length (c_str buffer)))
        {| line_start := Z.of_nat (length (listing_bytes done));
           count := Z.of_nat (length done);
           parsed := head ++ replicate (64 - length done) zero_item |}
      = Some {| line_start := ls;
                count := Z.of_nat (length done + length lines);
                parsed := head ++ map (parsed_item client) lines
                          ++ replicate (64 - length done - length lines) zero_item |}.
Proof.
  induction lines as [|l lines IH];
    intros done head fuel buffer Hdone Hlines Htail Hcount Hhead Hfuel Hbuf.
  - rewrite app_nil_r in Hbuf. cbn [length map app] in *.
    rewrite Nat.add_0_r, Nat.sub_0_r.
    pose proof (listing_bytes_plain _ Hdone) as Hplain.
    eexists. destruct fuel as [|fuel]; [lia|]. cbn [parse_lines line_start count].
    assert (Hbe : Z.of_nat (length (c_str buffer))
                  = Z.of_nat (length (listing_bytes done)) + Z.of_nat (length (c_str tail))).
    { rewrite Hbuf, (c_str_app _ _ Hplain). list_len. }
    destruct (Z.ltb_spec (Z.of_nat (length (listing_bytes done)))
                (Z.of_nat (length (c_str buffer)))); [|reflexivity].
    destruct (Z.ltb_spec (Z.of_nat (length done)) GOPHER_MAX_DIR_ITEMS); [|reflexivity].
    cbn [andb].
    destruct Htail as [Hempty|[rest ->]]; [rewrite Hempty in Hbe; cbn [length] in Hbe; lia|].
    rewrite (parse_line_period client (listing_bytes done) rest buffer _
               {| line_start := _; count := _; parsed := _ |} Hplain Hbuf eq_refl eq_refl).
    reflexivity.
  - inversion Hlines as [|l' lines' Hl Hlines']; subst l' lines'.
    cbn [length] in Hcount, Hfuel.
    destruct fuel as [|fuel]; [lia|].
    pose proof (listing_bytes_plain _ Hdone) as Hplain.
    assert (Hbuf' : buffer = listing_bytes done ++ line_text l
                               ++ CR :: NL :: (listing_bytes lines ++ tail)).
    { rewrite Hbuf, listing_bytes_app. cbn [listing_bytes flat_map]. list_norm. reflexivity. }
    assert (Hbe : Z.of_nat (length (listing_bytes done)) + Z.of_nat (length (line_text l)) + 2
                  <= Z.of_nat (length (c_str buffer))).
    { rewrite Hbuf', (buffer_string _ _ _ Hplain (proj1 (line_text_plain _ Hl))). list_len. }
    cbn [parse_lines line_start count].
    destruct (Z.ltb_spec (Z.of_nat (length (listing_bytes done)))
                (Z.of_nat (length (c_str buffer)))); [|lia].
    destruct (Z.ltb_spec (Z.of_nat (length done)) GOPHER_MAX_DIR_ITEMS);
      [|unfold GOPHER_MAX_DIR_ITEMS in *; lia].
    cbn [andb].
    rewrite (parse_line_listing client (listing_bytes done) l (listing_bytes lines ++ tail)
               buffer _ _ _ Hplain Hl Hbuf' eq_refl).
    2:{ rewrite length_app, length_replicate. lia. }
    2:{ rewrite Nat2Z.id, lookup_app_r by lia. apply lookup_replicate_2. lia. }
    destruct (IH (done ++ [l]) (head ++ [parsed_item client l]) fuel buffer) as [ls Hrun].
    + apply Forall_app. split; [exact Hdone|]. repeat constructor. exact Hl.
    + exact Hlines'.
    + exact Htail.
    + rewrite length_app. cbn [length]. lia.
    + rewrite !length_app. cbn [length]. lia.
    + lia.
    + rewrite Hbuf, <- app_assoc. reflexivity.
    + exists ls.
      match goal with
      | |- parse_lines _ _ _ _ ?s = Some ?f =>
          match type of Hrun with
          | parse_lines _ _ _ _ ?s' = Some ?f' =>
              assert (Hs : s = s');
              [|assert (Hf : f' = f); [|rewrite Hs, Hrun, Hf; reflexivity]]
          end
      end.
      * f_equal.
        -- rewrite listing_bytes_app. cbn [listing_bytes flat_map]. list_len.
        -- rewrite length_app. cbn [length]. lia.
        -- rewrite Nat2Z.id. rewrite insert_app_r_alt by lia.
           rewrite Hhead, Nat.sub_diag.
           destruct (64 - length done)%nat as [|m] eqn:Hm; [lia|].
           cbn [replicate insert list_insert]. rewrite <- app_assoc. cbn [app].
           do 3 f_equal. rewrite length_app. cbn [length]. lia.
      * f_equal.
        -- rewrite length_app. cbn [length]. f_equal. lia.
        -- replace (64 - length (done ++ [l]) - length lines)%nat
             with (64 - length done - S (length lines))%nat
             by (rewrite length_app; cbn [length]; lia).
           rewrite <- app_assoc. reflexivity.
Qed.

(** *** The listing *)

Lemma length_listing_bytes (lines : list listing_line) :
  (length lines <= length (listing_bytes lines))%nat.
Proof.
  induction lines as [|l lines IH]; [reflexivity|].
  cbn [listing_bytes flat_map length]. rewrite !length_app. cbn [length].
  fold (listing_bytes lines). lia.
Qed.

Lemma item_strings_parsed client (l : listing_line) :
  well_formed l -> item_strings (parsed_item client l) = line_item client l.
Proof.
  assert (Hnn : forall s, Forall field_char s -> Forall (fun d => d <> NUL) s).
  { intros s. apply Forall_field_char_weaken. intros c H. apply H. }
  assert (Hfield : forall size n s,
             Forall (fun d => d <> NUL) s -> (n < Z.to_nat size)%nat ->
             c_str (field_array size (take n s)) = take n s).
  { intros size n s Hs Hn. apply c_str_field_array; [now apply Forall_take|].
    rewrite length_take. lia. }
  destruct l as [type display selector host port|display]; cbn [well_formed].
  - intros (_ & Hd & Hs & Hh & _). unfold item_strings, parsed_item, line_item.
    cbn [item_type item_display_string item_selector item_hostname item_port].
    rewrite !Hfield; auto; cbv; lia.
  - intros Hd. unfold item_strings, parsed_item, line_item.
    cbn [item_type item_display_string item_selector item_hostname item_port].
    rewrite !Hfield; auto using c_str_no_NUL; try (cbv; lia).
Qed.

(** X15. A well-formed listing that passes the directory check is read
    back line by line.  The check asks for one of the fifteen listed
    types at the start of the first line and for a TAB somewhere in the
    response.  Then, for 1 to 64 lines, each ended by CR LF and holding
    either the type, display string, selector, host and decimal port
    (below [10^15]) separated by TABs or a bare info line, followed by
    the end of the response or by the period line,
    [gopher_parse_directory] returns the number of lines and stores for
    each line its type, its strings cut to 255 (host: 63) characters and
    its port, with 70 for a port outside 1..65535; an info line gets the
    client's host and port.  The remaining entries are zero. *)
Theorem gopher_parse_directory_listing client lines tail :
  Forall well_formed lines ->
  (length lines <= 64)%nat ->
  listing_end tail ->
  (exists l rest, lines = l :: rest /\ is_listing_type (line_type l) = true) ->
  In TAB (listing_bytes lines) ->
  exists client',
    gopher_parse_directory client (Some (listing_bytes lines ++ tail))
      = Some (Z.of_nat (length lines), client') /\
    item_count client' = Z.of_nat (length lines) /\
    map item_strings (take (length lines) (items client')) = map (line_item client) lines /\
    drop (length lines) (items client') = replicate (64 - length lines) zero_item.
Proof.
  intros Hwf Hlen Htail (l & rest & Hlines & Htype) Htab.
  set (buffer := listing_bytes lines ++ tail).
  pose proof (listing_bytes_plain _ Hwf) as Hplain.
  assert (Hstr : c_str buffer = listing_bytes lines ++ c_str tail)
    by apply (c_str_app _ _ Hplain).
  assert (Hhead : exists more, buffer = line_type l :: more).
  { unfold buffer. rewrite Hlines. cbn [listing_bytes flat_map].
    destruct l; cbn [line_text line_type app]; eexists; reflexivity. }
  destruct Hhead as [more Hmore].
  destruct (parse_lines_listing (with_items client zero_items 0) tail lines [] []
              (S (length buffer)) buffer) as [ls Hrun]; try assumption.
  - constructor.
  - reflexivity.
  - pose proof (length_listing_bytes lines). unfold buffer. rewrite length_app. lia.
  - reflexivity.
  - unfold gopher_parse_directory. fold buffer.
    assert (Hne : (Z.of_nat (length (c_str buffer)) =? 0) = false).
    { apply Z.eqb_neq. rewrite Hstr, Hlines. cbn [listing_bytes flat_map].
      destruct l; cbn [line_text app length]; lia. }
    assert (Hread : read buffer 0 = Some (line_type l)) by (rewrite Hmore; reflexivity).
    rewrite Hne, Hread.
    cbn [mbind option_bind]. rewrite Htype.
    assert (Hex : existsb (Ascii.eqb TAB) (c_str buffer) = true).
    { apply existsb_exists. exists TAB. split; [|apply Ascii.eqb_refl].
      rewrite Hstr. apply in_or_app. now left. }
    rewrite Hex. cbn [andb negb].
    cbn [length listing_bytes flat_map app] in Hrun.
    change (Z.of_nat 0) with 0 in Hrun. rewrite Nat.sub_0_r in Hrun.
    change (replicate 64 zero_item) with zero_items in Hrun at 1.
    cbn [Nat.add] in Hrun.
    cbn [items with_items].
    rewrite Hrun. cbn [mbind option_bind count parsed].
    eexists. split; [reflexivity|].
    cbn [with_items item_count items]. split; [reflexivity|]. split.
    + rewrite <- (length_map (parsed_item (with_items client zero_items 0)) lines) at 1.
      rewrite take_app_length, map_map.
      apply map_ext_Forall. eapply Forall_impl; [exact Hwf|].
      intros l' Hl'. apply (item_strings_parsed (with_items client zero_items 0) l' Hl').
    + rewrite <- (length_map (parsed_item (with_items client zero_items 0)) lines) at 1.
      rewrite drop_app_length. reflexivity.
Qed.

Lemma gopher_parse_directory_listing_witness :
  exists client',
    gopher_parse_directory (snd (gopher_connect zero_client (Some (list_ascii_of_string "me.org")) 0))
      (Some (list_ascii_of_string "iWelcome" ++ [CR; NL]
             ++ list_ascii_of_string "1Docs" ++ [TAB] ++ list_ascii_of_string "/docs" ++ [TAB]
             ++ list_ascii_of_string "example.org" ++ [TAB] ++ list_ascii_of_string "7070"
             ++ [CR; NL]
             ++ list_ascii_of_string "0About" ++ [TAB] ++ list_ascii_of_string "/about.txt"
             ++ [TAB] ++ list_ascii_of_string "h" ++ [TAB] ++ list_ascii_of_string "0"
             ++ [CR; NL]
             ++ list_ascii_of_string "." ++ [CR; NL] ++ list_ascii_of_string "junk"))
      = Some (3, client') /\
    map item_strings (take 3 (items client'))
    = [("i"%char, list_ascii_of_string "Welcome", [], list_ascii_of_string "me.org", 70);
       ("1"%char, list_ascii_of_string "Docs", list_ascii_of_string "/docs",
        list_ascii_of_string "example.org", 7070);
       ("0"%char, list_ascii_of_string "About", list_ascii_of_string "/about.txt",
        list_ascii_of_string "h", 70)].
Proof.
  destruct (gopher_parse_directory_listing
              (snd (gopher_connect zero_client (Some (list_ascii_of_string "me.org")) 0))
              [info_line (list_ascii_of_string "Welcome");
               item_line "1" (list_ascii_of_string "Docs") (list_ascii_of_string "/docs")
                 (list_ascii_of_string "example.org") 7070;
               item_line "0" (list_ascii_of_string "About") (list_ascii_of_string "/about.txt")
                 (list_ascii_of_string "h") 0]
              ("."%char :: CR :: NL :: list_ascii_of_string "junk"))
    as (client' & Hrun & _ & Hitems & _).
  - repeat first [apply Forall_cons; split | apply Forall_nil | split | discriminate | lia].
  - cbn. lia.
  - right. eexists. reflexivity.
  - eexists _, _. split; reflexivity.
  - vm_compute. tauto.
  - exists client'. split; [exact Hrun|exact Hitems].
Defined.

(** ** Sending a selector *)

Lemma to_int_small (z : Z) : - 2 ^ 31 <= z < 2 ^ 31 -> to_int z = z.
Proof. intros H. unfold to_int. rewrite Z.mod_small by lia. lia. Qed.

Lemma to_size_t_small (z : Z) : 0 <= z < 2 ^ 32 -> to_size_t z = z.
Proof. intros H. unfold to_size_t. now rewrite Z.mod_small. Qed.

Lemma zeros_split (n k : Z) :
  0 <= k <= n -> zeros n = zeros k ++ zeros (n - k).
Proof.
  intros H. unfold zeros. rewrite <- replicate_add. f_equal. lia.
Qed.

Lemma recv_store_ok (buffer_size : Z) (st : recv_state) (chunk : list ascii) (n : Z) :
  0 < buffer_size < 2 ^ 30 ->
  recv_inv buffer_size st ->
  0 < n <= Z.of_nat (length chunk) ->
  total_received st + n <= buffer_size - 1 ->
  exists buffer,
    (write (take (Z.to_nat (total_received st)) (recv_into st)
            ++ take (Z.to_nat n) chunk
            ++ drop (Z.to_nat (total_received st + n)) (recv_into st))
       (total_received st + n) NUL = Some buffer) /\
    exists data,
      Z.of_nat (length data) = total_received st + n /\
      buffer = data ++ zeros (buffer_size - (total_received st + n)).
Proof.
  intros Hsize (Htotal & Hatt & data & Hlen & Hbuf) Hn Hfit.
  set (total := total_received st) in *.
  assert (Htake : take (Z.to_nat total) (recv_into st) = data).
  { rewrite Hbuf. apply take_app_length'. lia. }
  assert (Hdrop : drop (Z.to_nat (total + n)) (recv_into st)
                  = zeros (buffer_size - (total + n))).
  { rewrite Hbuf, drop_app_ge by lia. unfold zeros. rewrite drop_replicate.
    f_equal. lia. }
  rewrite Htake, Hdrop.
  set (data' := data ++ take (Z.to_nat n) chunk).
  assert (Hlen' : Z.of_nat (length data') = total + n).
  { unfold data'. rewrite length_app, length_take. lia. }
  rewrite app_assoc. fold data'.
  rewrite write_Some by (rewrite length_app, length_zeros; lia).
  eexists. split; [reflexivity|]. exists data'. split; [exact Hlen'|].
  replace (Z.to_nat (total + n)) with (length data' + 0)%nat by lia.
  rewrite insert_app_r. f_equal.
  apply list_insert_id. unfold zeros. apply lookup_replicate_2. lia.
Qed.

Lemma recv_step_ok (net : net_env) (buffer_size : Z) (st : recv_state) :
  0 < buffer_size < 2 ^ 30 ->
  recv_inv buffer_size st -> recv_attempts st < 3 ->
  exists ex,
    recv_step net buffer_size st = Some ex /\
    match ex with
    | continue_with st' =>
        recv_inv buffer_size st' /\
        recv_measure buffer_size st' < recv_measure buffer_size st /\
        recv_trace st' = recv_trace st ++ [call_recv]
    | break_with st' =>
        recv_inv buffer_size st' /\ recv_trace st' = recv_trace st ++ [call_recv]
    end.
Proof.
  intros Hsize Hinv Hatt. pose proof Hinv as (Htotal & Hattempts & data & Hlen & Hbuf).
  unfold recv_step. cbv zeta.
  destruct (net_recv net (recv_trace st)) as [|received].
  { eexists. split; [reflexivity|]. rewrite to_int_small by lia.
    unfold recv_inv, recv_measure.
    cbn [total_received recv_attempts recv_into recv_trace].
    split; [|split; [lia|reflexivity]].
    split; [lia|]. split; [lia|]. exists data. split; assumption. }
  set (chunk := take 127 received).
  assert (Hchunk : Z.of_nat (length chunk) <= 127)
    by (unfold chunk; rewrite length_take; lia).
  assert (Hstop : recv_inv buffer_size
                    {| total_received := total_received st;
                       recv_attempts := recv_attempts st;
                       recv_into := recv_into st;
                       recv_trace := recv_trace st ++ [call_recv] |}).
  { unfold recv_inv. cbn [total_received recv_attempts recv_into].
    split; [lia|]. split; [lia|]. exists data. split; assumption. }
  destruct (Z.eqb_spec (Z.of_nat (length chunk)) 0) as [Hz|Hnz];
    [eexists; split; [reflexivity|]; split; [exact Hstop|reflexivity]|].
  assert (Hstore : forall n,
             0 < n <= Z.of_nat (length chunk) -> total_received st + n <= buffer_size - 1 ->
             exists ex,
               (if (total_received st <? 0) || (n <? 0)
                   || (Z.of_nat (length (recv_into st)) <? total_received st + n)
                then None
                else
                  write (take (Z.to_nat (total_received st)) (recv_into st)
                         ++ take (Z.to_nat n) chunk
                         ++ drop (Z.to_nat (total_received st + n)) (recv_into st))
                    (to_int (total_received st + n)) NUL
                  ≫= (fun buffer =>
                        if to_size_t (buffer_size - 1) <=? to_size_t (to_int (total_received st + n))
                        then Some (break_with
                                     {| total_received := to_int (total_received st + n);
                                        recv_attempts := recv_attempts st;
                                        recv_into := buffer;
                                        recv_trace := recv_trace st ++ [call_recv] |})
                        else Some (continue_with
                                     {| total_received := to_int (total_received st + n);
                                        recv_attempts := 0;
                                        recv_into := buffer;
                                        recv_trace := recv_trace st ++ [call_recv] |})))
               = Some ex /\
               match ex with
               | continue_with st' =>
                   recv_inv buffer_size st' /\
                   recv_measure buffer_size st' < recv_measure buffer_size st /\
                   recv_trace st' = recv_trace st ++ [call_recv]
               | break_with st' =>
                   recv_inv buffer_size st' /\ recv_trace st' = recv_trace st ++ [call_recv]
               end).
  { intros n Hn Hfit.
    destruct (recv_store_ok buffer_size st chunk n Hsize Hinv Hn Hfit)
      as (buffer & Hwrite & data' & Hlen' & Hbuf').
    assert (Hbuflen : Z.of_nat (length (recv_into st)) = buffer_size).
    { rewrite Hbuf, length_app, length_zeros. lia. }
    destruct (Z.ltb_spec (total_received st) 0); [lia|].
    destruct (Z.ltb_spec n 0); [lia|].
    destruct (Z.ltb_spec (Z.of_nat (length (recv_into st))) (total_received st + n)); [lia|].
    cbn [orb]. rewrite to_int_small by lia. rewrite Hwrite. cbn [mbind option_bind].
    rewrite !to_size_t_small by lia.
    assert (Hinv' : forall a t, 0 <= a <= 3 ->
               recv_inv buffer_size
                 {| total_received := total_received st + n; recv_attempts := a;
                    recv_into := buffer; recv_trace := t |}).
    { intros a t Ha. unfold recv_inv. cbn [total_received recv_attempts recv_into].
      split; [lia|]. split; [lia|]. exists data'. split; assumption. }
    destruct (Z.leb_spec (buffer_size - 1) (total_received st + n)).
    - eexists. split; [reflexivity|]. split; [apply Hinv'; lia|reflexivity].
    - eexists. split; [reflexivity|]. split; [apply Hinv'; lia|].
      split; [|reflexivity]. unfold recv_measure. cbn [total_received recv_attempts]. lia. }
  destruct (Z.leb_spec buffer_size
              (to_size_t (to_int (total_received st + Z.of_nat (length chunk)))))
    as [Hfull|Hroom].
  - rewrite to_int_small, to_size_t_small in Hfull by lia.
    destruct (Z.leb_spec (to_int (buffer_size - total_received st - 1)) 0) as [Hnone|Hsome];
      [eexists; split; [reflexivity|]; split; [exact Hstop|reflexivity]|].
    rewrite to_int_small in Hsome by lia.
    apply Hstore; rewrite to_int_small by lia; lia.
  - rewrite to_int_small, to_size_t_small in Hroom by lia.
    apply Hstore; lia.
Qed.

Lemma recv_loop_ok (net : net_env) (buffer_size : Z) (fuel : nat) (st : recv_state) :
  0 < buffer_size < 2 ^ 30 ->
  recv_inv buffer_size st ->
  recv_measure buffer_size st <= Z.of_nat fuel ->
  exists st' k,
    recv_loop fuel net buffer_size st = Some st' /\
    recv_inv buffer_size st' /\
    recv_trace st' = recv_trace st ++ replicate k call_recv.
Proof.
  intros Hsize. revert st. induction fuel as [|fuel IH]; intros st Hinv Hfuel.
  - exists st, 0%nat. cbn [recv_loop].
    pose proof Hinv as (Htotal & Hatt & Hdata). unfold recv_measure in Hfuel.
    destruct (Z.ltb_spec (recv_attempts st) 3); [lia|].
    split; [reflexivity|]. split; [exact Hinv|].
    cbn [replicate]. now rewrite app_nil_r.
  - cbn [recv_loop]. destruct (Z.ltb_spec (recv_attempts st) 3).
    2:{ exists st, 0%nat. split; [reflexivity|]. split; [exact Hinv|].
        cbn [replicate]. now rewrite app_nil_r. }
    destruct (recv_step_ok net buffer_size st Hsize Hinv) as (ex & -> & Hex); [lia|].
    destruct ex as [st'|st'].
    + destruct Hex as (Hinv' & Hless & Htrace).
      destruct (IH st' Hinv') as (st'' & k & -> & Hinv'' & Htrace''); [lia|].
      exists st'', (S k). split; [reflexivity|]. split; [exact Hinv''|].
      rewrite Htrace'', Htrace, <- app_assoc. reflexivity.
    + destruct Hex as (Hinv' & Htrace).
      exists st', 1%nat. split; [reflexivity|]. split; [exact Hinv'|exact Htrace].
Qed.

Lemma push_history_Some client selector :
  length (history client) = 10%nat -> 0 <= history_pos client < 10 ->
  exists client',
    push_history client selector = Some client' /\
    client_hostname client' = client_hostname client /\
    client_port client' = client_port client /\
    connected client' = connected client /\
    items client' = items client /\
    item_count client' = item_count client /\
    history_pos client' = (history_pos client + 1) mod 10 /\
    history_count client' = (if history_count client <? 10 then history_count client + 1
                             else history_count client) /\
    length (history client') = 10%nat /\
    (exists slot, history client' !! Z.to_nat (history_pos client') = Some slot /\
                  c_str slot = take 255 (from_option c_str [] selector)) /\
    (forall j, j <> Z.to_nat (history_pos client') ->
               history client' !! j = history client !! j).
Proof.
  intros Hlen Hpos.
  set (pos := (history_pos client + 1) mod 10).
  assert (Hrem : Z.rem (to_int (history_pos client + 1)) 10 = pos).
  { rewrite to_int_small by lia. apply Z.rem_mod_nonneg; lia. }
  assert (Hrange : 0 <= pos < 10) by (apply Z.mod_pos_bound; lia).
  unfold push_history. rewrite Hrem.
  destruct (read_Some (history client) pos) as (old & -> & Hold); [lia|].
  cbn [mbind option_bind]. rewrite write_Some by lia. cbn [mbind option_bind].
  eexists. split; [reflexivity|].
  cbn [client_hostname client_port connected items item_count history history_pos
       history_count].
  do 5 (split; [reflexivity|]). split; [reflexivity|].
  split; [reflexivity|].
  split; [now rewrite length_insert|]. split.
  - eexists. split; [apply list_lookup_insert_eq; lia|].
    destruct selector as [selector|]; cbn [from_option].
    + apply (c_str_strncpy_zeros selector 255 256). lia.
    + destruct old as [|c old]; [reflexivity|]. reflexivity.
  - intros j Hj. apply list_lookup_insert_ne. congruence.
Qed.

(** X16. [gopher_send_selector] with a buffer of up to [2^30] bytes and a
    consistent client always returns, with a value below the size of
    the buffer.  On an error the client is as before; a client that is
    not connected or has an empty host name gives [-ENOTCONN] without
    any call to the network and without touching the buffer.  On
    success the buffer holds the bytes counted by the result followed
    by zeros only, the request was the selector cut to 125 bytes with
    CR LF, the socket was closed last, and the selector went to the
    history exactly if something was received. *)
Theorem gopher_send_selector_buffer net trace client selector buffer buffer_size :
  0 < buffer_size < 2 ^ 30 ->
  (0 < length (client_hostname client))%nat ->
  length (history client) = 10%nat ->
  0 <= history_pos client < 10 ->
  exists r,
    gopher_send_selector net trace client selector buffer buffer_size = Some r /\
    sent_ret r < buffer_size /\
    (exists calls, sent_trace r = trace ++ calls) /\
    (sent_ret r < 0 -> sent_client r = client) /\
    (connected client = false \/ head (client_hostname client) = Some NUL ->
     sent_ret r = - ENOTCONN /\ sent_trace r = trace /\ sent_buffer r = buffer) /\
    (0 <= sent_ret r ->
     (exists data, Z.of_nat (length data) = sent_ret r /\
                   sent_buffer r = data ++ zeros (buffer_size - sent_ret r)) /\
     In (call_send (request_of selector)) (sent_trace r) /\
     last (sent_trace r) = Some call_close /\
     (if 0 <? sent_ret r then push_history client selector = Some (sent_client r)
      else sent_client r = client)).
Proof.
  intros Hsize Hhost Hhist Hpos. unfold gopher_send_selector. cbv zeta.
  destruct (Z.eqb_spec buffer_size 0) as [Hz|_]; [lia|].
  destruct (client_hostname client) as [|c name] eqn:Hname; [cbn in Hhost; lia|].
  change (read (c :: name) 0) with (Some c). cbn [mbind option_bind head].
  assert (Herr : forall (e : Z) b t calls,
             0 < e -> t = trace ++ calls ->
             (connected client = false \/ Some c = Some NUL -> e = ENOTCONN /\ t = trace /\ b = buffer) ->
             exists r,
               Some {| sent_ret := - e; sent_client := client; sent_buffer := b;
                       sent_trace := t |} = Some r /\
               sent_ret r < buffer_size /\
               (exists calls, sent_trace r = trace ++ calls) /\
               (sent_ret r < 0 -> sent_client r = client) /\
               (connected client = false \/ Some c = Some NUL ->
                sent_ret r = - ENOTCONN /\ sent_trace r = trace /\ sent_buffer r = buffer) /\
               (0 <= sent_ret r ->
                (exists data, Z.of_nat (length data) = sent_ret r /\
                              sent_buffer r = data ++ zeros (buffer_size - sent_ret r)) /\
                In (call_send (request_of selector)) (sent_trace r) /\
                last (sent_trace r) = Some call_close /\
                (if 0 <? sent_ret r then push_history client selector = Some (sent_client r)
                 else sent_client r = client))).
  { intros e b t calls He Ht Hnc. eexists. split; [reflexivity|].
    cbn [sent_ret sent_client sent_buffer sent_trace].
    split; [lia|]. split; [exists calls; exact Ht|]. split; [reflexivity|].
    split; [|lia].
    intros H. destruct (Hnc H) as (-> & -> & ->). repeat split. }
  destruct (negb (connected client) || Ascii.eqb c NUL) eqn:Hconn.
  { apply (Herr ENOTCONN buffer trace []); [reflexivity|now rewrite app_nil_r|].
    intros _. repeat split. }
  apply orb_false_elim in Hconn. destruct Hconn as [Hconn Hc].
  apply negb_false_iff in Hconn. apply Ascii.eqb_neq in Hc.
  assert (Hnot : connected client = false \/ Some c = Some NUL -> False).
  { intros [H|H]; [congruence|]. injection H as ->. now apply Hc. }
  set (host := c_str (c :: name)).
  set (trace1 := trace ++ [call_inet_pton host]).
  set (trace2 := if net_inet_pton net trace host then trace1
                 else trace1 ++ [call_getaddrinfo host]).
  assert (Ht2 : exists calls, trace2 = trace ++ calls).
  { unfold trace2, trace1. destruct (net_inet_pton net trace host); eexists;
      [reflexivity|rewrite <- app_assoc; reflexivity]. }
  destruct Ht2 as [calls2 Ht2].
  destruct (net_inet_pton net trace host || net_getaddrinfo net trace1 host); cbn [negb].
  2:{ apply (Herr EHOSTUNREACH _ _ calls2); [reflexivity|exact Ht2|].
      intros H. destruct (Hnot H). }
  destruct (net_socket net trace2); cbn [negb].
  2:{ apply (Herr ESOCKTNOSUPPORT _ _ (calls2 ++ [call_socket])); [reflexivity| |].
      - rewrite Ht2, <- app_assoc. reflexivity.
      - intros H. destruct (Hnot H). }
  destruct (net_connect net (trace2 ++ [call_socket]) (client_port client)) as [errno|].
  { apply (Herr (Z.pos errno) _ _
             (calls2 ++ [call_socket] ++ [call_connect (client_port client); call_close]));
      [lia| |].
    - rewrite Ht2, <- !app_assoc. reflexivity.
    - intros H. destruct (Hnot H). }
  destruct (net_send net ((trace2 ++ [call_socket]) ++ [call_connect (client_port client)])
              (request_of selector)) as [errno|].
  { apply (Herr (Z.pos errno) _ _
             (calls2 ++ [call_socket] ++ [call_connect (client_port client)]
              ++ [call_send (request_of selector); call_close]));
      [lia| |].
    - rewrite Ht2, <- !app_assoc. reflexivity.
    - intros H. destruct (Hnot H). }
  set (trace5 := ((trace2 ++ [call_socket]) ++ [call_connect (client_port client)])
                 ++ [call_send (request_of selector)]).
  destruct (recv_loop_ok net buffer_size (Z.to_nat (4 * buffer_size))
              {| total_received := 0; recv_attempts := 0;
                 recv_into := zeros buffer_size; recv_trace := trace5 |} Hsize)
    as (st & k & -> & Hinv & Htrace).
  { unfold recv_inv. cbn [total_received recv_attempts recv_into].
    split; [lia|]. split; [lia|]. exists []. split; [reflexivity|].
    now rewrite Z.sub_0_r. }
  { unfold recv_measure. cbn [total_received recv_attempts]. lia. }
  cbn [recv_trace] in Htrace. cbn [mbind option_bind].
  destruct Hinv as (Htotal & _ & data & Hlen & Hbuf).
  assert (Hin : In (call_send (request_of selector)) (recv_trace st ++ [call_close])).
  { rewrite Htrace. unfold trace5. rewrite !in_app_iff. cbn [In]. tauto. }
  assert (Hext : exists calls, recv_trace st ++ [call_close] = trace ++ calls).
  { rewrite Htrace. unfold trace5. rewrite Ht2, <- !app_assoc. eexists. reflexivity. }
  assert (Hlast : last (recv_trace st ++ [call_close]) = Some call_close)
    by apply last_snoc.
  destruct (Z.ltb_spec 0 (total_received st)) as [Hgot|Hnone].
  - destruct (push_history_Some client selector Hhist Hpos) as (client' & Hpush & _).
    rewrite Hpush. cbn [mbind option_bind]. eexists. split; [reflexivity|].
    cbn [sent_ret sent_client sent_buffer sent_trace].
    split; [lia|]. split; [exact Hext|]. split; [lia|].
    split; [intros H; destruct (Hnot H)|]. intros _.
    split; [exists data; split; assumption|]. split; [exact Hin|]. split; [exact Hlast|].
    destruct (Z.ltb_spec 0 (total_received st)); [reflexivity|lia].
  - eexists. split; [reflexivity|].
    cbn [sent_ret sent_client sent_buffer sent_trace].
    split; [lia|]. split; [exact Hext|]. split; [reflexivity|].
    split; [intros H; destruct (Hnot H)|]. intros _.
    split; [exists data; split; assumption|]. split; [exact Hin|]. split; [exact Hlast|].
    destruct (Z.ltb_spec 0 (total_received st)); [lia|reflexivity].
Qed.

Lemma gopher_send_selector_buffer_witness :
  exists r,
    gopher_send_selector
      (served_net (fun _ => list_ascii_of_string "0About" ++ [TAB]
                            ++ list_ascii_of_string "/about.txt"))
      [] sample_client (Some (list_ascii_of_string "/docs"))
      (zeros GOPHER_BUFFER_SIZE) GOPHER_BUFFER_SIZE = Some r /\
    sent_ret r < GOPHER_BUFFER_SIZE /\
    (0 <= sent_ret r ->
     (exists data, Z.of_nat (length data) = sent_ret r /\
                   sent_buffer r = data ++ zeros (GOPHER_BUFFER_SIZE - sent_ret r)) /\
     In (call_send (list_ascii_of_string "/docs" ++ [CR; NL])) (sent_trace r)).
Proof.
  destruct (gopher_send_selector_buffer
              (served_net (fun _ => list_ascii_of_string "0About" ++ [TAB]
                                    ++ list_ascii_of_string "/about.txt"))
              [] sample_client (Some (list_ascii_of_string "/docs"))
              (zeros GOPHER_BUFFER_SIZE) GOPHER_BUFFER_SIZE)
    as (r & Hrun & Hret & _ & _ & _ & Hok).
  - unfold GOPHER_BUFFER_SIZE. lia.
  - vm_compute. lia.
  - reflexivity.
  - change (0 <= 0 < 10). lia.
  - exists r. split; [exact Hrun|]. split; [exact Hret|].
    intros Hpos. destruct (Hok Hpos) as (Hdata & Hsend & _).
    split; [exact Hdata|exact Hsend].
Defined.

(* ================================================================== *)
(** * Part IV: the shell commands *)
(* ================================================================== *)

(** ** The numbers of a listing *)

Lemma translate_loop_found (pre : list gopher_item) (it : gopher_item)
    (post : list gopher_item) (i index real_index info_count : Z) :
  is_info it = false ->
  Z.of_nat (length (selectable pre)) = index - real_index ->
  0 <= real_index -> 0 <= info_count ->
  index + Z.of_nat (length pre) < 2 ^ 31 ->
  info_count + Z.of_nat (length pre) < 2 ^ 31 ->
  translate_loop (pre ++ it :: post) i index real_index info_count
  = (i + Z.of_nat (length pre), info_count + Z.of_nat (length (info_items pre))).
Proof.
  intros Hit. revert i real_index info_count.
  induction pre as [|p pre IH]; intros i real_index info_count Hsel Hreal Hinfo Hb1 Hb2.
  - cbn [app translate_loop]. unfold is_info in Hit. rewrite Hit.
    cbn [selectable List.filter length] in Hsel.
    replace (real_index =? index) with true by (symmetry; apply Z.eqb_eq; lia).
    cbn [length info_items List.filter]. f_equal; lia.
  - cbn [app translate_loop]. cbn [selectable info_items List.filter length] in *.
    fold (is_info p) in *. fold (selectable pre) in *. fold (info_items pre) in *.
    destruct (is_info p) eqn:Hp; cbn [negb length] in *.
    + rewrite IH by (rewrite ?to_int_small by lia; lia).
      rewrite to_int_small by lia. f_equal; lia.
    + replace (real_index =? index) with false by (symmetry; apply Z.eqb_neq; lia).
      rewrite IH by (rewrite ?to_int_small by lia; lia).
      f_equal; lia.
Qed.

Lemma translate_loop_missing (its : list gopher_item) (i index real_index info_count : Z) :
  Z.of_nat (length (selectable its)) <= index - real_index ->
  0 <= real_index -> 0 <= info_count ->
  index + Z.of_nat (length its) < 2 ^ 31 ->
  info_count + Z.of_nat (length its) < 2 ^ 31 ->
  translate_loop its i index real_index info_count
  = (index, info_count + Z.of_nat (length (info_items its))).
Proof.
  revert i real_index info_count.
  induction its as [|p its IH]; intros i real_index info_count Hsel Hreal Hinfo Hb1 Hb2.
  - cbn [translate_loop info_items List.filter length]. f_equal. lia.
  - cbn [translate_loop]. cbn [selectable info_items List.filter length] in *.
    fold (is_info p) in *. fold (selectable its) in *. fold (info_items its) in *.
    destruct (is_info p) eqn:Hp; cbn [negb length] in *.
    + rewrite IH by (rewrite ?to_int_small by lia; lia).
      rewrite to_int_small by lia. f_equal; lia.
    + replace (real_index =? index) with false by (symmetry; apply Z.eqb_neq; lia).
      rewrite IH by (rewrite ?to_int_small by lia; lia).
      f_equal; lia.
Qed.

Lemma listing_lines_numbered (indent : string) (pre : list gopher_item) (it : gopher_item)
    (post : list gopher_item) (item_index : Z) :
  is_info it = false ->
  0 <= item_index -> item_index + Z.of_nat (length pre) + 1 < 2 ^ 31 ->
  listing_lines indent (pre ++ it :: post) item_index !! length pre
  = Some (numbered_line (item_index + Z.of_nat (length (selectable pre)) + 1) it).
Proof.
  intros Hit. revert item_index.
  induction pre as [|p pre IH]; intros item_index Hidx Hb.
  - cbn [app listing_lines length]. unfold is_info in Hit. rewrite Hit.
    cbn [length] in Hb.
    cbn [lookup list_lookup selectable List.filter length].
    rewrite to_int_small by lia. change (Z.of_nat 0) with 0. rewrite Z.add_0_r.
    reflexivity.
  - cbn [app listing_lines length]. cbn [selectable List.filter].
    fold (is_info p). fold (selectable pre).
    cbn [length] in Hb.
    destruct (is_info p) eqn:Hp; cbn [negb lookup list_lookup length].
    + apply IH; lia.
    + rewrite IH by (rewrite ?to_int_small by lia; lia).
      rewrite to_int_small by lia. do 2 f_equal. lia.
Qed.

Lemma selectable_split (its : list gopher_item) (n : nat) :
  (n < length (selectable its))%nat ->
  exists pre it post,
    its = pre ++ it :: post /\ is_info it = false /\ length (selectable pre) = n.
Proof.
  revert n. induction its as [|p its IH]; intros n Hn; [cbn in Hn; lia|].
  cbn [selectable List.filter] in Hn. fold (selectable its) in Hn.
  destruct (is_info p) eqn:Hp; cbn [negb length] in Hn.
  - destruct (IH n Hn) as (pre & it & post & -> & Hit & Hlen).
    exists (p :: pre), it, post. split; [reflexivity|]. split; [exact Hit|].
    cbn [selectable List.filter]. rewrite Hp. exact Hlen.
  - destruct n as [|n].
    + exists [], p, its. repeat split. exact Hp.
    + destruct (IH n ltac:(lia)) as (pre & it & post & -> & Hit & Hlen).
      exists (p :: pre), it, post. split; [reflexivity|]. split; [exact Hit|].
      cbn [selectable List.filter]. rewrite Hp. cbn [negb length].
      fold (selectable pre). lia.
Qed.

(** X17. The numbers of a listing and the numbers [view] takes agree:
    for a number [k] from 1 to the number of items that are not info
    lines, the loop of [cmd_gopher_view] finds the position of the
    [k]-th such item, which is the one the listing shows under [k].
    For a larger [k] the loop finds nothing and leaves the index at
    [k - 1], which is then used as a position in the table as it is. *)
Theorem view_index_matches_listing (client : gopher_client) (indent : string)
    (its : list gopher_item) (k : Z) :
  listed_items client = Some its ->
  (length its <= 64)%nat ->
  1 <= k < 2 ^ 30 ->
  (k <= Z.of_nat (length (selectable its)) ->
   exists i it,
     translate_index client (k - 1)
       = Some (Z.of_nat i, Z.of_nat (length (info_items (take i its)))) /\
     its !! i = Some it /\ is_info it = false /\
     Z.of_nat (length (selectable (take i its))) = k - 1 /\
     listing_lines indent its 0 !! i = Some (numbered_line k it)) /\
  (Z.of_nat (length (selectable its)) < k ->
   translate_index client (k - 1)
     = Some (k - 1, Z.of_nat (length (info_items its)))).
Proof.
  intros Hits Hlen Hk. unfold translate_index. rewrite Hits. cbn [mbind option_bind].
  split.
  - intros Hsel.
    destruct (selectable_split its (Z.to_nat (k - 1))) as (pre & it & post & -> & Hit & Hpre);
      [lia|].
    rewrite length_app in Hlen. cbn [length] in Hlen.
    exists (length pre), it.
    rewrite take_app_length.
    rewrite (translate_loop_found pre it post 0 (k - 1) 0 0 Hit) by lia.
    split; [reflexivity|]. split; [apply list_lookup_middle; reflexivity|].
    split; [exact Hit|]. split; [lia|].
    rewrite (listing_lines_numbered indent pre it post 0 Hit) by lia.
    do 2 f_equal. lia.
  - intros Hsel. rewrite (translate_loop_missing its 0 (k - 1) 0 0) by lia.
    reflexivity.
Qed.

Lemma view_index_matches_listing_witness :
  (exists i it,
     translate_index listed_client (2 - 1)
       = Some (Z.of_nat i,
               Z.of_nat (length (info_items (take i (take 3 (items listed_client)))))) /\
     take 3 (items listed_client) !! i = Some it /\ is_info it = false /\
     Z.of_nat (length (selectable (take i (take 3 (items listed_client))))) = 2 - 1 /\
     listing_lines "    " (take 3 (items listed_client)) 0 !! i = Some (numbered_line 2 it)) /\
  translate_index listed_client (3 - 1) = Some (3 - 1, 1).
Proof.
  split.
  - apply (view_index_matches_listing listed_client "    " (take 3 (items listed_client)) 2);
      [reflexivity|vm_compute; lia|lia|vm_compute; discriminate].
  - apply (view_index_matches_listing listed_client "    " (take 3 (items listed_client)) 3);
      [reflexivity|vm_compute; lia|lia|vm_compute; reflexivity].
Defined.

(** ** Viewing an item on another server *)

Lemma ensure_client_initialized_ready st w c name :
  client_initialized st = true ->
  connected (shell_client st) = true ->
  client_hostname (shell_client st) = c :: name -> c <> NUL ->
  runs (ensure_client_initialized st) w (0, st) w [].
Proof.
  intros Hinit Hconn Hname Hc. unfold ensure_client_initialized.
  rewrite Hinit, Hconn, Hname. change (read (c :: name) 0) with (Some c).
  apply (runs_bind _ _ w false w [] (0, st) w []).
  - apply (runs_bind _ _ w c w [] false w []); [apply runs_lift_Some|].
    replace (Ascii.eqb c NUL) with false by (symmetry; now apply Ascii.eqb_neq).
    apply runs_ret.
  - apply runs_ret.
Qed.

Lemma gopher_send_selector_unnamed net trace client selector buffer size name :
  size <> 0 -> client_hostname client = NUL :: name ->
  gopher_send_selector net trace client selector buffer size
  = Some {| sent_ret := - ENOTCONN; sent_client := client; sent_buffer := buffer;
            sent_trace := trace |}.
Proof.
  intros Hsize Hname. unfold gopher_send_selector.
  destruct (Z.eqb_spec size 0); [contradiction|].
  rewrite Hname. change (read (NUL :: name) 0) with (Some NUL).
  cbn [mbind option_bind]. rewrite Ascii.eqb_refl, orb_true_r. reflexivity.
Qed.

Lemma atoi_range (s : list ascii) : - 2 ^ 31 <= atoi s < 2 ^ 31.
Proof.
  unfold atoi, to_int.
  pose proof (Z.mod_pos_bound (strtol s + 2 ^ 31) (2 ^ 32) ltac:(lia)). lia.
Qed.

(** X18. Viewing an item that lives on another server never reaches that
    server: [cmd_gopher_view] clears the client, and with it the item
    its host-name and selector pointers refer to, before it connects.
    It connects to the empty host name, sends nothing, reports
    [-ENOTCONN], and leaves a client that is marked connected, has no
    host name, no listing and no history. *)
Theorem cmd_gopher_view_other_server e net cmd arg1 rest st w index info_count it c name :
  client_initialized st = true ->
  connected (shell_client st) = true ->
  client_hostname (shell_client st) = c :: name -> c <> NUL ->
  item_count (shell_client st) <> 0 ->
  1 <= atoi arg1 ->
  translate_index (shell_client st) (atoi arg1 - 1) = Some (index, info_count) ->
  0 <= index < item_count (shell_client st) -> index < 64 ->
  items (shell_client st) !! Z.to_nat index = Some it ->
  strcmp_eq (item_hostname it) (client_hostname (shell_client st)) = false
  \/ item_port it <> client_port (shell_client st) ->
  exists st' w' evs,
    runs (cmd_gopher_view e net (cmd :: arg1 :: rest) st) w (- ENOTCONN, st') w' evs /\
    net_trace st' = net_trace st /\
    connected (shell_client st') = true /\
    c_str (client_hostname (shell_client st')) = [] /\
    item_count (shell_client st') = 0 /\
    items (shell_client st') = zero_items /\
    history (shell_client st') = history zero_client /\
    history_count (shell_client st') = 0 /\
    last evs = Some (shell_error "Failed to get response from server: %d"
                       [arg_int (- ENOTCONN)]).
Proof.
  intros Hinit Hconn Hname Hc Hcount Harg Hfound Hindex Hindex64 Hit Hother.
  pose proof (atoi_range arg1) as Hatoi.
  assert (Hread : read (items (shell_client st)) index = Some it).
  { unfold read. destruct (Z.ltb_spec index 0); [lia|exact Hit]. }
  assert (Hzero : read zero_items index = Some zero_item).
  { unfold read. destruct (Z.ltb_spec index 0); [lia|].
    apply lookup_replicate_2. unfold GOPHER_MAX_DIR_ITEMS. lia. }
  assert (Hdiff : negb (strcmp_eq (item_hostname it) (client_hostname (shell_client st)))
                  || negb (item_port it =? client_port (shell_client st)) = true).
  { destruct Hother as [->|Hport]; [reflexivity|].
    replace (item_port it =? client_port (shell_client st)) with false
      by (symmetry; now apply Z.eqb_neq).
    apply orb_true_r. }
  set (cleared := {| client_hostname := client_hostname zero_client;
                     client_port := GOPHER_DEFAULT_PORT;
                     connected := false;
                     items := items zero_client;
                     item_count := 0;
                     history := history (shell_client st);
                     history_pos := history_pos (shell_client st);
                     history_count := history_count (shell_client st) |}).
  set (st1 := set_buffer (set_client st cleared) (zeros GOPHER_BUFFER_SIZE)).
  set (r := gopher_connect (shell_client st1) (Some (item_hostname zero_item)) (item_port it)).
  set (st2 := set_client st1 (snd r)).
  exists st2. eexists. eexists. split; [|split; [reflexivity|]].
  - unfold cmd_gopher_view.
    eapply runs_bind; [exact (ensure_client_initialized_ready st w c name Hinit Hconn Hname Hc)|].
    cbv beta iota. change (0 =? 0) with true. cbn [negb]. rewrite Hconn. cbn [negb].
    destruct (Z.eqb_spec (item_count (shell_client st)) 0); [contradiction|].
    destruct (Z.ltb_spec (atoi arg1) 1); [lia|].
    rewrite (to_int_small (atoi arg1 - 1)) by lia. rewrite Hfound.
    eapply runs_bind; [apply runs_lift_Some|]. cbv beta iota.
    eapply runs_bind; [apply runs_emit|].
    destruct (Z.ltb_spec index 0); [lia|].
    destruct (Z.leb_spec (item_count (shell_client st)) index); [lia|]. cbn [orb].
    unfold item_at at 1. rewrite Hread.
    eapply runs_bind; [apply runs_lift_Some|]. cbv beta zeta.
    eapply runs_bind; [apply runs_emit|].
    rewrite Hdiff.
    eapply runs_bind.
    { unfold switch_server. unfold item_at at 1.
      rewrite Hread.
      eapply runs_bind; [apply runs_lift_Some|].
      eapply runs_bind; [apply runs_emit|]. cbv zeta. fold cleared. fold st1.
      unfold item_at at 1. change (items (shell_client st1)) with zero_items.
      rewrite Hzero.
      eapply runs_bind; [apply runs_lift_Some|].
      fold r. change (gopher_connect (shell_client st1) (Some (item_hostname zero_item))
                        (item_port it)) with (0, snd r).
      cbv beta iota. fold st2. change (0 <? 0) with false. cbv iota. apply runs_ret. }
    cbv beta iota. change (0 <? 0) with false. cbv iota.
    unfold item_at at 1. cbn [shell_client set_client items zero_client]. rewrite Hzero.
    eapply runs_bind; [apply runs_lift_Some|]. cbv beta zeta.
    change (item_type zero_item) with NUL.
    change (Ascii.eqb NUL "8" || Ascii.eqb NUL "T") with false.
    change (Ascii.eqb NUL "9" || Ascii.eqb NUL "5" || Ascii.eqb NUL "4" || Ascii.eqb NUL "6")
      with false.
    change (Ascii.eqb NUL "g" || Ascii.eqb NUL "I") with false. cbv iota.
    eapply runs_bind; [eapply (runs_when false); apply runs_emit|]. cbv iota.
    eapply runs_bind; [apply runs_emit|].
    eapply runs_bind.
    { unfold send_selector.
      rewrite (gopher_send_selector_unnamed net _ (shell_client st2) _ _ _
                 (replicate 63 NUL)); [|discriminate|reflexivity].
      eapply runs_bind; [apply runs_lift_Some|]. apply runs_ret. }
    cbv beta iota. cbn [sent_ret]. change (- ENOTCONN <? 0) with true. cbv iota.
    eapply runs_bind; [apply runs_emit|]. apply runs_ret.
  - split; [reflexivity|]. split; [reflexivity|]. split; [reflexivity|].
    split; [reflexivity|]. split; [reflexivity|]. split; [reflexivity|].
    reflexivity.
Qed.

Lemma cmd_gopher_view_other_server_witness :
  exists st' w' evs,
    runs (cmd_gopher_view test_env (served_net (fun _ => []))
            [list_ascii_of_string "view"; list_ascii_of_string "2"] listed_state)
      initial_world (- ENOTCONN, st') w' evs /\
    net_trace st' = [] /\
    c_str (client_hostname (shell_client st')) = [] /\
    item_count (shell_client st') = 0.
Proof.
  destruct (cmd_gopher_view_other_server test_env (served_net (fun _ => []))
              (list_ascii_of_string "view") (list_ascii_of_string "2") [] listed_state
              initial_world 2 1 (default zero_item (items listed_client !! 2%nat))
              "e"%char (tail (client_hostname listed_client)))
    as (st' & w' & evs & Hrun & Htrace & _ & Hname & Hcount & _).
  - reflexivity.
  - reflexivity.
  - reflexivity.
  - discriminate.
  - vm_compute. discriminate.
  - vm_compute. discriminate.
  - reflexivity.
  - vm_compute. split; [discriminate|reflexivity].
  - lia.
  - reflexivity.
  - left. reflexivity.
  - exists st', w', evs. split; [exact Hrun|]. split; [exact Htrace|].
    split; [exact Hname|exact Hcount].
Defined.

(** ** Commands that never render *)

Lemma never_decodes_ret {A : Type} (a : A) : never_decodes (ret a).
Proof.
  intros w a' w' [= <- <-]. exists []. split; [apply emitted_nil|constructor].
Qed.

Lemma never_decodes_emit_all evs :
  Forall (fun ev => is_codec_call ev = false) evs -> never_decodes (emit_all evs).
Proof.
  intros Hevs w a w' [= <- <-]. exists evs. split; [|exact Hevs].
  apply (emitted_log w w [] evs), emitted_nil.
Qed.

Lemma never_decodes_emit ev : is_codec_call ev = false -> never_decodes (emit ev).
Proof.
  intros Hev. apply (never_decodes_emit_all [ev]). repeat constructor. exact Hev.
Qed.

Lemma never_decodes_lift_option {A : Type} (o : option A) : never_decodes (lift_option o).
Proof.
  intros w a w' H. unfold lift_option in H. destruct o; [|discriminate].
  injection H as <- <-. exists []. split; [apply emitted_nil|constructor].
Qed.

Lemma never_decodes_bind_with {A B : Type} (m : M A) (k : A -> M B) (Q : A -> Prop) :
  never_decodes m ->
  (forall w a w', m w = Some (a, w') -> Q a) ->
  (forall a, Q a -> never_decodes (k a)) ->
  never_decodes (bind m k).
Proof.
  intros Hm HQ Hk w b w' Hrun. unfold bind in Hrun.
  destruct (m w) as [[a w1]|] eqn:Hmw; [|discriminate].
  destruct (Hm w a w1 Hmw) as (evs1 & He1 & Hq1).
  destruct (Hk a (HQ w a w1 Hmw) w1 b w' Hrun) as (evs2 & He2 & Hq2).
  exists (evs1 ++ evs2). split; [eapply emitted_trans; eassumption|].
  apply Forall_app. split; assumption.
Qed.

Lemma never_decodes_bind {A B : Type} (m : M A) (k : A -> M B) :
  never_decodes m -> (forall a, never_decodes (k a)) -> never_decodes (bind m k).
Proof.
  intros Hm Hk. apply (never_decodes_bind_with m k (fun _ => True)); auto.
Qed.

Ltac quiet :=
  repeat first
    [ apply never_decodes_ret
    | apply never_decodes_lift_option
    | apply never_decodes_emit; reflexivity
    | apply never_decodes_bind; [|intros ?] ].

Lemma listing_lines_quiet indent its item_index :
  Forall (fun ev => is_codec_call ev = false) (listing_lines indent its item_index).
Proof.
  revert item_index. induction its as [|it its IH]; intros item_index; [constructor|].
  cbn [listing_lines]. destruct (Ascii.eqb (item_type it) "i");
    (constructor; [reflexivity|apply IH]).
Qed.

Lemma text_lines_quiet fuel text lines :
  text_lines fuel text = Some lines ->
  Forall (fun ev => is_codec_call ev = false) lines.
Proof.
  revert text lines. induction fuel as [|fuel IH]; intros text lines H.
  - destruct text as [|c text]; cbn [text_lines] in H; [injection H as <-; constructor|].
    destruct (memmem_at (c :: text) [CR; NL]); [discriminate|].
    injection H as <-. repeat constructor.
  - destruct text as [|c text]; cbn [text_lines] in H; [injection H as <-; constructor|].
    destruct (memmem_at (c :: text) [CR; NL]) as [off|].
    + destruct (text_lines fuel _) as [rest|] eqn:Hrest; [|discriminate].
      cbn [mbind option_bind] in H. injection H as <-.
      constructor; [reflexivity|]. eapply IH. exact Hrest.
    + injection H as <-. repeat constructor.
Qed.

Lemma show_directory_quiet indent client : never_decodes (show_directory indent client).
Proof.
  unfold show_directory. quiet. apply never_decodes_emit_all, listing_lines_quiet.
Qed.

Lemma show_text_quiet client buffer : never_decodes (show_text client buffer).
Proof.
  unfold show_text.
  apply never_decodes_bind; [quiet|intros _].
  apply never_decodes_bind; [quiet|intros _].
  apply (never_decodes_bind_with _ _
           (fun lines => Forall (fun ev => is_codec_call ev = false) lines)).
  - apply never_decodes_lift_option.
  - intros w lines w' H. unfold lift_option in H.
    destruct (text_lines (length buffer) (c_str buffer)) as [lines'|] eqn:Hlines;
      [|discriminate].
    injection H as <- _. eapply text_lines_quiet. exact Hlines.
  - intros lines Hlines. apply never_decodes_bind; [|intros _; quiet].
    apply never_decodes_emit_all. exact Hlines.
Qed.

Lemma ensure_client_initialized_quiet st : never_decodes (ensure_client_initialized st).
Proof.
  unfold ensure_client_initialized. cbv zeta.
  assert (Hinit : forall st', never_decodes
            (let (r, client) := gopher_client_init (shell_client st') in
             if r <? 0
             then emit (shell_error "Failed to initialize Gopher client: %d" [arg_int r]) ;;
                  ret (r, set_client st' client)
             else ret (0, set_initialized
                            (set_buffer (set_client st' client) (zeros GOPHER_BUFFER_SIZE))
                            true))).
  { intros st'. destruct (gopher_client_init (shell_client st')) as [r client].
    destruct (r <? 0); quiet. }
  destruct (client_initialized st); [|apply Hinit].
  apply never_decodes_bind.
  - destruct (connected (shell_client st)); quiet.
  - intros [|]; [|quiet]. apply never_decodes_bind; [quiet|intros _]. apply Hinit.
Qed.

Lemma send_selector_quiet net st selector : never_decodes (send_selector net st selector).
Proof. unfold send_selector. quiet. Qed.

Lemma gopher_parse_directory_nonneg client buffer n client' :
  gopher_parse_directory client (Some buffer) = Some (n, client') -> 0 <= n.
Proof.
  unfold gopher_parse_directory.
  destruct (Z.of_nat (length (c_str buffer)) =? 0) eqn:Hlen; [intros [= <- _]; lia|].
  apply Z.eqb_neq in Hlen.
  destruct (read buffer 0) as [c|]; [|discriminate]. cbn [mbind option_bind].
  destruct (negb _); [intros [= <- _]; lia|].
  pose proof (c_str_length buffer) as Hle.
  destruct (parse_lines_ok (with_items client zero_items 0) buffer
              (Z.of_nat (length (c_str buffer))) (S (length buffer))
              {| line_start := 0; count := 0; parsed := zero_items |})
    as (st & Hrun & Hc & _); cbn [line_start count parsed]; try lia; try reflexivity.
  { unfold GOPHER_MAX_DIR_ITEMS. lia. }
  cbn [items with_items]. rewrite Hrun. cbn [mbind option_bind].
  intros [= <- _]. cbn [count] in Hc. lia.
Qed.

Lemma parse_directory_quiet st : never_decodes (parse_directory st).
Proof. unfold parse_directory. quiet. Qed.

Lemma parse_directory_nonneg st w r w' : parse_directory st w = Some (r, w') -> 0 <= fst r.
Proof.
  unfold parse_directory, bind, lift_option.
  destruct (gopher_parse_directory (shell_client st) (Some (gopher_buffer st)))
    as [[n client']|] eqn:Hparse; [|discriminate].
  intros [= <- _]. cbn [fst]. eapply gopher_parse_directory_nonneg. exact Hparse.
Qed.

(** With no bytes to look at, the response is shown as text. *)
Lemma show_image_or_text_empty e announce client buffer size :
  0 <= size -> negb (0 <? size) = true ->
  never_decodes (show_image_or_text e announce client buffer size).
Proof.
  intros Hsize Hzero. apply negb_true_iff, Z.ltb_ge in Hzero.
  assert (size = 0) by lia. subst size.
  unfold show_image_or_text. cbv zeta.
  change (take (Z.to_nat (to_size_t 0)) buffer) with (@nil ascii).
  change (gopher_is_image []) with (Some false).
  apply (never_decodes_bind_with _ _ (fun b => b = false)).
  - apply never_decodes_lift_option.
  - intros w b w' [= <- _]. reflexivity.
  - intros b ->. apply show_text_quiet.
Qed.

(** X19. [cmd_gopher_get] and [cmd_gopher_back] never render an image:
    both hand [gopher_is_image] the result of [gopher_parse_directory],
    which is 0 on that branch, instead of the number of bytes received,
    so the classifier sees an empty buffer and the response is printed
    as text.  Neither command ever calls the codec. *)
Theorem get_and_back_never_decode e net argv st :
  never_decodes (cmd_gopher_get e net argv st) /\
  never_decodes (cmd_gopher_back e net st).
Proof.
  assert (Hshow : forall announce indent (r : Z * shell_state),
             0 <= fst r ->
             never_decodes
               (let (parsed, st) := r in
                (if 0 <? parsed then show_directory indent (shell_client st)
                 else show_image_or_text e announce (shell_client st) (gopher_buffer st)
                        parsed) ;;
                ret (0, st))).
  { intros announce indent [parsed st'] Hparsed. cbn [fst] in Hparsed.
    apply never_decodes_bind; [|intros _; quiet].
    destruct (0 <? parsed) eqn:Hpos; [apply show_directory_quiet|].
    apply show_image_or_text_empty; [exact Hparsed|now rewrite Hpos]. }
  assert (Hfetch : forall announce indent st' selector,
             never_decodes
               (r <- send_selector net st' selector ;;
                let (received, st) := r : Z * shell_state in
                if received <? 0 then
                  emit (shell_error "Failed to get response from server: %d"
                          [arg_int received]) ;;
                  ret (received, st)
                else
                  r <- parse_directory st ;;
                  let (parsed, st) := r : Z * shell_state in
                  (if 0 <? parsed then show_directory indent (shell_client st)
                   else show_image_or_text e announce (shell_client st) (gopher_buffer st)
                          parsed) ;;
                  ret (0, st))).
  { intros announce indent st' selector.
    apply never_decodes_bind; [apply send_selector_quiet|intros [received st1]].
    destruct (received <? 0); [quiet|].
    apply (never_decodes_bind_with _ _ (fun r => 0 <= fst r)).
    - apply parse_directory_quiet.
    - intros w r w'. apply parse_directory_nonneg.
    - intros r Hr. apply Hshow. exact Hr. }
  split.
  - unfold cmd_gopher_get.
    apply never_decodes_bind; [apply ensure_client_initialized_quiet|intros [init st1]].
    destruct (negb (init =? 0)); [quiet|].
    destruct (negb (connected (shell_client st1))); [quiet|]. cbv zeta.
    apply never_decodes_bind; [quiet|intros _]. apply Hfetch.
  - unfold cmd_gopher_back.
    apply never_decodes_bind; [apply ensure_client_initialized_quiet|intros [init st1]].
    destruct (negb (init =? 0)); [quiet|]. cbv zeta.
    destruct (negb (connected (shell_client st1))); [quiet|].
    destruct (history_count (shell_client st1) <=? 1); [quiet|].
    apply never_decodes_bind; [quiet|intros selector].
    apply never_decodes_bind; [quiet|intros _]. apply Hfetch.
Qed.

(** ** A file fetched with [get] *)

Lemma text_lines_total (fuel : nat) (text : list ascii) :
  (length text <= fuel)%nat -> exists lines, text_lines fuel text = Some lines.
Proof.
  revert text. induction fuel as [|fuel IH]; intros text Hlen.
  - destruct text; [eexists; reflexivity|cbn in Hlen; lia].
  - destruct text as [|c text]; [eexists; reflexivity|].
    cbn [text_lines].
    destruct (memmem_at (c :: text) [CR; NL]) as [off|] eqn:Hoff; [|eexists; reflexivity].
    apply memmem_at_range in Hoff.
    destruct (IH (drop (Z.to_nat (off + 2)) (c :: text))) as [rest ->].
    { rewrite length_drop. cbn [length] in *. lia. }
    eexists. reflexivity.
Qed.

(** X20. A response that does not start with an item type is shown by
    [cmd_gopher_get] as text, whatever it is: for a ready client and a
    request that succeeds with such a response (a JPEG, say), the
    command prints the request line, the text header, the lines of the
    string in the buffer and the footer, and returns 0.  The listing
    the client held is cleared. *)
Theorem cmd_gopher_get_shows_text e net argv st w c name r b rest :
  client_initialized st = true ->
  connected (shell_client st) = true ->
  client_hostname (shell_client st) = c :: name -> c <> NUL ->
  gopher_send_selector net (net_trace st) (shell_client st)
    (match argv with _ :: arg1 :: _ => Some arg1 | _ => None end)
    (gopher_buffer st) GOPHER_BUFFER_SIZE = Some r ->
  0 <= sent_ret r ->
  sent_buffer r = b :: rest -> b <> NUL -> is_listing_type b = false ->
  exists w' request lines,
    text_lines (length (sent_buffer r)) (c_str (sent_buffer r)) = Some lines /\
    runs (cmd_gopher_get e net argv st) w
      (0, {| shell_client := with_items (sent_client r) zero_items 0;
             gopher_buffer := sent_buffer r;
             client_initialized := true;
             net_trace := sent_trace r |})
      w'
      (request
       :: shell_fprintf ("Gopher Text: %s%s%s" ++ LF)
            [arg_str COLOR_BLUE; arg_c_str (client_hostname (sent_client r));
             arg_str COLOR_RESET]
       :: shell_fprintf ("---------------------------------------------" ++ LF) []
       :: lines
       ++ [shell_fprintf ("---------------------------------------------" ++ LF) []]).
Proof.
  intros Hinit Hconn Hname Hc Hsend Hret Hbuf Hb Htype.
  destruct (text_lines_total (length (sent_buffer r)) (c_str (sent_buffer r)))
    as [lines Hlines]; [apply c_str_length|].
  assert (Hparse : gopher_parse_directory (sent_client r) (Some (sent_buffer r))
                   = Some (0, with_items (sent_client r) zero_items 0)).
  { unfold gopher_parse_directory. rewrite Hbuf. cbn [c_str].
    replace (Ascii.eqb b NUL) with false by (symmetry; now apply Ascii.eqb_neq).
    cbn [length]. destruct (Z.eqb_spec (Z.of_nat (S (length (c_str rest)))) 0); [lia|].
    change (read (b :: rest) 0) with (Some b). cbn [mbind option_bind].
    rewrite Htype. reflexivity. }
  eexists. eexists. exists lines. split; [exact Hlines|].
  unfold cmd_gopher_get.
  eapply runs_events.
  - eapply runs_bind;
      [exact (ensure_client_initialized_ready st w c name Hinit Hconn Hname Hc)|].
    cbv beta iota. change (0 =? 0) with true. cbn [negb]. rewrite Hconn. cbn [negb].
    cbv zeta.
    eapply runs_bind; [apply runs_emit|].
    eapply runs_bind.
    { unfold send_selector. rewrite Hsend.
      eapply runs_bind; [apply runs_lift_Some|]. apply runs_ret. }
    cbv beta iota. destruct (Z.ltb_spec (sent_ret r) 0); [lia|].
    eapply runs_bind.
    { unfold parse_directory. cbn [shell_client gopher_buffer]. rewrite Hparse.
      eapply runs_bind; [apply runs_lift_Some|]. apply runs_ret. }
    cbv beta iota. cbn [fst snd set_client shell_client gopher_buffer client_initialized
                        net_trace].
    change (0 <? 0) with false. cbv iota. rewrite Hinit.
    eapply runs_bind; [|apply runs_ret].
    unfold show_image_or_text. cbv zeta.
    change (take (Z.to_nat (to_size_t 0)) (sent_buffer r)) with (@nil ascii).
    change (gopher_is_image []) with (Some false).
    eapply runs_bind; [apply runs_lift_Some|]. cbv iota.
    unfold show_text.
    eapply runs_bind; [apply runs_emit|].
    eapply runs_bind; [apply runs_emit|].
    rewrite Hlines.
    eapply runs_bind; [apply runs_lift_Some|].
    eapply runs_bind; [apply runs_emit_all|]. apply runs_emit.
  - cbn [app with_items client_hostname]. rewrite !app_nil_r. reflexivity.
Qed.

Lemma cmd_gopher_get_shows_text_witness :
  exists w' request lines,
    runs (cmd_gopher_get test_env (served_net (fun _ => jpeg_bytes))
            [list_ascii_of_string "get"; list_ascii_of_string "/cat.jpg"] ready_state)
      initial_world
      (0, {| shell_client :=
               with_items
                 (default sample_client
                    (push_history sample_client (Some (list_ascii_of_string "/cat.jpg"))))
                 zero_items 0;
             gopher_buffer := jpeg_bytes ++ zeros (GOPHER_BUFFER_SIZE - Z.of_nat (length jpeg_bytes));
             client_initialized := true;
             net_trace := [call_inet_pton (list_ascii_of_string "example.org");
                           call_getaddrinfo (list_ascii_of_string "example.org");
                           call_socket; call_connect 70;
                           call_send (list_ascii_of_string "/cat.jpg" ++ [CR; NL]);
                           call_recv; call_recv; call_close] |})
      w'
      (request
       :: shell_fprintf ("Gopher Text: %s%s%s" ++ LF)
            [arg_str COLOR_BLUE; arg_str "example.org"; arg_str COLOR_RESET]
       :: shell_fprintf ("---------------------------------------------" ++ LF) []
       :: lines
       ++ [shell_fprintf ("---------------------------------------------" ++ LF) []]).
Proof.
  destruct (cmd_gopher_get_shows_text test_env (served_net (fun _ => jpeg_bytes))
              [list_ascii_of_string "get"; list_ascii_of_string "/cat.jpg"] ready_state
              initial_world "e"%char (tail (client_hostname sample_client))
              {| sent_ret := Z.of_nat (length jpeg_bytes);
                 sent_client :=
                   default sample_client
                     (push_history sample_client (Some (list_ascii_of_string "/cat.jpg")));
                 sent_buffer := jpeg_bytes
                                ++ zeros (GOPHER_BUFFER_SIZE - Z.of_nat (length jpeg_bytes));
                 sent_trace := [call_inet_pton (list_ascii_of_string "example.org");
                                call_getaddrinfo (list_ascii_of_string "example.org");
                                call_socket; call_connect 70;
                                call_send (list_ascii_of_string "/cat.jpg" ++ [CR; NL]);
                                call_recv; call_recv; call_close] |}
              "255"%char (tail jpeg_bytes
                          ++ zeros (GOPHER_BUFFER_SIZE - Z.of_nat (length jpeg_bytes))))
    as (w' & request & lines & _ & Hrun).
  - reflexivity.
  - reflexivity.
  - reflexivity.
  - discriminate.
  - vm_compute. reflexivity.
  - vm_compute. discriminate.
  - reflexivity.
  - discriminate.
  - reflexivity.
  - exists w', request, lines. exact Hrun.
Defined.

(** ** Going back *)

Lemma gopher_parse_directory_total client buffer :
  exists n client',
    gopher_parse_directory client (Some buffer) = Some (n, client') /\
    0 <= n /\
    history client' = history client /\
    history_pos client' = history_pos client /\
    history_count client' = history_count client /\
    (0 < n -> item_count client' = n /\ n <= Z.of_nat (length (items client'))).
Proof.
  unfold gopher_parse_directory.
  destruct (Z.of_nat (length (c_str buffer)) =? 0) eqn:Hlen.
  { exists 0, client. repeat split; try reflexivity; lia. }
  apply Z.eqb_neq in Hlen.
  destruct buffer as [|c buffer']; [cbn in Hlen; lia|].
  change (read (c :: buffer') 0) with (Some c). cbn [mbind option_bind].
  destruct (negb _).
  { exists 0, (with_items client zero_items 0). repeat split; try reflexivity; lia. }
  pose proof (c_str_length (c :: buffer')) as Hle.
  destruct (parse_lines_ok (with_items client zero_items 0) (c :: buffer')
              (Z.of_nat (length (c_str (c :: buffer')))) (S (length (c :: buffer')))
              {| line_start := 0; count := 0; parsed := zero_items |})
    as (st & Hrun & Hc & Hl & _); cbn [line_start count parsed]; try lia; try reflexivity.
  { unfold GOPHER_MAX_DIR_ITEMS. lia. }
  cbn [items with_items]. rewrite Hrun. cbn [mbind option_bind].
  cbn [count parsed] in Hc, Hl. unfold GOPHER_MAX_DIR_ITEMS in Hc.
  eexists _, _. split; [reflexivity|].
  cbn [with_items history history_pos history_count item_count items].
  split; [lia|]. do 3 (split; [reflexivity|]).
  intros _. split; [reflexivity|]. rewrite Hl. change (length zero_items) with 64%nat. lia.
Qed.

Lemma show_text_runs client buffer w :
  exists w' evs, runs (show_text client buffer) w tt w' evs.
Proof.
  destruct (text_lines_total (length buffer) (c_str buffer)) as [lines Hlines];
    [apply c_str_length|].
  unfold show_text. rewrite Hlines. eexists _, _.
  eapply runs_bind; [apply runs_emit|].
  eapply runs_bind; [apply runs_emit|].
  eapply runs_bind; [apply runs_lift_Some|].
  eapply runs_bind; [apply runs_emit_all|]. apply runs_emit.
Qed.

Lemma show_directory_runs indent client w :
  item_count client <= Z.of_nat (length (items client)) ->
  exists w' evs, runs (show_directory indent client) w tt w' evs.
Proof.
  intros Hcount. unfold show_directory, listed_items.
  destruct (Z.leb_spec (item_count client) (Z.of_nat (length (items client)))); [|lia].
  eexists _, _.
  eapply runs_bind; [apply runs_emit|].
  eapply runs_bind; [apply runs_emit|].
  eapply runs_bind; [apply runs_lift_Some|].
  eapply runs_bind; [apply runs_emit_all|].
  eapply runs_bind; [apply runs_emit|]. apply runs_emit.
Qed.

(** What follows a successful request in [cmd_gopher_get] and
    [cmd_gopher_back] always runs, and keeps the history. *)
Lemma show_response_runs e announce indent st w :
  exists st' w' evs,
    runs (r <- parse_directory st ;;
          let (parsed, st) := r : Z * shell_state in
          (if 0 <? parsed then show_directory indent (shell_client st)
           else show_image_or_text e announce (shell_client st) (gopher_buffer st) parsed) ;;
          ret (0, st)) w (0, st') w' evs /\
    history (shell_client st') = history (shell_client st) /\
    history_pos (shell_client st') = history_pos (shell_client st) /\
    history_count (shell_client st') = history_count (shell_client st) /\
    net_trace st' = net_trace st.
Proof.
  destruct (gopher_parse_directory_total (shell_client st) (gopher_buffer st))
    as (n & client' & Hparse & Hn & Hh & Hp & Hc & Hitems).
  assert (Hshow : exists w' evs,
             runs (if 0 <? n then show_directory indent client'
                   else show_image_or_text e announce client' (gopher_buffer st) n)
               w tt w' evs).
  { destruct (Z.ltb_spec 0 n) as [Hpos|Hzero].
    - apply show_directory_runs. destruct (Hitems Hpos) as [-> Hlen]. exact Hlen.
    - assert (n = 0) by lia. subst n.
      destruct (show_text_runs client' (gopher_buffer st) w) as (w' & evs & Hrun).
      exists w', ([] ++ evs). unfold show_image_or_text. cbv zeta.
      change (take (Z.to_nat (to_size_t 0)) (gopher_buffer st)) with (@nil ascii).
      change (gopher_is_image []) with (Some false).
      eapply runs_bind; [apply runs_lift_Some|]. exact Hrun. }
  destruct Hshow as (w' & evs & Hshow).
  exists (set_client st client'), w'. eexists. split.
  - eapply runs_bind.
    { unfold parse_directory. rewrite Hparse.
      eapply runs_bind; [apply runs_lift_Some|]. apply runs_ret. }
    cbv beta iota. cbn [fst snd].
    eapply runs_bind; [|apply runs_ret].
    cbn [set_client shell_client gopher_buffer]. exact Hshow.
  - cbn [set_client shell_client net_trace]. repeat split; assumption.
Qed.

Lemma gopher_send_selector_pushes net trace client selector buffer size r :
  gopher_send_selector net trace client selector buffer size = Some r ->
  0 < sent_ret r ->
  push_history client selector = Some (sent_client r).
Proof.
  unfold gopher_send_selector. cbv zeta.
  destruct (size =? 0); [intros [= <-]; cbn [sent_ret]; unfold EINVAL; lia|].
  destruct (read (client_hostname client) 0) as [c|]; [|discriminate].
  cbn [mbind option_bind].
  destruct (negb (connected client) || Ascii.eqb c NUL);
    [intros [= <-]; cbn [sent_ret]; unfold ENOTCONN; lia|].
  destruct (negb _); [intros [= <-]; cbn [sent_ret]; unfold EHOSTUNREACH; lia|].
  destruct (negb _); [intros [= <-]; cbn [sent_ret]; unfold ESOCKTNOSUPPORT; lia|].
  destruct (net_connect _ _ _); [intros [= <-]; cbn [sent_ret]; lia|].
  destruct (net_send _ _ _); [intros [= <-]; cbn [sent_ret]; lia|].
  destruct (recv_loop _ _ _ _) as [st|]; [|discriminate]. cbn [mbind option_bind].
  destruct (0 <? total_received st) eqn:Hgot.
  - destruct (push_history client selector) as [client'|]; [|discriminate].
    cbn [mbind option_bind]. intros [= <-]. reflexivity.
  - intros [= <-]. cbn [sent_ret]. apply Z.ltb_ge in Hgot. lia.
Qed.

(** X21. [cmd_gopher_back] cannot go back more than one step.  When it
    fetches the previous selector and the server answers with at least
    one byte, the command returns 0 and the request is pushed on the
    history again: the position is where it was before the command,
    the slot there now holds a copy of the selector, and the slot before
    it, which the next [back] will request, is still that selector. *)
Theorem cmd_gopher_back_repeats e net st w c name selector r :
  client_initialized st = true ->
  connected (shell_client st) = true ->
  client_hostname (shell_client st) = c :: name -> c <> NUL ->
  length (history (shell_client st)) = 10%nat ->
  0 <= history_pos (shell_client st) < 10 ->
  1 < history_count (shell_client st) ->
  back_target (shell_client st) = Some selector ->
  gopher_send_selector net (net_trace st)
    {| client_hostname := client_hostname (shell_client st);
       client_port := client_port (shell_client st);
       connected := connected (shell_client st);
       items := items (shell_client st);
       item_count := item_count (shell_client st);
       history := history (shell_client st);
       history_pos := (history_pos (shell_client st) + 9) mod 10;
       history_count := history_count (shell_client st) |}
    (Some selector) (gopher_buffer st) GOPHER_BUFFER_SIZE = Some r ->
  0 < sent_ret r ->
  exists st' w' evs,
    runs (cmd_gopher_back e net st) w (0, st') w' evs /\
    history_pos (shell_client st') = history_pos (shell_client st) /\
    back_target (shell_client st') = Some selector /\
    (exists slot,
       history (shell_client st') !! Z.to_nat (history_pos (shell_client st')) = Some slot /\
       c_str slot = take 255 (c_str selector)).
Proof.
  intros Hinit Hconn Hname Hc Hlen Hpos Hcount Htarget Hsend Hret.
  set (client := shell_client st) in *.
  set (pos := (history_pos client + 9) mod 10) in *.
  assert (Hrange : 0 <= pos < 10) by (apply Z.mod_pos_bound; lia).
  assert (Hrem : Z.rem (to_int (to_int (history_pos client + 10) - 1)) 10 = pos).
  { rewrite !to_int_small by (rewrite ?to_int_small by lia; lia).
    rewrite Z.rem_mod_nonneg by lia. unfold pos. f_equal. lia. }
  unfold back_target in Htarget. rewrite Hrem in Htarget.
  set (moved := {| client_hostname := client_hostname client;
                   client_port := client_port client;
                   connected := connected client;
                   items := items client;
                   item_count := item_count client;
                   history := history client;
                   history_pos := pos;
                   history_count := history_count client |}) in *.
  (* what the request did to the history *)
  pose proof (gopher_send_selector_pushes _ _ _ _ _ _ _ Hsend Hret) as Hpushed.
  destruct (push_history_Some moved (Some selector) Hlen Hrange)
    as (client1 & Hpush1 & _ & _ & _ & _ & _ & Hpos1 & _ & Hlen1 & Hslot & Hkeep).
  rewrite Hpushed in Hpush1. injection Hpush1 as <-.
  cbn [moved history_pos history] in Hpos1, Hkeep.
  assert (Hback : (pos + 1) mod 10 = history_pos client).
  { unfold pos. rewrite Zplus_mod_idemp_l.
    replace (history_pos client + 9 + 1) with (history_pos client + 1 * 10) by lia.
    rewrite Z_mod_plus_full. apply Z.mod_small. lia. }
  rewrite Hback in Hpos1.
  set (st1 := {| shell_client := sent_client r; gopher_buffer := sent_buffer r;
                 client_initialized := client_initialized st;
                 net_trace := sent_trace r |}).
  destruct (show_response_runs e "Rendering image as ASCII art..." "          " st1
              (log [shell_print "Navigating back to: '%s'" [arg_c_str selector]] w))
    as (st' & w' & evs & Hrun & Hh & Hp & _ & _).
  cbn [st1 shell_client] in Hh, Hp.
  exists st', w'. eexists. split; [|split; [|split]].
  - unfold cmd_gopher_back.
    eapply runs_bind;
      [exact (ensure_client_initialized_ready st w c name Hinit Hconn Hname Hc)|].
    cbv beta iota. change (0 =? 0) with true. cbn [negb]. fold client.
    replace (negb (connected client)) with false by (rewrite Hconn; reflexivity).
    destruct (Z.leb_spec (history_count client) 1); [lia|]. cbv zeta.
    fold client. rewrite Hrem. fold moved.
    change (history moved) with (history client). rewrite Htarget.
    eapply runs_bind; [apply runs_lift_Some|].
    eapply runs_bind; [apply runs_emit|].
    eapply runs_bind.
    { unfold send_selector. cbn [set_client shell_client gopher_buffer net_trace
                                 client_initialized].
      rewrite Hsend.
      eapply runs_bind; [apply runs_lift_Some|]. apply runs_ret. }
    cbv beta iota. destruct (Z.ltb_spec (sent_ret r) 0); [lia|]. fold st1.
    exact Hrun.
  - rewrite Hp. exact Hpos1.
  - unfold back_target. rewrite Hp, Hh, Hpos1, Hrem.
    unfold read. destruct (Z.ltb_spec pos 0); [lia|].
    rewrite Hkeep.
    + unfold read in Htarget. destruct (Z.ltb_spec pos 0); [lia|]. exact Htarget.
    + rewrite Hpos1. intros Heq. apply Z2Nat.inj in Heq; [|lia|lia].
      unfold pos in Heq.
      pose proof (Z.div_mod (history_pos client + 9) 10 ltac:(lia)) as Hdm.
      rewrite Heq in Hdm. lia.
  - rewrite Hp, Hh. exact Hslot.
Qed.

Lemma cmd_gopher_back_repeats_witness :
  exists st' w' evs,
    runs (cmd_gopher_back test_env text_net visited_state) initial_world (0, st') w' evs /\
    history_pos (shell_client st') = 2 /\
    c_str <$> back_target (shell_client st') = Some (list_ascii_of_string "/a") /\
    c_str <$> back_target visited_client = Some (list_ascii_of_string "/a").
Proof.
  destruct (cmd_gopher_back_repeats test_env text_net visited_state initial_world
              "e"%char (tail (client_hostname visited_client))
              (default [] (back_target visited_client))
              (default no_reply
                 (gopher_send_selector text_net []
                    {| client_hostname := client_hostname visited_client;
                       client_port := client_port visited_client;
                       connected := connected visited_client;
                       items := items visited_client;
                       item_count := item_count visited_client;
                       history := history visited_client;
                       history_pos := (history_pos visited_client + 9) mod 10;
                       history_count := history_count visited_client |}
                    (Some (default [] (back_target visited_client)))
                    (zeros GOPHER_BUFFER_SIZE) GOPHER_BUFFER_SIZE)))
    as (st' & w' & evs & Hrun & Hpos & Htarget & _).
  - reflexivity.
  - reflexivity.
  - reflexivity.
  - discriminate.
  - reflexivity.
  - vm_compute. split; [discriminate|reflexivity].
  - vm_compute. reflexivity.
  - reflexivity.
  - vm_compute. reflexivity.
  - vm_compute. reflexivity.
  - exists st', w', evs. split; [exact Hrun|]. split; [exact Hpos|].
    split; [rewrite Htarget|]; reflexivity.
Defined.

(** ** Viewing an image *)

Lemma log_log (a b : list event) (w : world) : log a (log b w) = log (b ++ a) w.
Proof. unfold log. cbn [shell_out stbi_failure_reason stbi__jpeg_decode_reduced].
  now rewrite app_assoc. Qed.

Lemma push_history_keeps client selector client' :
  push_history client selector = Some client' ->
  items client' = items client /\ item_count client' = item_count client /\
  client_hostname client' = client_hostname client /\
  client_port client' = client_port client /\ connected client' = connected client.
Proof.
  unfold push_history.
  destruct (read _ _) as [slot|]; [|discriminate]. cbn [mbind option_bind].
  destruct (write _ _ _) as [table|]; [|discriminate]. cbn [mbind option_bind].
  intros [= <-]. repeat split.
Qed.

Lemma gopher_send_selector_keeps net trace client selector buffer size r :
  gopher_send_selector net trace client selector buffer size = Some r ->
  items (sent_client r) = items client /\ item_count (sent_client r) = item_count client /\
  client_hostname (sent_client r) = client_hostname client /\
  client_port (sent_client r) = client_port client /\
  connected (sent_client r) = connected client.
Proof.
  unfold gopher_send_selector. cbv zeta.
  destruct (size =? 0); [intros [= <-]; repeat split|].
  destruct (read (client_hostname client) 0) as [c|]; [|discriminate].
  cbn [mbind option_bind].
  destruct (negb (connected client) || Ascii.eqb c NUL); [intros [= <-]; repeat split|].
  destruct (negb _); [intros [= <-]; repeat split|].
  destruct (negb _); [intros [= <-]; repeat split|].
  destruct (net_connect _ _ _); [intros [= <-]; repeat split|].
  destruct (net_send _ _ _); [intros [= <-]; repeat split|].
  destruct (recv_loop _ _ _ _) as [st|]; [|discriminate]. cbn [mbind option_bind].
  destruct (0 <? total_received st); [|intros [= <-]; repeat split].
  destruct (push_history client selector) as [client'|] eqn:Hpush; [|discriminate].
  cbn [mbind option_bind]. intros [= <-]. cbn [sent_client].
  exact (push_history_keeps _ _ _ Hpush).
Qed.

Lemma same_bytes_refl (a : list ascii) : same_bytes a a = true.
Proof. induction a as [|c a IH]; [reflexivity|]. cbn. now rewrite Ascii.eqb_refl. Qed.

(** X22. [cmd_gopher_view] on an item of the current server that is
    neither refused nor a directory: when the request succeeds and the
    first bytes received (as many as the result says) are classified as
    an image, the command announces the image, hands exactly those
    bytes to [gopher_render_image], prints nothing after it and returns
    0 whatever the renderer returned. *)
Theorem cmd_gopher_view_renders e net cmd arg1 rest st w index info_count it c name r
    code w' evs :
  client_initialized st = true ->
  connected (shell_client st) = true ->
  client_hostname (shell_client st) = c :: name -> c <> NUL ->
  item_count (shell_client st) <> 0 ->
  1 <= atoi arg1 ->
  translate_index (shell_client st) (atoi arg1 - 1) = Some (index, info_count) ->
  0 <= index < item_count (shell_client st) ->
  items (shell_client st) !! Z.to_nat index = Some it ->
  strcmp_eq (item_hostname it) (client_hostname (shell_client st)) = true ->
  item_port it = client_port (shell_client st) ->
  fetched_as_file (item_type it) = true ->
  gopher_send_selector net (net_trace st) (shell_client st) (Some (item_selector it))
    (gopher_buffer st) GOPHER_BUFFER_SIZE = Some r ->
  0 <= sent_ret r ->
  gopher_is_image (take (Z.to_nat (to_size_t (sent_ret r))) (sent_buffer r)) = Some true ->
  runs (gopher_render_image e (take (Z.to_nat (to_size_t (sent_ret r))) (sent_buffer r))
          (Some shell_config))
    (log (view_request_lines arg1 (shell_client st) index info_count it
          ++ [shell_print "Detected image file, rendering as ASCII art..." []]) w)
    code w' evs ->
  runs (cmd_gopher_view e net (cmd :: arg1 :: rest) st) w
    (0, {| shell_client := sent_client r; gopher_buffer := sent_buffer r;
           client_initialized := true; net_trace := sent_trace r |})
    w'
    (view_request_lines arg1 (shell_client st) index info_count it
     ++ shell_print "Detected image file, rendering as ASCII art..." [] :: evs).
Proof.
  intros Hinit Hconn Hname Hc Hcount Harg Hfound Hindex Hit Hhost Hport Htype Hsend Hret
    Himage Hrender.
  pose proof (atoi_range arg1) as Hatoi.
  destruct (gopher_send_selector_keeps _ _ _ _ _ _ _ Hsend) as (Hitems & _).
  assert (Hread : read (items (shell_client st)) index = Some it).
  { unfold read. destruct (Z.ltb_spec index 0); [lia|exact Hit]. }
  unfold fetched_as_file in Htype. cbn [existsb] in Htype.
  apply negb_true_iff in Htype. repeat (apply orb_false_elim in Htype as [? Htype]).
  set (type := item_type it) in *.
  unfold cmd_gopher_view.
  eapply runs_events.
  - eapply runs_bind;
      [exact (ensure_client_initialized_ready st w c name Hinit Hconn Hname Hc)|].
    cbv beta iota. change (0 =? 0) with true. cbn [negb].
    replace (negb (connected (shell_client st))) with false by (rewrite Hconn; reflexivity).
    destruct (Z.eqb_spec (item_count (shell_client st)) 0); [contradiction|].
    destruct (Z.ltb_spec (atoi arg1) 1); [lia|].
    rewrite (to_int_small (atoi arg1 - 1)) by lia. rewrite Hfound.
    eapply runs_bind; [apply runs_lift_Some|]. cbv beta iota.
    eapply runs_bind; [apply runs_emit|].
    destruct (Z.ltb_spec index 0); [lia|].
    destruct (Z.leb_spec (item_count (shell_client st)) index); [lia|]. cbn [orb].
    unfold item_at at 1. rewrite Hread.
    eapply runs_bind; [apply runs_lift_Some|]. cbv beta zeta.
    eapply runs_bind; [apply runs_emit|].
    rewrite Hhost.
    replace (item_port it =? client_port (shell_client st)) with true
      by (symmetry; apply Z.eqb_eq; exact Hport).
    cbn [negb orb].
    eapply runs_bind; [apply runs_ret|]. cbv beta iota.
    change (0 <? 0) with false. cbv iota.
    unfold item_at at 1. rewrite Hread.
    eapply runs_bind; [apply runs_lift_Some|]. cbv beta zeta. fold type.
    repeat match goal with H : Ascii.eqb type _ = false |- _ => rewrite H; clear H end.
    cbn [orb]. cbv iota.
    eapply runs_bind; [eapply runs_when; apply runs_emit|].
    eapply runs_bind; [apply runs_emit|].
    eapply runs_bind.
    { unfold send_selector. rewrite Hsend.
      eapply runs_bind; [apply runs_lift_Some|]. apply runs_ret. }
    cbv beta iota. destruct (Z.ltb_spec (sent_ret r) 0); [lia|].
    unfold item_at at 1. cbn [shell_client]. rewrite Hitems, Hread.
    eapply runs_bind; [apply runs_lift_Some|]. cbv beta. fold type.
    match goal with H : Ascii.eqb type "1" = false |- _ => rewrite H end.
    rewrite Hinit.
    eapply runs_bind; [|apply runs_ret].
    unfold show_image_or_text. cbv zeta. cbn [gopher_buffer]. rewrite Himage.
    eapply runs_bind; [apply runs_lift_Some|]. cbv iota.
    eapply runs_bind; [apply runs_emit|].
    eapply runs_bind; [|apply runs_ret].
    match goal with
    | |- runs _ ?w0 _ _ _ =>
        replace w0 with (log (view_request_lines arg1 (shell_client st) index info_count it
                              ++ [shell_print "Detected image file, rendering as ASCII art..." []])
                           w)
    end; [exact Hrender|].
    unfold view_request_lines. fold type.
    destruct (Ascii.eqb type "g" || Ascii.eqb type "I");
      rewrite ?log_log; cbn [app]; reflexivity.
  - unfold view_request_lines. fold type.
    destruct (Ascii.eqb type "g" || Ascii.eqb type "I");
      cbn [app]; rewrite ?app_nil_r; reflexivity.
Qed.

Lemma cmd_gopher_view_renders_witness :
  exists st' w0 w' evs,
    runs (cmd_gopher_view test_env image_net
            [list_ascii_of_string "view"; list_ascii_of_string "1"] gallery_state)
      initial_world (0, st') w' evs /\
    gopher_render_image test_env jpeg_bytes (Some shell_config) w0 = Some (- EINVAL, w').
Proof.
  set (it := default zero_item (items gallery_client !! 0%nat)).
  set (r := default no_reply
              (gopher_send_selector image_net [] gallery_client (Some (item_selector it))
                 (zeros GOPHER_BUFFER_SIZE) GOPHER_BUFFER_SIZE)).
  set (w0 := log (view_request_lines (list_ascii_of_string "1") gallery_client 0 0 it
                  ++ [shell_print "Detected image file, rendering as ASCII art..." []])
               initial_world).
  set (res := default (0, initial_world)
                (gopher_render_image test_env jpeg_bytes (Some shell_config) w0)).
  pose proof (cmd_gopher_view_renders test_env image_net (list_ascii_of_string "view")
                (list_ascii_of_string "1") [] gallery_state initial_world 0 0 it
                "e"%char (tail (client_hostname gallery_client)) r
                (fst res) (snd res) (drop (length (shell_out w0)) (shell_out (snd res))))
    as Hrun.
  eexists _, w0, (snd res), _. split.
  - apply Hrun.
    + reflexivity.
    + reflexivity.
    + reflexivity.
    + discriminate.
    + vm_compute. discriminate.
    + vm_compute. discriminate.
    + reflexivity.
    + vm_compute. split; [discriminate|reflexivity].
    + reflexivity.
    + reflexivity.
    + reflexivity.
    + reflexivity.
    + vm_compute. reflexivity.
    + vm_compute. discriminate.
    + vm_compute. reflexivity.
    + split; vm_compute; reflexivity.
  - vm_compute. reflexivity.
Defined.

(* ================================================================== *)
(** * Part V: the pipeline after the decoder *)
(* ================================================================== *)

(** ** The scaled image is read as 40x20 *)

(** A loop that ends has run every one of its passes. *)
Lemma for_loop_pass {St : Type} (body : Z -> St -> option St) n i s s' k :
  for_loop n i body s = Some s' -> (k < n)%nat ->
  exists sk, is_Some (body (i + Z.of_nat k) sk).
Proof.
  revert i s k. induction n as [|n IH]; intros i s k Hrun Hk; [lia|].
  cbn [for_loop] in Hrun. destruct (body i s) as [s1|] eqn:Hbody; [|discriminate].
  destruct k as [|k].
  - exists s. rewrite Z.add_0_r, Hbody. now eexists.
  - destruct (IH (i + 1) s1 k Hrun ltac:(lia)) as (sk & Hsk).
    exists sk. replace (i + Z.of_nat (S k)) with (i + 1 + Z.of_nat k) by lia. exact Hsk.
Qed.

Lemma for_range_pass {St : Type} (body : Z -> St -> option St) hi s s' i :
  for_range 0 hi body s = Some s' -> 0 <= i < hi ->
  exists si, is_Some (body i si).
Proof.
  unfold for_range. intros Hrun Hi.
  destruct (for_loop_pass body _ 0 s s' (Z.to_nat i) Hrun ltac:(lia)) as (si & Hsi).
  exists si. now rewrite Z.add_0_l, Z2Nat.id in Hsi by lia.
Qed.

(** The renderer reads every pixel of the [width * height] it is told. *)
Lemma render_rows_reads_all (rgb_buffer : list rgb_pixel_t) width height color :
  1 <= width -> 1 <= height ->
  is_Some (render_rows rgb_buffer width height color) ->
  width * height <= Z.of_nat (length rgb_buffer).
Proof.
  intros Hw Hh [lines Hrows]. unfold render_rows in Hrows.
  destruct (for_range 0 height _ _) as [st|] eqn:Hloop; [|discriminate].
  destruct (for_range_pass _ _ _ _ (height - 1) Hloop ltac:(lia)) as (acc & [acc' Hrow]).
  destruct (render_row rgb_buffer width color (height - 1) (snd acc)) as [row|] eqn:Hrender;
    [|discriminate].
  unfold render_row in Hrender.
  destruct (for_range 0 width _ _) as [rs|] eqn:Hpixels; [|discriminate].
  destruct (for_range_pass _ _ _ _ (width - 1) Hpixels ltac:(lia)) as (rs0 & [rs1 Hpixel]).
  unfold render_pixel in Hpixel.
  destruct (read rgb_buffer ((height - 1) * width + (width - 1))) as [p|] eqn:Hread;
    [|discriminate].
  unfold read in Hread.
  destruct (Z.ltb_spec ((height - 1) * width + (width - 1)) 0); [discriminate|].
  apply lookup_lt_Some in Hread. nia.
Qed.

(** After [downscale_image_color] the pipeline dithers and renders the
    scaled image as 40x20, whatever size the aspect ratio left it. *)
Lemma render_decoded_overreads e img config w :
  1 <= dec_width img -> 1 <= dec_height img ->
  dec_width img * dec_height img * 3 <= INT_MAX ->
  Z.of_nat (length (dec_pixels img)) = dec_width img * dec_height img ->
  let tgt := adjust_target (dec_width img) (dec_height img) 40 20 in
  tgt <> (40, 20) ->
  fst (memory_alloc e site_downscale (pixel_bytes (fst tgt) (snd tgt)) false) = true ->
  k_malloc e site_line LINE_ALLOC = true ->
  (exists scaled,
     downscale_image_color e (dec_pixels img) (dec_width img) (dec_height img) 40 20
       (Some {| maintain_aspect_ratio := true; use_bilinear_filtering := true;
                brightness_adjust := brightness config;
                contrast_adjust := contrast config |}) = Some (Some scaled) /\
     sc_width scaled = fst tgt /\ sc_height scaled = snd tgt /\
     Z.of_nat (length (sc_pixels scaled)) = fst tgt * snd tgt /\
     1 <= fst tgt * snd tgt < 40 * 20) /\
  render_decoded e img config w = None.
Proof.
  intros Hw Hh Hcount Hlen tgt Hne Halloc Hline.
  set (options := {| maintain_aspect_ratio := true; use_bilinear_filtering := true;
                     brightness_adjust := brightness config;
                     contrast_adjust := contrast config |}).
  unfold INT_MAX in Hcount.
  assert (Hpixels3 : dec_width img * dec_height img <= 715827882) by lia.
  assert (Hwb : 1 <= dec_width img <= INT_MAX) by (unfold INT_MAX; nia).
  assert (Hhb : 1 <= dec_height img <= INT_MAX) by (unfold INT_MAX; nia).
  assert (Hsmall : 1 <= fst tgt /\ 1 <= snd tgt /\ fst tgt * snd tgt < 40 * 20).
  { pose proof (adjust_target_spec (dec_width img) (dec_height img) 40 20
                  Hwb Hhb ltac:(lia) ltac:(lia) ltac:(lia) ltac:(lia)) as Hspec.
    cbv zeta in Hspec. fold tgt in Hspec.
    destruct Hspec as [[H1 H2]|[(H1 & H2 & _)|(H1 & H2 & _)]].
    - exfalso. apply Hne. destruct tgt. cbn [fst snd] in *. congruence.
    - assert (snd tgt <> 20).
      { intros H3. apply Hne. destruct tgt. cbn [fst snd] in *. congruence. }
      nia.
    - assert (fst tgt <> 40).
      { intros H3. apply Hne. destruct tgt. cbn [fst snd] in *. congruence. }
      nia. }
  destruct Hsmall as (Htw & Hth & Hsmall).
  destruct (downscale_image_color_fills e (dec_pixels img) (dec_width img) (dec_height img)
              40 20 (Some options) Hwb Hhb Hlen) as (pixels & Hscaled & Hpixels).
  1-4: unfold scaled_dims; cbn [default from_option Datatypes.id maintain_aspect_ratio options];
       fold tgt; try assumption; try nia.
  unfold scaled_dims in Hscaled, Hpixels.
  cbn [default from_option Datatypes.id maintain_aspect_ratio options] in Hscaled, Hpixels.
  fold tgt in Hscaled, Hpixels.
  split.
  { eexists. split; [exact Hscaled|]. cbn [sc_width sc_height sc_pixels].
    repeat split; try assumption; nia. }
  unfold render_decoded. fold options. rewrite Hscaled.
  rewrite !bind_emit, bind_lift_Some, bind_emit. cbn [sc_pixels].
  assert (Hrender : forall shown w0,
            Z.of_nat (length shown) = fst tgt * snd tgt ->
            render_ascii_art e (Some shown) 40 20 config w0 = None).
  { intros shown w0 Hshown. unfold render_ascii_art.
    rewrite bind_emit. cbn [Z.leb Z.ltb Z.compare Pos.compare Pos.compare_cont orb].
    destruct (read_Some shown 0 ltac:(nia)) as (first & Hfirst & _).
    rewrite Hfirst, bind_lift_Some, bind_emit.
    rewrite (bind_run _ _ _ _ _ (proj1 (runs_alloc e site_line LINE_ALLOC _))).
    rewrite memory_alloc_small, Hline by (vm_compute; reflexivity). cbn [negb].
    rewrite !bind_emit.
    destruct (render_rows shown 40 20 (use_color config)) as [lines|] eqn:Hrows;
      [|reflexivity].
    pose proof (render_rows_reads_all shown 40 20 (use_color config)
                  ltac:(lia) ltac:(lia) (ex_intro _ lines Hrows)). lia. }
  destruct (use_dithering config); [|now rewrite bind_ret, Hrender].
  destruct (fst (memory_alloc e site_dither_copy (pixel_bytes 40 20) false)) eqn:Hcopy.
  - unfold apply_floyd_steinberg_dithering. rewrite Hcopy. cbn [negb].
    replace (3 * Z.of_nat (length pixels) <? pixel_bytes 40 20) with true; [reflexivity|].
    symmetry. apply Z.ltb_lt. change (pixel_bytes 40 20) with 2400. lia.
  - rewrite dithering_without_copy by assumption. now rewrite bind_lift_Some, Hrender.
Qed.

(** X23. An image that the codec decodes, within the budget, whose
    shape differs from the 40x20 target's: [downscale_image_color]
    adjusts its own copy of the target dimensions and fills a buffer of
    fewer than 800 pixels, which [gopher_render_image] then dithers and
    renders as 40x20, reading beyond its end. *)
Theorem scaled_image_is_read_as_40x20 e data config w ow oh oc is_image width height img :
  looks_like_text_content data = false ->
  gopher_is_image data = Some is_image ->
  stbi_info_from_memory e data = stbi_ok (ow, oh, oc) ->
  0 < ow -> 0 < oh -> ow * oh * 3 <= budget e ->
  stbi_load_from_memory e data = stbi_ok (width, height, img) ->
  1 <= width -> 1 <= height -> width * height * 3 <= INT_MAX ->
  Z.of_nat (length img) = width * height ->
  let tgt := adjust_target width height 40 20 in
  tgt <> (40, 20) ->
  fst (memory_alloc e site_downscale (pixel_bytes (fst tgt) (snd tgt)) false) = true ->
  k_malloc e site_line LINE_ALLOC = true ->
  (exists scaled,
     downscale_image_color e img width height 40 20
       (Some {| maintain_aspect_ratio := true; use_bilinear_filtering := true;
                brightness_adjust := brightness (default default_config config);
                contrast_adjust := contrast (default default_config config) |})
       = Some (Some scaled) /\
     sc_width scaled = fst tgt /\ sc_height scaled = snd tgt /\
     Z.of_nat (length (sc_pixels scaled)) = fst tgt * snd tgt /\
     1 <= fst tgt * snd tgt < 40 * 20) /\
  gopher_render_image e data config w = None.
Proof.
  intros Htext Himg Hinfo Hw Hh Hfit Hload Hwidth Hheight Hcount Hlen tgt Hne Halloc Hline.
  destruct (gopher_render_image_decodes e data config w ow oh oc is_image
              Htext Himg Hinfo Hw Hh Hfit) as (w0 & evs0 & _ & _ & Hrun0).
  destruct (decode_succeeds e data (budget e) w0 ow oh oc width height img
              Htext Hinfo Hload) as (w1 & evs & [Hrun _]).
  destruct (render_decoded_overreads e
              {| dec_pixels := img; dec_width := width; dec_height := height |}
              (default default_config config) w1 Hwidth Hheight Hcount Hlen Hne Halloc Hline)
    as [Hscaled Hnone].
  split; [exact Hscaled|].
  rewrite Hrun0, (bind_run _ _ _ _ _ Hrun). exact Hnone.
Qed.

Lemma scaled_image_is_read_as_40x20_witness :
  adjust_target 4 3 40 20 = (26, 20) /\
  (exists scaled,
     downscale_image_color small_picture_env
       (replicate 12 {| px_r := 200; px_g := 100; px_b := 50 |}) 4 3 40 20
       (Some {| maintain_aspect_ratio := true; use_bilinear_filtering := true;
                brightness_adjust := brightness default_config;
                contrast_adjust := contrast default_config |})
       = Some (Some scaled) /\
     sc_width scaled = fst (adjust_target 4 3 40 20) /\
     sc_height scaled = snd (adjust_target 4 3 40 20) /\
     Z.of_nat (length (sc_pixels scaled))
       = fst (adjust_target 4 3 40 20) * snd (adjust_target 4 3 40 20) /\
     1 <= fst (adjust_target 4 3 40 20) * snd (adjust_target 4 3 40 20) < 40 * 20) /\
  gopher_render_image small_picture_env jpeg_bytes None initial_world = None.
Proof.
  split; [vm_compute; reflexivity|].
  apply (scaled_image_is_read_as_40x20 small_picture_env jpeg_bytes None initial_world
           4 3 3 true 4 3 (replicate 12 {| px_r := 200; px_g := 100; px_b := 50 |}));
    first [lia | reflexivity | vm_compute; reflexivity | vm_compute; discriminate].
Defined.

(** ** An image of the shape of the target *)


